(* ===== verification/_CoqProject ===== *)
-Q . S2P
Prelude.v
GoStrings.v
Decimal.v
Errors.v
Features.v
Glob.v
Float64.v
Lease.v
Canonical.v
LeaseState.v
Messages.v
EventLog.v
IdStore.v
Agents.v
ServerState.v
Delivery.v
Stream.v
Job.v
ListJobs.v
ListJobsHeap.v
Session.v
Runtime.v
Scenarios.v
Invariant.v
Preservation.v
JobPreservation.v
SessionPreservation.v
HandlerPreservation.v
Safety.v
Frames.v
JobLife.v
ServerWire.v
Protocol.v
Programs.v
Pagination.v
Findings.v
Client.v
ClientInv.v
ClientRegistry.v
ClientDelivery.v
ClientLossless.v
ClientLiveness.v
ClientScenarios.v
ClientSafety.v
ClientStream.v
ClientFindings.v
Transport.v
Outbox.v
Stdio.v
StdioSafety.v
WebSocket.v
EndToEnd.v
Served.v
Clock.v
Auth.v
Credentials.v
NetHTTP.v
Otel.v
Json.v
JsonText.v
Codec.v
Rfc3339.v
Rfc3339Laws.v
Wire.v
WireSafety.v
WireTypes.v
Examples.v
Deploy.v
ExampleClients.v
ExampleRuns.v
