(* ===== verification/Prelude.v ===== *)
(** * ARCP Go SDK: a verification development

    The repository is the Go SDK of the Agent Runtime Control Protocol: a
    server runtime that accepts client sessions over a transport, runs agent
    bodies as jobs under leases, streams their events, and lets a client drop
    and resume; and a client library.  This library models the runtime, the
    client, the data types they share and the programs that come with them as
    executable functions and proves the properties that make them correct.

    ** The parts, and where they are modelled

    - errors.go: [Errors] (codes, error values with cause chains, [Code],
      [IsRetryable]).  features.go, version.go: [Features].
    - internal/glob: [Glob] (segment matching, [Match], [Covers]).
    - lease.go: [Lease] (capabilities, budget amounts, [IsLeaseSubset]) on
      [Float64] (binary64 arithmetic and [strconv.ParseFloat]).
      internal/lease: [Canonical] (path and URL canonicalization) and
      [LeaseState] (the counters with [ValidateOp], [ValidateAndDebit],
      [Debit], [Report]).
    - envelope.go, messages/: [Messages] (payloads, envelopes, the registry,
      agent references).  In the machines of the server and the client a
      payload is the value its JSON decodes to; values that do not marshal are
      kept so that the failure paths exist.
    - The JSON text itself: [Json] (the grammar as a concrete syntax tree with
      its whitespace, string literals, printer and parser), [JsonText]
      (compaction, escaping, integers), [Codec] (what encoding/json does at
      each Go type: scalars, pointers, slices, maps, structs with omitempty,
      case folding, unknown and repeated members), [Wire] (the codec of every
      struct of messages/, of [Envelope] and of [Lease], [NewEventBody],
      [DecodeEventBody], [DecodePayload]), [Rfc3339] (the text of times).
    - internal/eventlog: [EventLog].  internal/idstore: [IdStore].
    - server/server.go, the agent table: [Agents].
    - server/: the state in [ServerState] (the structs as cells of a heap,
      the state monad [M]); [Delivery] (allocators, [send], persistence,
      outbox, back-pressure, subscriptions); [Stream] (the result writer, and
      the reassembly of client/handle.go); [Job] (job.go, jobcontext.go);
      [ListJobs] (listing with its heap and cursors); [Session] (handshake,
      resume table, lifecycle of [Accept], dispatch and handlers, janitor,
      [Close]); [Runtime] (all of it as one transition system); [Outbox] (the
      outbox of a session with its senders, writer and exit, lock by lock).
    - client/: [Client] (options, [Connect], the read loop and dispatcher, job
      handles, subscriptions, the inventory call, auto-ack, [Close], and the
      transition system of their goroutines).
    - transport/: [Transport] (the interface as the class [FifoTransport], the
      in-memory pair), [Stdio] and [StdioSafety] (newline-delimited JSON over
      pipes), [WebSocket]; [EndToEnd] composes the client with any transport of
      the interface, and [Served] adds the server at the other end.
    - internal/clock: [Clock].  auth/: [Auth].  credentials/memory.go:
      [Credentials].  middleware/nethttp and middleware/chi: [NetHTTP].
      middleware/otel: [Otel].
    - Agent bodies: [Programs] (an [AgentFunc] as an interaction tree over the
      calls it can make, the thread that runs it for a job, and worlds: a
      server with the programs of its running jobs).
    - examples/ and recipes/: [Examples] (every agent body, every server [main]
      as a deployment, examples/internal/demo), [ExampleClients] (every client
      [main]), [Deploy] (a client process and a server process as one machine),
      [ExampleRuns] (what holds of them and what each pair prints).
    - [GoStrings] and [Decimal] model what the sources use of the strings and
      strconv packages.

    ** How state and concurrency are modelled

    A handler is a function of the whole server state.  Goroutines interleave
    at the steps of [Runtime.op]: a session goes through handshake,
    registration, becoming live, replay, one turn of the read loop per
    request, exit and the tail of [Accept]; a job through start, one step per
    call of its [JobContext], return and the callbacks of its timers; the
    writer, the heartbeats, the janitor and [Close] are steps of their own.
    Any order of enabled steps is a run, and the safety theorems hold of every
    state of every run ([reachable]).  Inside a step the code's mutexes make
    the accesses atomic; two requests of different sessions are not
    interleaved below a handler.  A timer is its deadline; the random sources,
    the hash, map iteration order, the [select] choices, the outcome of a
    transport write, the verifier and the provisioner are parameters
    ([Runtime], [Options]) with the laws used of them.  [trace] records sends,
    queueings, log appends and provisioner calls; [wrapped] records that a
    64-bit counter overflowed; [crashed] that a panic ended the process.

    The client is modelled the same way: a state holds the struct, the handles,
    subscriptions and calls as cells, the buffered channels as bounded queues
    and the position of each goroutine; a step of [client_op] is a call up to
    its [select], the case a [select] takes, one envelope of the read loop,
    one send to one consumer or one read; blocked steps are [None].

    The transports and the HTTP handler are machines of the same kind: a
    [step] function from a state and an operation to a state, [None] where the
    goroutine is blocked, and [Transport.run] for the states of their runs.
    The transports are proved against an interface of the encoding
    ([JSONCodec], with a round-trip law), which [WireSafety.sdk_json] discharges
    with the codecs of [Wire].  Code outside the repository is a parameter: the
    texts of floats and times ([WireText], with the instance [rfc3339]), the
    WebSocket connection and the files of the stdio transport (the outcomes of
    reads and writes), the tracing library ([Tracing]) and
    [strconv.FormatFloat].

    A node of [Deploy] steps both processes together: the server with its
    agents' programs; the client's [main], its connections and the goroutines
    that range over its channels; and, per connection, the envelopes each side
    has written with how many the other has read.  A blocking call of [main] is
    the steps of the client between its waits; the case a [select] takes is
    chosen by the schedule, the context's only after its deadline.

    ** What the theorems show

    - Runs ([Safety], on the invariant of [Invariant] and its preservation in
      [Preservation], [JobPreservation], [SessionPreservation] and
      [HandlerPreservation]): sequence numbers strictly increase per session
      id across resumes; a resume that passes the gap check replays every
      missed event; a job has one terminal event; the log holds no
      credential; job data reaches only sessions of the submitting principal;
      every queued envelope is valid and carries the struct of its type; the
      transport of a session carries its queue in order and without gaps
      ([ServerWire]).
    - The outbox ([Outbox]): in every interleaving below the steps of the
      runtime no send hits the closed channel and the exit returns.
    - Handlers ([Protocol], on the frames of [Frames]): resume claims, the
      drop-and-resume round trip, cancellation, idempotent submission,
      revocation before the terminal event, settlement of a run.
    - Listing ([ListJobsHeap], [Pagination]): the bounded heap computes the
      sorted prefix; following the cursors enumerates every match once.
    - Leases: [Match] decides its pattern language, [Covers] and
      [IsLeaseSubset] never widen, [ValidateOp] is exact, reservations never
      overdraw and fail atomically, exhaustion is final, canonical paths have
      no traversal.
    - Stores: the event log refines an unbounded log, the idempotency store a
      table keyed by pairs.  Streams, agent references and cursors round-trip;
      version resolution is the maximum on numeric versions.
    - Client ([ClientSafety], on the invariants of [ClientInv],
      [ClientRegistry], [ClientDelivery] and [ClientLossless], with
      [ClientLiveness] for progress): no operation on a closed channel,
      lossless ordered delivery, sequence tracking and gap freedom, pairing of
      submissions with acceptances, routing of errors, waking of every waiter
      on failure, and that [Close] returns.  [ClientStream] composes the
      result writer of the server with the client's queues and assembler.
    - Transports: the in-memory pair and the stdio transport deliver, in order
      and once, a prefix of what they accepted, EOF comes after everything, and
      the line limit is exact; [EndToEnd] shows from the interface alone that
      a consumer reads a prefix of the events the server's end accepted, and
      [Served] that they are a segment of what the handlers queued, of jobs of
      the session's principal.
    - Wire format ([WireSafety], [WireTypes], on [Json] and [Codec]): every
      envelope in range is written without error on one line and read back as
      it was, a torn one is never read, and whatever bytes arrive decode to the
      struct of their type with its integers in range or are kept raw; event
      bodies decode at their kind and are validated.  [Rfc3339Laws] shows that
      times round-trip.
    - Jobs and programs: [JobLife] shows that a job stays what was accepted and
      that its run only moves forward; [Programs] that a world of agent programs
      is a run of the runtime in which the agent steps of a job are the calls of
      its body, that a body which checks its lease before each tool call only
      announces tools it was granted, and, from a small logic of bodies
      ([obeys]), that a body with a bound returns; [Deploy] that in every
      interleaving of a deployment and a client program a consumer reads a
      segment of what its session queued; [ExampleRuns] that the agents of the
      examples return, that a client dials the address its server listens on,
      and what every pair prints under a fair schedule.
    - Edges: [StaticBearer] accepts exactly its tokens; a provisioned
      credential is outstanding until it is revoked and has the scope of its
      request; the mock clock refines a table of deadlines; the host check
      depends on the host alone; [Shutdown] loses no wake-up; the trace context
      travels with an envelope.
    - [Findings], [ClientFindings], the ends of [Served],
      [Outbox] and [ExampleRuns], and the theorems marked as defects in the files above
      evaluate concrete runs ([Scenarios]) in which the code departs from its
      comments or documents.

    ** Bounds and fuel

    [retryRevoke] is called with the four attempts of the code.  The heap
    loops get the slice length as fuel and move strictly up or down the tree;
    [drain] gets the heap length; the chunk loop gets the input length.
    [FormatInt] gets twenty digits, enough for 64 bits.  [all_pages] needs
    more fuel than there are matches.  The JSON parser gets the length of the
    text, and is shown to accept exactly the texts of the grammar.  A loop of
    an example is an iteration without fuel; [play] gets a number of rounds,
    and its theorem says that the client has ended by then.  The theorems are about results with this fuel, not about exhausted fuel.

    ** Not modelled

    Sockets and files themselves, the WebSocket pings of the HTTP handler, the
    real clock and logging.  Of the example programs: the wait for a signal and
    the shutdown of the HTTP server (recorded in [ending]), the text that a
    format verb gives (a printed line is its format and arguments), the tracing
    wrapper around the transport of the tracing client, which [Otel] models on
    its own, and a dial that fails although the server listens.  Of encoding/json: the nesting limit of the reader, the elements an array
    member leaves behind when its key is repeated, and the lenient fallback of
    the time parser.  The sequence of writes of one handler on a saturated outbox
    is modelled by a choice between the writer's progress and the end of the
    session.  The server takes the outcome of a transport write as a choice of
    the environment; [Served] relates its writes to any transport by what the
    transport has accepted, and [Deploy] steps server and client together over
    one that delivers what was written. *)

From Stdlib Require Import ZArith Lia.
From stdpp Require Export base tactics option list gmap strings fin_maps fin_sets numbers sorting.

(** ** Results

    A Go call that returns [(T, error)] returns [result E T]: the value on the
    nil-error path, the error on the other. *)

Inductive result (E A : Type) : Type :=
| Ok (a : A)
| Err (e : E).
Arguments Ok {E A} a.
Arguments Err {E A} e.

Declare Scope go_scope.
Delimit Scope go_scope with go.

(** [let! x := m in k] is [x, err := m; if err != nil { return err }; k]. *)
Notation "'let!' x ':=' m 'in' k" :=
  (match m with Ok x => k | Err e => Err e end)
  (at level 10, x pattern, m at level 200, k at level 200) : go_scope.

Definition is_ok {E A} (r : result E A) : bool :=
  match r with Ok _ => true | Err _ => false end.

Definition from_result {E A} (r : result E A) : option A :=
  match r with Ok a => Some a | Err _ => None end.

(** ** Machine integers

    [uint64] and [int64] values are integers of [Z] inside the type's range;
    every arithmetic operation of the source that can leave the range goes
    through one of the two wrap-around functions. *)

Definition two64 : Z := 2 ^ 64.
Definition wrap_u64 (z : Z) : Z := z mod two64.
Definition wrap_i64 (z : Z) : Z := (z + 2 ^ 63) mod two64 - 2 ^ 63.
Definition max_u64 : Z := two64 - 1.
Definition in_u64 (z : Z) : Prop := (0 <= z < two64)%Z.
Definition in_i64 (z : Z) : Prop := (- 2 ^ 63 <= z < 2 ^ 63)%Z.

(** ** Time

    [time.Time] is an instant in nanoseconds since the Unix epoch; the zero
    [time.Time] of Go is January 1 of year 1.  [time.Duration] is a number of
    nanoseconds. *)

Abbreviation Time := Z.
Abbreviation Duration := Z.
Definition zero_time : Time := (- 62135596800 * 1000000000)%Z.
Definition IsZero (t : Time) : bool := (t =? zero_time)%Z.
Definition Before (t u : Time) : bool := (t <? u)%Z.
Definition After (t u : Time) : bool := (u <? t)%Z.
Definition nanosecond : Duration := 1%Z.
Definition millisecond : Duration := 1000000%Z.
Definition second : Duration := 1000000000%Z.
Definition minute : Duration := (60 * second)%Z.
Definition hour : Duration := (60 * minute)%Z.

(** ** Map iteration

    A [range] over a Go map visits the keys in an order the runtime chooses
    anew each time; the order of the [n]-th iteration of a run is a permutation
    of the keys. *)
Class MapOrder := {
  order_keys : nat → list string → list string;
  order_keys_perm : ∀ n l, order_keys n l ≡ₚ l
}.

(** ** Record update

    [s <| f := v |>] is [s] with the field [f] set to [v].  A record declares
    its eta-expansion as an instance of [Eta]; the setter of a field is found
    from it. *)
Class Eta (R : Type) := eta : R → R.
Class SetField {R T : Type} (proj : R → T) := set_field : (T → T) → R → R.

Ltac derive_setter :=
  match goal with
  | |- @SetField ?R ?T ?p =>
      let b := eval hnf in (@eta R _) in
      match eval pattern p in b with
      | ?F _ => exact (λ f : T → T, F (λ r, f (p r)))
      end
  end.
#[export] Hint Extern 1 (SetField _) => derive_setter : typeclass_instances.

Notation "s <| f := v |>" := (set_field (proj := f) (λ _, v) s)
  (at level 12, left associativity, f at next level, v at level 200, format "s  <| f  :=  v |>").

(** ** Tactics and hint databases *)

Create HintDb go discriminated.

(** Case analysis on the innermost [match] or [if] of the goal or of a
    hypothesis, keeping the equation. *)
Ltac case_goal :=
  match goal with
  | |- context [match ?x with _ => _ end] =>
      lazymatch x with
      | context [match _ with _ => _ end] => fail
      | _ => destruct x eqn:?
      end
  end.

Ltac case_in H :=
  match type of H with
  | context [match ?x with _ => _ end] =>
      lazymatch x with
      | context [match _ with _ => _ end] => fail
      | _ => destruct x eqn:?
      end
  end.

(** Boolean tests of the source read as propositions. *)
Ltac breflect :=
  repeat match goal with
  | H : _ && _ = true |- _ => apply andb_true_iff in H as [? ?]
  | H : _ || _ = false |- _ => apply orb_false_iff in H as [? ?]
  | H : negb _ = true |- _ => apply negb_true_iff in H
  | H : negb _ = false |- _ => apply negb_false_iff in H
  | H : bool_decide _ = true |- _ => apply bool_decide_eq_true in H
  | H : bool_decide _ = false |- _ => apply bool_decide_eq_false in H
  | H : (_ <? _)%Z = true |- _ => apply Z.ltb_lt in H
  | H : (_ <? _)%Z = false |- _ => apply Z.ltb_ge in H
  | H : (_ <=? _)%Z = true |- _ => apply Z.leb_le in H
  | H : (_ <=? _)%Z = false |- _ => apply Z.leb_gt in H
  | H : (_ =? _)%Z = true |- _ => apply Z.eqb_eq in H
  | H : (_ =? _)%Z = false |- _ => apply Z.eqb_neq in H
  end.

(** ** Generic lemmas on integers *)

Lemma wrap_u64_small (z : Z) : in_u64 z → wrap_u64 z = z.
Proof. intros H. apply Z.mod_small, H. Qed.

Lemma wrap_u64_range (z : Z) : in_u64 (wrap_u64 z).
Proof. apply Z.mod_pos_bound. done. Qed.

Lemma wrap_i64_small (z : Z) : in_i64 z → wrap_i64 z = z.
Proof.
  unfold in_i64, wrap_i64, two64. intros H. rewrite Z.mod_small; lia.
Qed.

#[export] Hint Resolve wrap_u64_range : go.

(** ** Generic lemmas on lists *)

Lemma list_filter_length_le {A} (P : A → Prop) `{!∀ x, Decision (P x)} (l : list A) :
  length (filter P l) ≤ length l.
Proof.
  induction l as [|x l IH]; [done|].
  rewrite filter_cons. case_decide; simpl; lia.
Qed.

Lemma list_filter_all {A} (P : A → Prop) `{!∀ x, Decision (P x)} (l : list A) :
  (∀ x, x ∈ l → P x) → filter P l = l.
Proof.
  induction l as [|x l IH]; intros Hl; [done|].
  rewrite filter_cons, decide_True by (apply Hl; by left).
  f_equal. apply IH. intros y Hy. apply Hl. by right.
Qed.

Lemma drop_suffix {A} (n : nat) (l : list A) : drop n l `suffix_of` l.
Proof. exists (take n l). by rewrite take_drop. Qed.

Lemma elem_of_drop_inv {A} (n : nat) (l : list A) (x : A) : x ∈ drop n l → x ∈ l.
Proof. intros Hx. rewrite <-(take_drop n l). apply elem_of_app. by right. Qed.

Lemma StronglySorted_drop {A} (R : relation A) (n : nat) (l : list A) :
  StronglySorted R l → StronglySorted R (drop n l).
Proof.
  intros H. rewrite <-(take_drop n l) in H.
  by apply StronglySorted_app_1_r in H.
Qed.

Lemma StronglySorted_filter {A} (R : relation A) (P : A → Prop) `{!∀ x, Decision (P x)}
    (l : list A) :
  StronglySorted R l → StronglySorted R (filter P l).
Proof.
  induction 1 as [|x l Hl IH Hx]; [constructor|].
  rewrite filter_cons. case_decide; [|done].
  constructor; [done|]. rewrite Forall_forall in Hx |- *.
  intros y Hy. apply list_elem_of_filter in Hy as [_ Hy]. by apply Hx.
Qed.

Lemma StronglySorted_snoc {A} (R : relation A) (l : list A) (x : A) :
  StronglySorted R l → Forall (λ y, R y x) l → StronglySorted R (l ++ [x]).
Proof.
  induction 1 as [|y l Hl IH Hy]; intros Hx; simpl.
  - repeat constructor.
  - apply Forall_cons in Hx as [Hyx Hx]. constructor; [by apply IH|].
    apply Forall_app. split; [done|]. by repeat constructor.
Qed.
