(* ===== verification/GoStrings.v ===== *)
(** * Go strings

    Go strings are byte sequences.  This file has the functions of the Go
    packages [strings] and [strconv] that the SDK calls, on [string] (a
    sequence of bytes, one [ascii] each), and the lemmas the components use
    about them. *)

From S2P Require Import Prelude.
From Stdlib Require Import ZArith Ascii Lia.

Definition len (s : string) : nat := String.length s.

(** The slices [s[n:]] and [s[:n]], for [n <= len s]. *)
Fixpoint sdrop (n : nat) (s : string) : string :=
  match n, s with
  | 0, _ => s
  | S n, String _ s => sdrop n s
  | S _, EmptyString => EmptyString
  end.

Fixpoint stake (n : nat) (s : string) : string :=
  match n, s with
  | S n, String c s => String c (stake n s)
  | _, _ => EmptyString
  end.

(** [strings.HasPrefix], [strings.HasSuffix]. *)
Fixpoint HasPrefix (s p : string) {struct p} : bool :=
  match p, s with
  | EmptyString, _ => true
  | String a p, String b s => bool_decide (a = b) && HasPrefix s p
  | String _ _, EmptyString => false
  end.

Definition HasSuffix (s p : string) : bool :=
  (len p <=? len s)%nat && bool_decide (sdrop (len s - len p) s = p).

(** [strings.Index]: the first position at which [sub] occurs, [None] for -1. *)
Fixpoint Index (s sub : string) : option nat :=
  if HasPrefix s sub then Some 0
  else match s with
       | EmptyString => None
       | String _ s => S <$> Index s sub
       end.

Definition Contains (s sub : string) : bool :=
  match Index s sub with Some _ => true | None => false end.

(** [strings.IndexByte]. *)
Fixpoint IndexByte (s : string) (c : ascii) : option nat :=
  match s with
  | EmptyString => None
  | String a s => if bool_decide (a = c) then Some 0 else S <$> IndexByte s c
  end.

(** [strings.Split(s, sep)] for a one-byte separator: never empty, the pieces
    between the separators. *)
Fixpoint Split (s : string) (sep : ascii) : list string :=
  match s with
  | EmptyString => [EmptyString]
  | String c s =>
      if bool_decide (c = sep) then EmptyString :: Split s sep
      else match Split s sep with
           | [] => [String c EmptyString]
           | w :: ws => String c w :: ws
           end
  end.

(** [strings.Join(ws, sep)]. *)
Fixpoint Join (ws : list string) (sep : ascii) : string :=
  match ws with
  | [] => EmptyString
  | [w] => w
  | w :: ws => w +:+ String sep (Join ws sep)
  end.

(** [strings.Trim(s, cutset)]. *)
Fixpoint TrimLeft (s : string) (cut : list ascii) : string :=
  match s with
  | String c s' => if bool_decide (c ∈ cut) then TrimLeft s' cut else s
  | EmptyString => EmptyString
  end.

Fixpoint srev_app (s acc : string) : string :=
  match s with
  | EmptyString => acc
  | String c s => srev_app s (String c acc)
  end.

Definition Trim (s : string) (cut : list ascii) : string :=
  srev_app (TrimLeft (srev_app (TrimLeft s cut) EmptyString) cut) EmptyString.

(** The order of Go's [<] on strings: bytewise lexicographic. *)
Definition str_lt (a b : string) : bool := String.ltb a b.

(** Byte classes. *)
Definition byte_of (c : ascii) : Z := Z.of_N (N_of_ascii c).
Definition in_range (lo hi c : ascii) : bool :=
  ((byte_of lo <=? byte_of c) && (byte_of c <=? byte_of hi))%Z.
Definition is_digit (c : ascii) : bool := in_range "0" "9" c.
Definition is_lower (c : ascii) : bool := in_range "a" "z" c.
Definition is_upper (c : ascii) : bool := in_range "A" "Z" c.

Fixpoint sforallb (f : ascii → bool) (s : string) : bool :=
  match s with
  | EmptyString => true
  | String c s => f c && sforallb f s
  end.

Definition digit_val (c : ascii) : Z := (byte_of c - byte_of "0")%Z.

(** Decimal digits to an integer, [None] on an empty or non-digit input. *)
Fixpoint digits_acc (s : string) (acc : Z) : option Z :=
  match s with
  | EmptyString => Some acc
  | String c s => if is_digit c then digits_acc s (acc * 10 + digit_val c)%Z else None
  end.

Definition parse_digits (s : string) : option Z :=
  match s with
  | EmptyString => None
  | _ => digits_acc s 0%Z
  end.

(** [strconv.ParseInt(s, 10, 64)] and [strconv.Atoi] (64-bit [int]): an
    optional sign and decimal digits, an error outside the [int64] range. *)
Definition ParseInt (s : string) : option Z :=
  let v := match s with
           | String "-" s => Z.opp <$> parse_digits s
           | String "+" s => parse_digits s
           | _ => parse_digits s
           end in
  match v with
  | Some z => if ((- 2 ^ 63 <=? z) && (z <? 2 ^ 63))%Z then Some z else None
  | None => None
  end.

Definition Atoi (s : string) : option Z := ParseInt s.

(** [strconv.FormatInt(z, 10)]: the decimal digits, most significant first. *)
Definition digit_char (d : Z) : ascii := ascii_of_N (Z.to_N (byte_of "0" + d)%Z).

Fixpoint format_fuel (fuel : nat) (z : Z) (acc : string) : string :=
  match fuel with
  | 0 => acc
  | S fuel =>
      let acc := String (digit_char (z mod 10)) acc in
      if (z <? 10)%Z then acc else format_fuel fuel (z / 10)%Z acc
  end.

(** Twenty digits hold every [uint64] and every [int64] magnitude. *)
Definition format_nonneg (z : Z) : string := format_fuel 20 z EmptyString.

Definition FormatInt (z : Z) : string :=
  if (z <? 0)%Z then String "-" (format_nonneg (- z)) else format_nonneg z.

Definition Itoa (z : Z) : string := FormatInt z.

(** ** Lemmas on concatenation and slices *)

Lemma sapp_nil_r (s : string) : s +:+ EmptyString = s.
Proof. induction s as [|c s IH]; [done|]. change (String c (s +:+ "") = String c s). by rewrite IH. Qed.

Lemma sapp_cons c (s t : string) : String c s +:+ t = String c (s +:+ t).
Proof. done. Qed.

Lemma sapp_nil_l (s : string) : EmptyString +:+ s = s.
Proof. done. Qed.

Lemma sapp_assoc (a b c : string) : (a +:+ b) +:+ c = a +:+ (b +:+ c).
Proof. induction a as [|x a IH]; [done|]. by rewrite !sapp_cons, IH. Qed.

Lemma len_app (a b : string) : len (a +:+ b) = len a + len b.
Proof. induction a as [|x a IH]; [done|]. rewrite sapp_cons. simpl. by rewrite IH. Qed.

Lemma len_cons c (a : string) : len (String c a) = S (len a).
Proof. done. Qed.

Lemma len_zero_inv (s : string) : len s = 0 → s = EmptyString.
Proof. by destruct s. Qed.

Lemma sapp_inj_l (a b c : string) : a +:+ b = a +:+ c → b = c.
Proof.
  induction a as [|x a IH]; [done|]. rewrite !sapp_cons. intros [= H]. by apply IH.
Qed.

Lemma sapp_inj_len (a a' b b' : string) :
  a +:+ b = a' +:+ b' → len a = len a' → a = a' ∧ b = b'.
Proof.
  revert a'. induction a as [|x a IH]; intros [|x' a'] H Hl; try done.
  rewrite !sapp_cons in H. injection H as -> H.
  rewrite !len_cons in Hl. injection Hl as Hl.
  destruct (IH a' H Hl) as [-> ->]. done.
Qed.

Lemma sdrop_app (a b : string) : sdrop (len a) (a +:+ b) = b.
Proof. by induction a as [|x a IH]. Qed.

Lemma stake_app (a b : string) : stake (len a) (a +:+ b) = a.
Proof. induction a as [|x a IH]; [by destruct b|]. rewrite sapp_cons. simpl. by rewrite IH. Qed.

Lemma stake_sdrop (n : nat) (s : string) : stake n s +:+ sdrop n s = s.
Proof.
  revert s. induction n as [|n IH]; intros [|c s]; try done.
  simpl. rewrite sapp_cons. by rewrite IH.
Qed.

Lemma len_sdrop (n : nat) (s : string) : len (sdrop n s) = len s - n.
Proof. revert s. induction n as [|n IH]; intros [|c s]; simpl; try done; apply IH. Qed.

Lemma sdrop_sdrop (n m : nat) (s : string) : sdrop n (sdrop m s) = sdrop (m + n) s.
Proof.
  revert s. induction m as [|m IH]; intros s; [done|].
  destruct s as [|c s]; simpl; [by destruct n|apply IH].
Qed.

(** ** Prefixes, suffixes and occurrences *)

Lemma HasPrefix_spec (s p : string) : HasPrefix s p = true ↔ ∃ r, s = p +:+ r.
Proof.
  revert s. induction p as [|a p IH]; intros s; simpl.
  - destruct s; split; eauto.
  - destruct s as [|b s]; simpl.
    + split; [done|]. intros [r Hr]. by rewrite sapp_cons in Hr.
    + rewrite andb_true_iff, bool_decide_eq_true, IH. split.
      * intros [-> [r ->]]. by exists r.
      * intros [r Hr]. rewrite sapp_cons in Hr. injection Hr as -> ->. eauto.
Qed.

Lemma HasPrefix_app (p r : string) : HasPrefix (p +:+ r) p = true.
Proof. apply HasPrefix_spec. eauto. Qed.

Lemma HasSuffix_spec (s p : string) : HasSuffix s p = true ↔ ∃ r, s = r +:+ p.
Proof.
  unfold HasSuffix. rewrite andb_true_iff, Nat.leb_le, bool_decide_eq_true. split.
  - intros [_ H]. exists (stake (len s - len p) s). rewrite <-H at 2. by rewrite stake_sdrop.
  - intros [r ->]. rewrite len_app. split; [lia|].
    replace (len r + len p - len p) with (len r) by lia. apply sdrop_app.
Qed.

Lemma Index_unfold (s sub : string) :
  Index s sub = if HasPrefix s sub then Some 0
                else match s with EmptyString => None | String _ s => S <$> Index s sub end.
Proof. by destruct s. Qed.

Lemma Index_Some (s sub : string) (i : nat) :
  Index s sub = Some i → ∃ a b, s = a +:+ sub +:+ b ∧ len a = i.
Proof.
  revert i. induction s as [|c s IH]; intros i; rewrite Index_unfold;
    destruct (HasPrefix _ sub) eqn:E; try done.
  - intros [= <-]. apply HasPrefix_spec in E as [r Hr]. by exists EmptyString, r.
  - intros [= <-]. apply HasPrefix_spec in E as [r Hr]. by exists EmptyString, r.
  - destruct (Index s sub) as [j|] eqn:Ej; [|done]. intros [= <-].
    destruct (IH j eq_refl) as (a & b & -> & <-). by exists (String c a), b.
Qed.

(** The position [Index] returns is the leftmost one. *)
Lemma Index_leftmost (a b sub : string) :
  ∃ i, Index (a +:+ sub +:+ b) sub = Some i ∧ i ≤ len a.
Proof.
  induction a as [|c a IH]; rewrite Index_unfold.
  - exists 0. rewrite sapp_nil_l. by rewrite HasPrefix_app.
  - rewrite sapp_cons. destruct (HasPrefix _ sub); [exists 0; split; [done|lia]|].
    destruct IH as (i & -> & Hi). exists (S i). rewrite len_cons. split; [done|lia].
Qed.

Lemma Index_None (s sub : string) : Index s sub = None → ∀ a b, s ≠ a +:+ sub +:+ b.
Proof.
  intros H a b ->. destruct (Index_leftmost a b sub) as (i & Hi & _). congruence.
Qed.

(** ** Splitting *)

Fixpoint sin (c : ascii) (s : string) : bool :=
  match s with
  | EmptyString => false
  | String a s => bool_decide (a = c) || sin c s
  end.

Lemma Split_not_nil (s : string) (c : ascii) : Split s c ≠ [].
Proof.
  destruct s as [|a s]; simpl; [done|].
  case_bool_decide; [done|]. by destruct (Split s c).
Qed.

Lemma Split_no_sep (s : string) (c : ascii) : Forall (λ w, sin c w = false) (Split s c).
Proof.
  induction s as [|a s IH]; simpl; [by repeat constructor|].
  case_bool_decide as Hac; [by constructor|].
  destruct (Split s c) as [|w ws]; inversion IH; subst; constructor; try done; simpl;
    rewrite bool_decide_eq_false_2 by done; done.
Qed.

Lemma Join_Split (s : string) (c : ascii) : Join (Split s c) c = s.
Proof.
  induction s as [|a s IH]; [done|]. simpl.
  destruct (Split s c) as [|w ws] eqn:E; [by destruct (Split_not_nil s c)|].
  case_bool_decide as Hac.
  - subst a. change (EmptyString +:+ String c (Join (w :: ws) c) = String c s).
    by rewrite IH.
  - rewrite <-IH. by destruct ws.
Qed.

Lemma Contains_sin (s : string) (c : ascii) :
  Contains s (String c EmptyString) = sin c s.
Proof.
  unfold Contains. induction s as [|a s IH]; [done|]. simpl.
  rewrite andb_true_r.
  destruct (bool_decide (c = a)) eqn:E.
  - apply bool_decide_eq_true in E as ->. by rewrite bool_decide_eq_true_2.
  - apply bool_decide_eq_false in E. rewrite bool_decide_eq_false_2 by congruence. simpl.
    rewrite <-IH. by destruct (Index s _).
Qed.

Lemma Split_sin_length (s : string) (c : ascii) :
  sin c s = true → 2 ≤ length (Split s c).
Proof.
  induction s as [|a s IH]; simpl; [done|].
  case_bool_decide as Hac; simpl.
  - intros _. pose proof (Split_not_nil s c). destruct (Split s c); [done|simpl; lia].
  - intros H. specialize (IH H). destruct (Split s c); simpl in *; lia.
Qed.

(** ** The lexicographic order *)

Lemma str_lt_irrefl (a : string) : str_lt a a = false.
Proof.
  unfold str_lt, String.ltb.
  assert (String.compare a a = Eq) as ->; [|done].
  induction a as [|c a IH]; [done|]. simpl. unfold Ascii.compare. by rewrite N.compare_refl.
Qed.

Lemma str_lt_asym (a b : string) : str_lt a b = true → str_lt b a = false.
Proof.
  unfold str_lt, String.ltb. rewrite (String.compare_antisym b a).
  by destruct (String.compare a b).
Qed.

Lemma str_lt_total (a b : string) : str_lt a b = true ∨ a = b ∨ str_lt b a = true.
Proof.
  unfold str_lt, String.ltb. rewrite (String.compare_antisym b a).
  destruct (String.compare a b) eqn:E; simpl; auto.
  right; left. by apply String.compare_eq_iff.
Qed.

Lemma str_compare_lt_trans (a b c : string) :
  String.compare a b = Lt → String.compare b c = Lt → String.compare a c = Lt.
Proof.
  revert b c. induction a as [|x a IH]; intros [|y b] [|z c]; simpl; try done.
  unfold Ascii.compare.
  destruct (N.compare_spec (N_of_ascii x) (N_of_ascii y)) as [E|L|G]; try done;
  destruct (N.compare_spec (N_of_ascii y) (N_of_ascii z)) as [E'|L'|G']; try done; intros H1 H2.
  - rewrite E, E', N.compare_refl. eauto.
  - rewrite E. apply N.compare_lt_iff in L'. by rewrite L'.
  - rewrite <-E'. apply N.compare_lt_iff in L. by rewrite L.
  - assert (N_of_ascii x < N_of_ascii z)%N as Hxz by lia.
    apply N.compare_lt_iff in Hxz. by rewrite Hxz.
Qed.

Lemma str_lt_trans (a b c : string) :
  str_lt a b = true → str_lt b c = true → str_lt a c = true.
Proof.
  unfold str_lt, String.ltb.
  destruct (String.compare a b) eqn:E1; try done.
  destruct (String.compare b c) eqn:E2; try done.
  by rewrite (str_compare_lt_trans a b c).
Qed.
