(* ===== verification/Decimal.v ===== *)
(** * Decimal integers

    The round trip of [strconv.FormatInt] and [strconv.ParseInt]. *)

From S2P Require Import Prelude GoStrings.
From Stdlib Require Import ZArith Ascii Lia.

Lemma digit_char_spec d : (0 <= d < 10)%Z → is_digit (digit_char d) = true ∧ digit_val (digit_char d) = d.
Proof.
  intros Hd. assert (d = 0 ∨ d = 1 ∨ d = 2 ∨ d = 3 ∨ d = 4 ∨ d = 5 ∨ d = 6 ∨ d = 7 ∨ d = 8 ∨ d = 9)%Z as H by lia.
  repeat destruct H as [->|H]; try done. by subst d.
Qed.

Lemma sforallb_app f (s t : string) : sforallb f (s +:+ t) = sforallb f s && sforallb f t.
Proof. induction s as [|c s IH]; [done|]. rewrite sapp_cons. cbn [sforallb]. by rewrite IH, andb_assoc. Qed.

(** The digits of [z], and what reading them after [a] gives. *)
Lemma format_fuel_spec fuel z acc :
  0 < fuel → (0 <= z < 10 ^ Z.of_nat fuel)%Z →
  ∃ ds, format_fuel fuel z acc = ds +:+ acc ∧ ds ≠ EmptyString ∧ sforallb is_digit ds = true ∧
    ∀ s a, digits_acc (ds +:+ s) a = digits_acc s (a * 10 ^ Z.of_nat (len ds) + z)%Z.
Proof.
  revert z acc. induction fuel as [|fuel IH]; intros z acc Hf Hz; [lia|]. cbn [format_fuel].
  destruct (digit_char_spec (z mod 10)) as [Hd Hv]; [apply Z.mod_pos_bound; lia|].
  assert (∀ s a, digits_acc (String (digit_char (z mod 10)) s) a = digits_acc s (a * 10 + z mod 10)%Z) as Hone.
  { intros s a. cbn [digits_acc]. by rewrite Hd, Hv. }
  destruct (Z.ltb_spec z 10) as [Hlt|Hge].
  - exists (String (digit_char (z mod 10)) EmptyString). split; [done|]. split; [done|]. split; [cbn; by rewrite Hd|].
    intros s a. rewrite sapp_cons, sapp_nil_l, Hone, (Z.mod_small z) by lia.
    done.
  - destruct (IH (z / 10)%Z (String (digit_char (z mod 10)) acc)) as (ds & Heq & Hne & Hall & Hread).
    + destruct fuel; [cbn in Hz; lia|lia].
    + split; [apply Z.div_pos; lia|]. apply Z.div_lt_upper_bound; [lia|].
      rewrite Nat2Z.inj_succ, Z.pow_succ_r in Hz by lia. lia.
    + exists (ds +:+ String (digit_char (z mod 10)) EmptyString). split_and!.
      * rewrite Heq, sapp_assoc. done.
      * by destruct ds.
      * rewrite sforallb_app, Hall. cbn [sforallb andb]. by rewrite Hd.
      * intros s a. rewrite sapp_assoc, Hread, sapp_cons, sapp_nil_l, Hone.
        rewrite len_app. f_equal. change (len (String _ EmptyString)) with 1. rewrite Nat2Z.inj_add, Z.pow_add_r by lia.
        change (10 ^ Z.of_nat 1)%Z with 10%Z. pose proof (Z.div_mod z 10). lia.
Qed.

Lemma parse_format z : (0 <= z < 10 ^ 20)%Z →
  parse_digits (format_nonneg z) = Some z ∧ sforallb is_digit (format_nonneg z) = true.
Proof.
  intros Hz. destruct (format_fuel_spec 20 z EmptyString) as (ds & Heq & Hne & Hall & Hread); [lia|done|].
  unfold format_nonneg. rewrite Heq, sapp_nil_r. split; [|done]. destruct ds as [|c ds]; [done|].
  unfold parse_digits. rewrite <-(sapp_nil_r (String c ds)), Hread. done.
Qed.

Lemma digits_no_sign s : sforallb is_digit s = true → sin "|" s = false ∧
  (match s with String "-" s => Z.opp <$> parse_digits s | String "+" s => parse_digits s | _ => parse_digits s end) = parse_digits s.
Proof.
  intros Hs. split.
  - induction s as [|c s IH]; [done|]. cbn in *. apply andb_true_iff in Hs as [Hc Hs].
    rewrite IH by done. by destruct c as [[] [] [] [] [] [] [] []].
  - destruct s as [|c s]; [done|]. cbn in Hs. apply andb_true_iff in Hs as [Hc _].
    by destruct c as [[] [] [] [] [] [] [] []].
Qed.

Lemma ParseInt_FormatInt z : in_i64 z → ParseInt (FormatInt z) = Some z ∧ sin "|" (FormatInt z) = false.
Proof.
  intros Hz. unfold in_i64 in Hz. unfold FormatInt, ParseInt.
  assert (((- 2 ^ 63 <=? z) && (z <? 2 ^ 63))%Z = true) as Hr by (apply andb_true_iff; split; [apply Z.leb_le|apply Z.ltb_lt]; lia).
  destruct (Z.ltb_spec z 0) as [Hneg|Hpos].
  - destruct (parse_format (- z)) as [Hp Hd]; [lia|]. rewrite Hp. cbn [fmap option_fmap option_map]. rewrite Z.opp_involutive, Hr.
    split; [done|]. cbn. by apply digits_no_sign.
  - destruct (parse_format z) as [Hp Hd]; [lia|]. destruct (digits_no_sign _ Hd) as [Hs ->]. by rewrite Hp, Hr.
Qed.
