(* ===== verification/Errors.v ===== *)
(** * The error taxonomy

    Models errors.go: the canonical error codes, the structured [Error] with
    its wrapped cause, the copy-on-write builders, and the chain-walking
    helpers ([errors.As], [errors.Is], [Code], [IsRetryable]).  A Go [error]
    interface value is [option error]; nil is [None]. *)

From S2P Require Import Prelude GoStrings.

Abbreviation ErrorCode := string.

Definition CodePermissionDenied : ErrorCode := "PERMISSION_DENIED".
Definition CodeLeaseSubsetViolation : ErrorCode := "LEASE_SUBSET_VIOLATION".
Definition CodeJobNotFound : ErrorCode := "JOB_NOT_FOUND".
Definition CodeDuplicateKey : ErrorCode := "DUPLICATE_KEY".
Definition CodeAgentNotAvailable : ErrorCode := "AGENT_NOT_AVAILABLE".
Definition CodeAgentVersionNotAvailable : ErrorCode := "AGENT_VERSION_NOT_AVAILABLE".
Definition CodeCancelled : ErrorCode := "CANCELLED".
Definition CodeTimeout : ErrorCode := "TIMEOUT".
Definition CodeResumeWindowExpired : ErrorCode := "RESUME_WINDOW_EXPIRED".
Definition CodeHeartbeatLost : ErrorCode := "HEARTBEAT_LOST".
Definition CodeLeaseExpired : ErrorCode := "LEASE_EXPIRED".
Definition CodeBudgetExhausted : ErrorCode := "BUDGET_EXHAUSTED".
Definition CodeInvalidRequest : ErrorCode := "INVALID_REQUEST".
Definition CodeUnauthenticated : ErrorCode := "UNAUTHENTICATED".
Definition CodeInternalError : ErrorCode := "INTERNAL_ERROR".

(** The values the SDK stores in a [map[string]any]; [AnyJSON] is any other
    value, by its JSON text. *)
Inductive any : Type :=
| AnyString (s : string)
| AnyUint (z : Z)
| AnyBool (b : bool)
| AnyNil
| AnyJSON (text : string).

#[export] Instance any_eq_dec : EqDecision any.
Proof. solve_decision. Defined.

(** The struct [Error], over the type [E] of the wrapped cause. *)
Record Error_ (E : Type) : Type := mkError {
  e_Code : ErrorCode;
  e_Message : string;
  e_Retryable : bool;
  e_Details : gmap string any;
  e_cause : option E
}.
Arguments mkError {E} _ _ _ _ _.
Arguments e_Code {E} _.
Arguments e_Message {E} _.
Arguments e_Retryable {E} _.
Arguments e_Details {E} _.
Arguments e_cause {E} _.

(** Go error values: an [*Error], a sentinel built with [errors.New] (its
    identity is its name), or a [fmt.Errorf] wrapper around a cause. *)
Inductive error : Type :=
| EArcp (e : Error_ error)
| ENew (name : string)
| EWrap (msg : string) (cause : error).

Abbreviation Error := (Error_ error).
Abbreviation res := (result error).

Definition ctx_Canceled : error := ENew "context canceled".
Definition ctx_DeadlineExceeded : error := ENew "context deadline exceeded".

(** [transport.ErrClosed]. *)
Definition ErrClosed : error := ENew "transport: closed".

(** The method [Unwrap] of each kind of error. *)
Definition unwrap (err : error) : option error :=
  match err with
  | EArcp e => e_cause e
  | ENew _ => None
  | EWrap _ c => Some c
  end.

(** [errors.As(err, &e)] with [e] an [*Error]: the first [*Error] of the
    chain. *)
Fixpoint errors_As (err : error) : option Error :=
  match err with
  | EArcp e => Some e
  | ENew _ => None
  | EWrap _ c => errors_As c
  end.

(** The method [Is] of [Error]. *)
Definition Error_Is (e : Error) (target : error) : bool :=
  match errors_As target with
  | Some t => bool_decide (e_Code e = e_Code t)
  | None => false
  end.

(** [errors.Is(err, target)] walks the chain of [err]: identity for the
    sentinels, the method [Is] for an [*Error]. *)
Fixpoint errors_Is (err target : error) : bool :=
  match err with
  | EArcp e =>
      Error_Is e target ||
      match e_cause e with Some c => errors_Is c target | None => false end
  | ENew n => match target with ENew m => bool_decide (n = m) | _ => false end
  | EWrap _ c => errors_Is c target
  end.

(** The method [Error] of each kind of error. *)
Definition Error_string (e : Error) : string :=
  if bool_decide (e_Message e = "") then e_Code e
  else e_Code e +:+ ": " +:+ e_Message e.

Definition error_string (err : error) : string :=
  match err with
  | EArcp e => Error_string e
  | ENew n => n
  | EWrap m _ => m
  end.

Definition WithCause (e : Error) (cause : error) : Error :=
  mkError (e_Code e) (e_Message e) (e_Retryable e) (e_Details e) (Some cause).

Definition WithMessage (e : Error) (msg : string) : Error :=
  mkError (e_Code e) msg (e_Retryable e) (e_Details e) (e_cause e).

(** The later map wins on a shared key. *)
Definition WithDetails (e : Error) (details : gmap string any) : Error :=
  mkError (e_Code e) (e_Message e) (e_Retryable e) (details ∪ e_Details e) (e_cause e).

Definition sentinel (code : ErrorCode) (msg : string) (retryable : bool) : Error :=
  mkError code msg retryable ∅ None.

Definition ErrPermissionDenied := sentinel CodePermissionDenied "permission denied" false.
Definition ErrLeaseSubsetViolation := sentinel CodeLeaseSubsetViolation "lease subset violation" false.
Definition ErrJobNotFound := sentinel CodeJobNotFound "job not found" false.
Definition ErrDuplicateKey := sentinel CodeDuplicateKey "duplicate idempotency key" false.
Definition ErrAgentNotAvailable := sentinel CodeAgentNotAvailable "agent not available" false.
Definition ErrAgentVersionNotAvailable := sentinel CodeAgentVersionNotAvailable "agent version not available" false.
Definition ErrCancelled := sentinel CodeCancelled "cancelled" false.
Definition ErrTimeout := sentinel CodeTimeout "timeout" false.
Definition ErrResumeWindowExpired := sentinel CodeResumeWindowExpired "resume window expired" false.
Definition ErrHeartbeatLost := sentinel CodeHeartbeatLost "heartbeat lost" true.
Definition ErrLeaseExpired := sentinel CodeLeaseExpired "lease expired" false.
Definition ErrBudgetExhausted := sentinel CodeBudgetExhausted "budget exhausted" false.
Definition ErrInvalidRequest := sentinel CodeInvalidRequest "invalid request" false.
Definition ErrUnauthenticated := sentinel CodeUnauthenticated "unauthenticated" false.
Definition ErrInternalError := sentinel CodeInternalError "internal error" true.

Definition sentinels : list Error :=
  [ErrPermissionDenied; ErrLeaseSubsetViolation; ErrJobNotFound; ErrDuplicateKey;
   ErrAgentNotAvailable; ErrAgentVersionNotAvailable; ErrCancelled; ErrTimeout;
   ErrResumeWindowExpired; ErrHeartbeatLost; ErrLeaseExpired; ErrBudgetExhausted;
   ErrInvalidRequest; ErrUnauthenticated; ErrInternalError].

(** [Code]: the code of the first [*Error] of the chain. *)
Definition Code (err : option error) : ErrorCode :=
  match err with
  | None => ""
  | Some err =>
      match errors_As err with
      | Some e => e_Code e
      | None => CodeInternalError
      end
  end.

Definition IsRetryable (err : option error) : bool :=
  match err with
  | None => false
  | Some err =>
      match errors_As err with
      | Some e => e_Retryable e
      | None => true
      end
  end.

Definition defaultRetryable (code : ErrorCode) : bool :=
  if bool_decide (code = CodeInternalError) then true
  else if bool_decide (code = CodeHeartbeatLost) then true
  else false.

(** [Newf] with the message already formatted. *)
Definition Newf (code : ErrorCode) (msg : string) : Error :=
  mkError code msg (defaultRetryable code) ∅ None.

(** The errors the SDK returns with a message of its own. *)
Definition arcp_err (s : Error) (msg : string) : error := EArcp (WithMessage s msg).

(** ** Properties *)

(** The first [*Error] of a chain decides [errors.Is] positively. *)
Lemma errors_As_Is (err : error) (e t : Error) :
  errors_As err = Some e → e_Code e = e_Code t → errors_Is err (EArcp t) = true.
Proof.
  induction err as [e'|n|m c IH]; simpl; intros H Hc; try done.
  - injection H as ->. unfold Error_Is. simpl. by rewrite bool_decide_eq_true_2.
  - by apply IH.
Qed.

Lemma WithMessage_Code (e : Error) (m : string) : e_Code (WithMessage e m) = e_Code e.
Proof. done. Qed.
