(* ===== verification/Features.v ===== *)
(** * Feature negotiation

    Models features.go, the feature list of version.go and the server-side
    filter of server/server.go: the set of flags a session may use is the
    intersection of what the two ends advertise, and flags that need a
    credential provisioner are only advertised when there is one. *)

From S2P Require Import Prelude GoStrings.

Definition ProtocolVersion : string := "1.1".

Definition Features : list string :=
  ["heartbeat"; "ack"; "list_jobs"; "subscribe"; "agent_versions"; "lease_expires_at";
   "cost.budget"; "model.use"; "provisioned_credentials"; "progress"; "result_chunk"].

(** The loop of [IntersectFeatures]: [want] is the set of [b], [seen] the set
    of flags already emitted, [out] the result so far. *)
Fixpoint intersect_loop (want seen : gset string) (a out : list string) : list string :=
  match a with
  | [] => out
  | x :: a =>
      if bool_decide (x ∈ want) then
        if bool_decide (x ∈ seen) then intersect_loop want seen a out
        else intersect_loop want ({[x]} ∪ seen) a (out ++ [x])
      else intersect_loop want seen a out
  end.

Definition IntersectFeatures (a b : list string) : list string :=
  if (length a =? 0)%nat || (length b =? 0)%nat then []
  else intersect_loop (list_to_set b) ∅ a [].

Definition provisionerGatedFeatures : gset string :=
  {["provisioned_credentials"; "model.use"]}.

Definition RequiresProvisioner (name : string) : bool :=
  bool_decide (name ∈ provisionerGatedFeatures).

Fixpoint HasFeature (features : list string) (name : string) : bool :=
  match features with
  | [] => false
  | f :: fs => if bool_decide (f = name) then true else HasFeature fs name
  end.

(** [Server.filterFeatures] and [Server.features]; [hasProvisioner] is
    [opts.Provisioner != nil]. *)
Fixpoint filterFeatures (hasProvisioner : bool) (inp : list string) : list string :=
  match inp with
  | [] => []
  | f :: fs =>
      if RequiresProvisioner f && negb hasProvisioner then filterFeatures hasProvisioner fs
      else f :: filterFeatures hasProvisioner fs
  end.

Definition advertised (hasProvisioner : bool) (optFeatures : list string) : list string :=
  if (0 <? length optFeatures)%nat then filterFeatures hasProvisioner optFeatures
  else filterFeatures hasProvisioner Features.

(** ** Lemmas *)

Lemma HasFeature_elem (fs : list string) (n : string) : HasFeature fs n = true ↔ n ∈ fs.
Proof.
  induction fs as [|f fs IH]; simpl; [set_solver|].
  case_bool_decide; set_solver.
Qed.

Lemma intersect_loop_spec want seen a out x :
  list_to_set out = seen →
  x ∈ intersect_loop want seen a out ↔ x ∈ out ∨ (x ∈ a ∧ x ∈ want).
Proof.
  revert seen out. induction a as [|y a IH]; intros seen out Hs; simpl; [set_solver|].
  repeat case_bool_decide; rewrite IH; set_solver.
Qed.

Lemma intersect_loop_NoDup want seen a out :
  list_to_set out = seen → NoDup out → NoDup (intersect_loop want seen a out).
Proof.
  revert seen out. induction a as [|y a IH]; intros seen out Hs Hn; simpl; [done|].
  repeat case_bool_decide; eauto.
  apply IH; [set_solver|]. apply NoDup_app. split_and!; [done| |apply NoDup_singleton].
  set_solver.
Qed.

(** The result lists its flags in the order of [a]. *)
Lemma intersect_loop_sublist want seen a out :
  ∃ l, intersect_loop want seen a out = out ++ l ∧ l `sublist_of` a.
Proof.
  revert seen out. induction a as [|y a IH]; intros seen out; simpl.
  - exists []. by rewrite app_nil_r.
  - case_bool_decide; [case_bool_decide|].
    + destruct (IH seen out) as (l & -> & Hl). exists l. split; [done|]. by apply sublist_cons.
    + destruct (IH ({[y]} ∪ seen) (out ++ [y])) as (l & -> & Hl). exists (y :: l).
      rewrite <-app_assoc. split; [done|]. by apply sublist_skip.
    + destruct (IH seen out) as (l & -> & Hl). exists l. split; [done|]. by apply sublist_cons.
Qed.

Lemma filterFeatures_elem p fs f :
  f ∈ filterFeatures p fs ↔ f ∈ fs ∧ (RequiresProvisioner f = true → p = true).
Proof.
  induction fs as [|g fs IH]; simpl; [set_solver|].
  destruct (RequiresProvisioner g) eqn:E; destruct p; simpl; rewrite ?elem_of_cons, ?IH;
    naive_solver.
Qed.

(** ** Properties *)

(** The negotiated set is exactly the intersection. *)
Lemma IntersectFeatures_elem (a b : list string) (x : string) :
  x ∈ IntersectFeatures a b ↔ x ∈ a ∧ x ∈ b.
Proof.
  unfold IntersectFeatures.
  destruct a as [|a0 a]; [set_solver|]. destruct b as [|b0 b]; [set_solver|].
  change ((length (a0 :: a) =? 0) || (length (b0 :: b) =? 0)) with false. cbv iota.
  rewrite intersect_loop_spec by set_solver. set_solver.
Qed.

(** The negotiated feature list of a session holds exactly the flags both
    ends advertise, without duplicates and in the order of the first list. *)
Theorem negotiation_exact (a b : list string) :
  (∀ x, HasFeature (IntersectFeatures a b) x = true ↔
        HasFeature a x = true ∧ HasFeature b x = true) ∧
  NoDup (IntersectFeatures a b) ∧
  IntersectFeatures a b `sublist_of` a.
Proof.
  split_and!.
  - intros x. rewrite !HasFeature_elem. apply IntersectFeatures_elem.
  - unfold IntersectFeatures. case_goal; [constructor|].
    apply intersect_loop_NoDup; [done|constructor].
  - unfold IntersectFeatures. case_goal; [apply sublist_nil_l|].
    destruct (intersect_loop_sublist (list_to_set b) ∅ a []) as (l & -> & Hl). done.
Qed.
