(* ===== verification/Glob.v ===== *)
(** * Lease patterns

    Models internal/glob/glob.go: the matcher of lease patterns against
    concrete targets ([Match]) and the inclusion test between two patterns
    ([Covers]).  The reference semantics is the relation [lang] between a list
    of pattern segments and a list of target segments, over the reference
    wildcard matcher [wild] inside one segment. *)

From S2P Require Import Prelude GoStrings.
From Stdlib Require Import Ascii.

Local Open Scope char_scope.

(** ** The code *)

(** The [for] over [parts[1:len(parts)-1]] and the final suffix test: [parts]
    are the parts after the first one, the last of them being the suffix. *)
Fixpoint match_parts (parts : list string) (s : string) : bool :=
  match parts with
  | [] => true
  | [last] => HasSuffix s last
  | part :: parts =>
      match Index s part with
      | None => false
      | Some idx => match_parts parts (sdrop (idx + len part) s)
      end
  end.

Definition literalSegmentMatch (pat s : string) : bool :=
  if bool_decide (pat = s) then true
  else if negb (Contains pat (String "*" EmptyString)) then false
  else match Split pat "*" with
       | [] => false
       | first :: parts =>
           if negb (HasPrefix s first) then false
           else match_parts parts (sdrop (len first) s)
       end.

Definition splitSep (s : string) : list string :=
  if bool_decide (s = EmptyString) then [] else Split s "/".

Definition star : string := String "*" EmptyString.
Definition dstar : string := String "*" (String "*" EmptyString).

(** [exists i, 0 <= i <= len(s), f(s[i:])]: the loop of the [**] case. *)
Fixpoint any_suffix (f : list string → bool) (s : list string) : bool :=
  if f s then true
  else match s with [] => false | _ :: s => any_suffix f s end.

Fixpoint matchSegments (p s : list string) : bool :=
  match p with
  | [] => (length s =? 0)%nat
  | head :: rest =>
      if bool_decide (head = dstar) then
        if (length rest =? 0)%nat then true else any_suffix (matchSegments rest) s
      else if bool_decide (head = star) then
        match s with [] => false | _ :: s => matchSegments rest s end
      else
        match s with
        | [] => false
        | s0 :: s => if negb (literalSegmentMatch head s0) then false else matchSegments rest s
        end
  end.

Definition Match (pattern s : string) : bool :=
  matchSegments (splitSep pattern) (splitSep s).

Definition segmentCovers (parent child : string) : bool :=
  if bool_decide (parent = child) then true
  else if Contains child star then false
  else literalSegmentMatch parent child.

Fixpoint covers (p c : list string) : bool :=
  match p with
  | [] => (length c =? 0)%nat
  | head :: rest =>
      if bool_decide (head = dstar) then any_suffix (covers rest) c
      else if bool_decide (head = star) then
        match c with
        | [] => false
        | c0 :: c => if bool_decide (c0 = dstar) then false else covers rest c
        end
      else
        match c with
        | [] => false
        | ch :: c =>
            if bool_decide (ch = star) || bool_decide (ch = dstar) then false
            else if negb (segmentCovers head ch) then false
            else covers rest c
        end
  end.

Definition Covers (parent child : string) : bool :=
  covers (splitSep parent) (splitSep child).

(** ** The reference semantics *)

(** Backtracking wildcard matching of one segment: ['*'] stands for any
    sequence of bytes. *)
Fixpoint wild (p s : string) {struct p} : bool :=
  match p with
  | EmptyString => bool_decide (s = EmptyString)
  | String c p =>
      if bool_decide (c = "*") then
        (fix try (s : string) : bool :=
           wild p s || match s with EmptyString => false | String _ s => try s end) s
      else match s with
           | String b s => bool_decide (c = b) && wild p s
           | EmptyString => false
           end
  end.

(** The targets (as segment lists) a pattern (as a segment list) stands for. *)
Inductive lang : list string → list string → Prop :=
| lang_nil : lang [] []
| lang_dstar rest t s : lang rest s → lang (dstar :: rest) (t ++ s)
| lang_star rest x s : lang rest s → lang (star :: rest) (x :: s)
| lang_lit head rest x s :
    head ≠ dstar → head ≠ star → wild head x = true →
    lang rest s → lang (head :: rest) (x :: s).

(** ** Lemmas *)

Lemma wild_star (p s : string) :
  wild (String "*" p) s = true ↔ ∃ x y, s = x +:+ y ∧ wild p y = true.
Proof.
  simpl. induction s as [|c s IH].
  - rewrite orb_false_r. split; [intros H; by exists EmptyString, EmptyString|].
    intros (x & y & H & Hw). destruct x; [by rewrite H|done].
  - rewrite orb_true_iff, IH. split.
    + intros [H|(x & y & -> & H)]; [by exists EmptyString, (String c s)|by exists (String c x), y].
    + intros (x & y & H & Hw). destruct x as [|c' x].
      * left. by rewrite H.
      * right. rewrite sapp_cons in H. injection H as -> ->. eauto.
Qed.

Lemma wild_lit (p s : string) : sin "*" p = false → wild p s = bool_decide (p = s).
Proof.
  revert s. induction p as [|c p IH]; intros s Hp; simpl.
  - apply bool_decide_ext. split; congruence.
  - simpl in Hp. apply orb_false_iff in Hp as [Hc Hp].
    apply bool_decide_eq_false in Hc. rewrite bool_decide_eq_false_2 by done.
    destruct s as [|b s]; [by rewrite bool_decide_eq_false_2|].
    rewrite (IH s Hp), <-bool_decide_and. apply bool_decide_ext. naive_solver.
Qed.

Lemma wild_refl (p : string) : wild p p = true.
Proof.
  induction p as [|c p IH]; [done|].
  destruct (decide (c = "*")) as [->|Hc].
  - apply wild_star. by exists star, p.
  - simpl. rewrite bool_decide_eq_false_2 by done. by rewrite bool_decide_eq_true_2.
Qed.

(** [wild] on a pattern whose first ['*'] comes after the text [a]. *)
Lemma wild_prefix (a p s : string) :
  sin "*" a = false →
  wild (a +:+ p) s = true ↔ ∃ y, s = a +:+ y ∧ wild p y = true.
Proof.
  revert s. induction a as [|c a IH]; intros s Ha.
  - rewrite sapp_nil_l. split; [by exists s|]. by intros (y & -> & H).
  - simpl in Ha. apply orb_false_iff in Ha as [Hc Ha]. apply bool_decide_eq_false in Hc.
    rewrite sapp_cons. simpl. rewrite bool_decide_eq_false_2 by done.
    destruct s as [|b s].
    + split; [done|]. intros (y & Hy & _). by rewrite sapp_cons in Hy.
    + rewrite andb_true_iff, bool_decide_eq_true, IH by done. split.
      * intros [-> (y & -> & H)]. by exists y.
      * intros (y & Hy & H). rewrite sapp_cons in Hy. injection Hy as -> ->. eauto.
Qed.

(** What is left of the pattern after its first part: a list of parts, each
    preceded by a ['*']. *)
Inductive parts_lang : list string → string → Prop :=
| pl_last x w : parts_lang [w] (x +:+ w)
| pl_cons w ws x y : ws ≠ [] → parts_lang ws y → parts_lang (w :: ws) (x +:+ w +:+ y).

Lemma parts_lang_pad ws s x : parts_lang ws s → parts_lang ws (x +:+ s).
Proof.
  inversion 1 as [x' w|w ws' x' y Hne Hl]; subst; rewrite <-sapp_assoc; by constructor.
Qed.

Lemma parts_lang_cons w ws s :
  ws ≠ [] → parts_lang (w :: ws) s ↔ ∃ x y, s = x +:+ w +:+ y ∧ parts_lang ws y.
Proof.
  intros Hne. split; [inversion 1; subst; eauto; done|].
  intros (x & y & -> & H). by constructor.
Qed.

(** The leftmost occurrence of a part leaves the longest rest: what any other
    occurrence leaves is a suffix of it. *)
Lemma Index_longest_rest (w a b x y : string) :
  Index (a +:+ w +:+ b) w = Some (len a) →
  a +:+ w +:+ b = x +:+ w +:+ y →
  ∃ z, b = z +:+ y.
Proof.
  intros Hi Heq. destruct (Index_leftmost x y w) as (j & Hj & Hle).
  rewrite <-Heq, Hi in Hj. injection Hj as <-.
  apply (f_equal (sdrop (len x + len w))) in Heq.
  rewrite <-(len_app x w) in Heq at 2. rewrite <-(sapp_assoc x w y), sdrop_app in Heq.
  replace (len x + len w) with (len (a +:+ w) + (len x - len a)) in Heq
    by (rewrite len_app; lia).
  rewrite <-sdrop_sdrop, <-sapp_assoc, sdrop_app in Heq. subst y.
  exists (stake (len x - len a) b). by rewrite stake_sdrop.
Qed.

(** The greedy loop of the code decides [parts_lang]. *)
Lemma match_parts_spec ws s : ws ≠ [] → match_parts ws s = true ↔ parts_lang ws s.
Proof.
  revert s. induction ws as [|w ws IH]; intros s Hne; [done|].
  destruct ws as [|w' ws].
  - simpl. rewrite HasSuffix_spec. split; [intros [x ->]; constructor|].
    inversion 1; subst; [eauto|done].
  - change (match_parts (w :: w' :: ws) s) with
      (match Index s w with None => false | Some i => match_parts (w' :: ws) (sdrop (i + len w) s) end).
    destruct (Index s w) as [i|] eqn:E.
    + rewrite IH by done. destruct (Index_Some _ _ _ E) as (a & b & -> & <-).
      rewrite (parts_lang_cons w) by done.
      replace (sdrop _ _) with b
        by (by rewrite <-len_app, <-sapp_assoc, sdrop_app).
      split; [eauto|]. intros (x & y & Heq & Hl).
      destruct (Index_longest_rest w a b x y E Heq) as [z ->]. by apply parts_lang_pad.
    + split; [done|]. rewrite (parts_lang_cons w) by done. intros (x & y & -> & _).
      by eapply Index_None in E.
Qed.

(** The parts after the first one, as a pattern again. *)
Lemma Split_star_parts (pat : string) :
  match Split pat "*" with
  | [] => False
  | w :: ws => sin "*" w = false ∧
      ∀ s, wild pat s = true ↔
           ∃ y, s = w +:+ y ∧ match ws with [] => y = EmptyString | _ => parts_lang ws y end
  end.
Proof.
  induction pat as [|c pat IH]; cbn [Split].
  - split; [done|]. intros s. cbn [wild]. rewrite bool_decide_eq_true. split; [intros ->; by exists EmptyString|].
    by intros (y & -> & ->).
  - destruct (Split pat "*") as [|w ws] eqn:E; [done|]. destruct IH as [Hw IH].
    case_bool_decide as Hc.
    + subst c. split; [done|]. intros s. rewrite wild_star. split.
      * intros (x & y & -> & Hy). exists (x +:+ y). split; [done|].
        apply IH in Hy as (z & -> & Hz). destruct ws as [|w' ws].
        -- subst. rewrite sapp_nil_r. constructor.
        -- by constructor.
      * intros (y & -> & Hy). inversion Hy as [x w0|w0 ws0 x z Hne Hl]; subst.
        -- exists x, w. split; [done|]. apply IH. exists EmptyString. by rewrite sapp_nil_r.
        -- exists x, (w +:+ z). split; [done|]. apply IH. exists z.
           by destruct ws.
    + split; [simpl; by rewrite bool_decide_eq_false_2|].
      intros s. cbn [wild]. rewrite bool_decide_eq_false_2 by done.
      destruct s as [|b s]; [by split; [|intros (y & ? & _)]|].
      rewrite andb_true_iff, bool_decide_eq_true, IH. split.
      * intros [-> (y & -> & Hy)]. by exists y.
      * intros (y & Hy & Hl). rewrite sapp_cons in Hy. injection Hy as -> ->. eauto.
Qed.

(** ** The wildcard matcher of one segment is the reference one *)

Lemma literalSegmentMatch_eq (pat s : string) : literalSegmentMatch pat s = wild pat s.
Proof.
  unfold literalSegmentMatch. case_bool_decide as Heq.
  - subst. by rewrite wild_refl.
  - rewrite Contains_sin. destruct (sin "*" pat) eqn:Hs; simpl.
    + pose proof (Split_star_parts pat) as Hp. pose proof (Split_sin_length pat "*" Hs) as Hl.
      destruct (Split pat "*") as [|w ws]; [done|]. destruct Hp as [Hw Hp].
      assert (ws ≠ []) as Hne by (destruct ws; simpl in Hl; [lia|done]).
      apply eq_bool_prop_intro. rewrite !Is_true_true, Hp.
      destruct (HasPrefix s w) eqn:Hpre; simpl.
      * apply HasPrefix_spec in Hpre as [r ->]. rewrite sdrop_app, match_parts_spec by done.
        destruct ws; [done|]. split; [by exists r|]. intros (y & Hy & H). apply sapp_inj_l in Hy. by subst.
      * split; [done|]. intros (y & -> & _). by rewrite HasPrefix_app in Hpre.
    + rewrite wild_lit by done. by rewrite bool_decide_eq_false_2.
Qed.

(** ** Segment lists *)

Lemma any_suffix_spec f s : any_suffix f s = true ↔ ∃ t r, s = t ++ r ∧ f r = true.
Proof.
  induction s as [|x s IH]; simpl; destruct (f _) eqn:E.
  - split; [|done]. intros _. by exists [], [].
  - split; [done|]. intros ([|] & r & Heq & Hr); simplify_eq/=. congruence.
  - split; [|done]. intros _. by exists [], (x :: s).
  - rewrite IH. split.
    + intros (t & r & -> & Hr). by exists (x :: t), r.
    + intros ([|y t] & r & Heq & Hr); simplify_eq/=; [congruence|eauto].
Qed.

Lemma matchSegments_lang p s : matchSegments p s = true ↔ lang p s.
Proof.
  revert s. induction p as [|h p IH]; intros s; simpl.
  - destruct s; simpl; split; try done; [constructor|inversion 1].
  - case_bool_decide as Hd; [subst|case_bool_decide as Hst; [subst|]].
    + destruct p as [|h' p].
      * simpl. split; [|done]. intros _. rewrite <-(app_nil_r s). repeat constructor.
      * change (length (h' :: p) =? 0)%nat with false. cbv iota.
        rewrite any_suffix_spec. split.
        -- intros (t & r & -> & Hr). constructor. by apply IH.
        -- inversion 1; subst; try done. do 2 eexists. split; [done|]. by apply IH.
    + destruct s as [|x s]; [split; [done|inversion 1; subst; done]|].
      rewrite IH. split; [by constructor|]. inversion 1; subst; done.
    + destruct s as [|x s]; [split; [done|inversion 1; subst; done]|].
      rewrite literalSegmentMatch_eq. destruct (wild h x) eqn:Hw; simpl.
      * rewrite IH. split; [by constructor|]. inversion 1; subst; done.
      * split; [done|]. inversion 1; subst; try done. congruence.
Qed.

(** The language of a concatenation of patterns. *)
Lemma lang_app_inv c1 c2 s :
  lang (c1 ++ c2) s → ∃ s1 s2, s = s1 ++ s2 ∧ lang c1 s1 ∧ lang c2 s2.
Proof.
  revert s. induction c1 as [|h c1 IH]; intros s H; simpl in H.
  - exists [], s. by repeat constructor.
  - inversion H as [|rest t s' Hl|rest x s' Hl|hd rest x s' Hd Hs Hw Hl]; subst;
      destruct (IH _ Hl) as (s1 & s2 & -> & H1 & H2).
    + exists (t ++ s1), s2. rewrite app_assoc. split_and!; try done. by constructor.
    + exists (x :: s1), s2. split_and!; try done. by constructor.
    + exists (x :: s1), s2. split_and!; try done. by constructor.
Qed.

Lemma segmentCovers_wild parent child x :
  segmentCovers parent child = true → wild child x = true → wild parent x = true.
Proof.
  unfold segmentCovers. case_bool_decide; [by subst|].
  unfold star. rewrite Contains_sin. destruct (sin "*" child) eqn:Hs; [done|].
  rewrite literalSegmentMatch_eq, (wild_lit child) by done.
  intros Hp Hx. apply bool_decide_eq_true in Hx as ->. done.
Qed.

(** A pattern segment that is not [**] stands for one target segment. *)
Lemma lang_cons_single c0 c s :
  c0 ≠ dstar → lang (c0 :: c) s → ∃ x s', s = x :: s' ∧ lang c s'.
Proof. intros Hne H. inversion H; subst; try done; eauto. Qed.

Lemma lang_cons_lit c0 c s :
  c0 ≠ dstar → c0 ≠ star → lang (c0 :: c) s → ∃ x s', s = x :: s' ∧ wild c0 x = true ∧ lang c s'.
Proof. intros Hd Hs H. inversion H; subst; try done; eauto. Qed.

Lemma covers_lang p c s : covers p c = true → lang c s → lang p s.
Proof.
  revert c s. induction p as [|h p IH]; intros c s Hc Hl; simpl in Hc.
  - destruct c; [done|done].
  - case_bool_decide as Hd; [subst|case_bool_decide as Hst; [subst|]].
    + apply any_suffix_spec in Hc as (c1 & c2 & -> & Hc).
      apply lang_app_inv in Hl as (s1 & s2 & -> & _ & H2). constructor. eauto.
    + destruct c as [|c0 c]; [done|]. case_bool_decide; [done|].
      apply lang_cons_single in Hl as (x & s' & -> & Hl); [|done]. constructor. eauto.
    + destruct c as [|ch c]; [done|]. repeat case_bool_decide; try done. simpl in Hc.
      destruct (segmentCovers h ch) eqn:Hsc; [|done]. simpl in Hc.
      apply lang_cons_lit in Hl as (x & s' & -> & Hw & Hl); [|done..].
      constructor; eauto using segmentCovers_wild.
Qed.

Lemma covers_refl p : covers p p = true.
Proof.
  induction p as [|h p IH]; [done|]. cbn [covers].
  case_bool_decide as Hd; [subst|case_bool_decide as Hst; [subst|]].
  - apply any_suffix_spec. by exists [dstar], p.
  - done.
  - unfold segmentCovers. by rewrite (bool_decide_eq_true_2 (h = h)).
Qed.

(** ** Properties *)

(** the greedy segment matcher agrees with backtracking wildcard matching
    on every pattern and every text: no text is missed by taking the leftmost
    occurrence of each part, and none is accepted wrongly. *)
Theorem literalSegmentMatch_wild (pat s : string) : literalSegmentMatch pat s = wild pat s.
Proof. apply literalSegmentMatch_eq. Qed.

(** C38: [Match] decides the reference semantics of the pattern dialect: [*]
    is one segment, [**] any number of segments, and a literal segment is
    matched with ['*'] standing for any bytes inside it. *)
Theorem Match_lang (pattern s : string) :
  Match pattern s = true ↔ lang (splitSep pattern) (splitSep s).
Proof. apply matchSegments_lang. Qed.

(** [Covers] is sound: whenever it accepts, every target the child pattern
    matches is matched by the parent pattern. *)
Theorem Covers_sound (parent child : string) (Hcov : Covers parent child = true) :
  ∀ target, Match child target = true → Match parent target = true.
Proof.
  intros t. unfold Match. rewrite !matchSegments_lang. by apply covers_lang.
Qed.

Lemma Covers_sound_witness :
  Covers "/data/**" "/data/*/log*" = true ∧
  (∀ target, Match "/data/*/log*" target = true → Match "/data/**" target = true).
Proof. split; [vm_compute; reflexivity|]. apply Covers_sound. vm_compute. reflexivity. Defined.

(** The reverse of the last test case of TestCovers: the wider child is refused. *)
Example Covers_widening : Covers "/data/*" "/data/**" = false.
Proof. reflexivity. Qed.
