(* ===== verification/Float64.v ===== *)
(** * float64

    Budgets are [float64] values.  They are modelled by the IEEE 754 binary64
    numbers of the standard library ([spec_float] with precision 53 and
    maximal exponent 1024): NaN, the infinities, signed zeros and rounding are
    those of the machine.  The file also has [strconv.ParseFloat], which reads
    the amounts of a lease. *)

From S2P Require Import Prelude GoStrings.
From Stdlib Require Import ZArith Ascii Lia SpecFloat.

Abbreviation f64 := spec_float.

Definition fprec : Z := 53.
Definition femax : Z := 1024.

Definition fzero : f64 := S754_zero false.
Definition fadd (x y : f64) : f64 := SFadd fprec femax x y.
Definition fsub (x y : f64) : f64 := SFsub fprec femax x y.
Definition fdiv (x y : f64) : f64 := SFdiv fprec femax x y.
Definition fabs (x : f64) : f64 := SFabs x.
(** Go's [<], [<=] and [==] on [float64]: false as soon as one side is NaN. *)
Definition flt (x y : f64) : bool := SFltb x y.
Definition fle (x y : f64) : bool := SFleb x y.
Definition feq (x y : f64) : bool := SFeqb x y.
Definition is_nan (x : f64) : bool := match x with S754_nan => true | _ => false end.
Definition is_finite (x : f64) : bool :=
  match x with S754_zero _ | S754_finite _ _ _ => true | _ => false end.

(** An untyped integer constant converted to [float64]. *)
Definition f_of_Z (z : Z) : f64 := binary_normalize fprec femax z 0 false.

#[export] Instance spec_float_eq_dec : EqDecision spec_float.
Proof. solve_decision. Defined.

(** ** strconv.ParseFloat *)

Inductive num_error := ErrSyntax | ErrRange.

(** The mantissa read so far: its digits as one integer, how many of them came
    after the point, and the flags of the scanner. *)
Record mantissa := mkMant {
  mt_val : Z;
  mt_frac : Z;
  mt_sawdot : bool;
  mt_sawdigits : bool;
  mt_underscores : bool
}.

Definition push_digit (base d : Z) (m : mantissa) : mantissa :=
  mkMant (mt_val m * base + d) (if mt_sawdot m then mt_frac m + 1 else mt_frac m)%Z
         (mt_sawdot m) true (mt_underscores m).

Definition lower_byte (c : ascii) : Z := Z.lor (byte_of c) 32.

Definition hex_letter (c : ascii) : bool :=
  ((byte_of "a" <=? lower_byte c) && (lower_byte c <=? byte_of "f"))%Z.

Fixpoint scan_mantissa (hex : bool) (s : string) (m : mantissa) : mantissa * string :=
  match s with
  | EmptyString => (m, s)
  | String c r =>
      if bool_decide (c = "_"%char) then
        scan_mantissa hex r (mkMant (mt_val m) (mt_frac m) (mt_sawdot m) (mt_sawdigits m) true)
      else if bool_decide (c = "."%char) then
        if mt_sawdot m then (m, s)
        else scan_mantissa hex r (mkMant (mt_val m) (mt_frac m) true (mt_sawdigits m) (mt_underscores m))
      else if is_digit c then
        scan_mantissa hex r (push_digit (if hex then 16 else 10) (digit_val c) m)
      else if hex && hex_letter c then
        scan_mantissa hex r (push_digit 16 (lower_byte c - byte_of "a" + 10) m)
      else (m, s)
  end.

(** The digits of an exponent; accumulation stops once the value is 10000 or
    more. *)
Fixpoint scan_exponent (s : string) (e : Z) (underscores : bool) : Z * bool * string :=
  match s with
  | EmptyString => (e, underscores, s)
  | String c r =>
      if bool_decide (c = "_"%char) then scan_exponent r e true
      else if is_digit c then
        scan_exponent r (if (e <? 10000)%Z then e * 10 + digit_val c else e)%Z underscores
      else (e, underscores, s)
  end.

Inductive saw := saw_start | saw_digit | saw_underscore | saw_other.

Fixpoint underscore_scan (hex : bool) (s : string) (last : saw) : bool :=
  match s with
  | EmptyString => match last with saw_underscore => false | _ => true end
  | String c r =>
      if is_digit c || (hex && hex_letter c) then underscore_scan hex r saw_digit
      else if bool_decide (c = "_"%char) then
        match last with saw_digit => underscore_scan hex r saw_underscore | _ => false end
      else match last with saw_underscore => false | _ => underscore_scan hex r saw_other end
  end.

Definition strip_sign (s : string) : bool * string :=
  match s with
  | String "-" r => (true, r)
  | String "+" r => (false, r)
  | _ => (false, s)
  end.

Definition underscoreOK (s : string) : bool :=
  let r := (strip_sign s).2 in
  match r with
  | String "0" (String p r') =>
      if (lower_byte p =? byte_of "b") || (lower_byte p =? byte_of "o") || (lower_byte p =? byte_of "x")
      then underscore_scan (lower_byte p =? byte_of "x")%Z r' saw_digit
      else underscore_scan false r saw_start
  | _ => underscore_scan false r saw_start
  end%Z.

(** [m * 10^e], correctly rounded. *)
Definition dec_to_f64 (neg : bool) (m e : Z) : f64 :=
  match m with
  | Zpos p =>
      if (0 <=? e)%Z then binary_round fprec femax neg (p * Z.to_pos (10 ^ e))%positive 0
      else SFdiv fprec femax (S754_finite neg p 0) (S754_finite false (Z.to_pos (10 ^ (- e))) 0)
  | _ => S754_zero neg
  end.

(** [m * 2^e], correctly rounded. *)
Definition hex_to_f64 (neg : bool) (m e : Z) : f64 :=
  match m with
  | Zpos p => binary_round fprec femax neg p e
  | _ => S754_zero neg
  end.

Definition eq_fold (s t : string) : bool :=
  bool_decide (length (String.list_ascii_of_string s) = length (String.list_ascii_of_string t)) &&
  forallb (λ p : ascii * ascii,
             let c := if is_upper p.1 then (byte_of p.1 + 32)%Z else byte_of p.1 in
             (c =? byte_of p.2)%Z)
          (zip (String.list_ascii_of_string s) (String.list_ascii_of_string t)).

(** The special values: [inf] and [infinity] with an optional sign, [nan]
    without one, in any case. *)
Definition special (s : string) : option f64 :=
  let '(neg, r) := strip_sign s in
  if eq_fold r "inf" || eq_fold r "infinity" then Some (S754_infinity neg)
  else if eq_fold s "nan" then Some S754_nan
  else None.

Definition in_range_f64 (f : f64) : result num_error f64 :=
  match f with
  | S754_infinity _ => Err ErrRange
  | _ => Ok f
  end.

Definition ParseFloat (s : string) : result num_error f64 :=
  match special s with
  | Some f => Ok f
  | None =>
      let '(neg, r) := strip_sign s in
      let '(hex, r) :=
        match r with
        | String "0" (String x r') =>
            if (lower_byte x =? byte_of "x")%Z && negb (bool_decide (r' = EmptyString))
            then (true, r') else (false, r)
        | _ => (false, r)
        end in
      let '(m, r) := scan_mantissa hex r (mkMant 0 0 false false false) in
      if negb (mt_sawdigits m) then Err ErrSyntax
      else
        let finish (e : Z) (underscores : bool) :=
          if underscores && negb (underscoreOK s) then Err ErrSyntax
          else if hex then in_range_f64 (hex_to_f64 neg (mt_val m) (e - 4 * mt_frac m))
          else in_range_f64 (dec_to_f64 neg (mt_val m) (e - mt_frac m)) in
        match r with
        | EmptyString => if hex then Err ErrSyntax else finish 0%Z (mt_underscores m)
        | String c r =>
            if (lower_byte c =? byte_of (if hex then "p" else "e"))%Z then
              let '(eneg, r) := strip_sign r in
              match r with
              | String d _ =>
                  if is_digit d then
                    let '(e, u, r) := scan_exponent r 0 (mt_underscores m) in
                    if bool_decide (r = EmptyString)
                    then finish (if eneg then - e else e)%Z u
                    else Err ErrSyntax
                  else Err ErrSyntax
              | EmptyString => Err ErrSyntax
              end
            else Err ErrSyntax
        end
  end.

(** ** Signs of rounded results *)

(** [f] is a zero, a number or an infinity of sign [s]. *)
Definition has_sign (s : bool) (f : f64) : Prop :=
  match f with
  | S754_zero s' | S754_infinity s' | S754_finite s' _ _ => s' = s
  | S754_nan => False
  end.

Lemma shr_1_nonneg mrs : (0 <= shr_m mrs)%Z → (0 <= shr_m (shr_1 mrs))%Z.
Proof. destruct mrs as [[|[p|p|]|p] r s]; simpl; lia. Qed.

Lemma iter_pos_shr_nonneg p mrs : (0 <= shr_m mrs)%Z → (0 <= shr_m (iter_pos shr_1 p mrs))%Z.
Proof.
  revert mrs. induction p as [p IH|p IH|]; intros mrs H; simpl; auto using shr_1_nonneg.
Qed.

Lemma shr_fexp_nonneg m e l :
  (0 <= m)%Z → (0 <= shr_m (shr_fexp fprec femax m e l).1)%Z.
Proof.
  intros H. unfold shr_fexp, shr.
  assert (0 <= shr_m (shr_record_of_loc m l))%Z as Hm by (by destruct l as [|[]]).
  case_goal; simpl; auto using iter_pos_shr_nonneg.
Qed.

Lemma round_nearest_even_nonneg m l : (0 <= m)%Z → (0 <= round_nearest_even m l)%Z.
Proof. intros H. destruct l as [|[]]; simpl; try case_goal; lia. Qed.

Lemma binary_round_aux_sign s m e l :
  (0 <= m)%Z → has_sign s (binary_round_aux fprec femax s m e l).
Proof.
  intros H. unfold binary_round_aux.
  pose proof (shr_fexp_nonneg m e l H) as H1.
  destruct (shr_fexp fprec femax m e l) as [mrs e1]; simpl in H1.
  pose proof (shr_fexp_nonneg _ e1 loc_Exact
    (round_nearest_even_nonneg (shr_m mrs) (loc_of_shr_record mrs) H1)) as H2.
  destruct (shr_fexp fprec femax (round_nearest_even _ _) e1 loc_Exact) as [mrs2 e2].
  simpl in H2. by destruct (shr_m mrs2); try case_goal.
Qed.

Lemma binary_round_sign s m e : has_sign s (binary_round fprec femax s m e).
Proof.
  unfold binary_round. destruct (shl_align _ _ _). apply binary_round_aux_sign. lia.
Qed.

(** The non-positive and the non-negative floats. *)
Lemma fle_zero_spec x :
  fle x fzero = true ↔ (∃ s, x = S754_zero s) ∨ has_sign true x.
Proof.
  destruct x as [s|[]| |[] m e]; simpl; split; intros H; try done; eauto.
  - destruct H as [[s ?]|?]; done.
  - destruct H as [[s ?]|?]; done.
  - destruct H as [[s ?]|?]; done.
Qed.

Lemma fge_zero_spec x :
  fle fzero x = true ↔ (∃ s, x = S754_zero s) ∨ has_sign false x.
Proof.
  destruct x as [s|[]| |[] m e]; simpl; split; intros H; try done; eauto.
  - destruct H as [[s ?]|?]; done.
  - destruct H as [[s ?]|?]; done.
  - destruct H as [[s ?]|?]; done.
Qed.

Lemma has_sign_nonneg x : has_sign false x → fle fzero x = true.
Proof. intros H. apply fge_zero_spec. auto. Qed.

Lemma has_sign_nonpos x : has_sign true x → fle x fzero = true.
Proof. intros H. apply fle_zero_spec. auto. Qed.

Lemma binary_normalize_nonneg m e : (0 <= m)%Z → fle fzero (binary_normalize fprec femax m e false) = true.
Proof.
  intros H. apply has_sign_nonneg. destruct m; [done| |lia]. apply binary_round_sign.
Qed.

Lemma binary_normalize_nonpos m e : (m <= 0)%Z → fle (binary_normalize fprec femax m e false) fzero = true.
Proof.
  intros H. destruct m; [done|lia|]. apply has_sign_nonpos, binary_round_sign.
Qed.

(** Spending from an exhausted counter leaves it exhausted. *)
Lemma fsub_nonpos x y : fle x fzero = true → fle fzero y = true → fle (fsub x y) fzero = true.
Proof.
  intros Hx Hy. destruct x as [sx|[]| |[] mx ex]; try done;
    destruct y as [sy|[]| |[] my ey]; try done; try (by destruct sx); try (by destruct sx, sy).
  apply binary_normalize_nonpos. simpl. lia.
Qed.

(** Adding two amounts that are not negative gives one that is not negative. *)
Lemma fadd_nonneg x y : fle fzero x = true → fle fzero y = true → fle fzero (fadd x y) = true.
Proof.
  intros Hx Hy. destruct x as [sx|[]| |[] mx ex]; try done;
    destruct y as [sy|[]| |[] my ey]; try done; try (by destruct sx); try (by destruct sx, sy).
  apply binary_normalize_nonneg. simpl. lia.
Qed.

Lemma binary_normalize_not_nan m e : is_nan (binary_normalize fprec femax m e false) = false.
Proof.
  destruct m; [done| |]; simpl;
    [pose proof (binary_round_sign false p e)|pose proof (binary_round_sign true p e)];
    by destruct (binary_round _ _ _ p e).
Qed.

(** A difference of finite numbers is a number or an infinity. *)
Lemma fsub_not_nan x y : is_finite x = true → is_finite y = true → is_nan (fsub x y) = false.
Proof.
  destruct x as [sx| | |sx mx ex], y as [sy| | |sy my ey]; intros Hx Hy; try done.
  - by destruct sx, sy.
  - apply binary_normalize_not_nan.
Qed.

(** The two sides of a test against zero, for a number. *)
Lemma flt_zero_false x : flt x fzero = false → is_nan x = false → fle fzero x = true.
Proof. by destruct x as [|[]| |[]]. Qed.

Lemma fle_zero_false x : fle x fzero = false → is_nan x = false → flt fzero x = true.
Proof. by destruct x as [|[]| |[]]. Qed.

Lemma fge_not_nan x : fle fzero x = true → is_nan x = false.
Proof. by destruct x. Qed.

#[export] Hint Resolve fsub_nonpos fadd_nonneg fge_not_nan : go.

(** Amounts as the lease files write them. *)
Example parse_5 : ParseFloat "5" = Ok (f_of_Z 5).
Proof. vm_compute. reflexivity. Qed.

Example parse_1_25 : ParseFloat "1.25" = Ok (fdiv (f_of_Z 5) (f_of_Z 4)).
Proof. vm_compute. reflexivity. Qed.

Example parse_0_1 : ParseFloat "0.1" = Ok (S754_finite false 7205759403792794 (-56)).
Proof. vm_compute. reflexivity. Qed.

Example parse_misc :
  (ParseFloat "1_23.50_0_0e+1_2", ParseFloat "123._5e+12", ParseFloat "0x1p-2", ParseFloat "NaN",
   ParseFloat "-Infinity", ParseFloat "1e400", ParseFloat "", ParseFloat "5.5.5")
  = (Ok (f_of_Z 123500000000000), Err ErrSyntax, Ok (fdiv (f_of_Z 1) (f_of_Z 4)), Ok S754_nan,
     Ok (S754_infinity true), Err ErrRange, Err ErrSyntax, Err ErrSyntax).
Proof. vm_compute. reflexivity. Qed.
