(* ===== verification/Lease.v ===== *)
(** * Leases and budget amounts

    Models lease.go: the capability lease, the [CUR:amount] grammar of
    [cost.budget] entries, and the delegation check [IsLeaseSubset]. *)

From S2P Require Import Prelude GoStrings Errors Float64 Glob.
From Stdlib Require Import ZArith Ascii SpecFloat.

Abbreviation Capability := string.
Abbreviation Currency := string.

Definition CapFSRead : Capability := "fs.read".
Definition CapFSWrite : Capability := "fs.write".
Definition CapNetFetch : Capability := "net.fetch".
Definition CapToolCall : Capability := "tool.call".
Definition CapAgentDelegate : Capability := "agent.delegate".
Definition CapModelUse : Capability := "model.use".
Definition CapCostBudget : Capability := "cost.budget".

(** A lease maps capability namespaces to pattern lists.  Values are immutable
    here, so [Clone], which copies the map and its slices, is the identity. *)
Abbreviation Lease := (gmap string (list string)).

Definition Clone (l : Lease) : Lease := (λ v : list string, v) <$> l.

Record BudgetAmount := mkBudget {
  ba_Currency : Currency;
  ba_Value : f64
}.

(** ** The amount grammar *)

Definition allUppercaseLetters (s : string) : bool :=
  sforallb is_upper s && (0 <? len s)%nat.

Definition allLowercaseLetters (s : string) : bool :=
  sforallb is_lower s && (0 <? len s)%nat.

(** The loop of [isCurrency]: the first letter outside A-Z decides.  The source
    ranges over runes; a rune beyond ASCII is outside both letter ranges, and
    so are all of its bytes. *)
Fixpoint currency_loop (rest whole : string) : bool :=
  match rest with
  | EmptyString => true
  | String r rest =>
      if is_upper r then currency_loop rest whole
      else allUppercaseLetters whole || allLowercaseLetters whole
  end.

Definition isCurrency (s : string) : bool :=
  if bool_decide (s = "credits") then true
  else if (len s <? 1)%nat then false
  else currency_loop s s.

Definition num_error_string (e : num_error) : string :=
  match e with
  | ErrSyntax => "invalid syntax"
  | ErrRange => "value out of range"
  end.

Definition ParseBudgetAmount (s : string) : res BudgetAmount :=
  let bad := Err (arcp_err ErrInvalidRequest "budget amount must be CUR:decimal") in
  match Index s ":" with
  | None => bad
  | Some i =>
      if (i =? 0)%nat || (i =? len s - 1)%nat then bad
      else
        let cur := stake i s in
        let dec := sdrop (i + 1) s in
        if negb (isCurrency cur) then
          Err (arcp_err ErrInvalidRequest "budget currency must be uppercase A-Z or credits")
        else match ParseFloat dec with
             | Err e => Err (arcp_err ErrInvalidRequest ("budget value not a decimal: " +:+ num_error_string e))
             | Ok v =>
                 if flt v fzero then
                   Err (arcp_err ErrInvalidRequest "budget value must be non-negative")
                 else Ok (mkBudget cur v)
             end
  end.

(** ** Delegation *)

(** The budget loop of [IsLeaseSubset]. *)
Fixpoint subset_budget (patterns : list string) (remaining : gmap Currency f64) : option error :=
  match patterns with
  | [] => None
  | pat :: patterns =>
      match ParseBudgetAmount pat with
      | Err err => Some err
      | Ok amt =>
          match remaining !! ba_Currency amt with
          | None => Some (arcp_err ErrLeaseSubsetViolation
                            ("child budget currency " +:+ ba_Currency amt +:+ " not in parent"))
          | Some r =>
              if flt r (ba_Value amt) then
                Some (arcp_err ErrLeaseSubsetViolation ("child budget " +:+ pat +:+ " exceeds parent remaining"))
              else subset_budget patterns remaining
          end
      end
  end.

(** The pattern loop: every child pattern is covered by some parent pattern. *)
Fixpoint subset_patterns (ns : Capability) (parentPatterns patterns : list string) : option error :=
  match patterns with
  | [] => None
  | cp :: patterns =>
      if existsb (λ p, Covers p cp) parentPatterns then subset_patterns ns parentPatterns patterns
      else Some (arcp_err ErrLeaseSubsetViolation
                   ("child pattern " +:+ cp +:+ " not covered by parent " +:+ ns))
  end.

(** The outer loop over the child's entries, in a given iteration order. *)
Fixpoint subset_entries (parent : Lease) (entries : list (Capability * list string))
    (remaining : gmap Currency f64) : option error :=
  match entries with
  | [] => None
  | (ns, patterns) :: entries =>
      let verdict :=
        if bool_decide (ns = CapCostBudget) then subset_budget patterns remaining
        else match parent !! ns with
             | None => Some (arcp_err ErrLeaseSubsetViolation
                               ("child lease has capability " +:+ ns +:+ " missing from parent"))
             | Some parentPatterns => subset_patterns ns parentPatterns patterns
             end in
      match verdict with
      | Some err => Some err
      | None => subset_entries parent entries remaining
      end
  end.

(** The Go runtime iterates over a map in an unspecified order: [order] is the
    order of this run. *)
Definition IsLeaseSubset_order (order : list (Capability * list string)) (parent : Lease)
    (parentRemaining : gmap Currency f64) (parentExpiry childExpiry : option Time) : option error :=
  match subset_entries parent order parentRemaining with
  | Some err => Some err
  | None =>
      match childExpiry, parentExpiry with
      | Some c, Some p =>
          if After c p then Some (arcp_err ErrLeaseSubsetViolation "child expires_at exceeds parent")
          else None
      | _, _ => None
      end
  end.

Definition IsLeaseSubset (parent child : Lease) (parentRemaining : gmap Currency f64)
    (parentExpiry childExpiry : option Time) : option error :=
  IsLeaseSubset_order (map_to_list child) parent parentRemaining parentExpiry childExpiry.

(** [lease.IsSubset] of internal/lease/subset.go. *)
Definition IsSubset := IsLeaseSubset.

(** ** Lemmas *)

Lemma Clone_id (l : Lease) : Clone l = l.
Proof. unfold Clone. apply map_fmap_id. Qed.

Lemma ParseBudgetAmount_Ok s amt :
  ParseBudgetAmount s = Ok amt →
  isCurrency (ba_Currency amt) = true ∧ flt (ba_Value amt) fzero = false ∧
  ∃ dec, s = ba_Currency amt +:+ ":" +:+ dec ∧ ParseFloat dec = Ok (ba_Value amt).
Proof.
  unfold ParseBudgetAmount. destruct (Index s ":") as [i|] eqn:Hi; [|done].
  destruct (_ || _) eqn:Hb; [done|].
  destruct (isCurrency (stake i s)) eqn:Hc; simpl; [|done].
  destruct (ParseFloat (sdrop (i + 1) s)) as [v|e] eqn:Hp; [|done].
  destruct (flt v fzero) eqn:Hv; [done|]. intros [= <-]. simpl. split_and!; try done.
  exists (sdrop (i + 1) s). split; [|done].
  destruct (Index_Some _ _ _ Hi) as (a & b & -> & <-). rewrite stake_app.
  f_equal. rewrite <-sdrop_sdrop, sdrop_app. done.
Qed.

Lemma subset_patterns_None ns pp ps :
  subset_patterns ns pp ps = None → ∀ c, c ∈ ps → ∃ p, p ∈ pp ∧ Covers p c = true.
Proof.
  induction ps as [|x ps IH]; intros H c Hc; [set_solver|]. simpl in H.
  destruct (existsb _ pp) eqn:E; [|done].
  apply elem_of_cons in Hc as [->|Hc]; [|by apply IH].
  apply existsb_exists in E as (p & Hp & Hcov). exists p. by rewrite list_elem_of_In.
Qed.

Lemma subset_budget_None ps rem :
  subset_budget ps rem = None →
  ∀ pat, pat ∈ ps → ∃ amt r, ParseBudgetAmount pat = Ok amt ∧
    rem !! ba_Currency amt = Some r ∧ flt r (ba_Value amt) = false.
Proof.
  induction ps as [|x ps IH]; intros H pat Hpat; [set_solver|]. simpl in H.
  destruct (ParseBudgetAmount x) as [amt|] eqn:Hx; [|done].
  destruct (rem !! ba_Currency amt) as [r|] eqn:Hr; [|done].
  destruct (flt r (ba_Value amt)) eqn:Hlt; [done|].
  apply elem_of_cons in Hpat as [->|Hpat]; [eauto|by apply IH].
Qed.

(** What acceptance means for one entry of the child. *)
Definition entry_ok (parent : Lease) (rem : gmap Currency f64) (e : Capability * list string) : Prop :=
  if bool_decide (e.1 = CapCostBudget) then subset_budget e.2 rem = None
  else ∃ pp, parent !! e.1 = Some pp ∧ subset_patterns e.1 pp e.2 = None.

Lemma subset_entries_None parent es rem :
  subset_entries parent es rem = None ↔ Forall (entry_ok parent rem) es.
Proof.
  induction es as [|[ns ps] es IH]; simpl; [by split; [constructor|]|].
  rewrite Forall_cons, <-IH. unfold entry_ok at 1. simpl.
  case_bool_decide.
  - destruct (subset_budget ps rem); naive_solver.
  - destruct (parent !! ns) as [pp|]; [|naive_solver].
    destruct (subset_patterns ns pp ps) eqn:E; naive_solver.
Qed.

(** Acceptance does not depend on the iteration order. *)
Lemma IsLeaseSubset_order_irrel parent rem pe ce o1 o2 :
  o1 ≡ₚ o2 →
  IsLeaseSubset_order o1 parent rem pe ce = None ↔ IsLeaseSubset_order o2 parent rem pe ce = None.
Proof.
  intros Hp. unfold IsLeaseSubset_order.
  assert (subset_entries parent o1 rem = None ↔ subset_entries parent o2 rem = None) as Hiff.
  { rewrite !subset_entries_None. by rewrite Hp. }
  destruct (subset_entries parent o1 rem), (subset_entries parent o2 rem); naive_solver.
Qed.

Lemma IsLeaseSubset_entries parent child rem pe ce :
  IsLeaseSubset parent child rem pe ce = None →
  ∀ ns ps, child !! ns = Some ps → entry_ok parent rem (ns, ps).
Proof.
  unfold IsLeaseSubset, IsLeaseSubset_order. intros H ns ps Hl.
  destruct (subset_entries _ _ _) eqn:E; [done|].
  apply subset_entries_None in E. rewrite Forall_forall in E.
  apply E. by apply elem_of_map_to_list.
Qed.
