(* ===== verification/Canonical.v ===== *)
(** * Canonical targets

    Models internal/lease/canonical.go: the normalisation of file paths and of
    URLs before they are matched against a lease.  [path.Clean] is modelled by
    its documented segment algorithm; [net/url] is an interface ([NetURL]). *)

From S2P Require Import Prelude GoStrings Errors.
From Stdlib Require Import Ascii.

(** ** path.Clean *)

(** One element of the path, against the output so far (reversed). *)
Definition clean_step (rooted : bool) (out : list string) (seg : string) : list string :=
  if bool_decide (seg = "") || bool_decide (seg = ".") then out
  else if bool_decide (seg = "..") then
    match out with
    | top :: out' => if bool_decide (top = "..") then seg :: out else out'
    | [] => if rooted then [] else [seg]
    end
  else seg :: out.

Definition clean_segs (rooted : bool) (segs : list string) : list string :=
  rev (fold_left (clean_step rooted) segs []).

(** [path.Clean]. *)
Definition path_Clean (p : string) : string :=
  if bool_decide (p = "") then "."
  else
    let rooted := HasPrefix p "/" in
    let out := clean_segs rooted (Split p "/") in
    if rooted then "/" +:+ Join out "/"
    else match out with [] => "." | _ => Join out "/" end.

Definition CanonicalizePath (p : string) : string :=
  if bool_decide (p = "") then ""
  else
    let abs := HasPrefix p "/" in
    let clean := path_Clean p in
    if abs && negb (HasPrefix clean "/") then "/" +:+ clean else clean.

(** ** net/url *)

(** The parts of a [url.URL] the code reads or writes; [u_rest] stands for the
    others, which it leaves alone. *)
Record URL := mkURL { u_Scheme : string; u_Host : string; u_Path : string; u_rest : string }.

Class NetURL := {
  url_Parse : string → res URL;
  url_String : URL → string;
  strings_ToLower : string → string
}.

Definition CanonicalizeURL `{!NetURL} (raw : string) : res string :=
  match url_Parse raw with
  | Err err => Err err
  | Ok u =>
      let u := mkURL (strings_ToLower (u_Scheme u)) (strings_ToLower (u_Host u)) (u_Path u) (u_rest u) in
      let u := if negb (bool_decide (u_Path u = ""))
               then mkURL (u_Scheme u) (u_Host u) (path_Clean (u_Path u)) (u_rest u) else u in
      Ok (url_String u)
  end.

(** ** Lemmas *)

(** A segment that names something: not empty, not a dot segment, without a
    separator. *)
Definition plain_seg (w : string) : Prop :=
  w ≠ "" ∧ w ≠ "." ∧ w ≠ ".." ∧ sin "/" w = false.

Lemma clean_rooted_plain segs out :
  Forall (λ w, sin "/" w = false) segs → Forall plain_seg out →
  Forall plain_seg (fold_left (clean_step true) segs out).
Proof.
  revert out. induction segs as [|w segs IH]; intros out Hs Ho; [done|]. simpl.
  inversion Hs; subst. apply IH; [done|]. unfold clean_step.
  destruct (bool_decide (w = "")) eqn:E1; [done|].
  destruct (bool_decide (w = ".")) eqn:E2; [done|]. simpl.
  destruct (bool_decide (w = "..")) eqn:E3.
  - destruct out as [|top out]; [done|]. inversion Ho as [|? ? [_ [_ [Ht _]]] ?]; subst.
    by rewrite bool_decide_eq_false_2.
  - constructor; [|done]. apply bool_decide_eq_false in E1, E2, E3. done.
Qed.

Lemma clean_segs_rooted_plain p : Forall plain_seg (clean_segs true (Split p "/")).
Proof.
  unfold clean_segs. apply Forall_rev.
  apply clean_rooted_plain; [apply Split_no_sep|constructor].
Qed.

(** Cleaning a list of plain segments keeps it. *)
Lemma clean_plain_id b ws out :
  Forall plain_seg ws → fold_left (clean_step b) ws out = rev ws ++ out.
Proof.
  revert out. induction ws as [|w ws IH]; intros out Hw; [done|].
  inversion Hw as [|? ? (H1 & H2 & H3 & _) Hws]; subst. simpl. rewrite IH by done.
  unfold clean_step. rewrite !bool_decide_eq_false_2 by done. simpl.
  rewrite <-app_assoc. done.
Qed.

Lemma Split_prefix_no_sep w (r : string) :
  sin "/" w = false →
  Split (w +:+ String "/" r) "/" = w :: Split r "/".
Proof.
  induction w as [|c w IH]; intros Hw; [done|].
  simpl in Hw. apply orb_false_iff in Hw as [Hc Hw].
  rewrite sapp_cons. simpl. rewrite Hc, (IH Hw). done.
Qed.

Lemma Split_single w : sin "/" w = false → Split w "/" = [w].
Proof.
  induction w as [|c w IH]; intros Hw; [done|].
  simpl in Hw. apply orb_false_iff in Hw as [Hc Hw]. simpl. by rewrite Hc, (IH Hw).
Qed.

Lemma Split_Join ws :
  ws ≠ [] → Forall plain_seg ws → Split (Join ws "/") "/" = ws.
Proof.
  induction ws as [|w ws IH]; intros Hne Hw; [done|].
  inversion Hw as [|? ? (_ & _ & _ & Hs) Hws]; subst.
  destruct ws as [|w' ws]; [by apply Split_single|].
  change (Join (w :: w' :: ws) "/") with (w +:+ String "/" (Join (w' :: ws) "/")).
  rewrite Split_prefix_no_sep by done. by rewrite IH.
Qed.

Lemma Split_rooted p : HasPrefix p "/" = true → ∃ r, p = String "/" r ∧ Split p "/" = "" :: Split r "/".
Proof.
  intros H. apply HasPrefix_spec in H as [r ->]. exists r. done.
Qed.

Lemma CanonicalizePath_rooted p :
  HasPrefix p "/" = true → CanonicalizePath p = "/" +:+ Join (clean_segs true (Split p "/")) "/".
Proof.
  intros H. unfold CanonicalizePath, path_Clean. rewrite H.
  rewrite bool_decide_eq_false_2 by (by intros ->). simpl. done.
Qed.

(** ** Properties *)

(** An absolute path is normalised to an absolute path whose segments are
    all plain: no dot-dot, no dot, no empty segment is left for a pattern to
    match, so [..] cannot be used to leave a granted directory. *)
Theorem CanonicalizePath_no_traversal (p : string) (Habs : HasPrefix p "/" = true) :
  ∃ segs, CanonicalizePath p = "/" +:+ Join segs "/" ∧ Forall plain_seg segs.
Proof.
  exists (clean_segs true (Split p "/")). split; [by apply CanonicalizePath_rooted|].
  apply clean_segs_rooted_plain.
Qed.

Lemma CanonicalizePath_no_traversal_witness :
  CanonicalizePath "/workspace/../etc//./passwd" = "/etc/passwd" ∧
  ∃ segs, CanonicalizePath "/workspace/../etc//./passwd" = "/" +:+ Join segs "/" ∧
          Forall plain_seg segs.
Proof.
  split; [vm_compute; reflexivity|]. apply CanonicalizePath_no_traversal. vm_compute. reflexivity.
Defined.

(** canonicalising an absolute path twice is the same as once. *)
Theorem CanonicalizePath_idempotent (p : string) (Habs : HasPrefix p "/" = true) :
  CanonicalizePath (CanonicalizePath p) = CanonicalizePath p.
Proof.
  rewrite (CanonicalizePath_rooted p Habs). set (ws := clean_segs true (Split p "/")).
  assert (Forall plain_seg ws) as Hws by apply clean_segs_rooted_plain.
  rewrite CanonicalizePath_rooted by apply HasPrefix_app. f_equal. f_equal.
  change (Split ("/" +:+ Join ws "/") "/") with ("" :: Split (Join ws "/") "/").
  unfold clean_segs. simpl. destruct ws as [|w ws']; [done|].
  rewrite Split_Join, clean_plain_id, app_nil_r by done. by rewrite rev_involutive.
Qed.

Lemma CanonicalizePath_idempotent_witness :
  CanonicalizePath (CanonicalizePath "/a/./b/../c") = CanonicalizePath "/a/./b/../c".
Proof. apply CanonicalizePath_idempotent. vm_compute. reflexivity. Defined.
