(* ===== verification/LeaseState.v ===== *)
(** * Lease enforcement

    Models internal/lease/validate.go: the per-job lease state with its budget
    counters, the checks made at an operation boundary and the three ways a
    counter is decremented.  Every method runs under the state's mutex, so one
    method is one step; [lease_op] and [lease_run] are the sequences of steps. *)

From S2P Require Import Prelude GoStrings Errors Float64 Glob Lease Canonical.
From Stdlib Require Import ZArith SpecFloat.

Record State := mkState {
  st_lease : Lease;
  st_expiresAt : option Time;
  st_counters : gmap Currency f64;
  st_initialized : gmap Currency f64
}.

Definition set_counters (s : State) (c : gmap Currency f64) : State :=
  mkState (st_lease s) (st_expiresAt s) c (st_initialized s).

(** Reading a missing key of a [map[Currency]float64] gives 0. *)
Definition fget (m : gmap Currency f64) (cur : Currency) : f64 := default fzero (m !! cur).

(** The loop of [NewState] over the [cost.budget] patterns. *)
Fixpoint init_counters (pats : list string) (counters initialized : gmap Currency f64) :
    gmap Currency f64 * gmap Currency f64 :=
  match pats with
  | [] => (counters, initialized)
  | pat :: pats =>
      match ParseBudgetAmount pat with
      | Err _ => init_counters pats counters initialized
      | Ok amt =>
          let counters := <[ba_Currency amt := fadd (fget counters (ba_Currency amt)) (ba_Value amt)]> counters in
          init_counters pats counters (<[ba_Currency amt := fget counters (ba_Currency amt)]> initialized)
      end
  end.

Definition cloneTime (t : option Time) : option Time := match t with Some c => Some c | None => None end.

Definition NewState (lease : Lease) (expiresAt : option Time) : State :=
  let '(counters, initialized) := init_counters (default [] (lease !! CapCostBudget)) ∅ ∅ in
  mkState (Clone lease) (cloneTime expiresAt) counters initialized.

(** The accessors; a nil [*State] is [None]. *)
Definition State_Lease (s : option State) : Lease :=
  match s with Some s => Clone (st_lease s) | None => ∅ end.
Definition ExpiresAt (s : option State) : option Time :=
  match s with Some s => cloneTime (st_expiresAt s) | None => None end.
Definition Budget (s : option State) : gmap Currency f64 :=
  match s with Some s => st_counters s | None => ∅ end.
Definition Initial (s : option State) : gmap Currency f64 :=
  match s with Some s => st_initialized s | None => ∅ end.
Definition HasBudget (s : option State) : bool :=
  match s with Some s => (0 <? size (st_initialized s))%nat | None => false end.

Section with_url.
Context `{!NetURL}.

Definition canonicalizeTarget (cap : Capability) (target : string) : string :=
  if bool_decide (cap = CapFSRead) || bool_decide (cap = CapFSWrite) then CanonicalizePath target
  else if bool_decide (cap = CapNetFetch) then
    match CanonicalizeURL target with Ok u => u | Err _ => target end
  else target.

(** [State.matches], as a function of the lease. *)
Definition lease_matches (lease : Lease) (cap : Capability) (target : string) : bool :=
  match lease !! cap with
  | None => false
  | Some patterns =>
      let canon := canonicalizeTarget cap target in
      existsb (λ p, Match p canon) patterns
  end.

Definition matches (s : State) (cap : Capability) (target : string) : bool :=
  lease_matches (st_lease s) cap target.

(** The budget gate shared by [ValidateOp] and [ValidateAndDebit]: the first
    counter (in iteration order) that is at or below zero. *)
Definition exhausted (s : State) : option Currency :=
  if (0 <? size (st_initialized s))%nat then
    match list_find (λ p : Currency * f64, fle p.2 fzero = true) (map_to_list (st_counters s)) with
    | Some (_, (cur, _)) => Some cur
    | None => None
    end
  else None.

Definition expired (s : State) (now : Time) : bool :=
  match st_expiresAt s with Some e => negb (Before now e) | None => false end.

(** [time.RFC3339] formatting of the deadline in the message is left out. *)
Definition err_expired : error := arcp_err ErrLeaseExpired "lease expired".
Definition err_denied : error := arcp_err ErrPermissionDenied "operation not permitted by lease".
Definition err_exhausted (cur : Currency) : error :=
  arcp_err ErrBudgetExhausted ("budget exhausted for " +:+ cur).
Definition err_no_lease : error := arcp_err ErrPermissionDenied "no lease in scope".
Definition err_negative : error := arcp_err ErrInvalidRequest "debit value must be non-negative".

Definition ValidateOp (s : option State) (now : Time) (cap : Capability) (target : string) : option error :=
  match s with
  | None => Some err_no_lease
  | Some s =>
      if expired s now then Some err_expired
      else if negb (matches s cap target) then Some err_denied
      else match exhausted s with
           | Some cur => Some (err_exhausted cur)
           | None => None
           end
  end.

(** The returned balance, the returned error and the state afterwards. *)
Definition ValidateAndDebit (s : option State) (now : Time) (cap : Capability) (target : string)
    (debit : BudgetAmount) : f64 * option error * option State :=
  match s with
  | None => (fzero, Some err_no_lease, s)
  | Some st =>
      let cur := ba_Currency debit in
      let v := ba_Value debit in
      if flt v fzero then (fzero, Some err_negative, s)
      else if expired st now then (fzero, Some err_expired, s)
      else if negb (matches st cap target) then (fzero, Some err_denied, s)
      else match exhausted st with
           | Some c => (fzero, Some (err_exhausted c), s)
           | None =>
               if feq v fzero || bool_decide (cur = "") then (fget (st_counters st) cur, None, s)
               else match st_initialized st !! cur with
                    | None => (fzero, None, s)
                    | Some _ =>
                        if flt (fsub (fget (st_counters st) cur) v) fzero
                        then (fget (st_counters st) cur, Some (err_exhausted cur), s)
                        else
                          let c := fsub (fget (st_counters st) cur) v in
                          (c, None, Some (set_counters st (<[cur := c]> (st_counters st))))
                    end
           end
  end.

End with_url.

Definition Debit (s : State) (cur : Currency) (v : f64) : f64 * option error * State :=
  if flt v fzero then (fzero, Some err_negative, s)
  else match st_initialized s !! cur with
       | None => (fzero, None, s)
       | Some _ =>
           if flt (fsub (fget (st_counters s) cur) v) fzero
           then (fget (st_counters s) cur, Some (err_exhausted cur), s)
           else
             let c := fsub (fget (st_counters s) cur) v in
             (c, None, set_counters s (<[cur := c]> (st_counters s)))
       end.

Definition Report (s : State) (cur : Currency) (v : f64) : f64 * bool * State :=
  if flt v fzero then (fzero, false, s)
  else match st_initialized s !! cur with
       | None => (fzero, false, s)
       | Some _ =>
           let c := fsub (fget (st_counters s) cur) v in
           (c, true, set_counters s (<[cur := c]> (st_counters s)))
       end.

(** ** Sequences of operations *)

Inductive lease_op :=
| OpReserve (now : Time) (cap : Capability) (target : string) (debit : BudgetAmount)
| OpDebit (cur : Currency) (v : f64)
| OpReport (cur : Currency) (v : f64).

Definition lease_step `{!NetURL} (s : State) (op : lease_op) : State :=
  match op with
  | OpReserve now cap target debit =>
      match (ValidateAndDebit (Some s) now cap target debit).2 with Some s' => s' | None => s end
  | OpDebit cur v => (Debit s cur v).2
  | OpReport cur v => (Report s cur v).2
  end.

Definition lease_run `{!NetURL} (s : State) (ops : list lease_op) : State :=
  fold_left lease_step ops s.

Definition op_amount (op : lease_op) : f64 :=
  match op with
  | OpReserve _ _ _ debit => ba_Value debit
  | OpDebit _ v | OpReport _ v => v
  end.

(** The amount of the operation is a number that is not negative. *)
Definition amount_ok (op : lease_op) : bool := fle fzero (op_amount op).

Definition authorizes (op : lease_op) : bool :=
  match op with OpReport _ _ => false | _ => true end.

(** ** Invariant *)

(** Counters exist exactly for the currencies the lease budgets. *)
Definition state_wf (s : State) : Prop := dom (st_counters s) = dom (st_initialized s).

(** ** Lemmas *)

Lemma init_counters_dom pats c i :
  dom c = dom i → dom (init_counters pats c i).1 = dom (init_counters pats c i).2.
Proof.
  revert c i. induction pats as [|p pats IH]; intros c i H; [done|]. simpl.
  destruct (ParseBudgetAmount p); [|by apply IH].
  apply IH. rewrite !dom_insert_L, H. done.
Qed.

Lemma NewState_wf lease e : state_wf (NewState lease e).
Proof.
  unfold NewState, state_wf.
  pose proof (init_counters_dom (default [] (lease !! CapCostBudget)) ∅ ∅ eq_refl) as H.
  by destruct (init_counters _ ∅ ∅).
Qed.

(** One step either leaves the state alone or subtracts its amount from one
    budgeted counter. *)
Lemma lease_step_cases `{!NetURL} s op :
  lease_step s op = s ∨
  ∃ cur, is_Some (st_initialized s !! cur) ∧
    lease_step s op = set_counters s (<[cur := fsub (fget (st_counters s) cur) (op_amount op)]> (st_counters s)) ∧
    (authorizes op = true → flt (fsub (fget (st_counters s) cur) (op_amount op)) fzero = false) ∧
    (∀ now cap target debit, op = OpReserve now cap target debit → exhausted s = None).
Proof.
  destruct op as [now cap target [cur v]|cur v|cur v]; cbn [lease_step op_amount authorizes ba_Value];
    unfold ValidateAndDebit, Debit, Report; cbn [ba_Value ba_Currency];
    repeat (case_goal; cbn [snd]; auto); right; exists cur; split_and!; eauto; done.
Qed.

Lemma lease_step_wf `{!NetURL} s op : state_wf s → state_wf (lease_step s op).
Proof.
  unfold state_wf. intros Hs.
  destruct (lease_step_cases s op) as [->|(cur & Hi & -> & _)]; [done|].
  simpl. rewrite dom_insert_L, Hs. apply elem_of_dom in Hi. set_solver.
Qed.

Lemma lease_run_wf `{!NetURL} ops s : state_wf s → state_wf (lease_run s ops).
Proof. revert s. induction ops as [|op ops IH]; intros s Hs; simpl; [done|]. eauto using lease_step_wf. Qed.

(** The grant itself is immutable. *)
Lemma lease_run_grant `{!NetURL} ops s :
  st_lease (lease_run s ops) = st_lease s ∧ st_expiresAt (lease_run s ops) = st_expiresAt s ∧
  st_initialized (lease_run s ops) = st_initialized s.
Proof.
  revert s. induction ops as [|op ops IH]; intros s; simpl; [done|].
  destruct (IH (lease_step s op)) as (-> & -> & ->).
  by destruct (lease_step_cases s op) as [->|(cur & _ & -> & _)].
Qed.

Lemma exhausted_spec s :
  state_wf s →
  (∃ cur c, st_counters s !! cur = Some c ∧ fle c fzero = true) ↔ is_Some (exhausted s).
Proof.
  intros Hwf. unfold exhausted. split.
  - intros (cur & c & Hc & Hle).
    assert (0 < size (st_initialized s)) as Hsz.
    { assert (cur ∈ dom (st_initialized s)) as Hd.
      { unfold state_wf in Hwf. rewrite <-Hwf. by eapply elem_of_dom_2. }
      apply elem_of_dom in Hd as [x Hx].
      destruct (decide (st_initialized s = ∅)) as [He|He]; [by rewrite He in Hx|].
      apply map_size_non_empty_iff in He. lia. }
    apply Nat.ltb_lt in Hsz. rewrite Hsz.
    destruct (list_find _ (map_to_list (st_counters s))) as [[i [cur' c']]|] eqn:Hf; [by eexists|].
    apply list_find_None in Hf. rewrite Forall_forall in Hf.
    exfalso. apply (Hf (cur, c)); [by apply elem_of_map_to_list|done].
  - destruct (0 <? _)%nat; [|by intros [? ?]].
    destruct (list_find _ _) as [[i [cur c]]|] eqn:Hf; [|by intros [? ?]].
    intros _. apply list_find_Some in Hf as (Hi & Hle & _).
    apply list_elem_of_lookup_2, elem_of_map_to_list in Hi. eauto.
Qed.

(** ** Exhaustion is final *)

(** Some counter is at or below zero. *)
Definition spent (s : State) (cur : Currency) : Prop :=
  ∃ c, st_counters s !! cur = Some c ∧ fle c fzero = true.

Lemma lease_step_spent `{!NetURL} s op cur :
  amount_ok op = true → spent s cur → spent (lease_step s op) cur.
Proof.
  intros Ha (c & Hc & Hle).
  destruct (lease_step_cases s op) as [->|(cur' & _ & -> & _)]; [by exists c|].
  destruct (decide (cur' = cur)) as [->|Hne]; unfold spent; simpl.
  - rewrite lookup_insert_eq. eexists. split; [done|]. unfold fget. rewrite Hc. simpl.
    by apply fsub_nonpos.
  - rewrite lookup_insert_ne by done. eauto.
Qed.

Lemma lease_run_spent `{!NetURL} ops s cur :
  forallb amount_ok ops = true → spent s cur → spent (lease_run s ops) cur.
Proof.
  revert s. induction ops as [|op ops IH]; intros s Ho Hs; simpl in *; [done|].
  apply andb_true_iff in Ho as [Ho1 Ho2]. eauto using lease_step_spent.
Qed.

Lemma spent_exhausted s cur : state_wf s → spent s cur → ∃ c, exhausted s = Some c.
Proof. intros Hwf (c & Hc & Hle). apply (exhausted_spec s Hwf). eauto. Qed.

Lemma ValidateOp_exhausted `{!NetURL} s now cap target c :
  exhausted s = Some c → ∃ err, ValidateOp (Some s) now cap target = Some err.
Proof. intros E. unfold ValidateOp. rewrite E. repeat case_goal; eauto. Qed.

(** ** Reservations cannot overdraw *)

(** No counter is negative (or NaN). *)
Definition solvent (s : State) : Prop :=
  ∀ cur c, st_counters s !! cur = Some c → fle fzero c = true.

Definition finite_amount (op : lease_op) : bool := amount_ok op && is_finite (op_amount op).

Lemma fsub_solvent c v :
  fle fzero c = true → is_finite v = true → flt (fsub c v) fzero = false → fle fzero (fsub c v) = true.
Proof.
  intros Hc Hv Hlt. apply flt_zero_false; [done|].
  destruct c as [s|[]| |s m e]; try done; [by apply fsub_not_nan| |by apply fsub_not_nan].
  by destruct v as [|[]| |[]].
Qed.

Lemma lease_step_solvent `{!NetURL} s op :
  finite_amount op = true → authorizes op = true → state_wf s → solvent s → solvent (lease_step s op).
Proof.
  intros Ha Hauth Hwf Hs. unfold finite_amount in Ha. apply andb_true_iff in Ha as [Ha Hf].
  destruct (lease_step_cases s op) as [->|(cur' & Hi & -> & Hg & _)]; [done|].
  intros cur c. simpl. destruct (decide (cur' = cur)) as [->|Hne].
  - rewrite lookup_insert_eq. intros [= <-]. apply fsub_solvent; auto.
    assert (cur ∈ dom (st_counters s)) as Hd.
    { unfold state_wf in Hwf. rewrite Hwf. by apply elem_of_dom. }
    apply elem_of_dom in Hd as [c Hc]. unfold fget. rewrite Hc. simpl. eauto.
  - rewrite lookup_insert_ne by done. apply Hs.
Qed.

Lemma lease_run_solvent `{!NetURL} ops s :
  forallb finite_amount ops = true → forallb authorizes ops = true →
  state_wf s → solvent s → solvent (lease_run s ops).
Proof.
  revert s. induction ops as [|op ops IH]; intros s Ho Ha Hwf Hs; simpl in *; [done|].
  apply andb_true_iff in Ho as [? ?], Ha as [? ?].
  apply IH; auto using lease_step_wf, lease_step_solvent.
Qed.

(** ** Properties *)


(** A spent budget stays spent.  Once a counter is at or below zero, no
    sequence of reservations, debits and reports of non-negative amounts
    makes any later [ValidateOp] or [ValidateAndDebit] succeed. *)
Theorem budget_exhaustion_final `{!NetURL} (s : State) (cur : Currency) (ops : list lease_op)
    (Hwf : state_wf s) (Hspent : spent s cur) (Hamt : forallb amount_ok ops = true) :
  (∀ now cap target, ValidateOp (Some (lease_run s ops)) now cap target ≠ None) ∧
  (∀ now cap target debit,
     ∃ r err, ValidateAndDebit (Some (lease_run s ops)) now cap target debit
              = (r, Some err, Some (lease_run s ops))).
Proof.
  destruct (spent_exhausted (lease_run s ops) cur) as [c Hc];
    eauto using lease_run_wf, lease_run_spent. split.
  - intros now cap target. by destruct (ValidateOp_exhausted _ now cap target c Hc) as [err ->].
  - intros now cap target [cr v]. unfold ValidateAndDebit. rewrite Hc. repeat case_goal; eauto.
Qed.

(** C16: authorising operations cannot overdraw.  From a state with no negative
    counter, no sequence of [ValidateAndDebit] and [Debit] calls with finite
    non-negative amounts makes a counter negative. *)
Theorem reservations_never_overdraw `{!NetURL} (s : State) (ops : list lease_op)
    (Hwf : state_wf s) (Hs : solvent s)
    (Hamt : forallb finite_amount ops = true) (Hauth : forallb authorizes ops = true) :
  ∀ cur c, st_counters (lease_run s ops) !! cur = Some c → flt c fzero = false.
Proof.
  intros cur c Hc. pose proof (lease_run_solvent ops s Hamt Hauth Hwf Hs cur c Hc) as Hle.
  by destruct c as [|[]| |[]].
Qed.


(** The debit is charged: a non-zero amount in a currency the lease budgets. *)
Definition charged (s : State) (debit : BudgetAmount) : bool :=
  negb (feq (ba_Value debit) fzero) && negb (bool_decide (ba_Currency debit = "")) &&
  bool_decide (is_Some (st_initialized s !! ba_Currency debit)).

(** [ValidateAndDebit] is all or nothing.  A call that returns an error
    leaves the state unchanged; a call that succeeds passed every check of
    [ValidateOp], and when it charges a budgeted currency exactly that counter
    falls by the amount, stays out of the negatives, and is the balance the
    call returns. *)
Theorem ValidateAndDebit_atomic `{!NetURL} (s : State) (now : Time) (cap : Capability)
    (target : string) (debit : BudgetAmount) :
  match ValidateAndDebit (Some s) now cap target debit with
  | (_, Some _, s') => s' = Some s
  | (r, None, s') =>
      ValidateOp (Some s) now cap target = None ∧
      if charged s debit then
        s' = Some (set_counters s (<[ba_Currency debit := r]> (st_counters s))) ∧
        r = fsub (fget (st_counters s) (ba_Currency debit)) (ba_Value debit) ∧
        flt r fzero = false
      else s' = Some s
  end.
Proof.
  destruct debit as [cur v].
  unfold ValidateAndDebit, ValidateOp, charged. cbn [ba_Value ba_Currency].
  destruct (flt v fzero); [done|]. destruct (expired s now); [done|].
  destruct (matches s cap target); [|done]. cbn [negb]. destruct (exhausted s); [done|].
  destruct (feq v fzero); [done|]. destruct (bool_decide (cur = "")); [done|]. cbn [orb negb andb].
  destruct (st_initialized s !! cur) eqn:Hi.
  - destruct (flt (fsub _ _) fzero) eqn:Hlt; [done|]. rewrite bool_decide_eq_true_2 by eauto. done.
  - rewrite bool_decide_eq_false_2; [done|]. by intros [? ?].
Qed.

(** ** What the amount grammar lets through *)

(** the delegation check accepts a NaN budget.  [ParseBudgetAmount] reads
    [USD:NaN] as an amount, and because every comparison with NaN is false the
    child lease that carries it is accepted under any parent with a USD
    balance, however small. *)
Theorem IsLeaseSubset_accepts_nan (parent : Lease) (rem : gmap Currency f64) (r : f64)
    (pe : option Time) (Hrem : rem !! "USD" = Some r) :
  ParseBudgetAmount "USD:NaN" = Ok (mkBudget "USD" S754_nan) ∧
  IsLeaseSubset parent {[CapCostBudget := ["USD:NaN"]]} rem pe None = None.
Proof.
  assert (ParseBudgetAmount "USD:NaN" = Ok (mkBudget "USD" S754_nan)) as Hp
    by (vm_compute; reflexivity).
  split; [done|]. unfold IsLeaseSubset, IsLeaseSubset_order. rewrite map_to_list_singleton.
  cbn [subset_entries]. rewrite bool_decide_eq_true_2 by done. cbn [subset_budget].
  rewrite Hp. cbn [ba_Currency ba_Value]. rewrite Hrem. by destruct r as [|[]| |[]].
Qed.

(** Every counter is NaN. *)
Definition all_nan (s : State) : Prop := ∀ cur c, st_counters s !! cur = Some c → c = S754_nan.

Lemma lease_step_all_nan `{!NetURL} s op : state_wf s → all_nan s → all_nan (lease_step s op).
Proof.
  intros Hwf Hs. destruct (lease_step_cases s op) as [->|(cur' & Hi & -> & _)]; [done|].
  intros cur c. simpl. destruct (decide (cur' = cur)) as [->|Hne].
  - rewrite lookup_insert_eq. intros [= <-].
    apply elem_of_dom in Hi. unfold state_wf in Hwf. rewrite <-Hwf in Hi.
    apply elem_of_dom in Hi as [x Hx]. unfold fget. rewrite Hx. simpl. by rewrite (Hs _ _ Hx).
  - rewrite lookup_insert_ne by done. apply Hs.
Qed.

Lemma lease_run_all_nan `{!NetURL} ops s : state_wf s → all_nan s → all_nan (lease_run s ops).
Proof.
  revert s. induction ops as [|op ops IH]; intros s Hwf Hs; simpl; [done|].
  apply IH; auto using lease_step_wf, lease_step_all_nan.
Qed.

Lemma NewState_nan lease e :
  lease !! CapCostBudget = Some ["USD:NaN"] → all_nan (NewState lease e).
Proof.
  intros Hl cur c. unfold NewState. rewrite Hl. change (default [] (Some ["USD:NaN"])) with ["USD:NaN"]. cbn [init_counters].
  assert (ParseBudgetAmount "USD:NaN" = Ok (mkBudget "USD" S754_nan)) as ->
    by (vm_compute; reflexivity).
  cbn [ba_Currency ba_Value st_counters]. intros Hc.
  apply lookup_insert_Some in Hc as [[_ <-]|[_ Hc]]; done.
Qed.

(** a NaN budget is never exhausted.  A job whose lease budgets NaN USD
    passes the budget gate of [ValidateOp] after any sequence of charges and
    reports, whatever their amounts. *)
Theorem nan_budget_never_exhausted `{!NetURL} (lease : Lease) (e : option Time)
    (ops : list lease_op) (Hl : lease !! CapCostBudget = Some ["USD:NaN"]) :
  exhausted (lease_run (NewState lease e) ops) = None.
Proof.
  pose proof (lease_run_wf ops _ (NewState_wf lease e)) as Hwf.
  pose proof (lease_run_all_nan ops _ (NewState_wf lease e) (NewState_nan lease e Hl)) as Hn.
  destruct (exhausted _) as [c|] eqn:E; [|done].
  destruct (proj2 (exhausted_spec _ Hwf) (mk_is_Some _ _ E)) as (cur & x & Hx & Hle).
  by rewrite (Hn _ _ Hx) in Hle.
Qed.

(** the delegation check compares each budget entry on its own, but
    [NewState] adds the entries of one currency.  A child lease with two
    entries of 5 USD is accepted under a parent with 5 USD left, and the
    child's state starts with a counter of 10 USD. *)
Theorem IsLeaseSubset_budget_not_summed (parent : Lease) :
  let child : Lease := {[CapCostBudget := ["USD:5"; "USD:5"]]} in
  IsLeaseSubset parent child {["USD" := f_of_Z 5]} None None = None ∧
  st_counters (NewState child None) !! "USD" = Some (f_of_Z 10) ∧
  flt (f_of_Z 5) (f_of_Z 10) = true.
Proof. split_and!; vm_compute; reflexivity. Qed.

(** ** Witnesses *)

(** A concrete [net/url]: the path is everything. *)
Definition plain_url : NetURL := {|
  url_Parse := λ s, Ok (mkURL "" "" s "");
  url_String := λ u, u_Path u;
  strings_ToLower := λ s, s |}.

Definition demo_lease : Lease :=
  {[CapToolCall := ["search.*"]; CapCostBudget := ["USD:1"]]}.

Definition demo_state : State := NewState demo_lease None.

Definition half : f64 := fdiv (f_of_Z 1) (f_of_Z 2).

Definition demo_spent : State := (Report demo_state "USD" (f_of_Z 3)).2.


Lemma budget_exhaustion_final_witness :
  @ValidateOp plain_url (Some (@lease_run plain_url demo_spent [OpDebit "USD" half])) 0%Z CapToolCall "search.web" ≠ None.
Proof.
  apply (@budget_exhaustion_final plain_url demo_spent "USD" [OpDebit "USD" half]).
  - vm_compute. reflexivity.
  - eexists. split; vm_compute; reflexivity.
  - vm_compute. reflexivity.
Defined.

Definition demo_ops : list lease_op :=
  [OpReserve 0%Z CapToolCall "search.web" (mkBudget "USD" half); OpDebit "USD" half; OpDebit "USD" half].

Lemma reservations_never_overdraw_witness :
  ∃ c, st_counters (@lease_run plain_url demo_state demo_ops) !! "USD" = Some c ∧ flt c fzero = false.
Proof.
  destruct (st_counters (@lease_run plain_url demo_state demo_ops) !! "USD") as [c|] eqn:Hc;
    [|exfalso; vm_compute in Hc; discriminate].
  exists c. split; [reflexivity|]. apply (@reservations_never_overdraw plain_url demo_state demo_ops) with "USD".
  - vm_compute. reflexivity.
  - intros cur x. change (st_counters demo_state) with ({["USD" := f_of_Z 1]} : gmap string f64).
    intros [_ <-]%lookup_singleton_Some. reflexivity.
  - vm_compute. reflexivity.
  - vm_compute. reflexivity.
  - exact Hc.
Defined.


Lemma IsLeaseSubset_accepts_nan_witness :
  IsLeaseSubset ∅ {[CapCostBudget := ["USD:NaN"]]} {["USD" := half]} None None = None.
Proof.
  apply (IsLeaseSubset_accepts_nan ∅ {["USD" := half]} half None). vm_compute. reflexivity.
Defined.

Lemma nan_budget_never_exhausted_witness :
  exhausted (@lease_run plain_url (NewState {[CapCostBudget := ["USD:NaN"]]} None)
               [OpReport "USD" (f_of_Z 1000000)]) = None.
Proof. apply (@nan_budget_never_exhausted plain_url). vm_compute. reflexivity. Defined.
