(* ===== verification/Messages.v ===== *)
(** * Messages

    Models envelope.go and the package messages: the wire envelope, the typed
    payloads, the event bodies with their validation, the registry of message
    types and the agent reference grammar.

    The payload of an envelope is the value its bytes decode to at the type the
    envelope announces (every handler decodes the payload at the type of its
    envelope); bytes that do not decode are [PRaw].  Encoding fails when a
    [float64] of the value is NaN or an infinity, as [encoding/json] documents.
    The JSON text of these values is in the file Wire. *)

From S2P Require Import Prelude GoStrings Errors Features Float64 Lease.
From Stdlib Require Import ZArith Ascii SpecFloat.

(** ** Tokens (messages/types.go) *)

Definition TypeSessionHello := "session.hello".
Definition TypeSessionWelcome := "session.welcome".
Definition TypeSessionError := "session.error".
Definition TypeSessionClose := "session.close".
Definition TypeSessionClosed := "session.closed".
Definition TypeSessionPing := "session.ping".
Definition TypeSessionPong := "session.pong".
Definition TypeSessionAck := "session.ack".
Definition TypeSessionListJobs := "session.list_jobs".
Definition TypeSessionJobs := "session.jobs".
Definition TypeJobSubmit := "job.submit".
Definition TypeJobAccepted := "job.accepted".
Definition TypeJobEvent := "job.event".
Definition TypeJobResult := "job.result".
Definition TypeJobError := "job.error".
Definition TypeJobCancel := "job.cancel".
Definition TypeJobCancelled := "job.cancelled".
Definition TypeJobSubscribe := "job.subscribe".
Definition TypeJobSubscribed := "job.subscribed".
Definition TypeJobUnsubscribe := "job.unsubscribe".

Definition KindLog := "log".
Definition KindThought := "thought".
Definition KindToolCall := "tool_call".
Definition KindToolResult := "tool_result".
Definition KindStatus := "status".
Definition KindMetric := "metric".
Definition KindArtifactRef := "artifact_ref".
Definition KindDelegate := "delegate".
Definition KindProgress := "progress".
Definition KindResultChunk := "result_chunk".

Definition StatusPending := "pending".
Definition StatusRunning := "running".
Definition StatusSuccess := "success".
Definition StatusError := "error".
Definition StatusCancelled := "cancelled".
Definition StatusTimedOut := "timed_out".

Definition PhaseCredentialRotated := "credential_rotated".

(** ** Session payloads (messages/session.go) *)

Record ResumeRequest := mkResumeRequest {
  rr_SessionID : string;
  rr_ResumeToken : string;
  rr_LastEventSeq : Z
}.

Record HelloCapabilities := mkHelloCaps { hc_Encodings : list string; hc_Features : list string }.

Record SessionHello := mkHello {
  sh_ClientName : string;
  sh_ClientVersion : string;
  sh_AuthScheme : string;
  sh_AuthToken : string;
  sh_Capabilities : HelloCapabilities;
  sh_Resume : option ResumeRequest
}.

Record AgentEntry := mkAgentEntry {
  ae_Name : string;
  ae_Versions : list string;
  ae_Default : string;
  ae_Bare : bool
}.

Record SessionWelcome := mkWelcome {
  sw_RuntimeName : string;
  sw_RuntimeVersion : string;
  sw_ResumeToken : string;
  sw_ResumeWindowSec : Z;
  sw_HeartbeatIntervalSec : Z;
  sw_Encodings : list string;
  sw_Features : list string;
  sw_Agents : list AgentEntry
}.

Record SessionErrorMsg := mkSessionError {
  se_Code : ErrorCode;
  se_Message : string;
  se_Retryable : bool;
  se_Details : gmap string any;
  se_RequestID : string;
  se_JobID : string
}.

Record ListJobsFilter := mkFilter {
  f_Status : list string;
  f_Agent : string;
  f_CreatedAfter : option Time;
  f_CreatedBefore : option Time
}.

Record SessionListJobs := mkListJobs { lj_Filter : ListJobsFilter; lj_Limit : Z; lj_Cursor : string }.

Record JobInfo := mkJobInfo {
  ji_JobID : string;
  ji_Agent : string;
  ji_Status : string;
  ji_Lease : Lease;
  ji_ParentJobID : string;
  ji_CreatedAt : Time;
  ji_TraceID : string;
  ji_LastEventSeq : Z
}.

Record SessionJobs := mkJobs { sj_RequestID : string; sj_Jobs : list JobInfo; sj_NextCursor : string }.

(** ** Job payloads (messages/job.go) *)

(** A timestamp of the wire: the instant and its zone offset in seconds. *)
Record ZonedTime := mkZoned { zt_instant : Time; zt_offset : Z }.

Record LeaseConstraints := mkConstraints { lc_ExpiresAt : option ZonedTime }.

Record JobSubmit := mkSubmit {
  js_Agent : string;
  js_Input : string;
  js_LeaseRequest : Lease;
  js_LeaseConstraints : option LeaseConstraints;
  js_IdempotencyKey : string;
  js_MaxRuntimeSec : Z
}.

Record CredentialConstraints := mkCredConstraints {
  cc_CostBudget : list string;
  cc_ModelUse : list string;
  cc_ExpiresAt : option Time
}.

Record Credential := mkCredential {
  cr_ID : string;
  cr_Scheme : string;
  cr_Value : string;
  cr_Endpoint : string;
  cr_Profile : string;
  cr_Constraints : option CredentialConstraints
}.

Record JobAccepted := mkAccepted {
  ja_JobID : string;
  ja_Lease : Lease;
  ja_LeaseConstraints : option LeaseConstraints;
  ja_Budget : gmap Currency f64;
  ja_Credentials : list Credential;
  ja_AcceptedAt : Time;
  ja_TraceID : string;
  ja_ParentJobID : string;
  ja_Agent : string
}.

Record JobResult := mkResult {
  jr_FinalStatus : string;
  jr_Output : string;
  jr_ResultID : string;
  jr_ResultSize : Z;
  jr_Summary : string
}.

Record JobErrorMsg := mkJobError {
  je_FinalStatus : string;
  je_Code : ErrorCode;
  je_Message : string;
  je_Retryable : bool;
  je_Details : gmap string any
}.

Record JobSubscribe := mkSubscribe { sb_JobID : string; sb_FromEventSeq : Z; sb_History : bool }.

Record JobSubscribed := mkSubscribed {
  sd_JobID : string;
  sd_CurrentStatus : string;
  sd_Agent : string;
  sd_Lease : Lease;
  sd_ParentJobID : string;
  sd_TraceID : string;
  sd_SubscribedFrom : Z;
  sd_Replayed : bool
}.

(** ** Event bodies (messages/event.go) *)

Record ToolError := mkToolError {
  te_Code : ErrorCode;
  te_Message : string;
  te_Retryable : bool;
  te_Details : gmap string any
}.

Record ToolResultBody := mkToolResult { tr_CallID : string; tr_Result : string; tr_Error : option ToolError }.
Record StatusBody := mkStatus { sb_Phase : string; sb_Message : string; sb_Details : gmap string any }.
Record MetricBody := mkMetric {
  mb_Name : string;
  mb_Value : f64;
  mb_Unit : string;
  mb_Dimensions : gmap string string
}.
Record ProgressBody := mkProgress { pb_Current : Z; pb_Total : Z; pb_Units : string; pb_Message : string }.
Record ResultChunkBody := mkChunk {
  rc_ResultID : string;
  rc_ChunkSeq : Z;
  rc_Data : string;
  rc_Encoding : string;
  rc_More : bool
}.

Inductive event_body :=
| BLog (level message : string) (fields : gmap string any)
| BThought (text : string)
| BToolCall (tool args callID : string)
| BToolResult (b : ToolResultBody)
| BStatus (b : StatusBody)
| BMetric (b : MetricBody)
| BArtifactRef (uri contentType : string) (byteSize : Z) (sha256 : string)
| BDelegate (childJobID agent : string) (lease : Lease)
| BProgress (b : ProgressBody)
| BResultChunk (b : ResultChunkBody)
| BRaw (bytes : string).

Record JobEvent := mkEvent { ev_Kind : string; ev_TS : Time; ev_Body : event_body }.

(** The kind of a typed body. *)
Definition body_kind (b : event_body) : option string :=
  match b with
  | BLog _ _ _ => Some KindLog
  | BThought _ => Some KindThought
  | BToolCall _ _ _ => Some KindToolCall
  | BToolResult _ => Some KindToolResult
  | BStatus _ => Some KindStatus
  | BMetric _ => Some KindMetric
  | BArtifactRef _ _ _ _ => Some KindArtifactRef
  | BDelegate _ _ _ => Some KindDelegate
  | BProgress _ => Some KindProgress
  | BResultChunk _ => Some KindResultChunk
  | BRaw _ => None
  end.

(** The bodies with a [Validate] method. *)
Definition ToolResultBody_Validate (b : ToolResultBody) : option error :=
  let hasResult := (0 <? len (tr_Result b))%nat && negb (bool_decide (tr_Result b = "null")) in
  let hasError := bool_decide (is_Some (tr_Error b)) in
  if Bool.eqb hasResult hasError then
    Some (arcp_err ErrInvalidRequest "tool_result body must carry exactly one of result or error")
  else None.

Definition ProgressBody_Validate (b : ProgressBody) : option error :=
  if negb (pb_Total b =? 0)%Z && (pb_Total b <? pb_Current b)%Z then
    Some (arcp_err ErrInvalidRequest "progress current must be <= total when total is set")
  else None.

Definition ResultChunkBody_Validate (b : ResultChunkBody) : option error :=
  if bool_decide (rc_ResultID b = "") then
    Some (arcp_err ErrInvalidRequest "result_chunk result_id is required")
  else if bool_decide (rc_Encoding b = "utf8") || bool_decide (rc_Encoding b = "base64") then None
  else Some (arcp_err ErrInvalidRequest "result_chunk encoding must be utf8 or base64").

(** ** Payloads and envelopes (envelope.go) *)

Inductive payload :=
| PNil
| PRaw (bytes : string)
| PHello (p : SessionHello)
| PWelcome (p : SessionWelcome)
| PSessionError (p : SessionErrorMsg)
| PClose (reason : string)
| PClosed (reason : string)
| PPing (nonce : string) (sentAt : Time)
| PPong (nonce : string) (receivedAt : Time)
| PAck (lastProcessedSeq : N)
| PListJobs (p : SessionListJobs)
| PJobs (p : SessionJobs)
| PSubmit (p : JobSubmit)
| PAccepted (p : JobAccepted)
| PEvent (p : JobEvent)
| PResult (p : JobResult)
| PJobError (p : JobErrorMsg)
| PCancel (reason : string)
| PCancelled (jobID reason : string)
| PSubscribe (p : JobSubscribe)
| PSubscribed (p : JobSubscribed)
| PUnsubscribe (jobID : string).

(** The method [ARCPType] of the payload structs. *)
Definition ARCPType (p : payload) : option string :=
  match p with
  | PNil | PRaw _ => None
  | PHello _ => Some TypeSessionHello
  | PWelcome _ => Some TypeSessionWelcome
  | PSessionError _ => Some TypeSessionError
  | PClose _ => Some TypeSessionClose
  | PClosed _ => Some TypeSessionClosed
  | PPing _ _ => Some TypeSessionPing
  | PPong _ _ => Some TypeSessionPong
  | PAck _ => Some TypeSessionAck
  | PListJobs _ => Some TypeSessionListJobs
  | PJobs _ => Some TypeSessionJobs
  | PSubmit _ => Some TypeJobSubmit
  | PAccepted _ => Some TypeJobAccepted
  | PEvent _ => Some TypeJobEvent
  | PResult _ => Some TypeJobResult
  | PJobError _ => Some TypeJobError
  | PCancel _ => Some TypeJobCancel
  | PCancelled _ _ => Some TypeJobCancelled
  | PSubscribe _ => Some TypeJobSubscribe
  | PSubscribed _ => Some TypeJobSubscribed
  | PUnsubscribe _ => Some TypeJobUnsubscribe
  end.

Record Envelope := mkEnvelope {
  ARCP : string;
  env_ID : string;
  env_Type : string;
  env_SessionID : string;
  env_JobID : string;
  env_TraceID : string;
  env_EventSeq : Z;
  env_Payload : payload
}.

Definition set_session (e : Envelope) (id : string) : Envelope :=
  mkEnvelope (ARCP e) (env_ID e) (env_Type e) id (env_JobID e) (env_TraceID e) (env_EventSeq e) (env_Payload e).
Definition set_job (e : Envelope) (id : string) : Envelope :=
  mkEnvelope (ARCP e) (env_ID e) (env_Type e) (env_SessionID e) id (env_TraceID e) (env_EventSeq e) (env_Payload e).
Definition set_trace (e : Envelope) (id : string) : Envelope :=
  mkEnvelope (ARCP e) (env_ID e) (env_Type e) (env_SessionID e) (env_JobID e) id (env_EventSeq e) (env_Payload e).
Definition set_seq (e : Envelope) (n : Z) : Envelope :=
  mkEnvelope (ARCP e) (env_ID e) (env_Type e) (env_SessionID e) (env_JobID e) (env_TraceID e) n (env_Payload e).

Definition Envelope_Validate (e : Envelope) : option error :=
  if negb (bool_decide (ARCP e = ProtocolVersion)) then
    Some (arcp_err ErrInvalidRequest "envelope arcp must be 1.1")
  else if bool_decide (env_ID e = "") then
    Some (arcp_err ErrInvalidRequest "envelope id is required")
  else if bool_decide (env_Type e = "") then
    Some (arcp_err ErrInvalidRequest "envelope type is required")
  else None.

(** A payload of the struct a message type names, an event body of the kind its
    event names. *)
Definition payload_typed (typ : string) (p : payload) : Prop :=
  ARCPType p = Some typ ∧
  match p with PEvent ev => body_kind (ev_Body ev) = Some (ev_Kind ev) | _ => True end.

(** An envelope that passes [Validate] and whose payload has its type. *)
Definition well_typed (e : Envelope) : Prop :=
  Envelope_Validate e = None ∧ payload_typed (env_Type e) (env_Payload e).

(** [json.Marshal] succeeds: no NaN and no infinity in the value. *)
Definition json_ok_body (b : event_body) : bool :=
  match b with BMetric m => is_finite (mb_Value m) | _ => true end.

Definition json_ok (p : payload) : bool :=
  match p with
  | PAccepted a => bool_decide (map_Forall (λ _ v, is_finite v = true) (ja_Budget a))
  | PEvent e => json_ok_body (ev_Body e)
  | _ => true
  end.

Definition err_marshal : error := arcp_err ErrInvalidRequest "payload marshal: json: unsupported value".
Definition err_decode : error := arcp_err ErrInvalidRequest "payload decode".

Definition MarshalPayload (p : payload) : res payload :=
  match p with
  | PNil => Ok PNil
  | PRaw b => Ok (PRaw b)
  | _ => if json_ok p then Ok p else Err err_marshal
  end.

(** [NewEnvelope], given the id [NewEnvelopeID] drew. *)
Definition NewEnvelope (id typ : string) (p : payload) : res Envelope :=
  match MarshalPayload p with
  | Err e => Err e
  | Ok body => Ok (mkEnvelope ProtocolVersion id typ "" "" "" 0 body)
  end.

(** [DecodePayload] at each request type: an empty payload leaves the zero
    value, bytes that do not decode are an INVALID_REQUEST error. *)
Definition decode_hello (p : payload) : res SessionHello :=
  match p with
  | PNil => Ok (mkHello "" "" "" "" (mkHelloCaps [] []) None)
  | PHello h => Ok h
  | _ => Err err_decode
  end.
Definition decode_ping (p : payload) : res string :=
  match p with PNil => Ok "" | PPing n _ => Ok n | _ => Err err_decode end.
Definition decode_ack (p : payload) : res N :=
  match p with PNil => Ok 0%N | PAck n => Ok n | _ => Err err_decode end.
Definition decode_list_jobs (p : payload) : res SessionListJobs :=
  match p with
  | PNil => Ok (mkListJobs (mkFilter [] "" None None) 0 "")
  | PListJobs r => Ok r
  | _ => Err err_decode
  end.
Definition decode_close (p : payload) : res string :=
  match p with PNil => Ok "" | PClose r => Ok r | _ => Err err_decode end.
Definition decode_submit (p : payload) : res JobSubmit :=
  match p with
  | PNil => Ok (mkSubmit "" "" ∅ None "" 0)
  | PSubmit r => Ok r
  | _ => Err err_decode
  end.
Definition decode_cancel (p : payload) : res string :=
  match p with PNil => Ok "" | PCancel r => Ok r | _ => Err err_decode end.
Definition decode_subscribe (p : payload) : res JobSubscribe :=
  match p with
  | PNil => Ok (mkSubscribe "" 0 false)
  | PSubscribe r => Ok r
  | _ => Err err_decode
  end.
Definition decode_unsubscribe (p : payload) : res string :=
  match p with PNil => Ok "" | PUnsubscribe j => Ok j | _ => Err err_decode end.
Definition decode_event (p : payload) : res JobEvent :=
  match p with
  | PNil => Ok (mkEvent "" zero_time (BRaw ""))
  | PEvent e => Ok e
  | _ => Err err_decode
  end.

(** ** The registry of message types *)

(** The payload structs that register themselves, by name. *)
Definition message_types : list (string * string) :=
  [(TypeSessionHello, "SessionHello"); (TypeSessionWelcome, "SessionWelcome");
   (TypeSessionError, "SessionError"); (TypeSessionClose, "SessionClose");
   (TypeSessionClosed, "SessionClosed"); (TypeSessionPing, "SessionPing");
   (TypeSessionPong, "SessionPong"); (TypeSessionAck, "SessionAck");
   (TypeSessionListJobs, "SessionListJobs"); (TypeSessionJobs, "SessionJobs");
   (TypeJobSubmit, "JobSubmit"); (TypeJobAccepted, "JobAccepted");
   (TypeJobEvent, "JobEvent"); (TypeJobResult, "JobResult"); (TypeJobError, "JobError");
   (TypeJobCancel, "JobCancel"); (TypeJobCancelled, "JobCancelled");
   (TypeJobSubscribe, "JobSubscribe"); (TypeJobSubscribed, "JobSubscribed");
   (TypeJobUnsubscribe, "JobUnsubscribe")].

(** [RegisterMessageType]; [None] is the panic on an empty or duplicate type. *)
Definition RegisterMessageType (registry : gmap string string) (t struct : string) : option (gmap string string) :=
  if bool_decide (t = "") then None
  else match registry !! t with
       | Some _ => None
       | None => Some (<[t := struct]> registry)
       end.

Definition init_registry : option (gmap string string) :=
  fold_left (λ r p, match r with Some r => RegisterMessageType r p.1 p.2 | None => None end)
            message_types (Some ∅).

Definition NewPayloadForType (registry : gmap string string) (typ : string) : option string := registry !! typ.

(** [RegisteredTypes], in the order of the [n]-th iteration over the map. *)
Definition RegisteredTypes `{MapOrder} (n : nat) (registry : gmap string string) : list string :=
  order_keys n (map_to_list registry).*1.

(** ** Agent references (messages/agent.go) *)

Record AgentRef := mkRef { ref_Name : string; ref_Version : string }.

Definition AgentRef_String (a : AgentRef) : string :=
  if bool_decide (ref_Version a = "") then ref_Name a
  else ref_Name a +:+ "@" +:+ ref_Version a.

Definition name_head (c : ascii) : bool := is_lower c || is_digit c.
Definition name_tail (c : ascii) : bool :=
  is_lower c || is_digit c ||
  (bool_decide (c = "."%char) || bool_decide (c = "_"%char) || bool_decide (c = "-"%char)).

Definition validAgentName (s : string) : bool :=
  match s with
  | EmptyString => false
  | String c0 s => name_head c0 && sforallb name_tail s
  end.

Definition version_char (c : ascii) : bool :=
  is_lower c || is_upper c || is_digit c ||
  (bool_decide (c = "."%char) || bool_decide (c = "_"%char) ||
   bool_decide (c = "-"%char) || bool_decide (c = "+"%char)).

Definition validAgentVersion (s : string) : bool :=
  match s with
  | EmptyString => false
  | _ => sforallb version_char s
  end.

(** [strings.SplitN(s, "@", 2)] has a second part when the separator occurs. *)
Definition ParseAgentRef (s : string) : res AgentRef :=
  if bool_decide (s = "") then Err (arcp_err ErrInvalidRequest "agent must be non-empty")
  else
    let '(name, version) :=
      match IndexByte s "@" with
      | None => (s, None)
      | Some i => (stake i s, Some (sdrop (i + 1) s))
      end in
    if negb (validAgentName name) then
      Err (arcp_err ErrInvalidRequest "agent name does not match [a-z0-9][a-z0-9._-]*")
    else match version with
         | None => Ok (mkRef name "")
         | Some v =>
             if negb (validAgentVersion v) then
               Err (arcp_err ErrInvalidRequest "agent version does not match [a-zA-Z0-9.+_-]+")
             else Ok (mkRef name v)
         end.

(** ** Lemmas *)

Lemma NewEnvelope_Ok id typ p env :
  NewEnvelope id typ p = Ok env →
  env = mkEnvelope ProtocolVersion id typ "" "" "" 0 p ∧ json_ok p = true.
Proof.
  unfold NewEnvelope, MarshalPayload. intros H.
  destruct p; simplify_eq/=; try done; case_in H; simplify_eq; done.
Qed.

(** A payload built for its type makes a well-typed envelope. *)
Lemma NewEnvelope_typed id typ p env :
  NewEnvelope id typ p = Ok env → id ≠ "" → payload_typed typ p → well_typed env.
Proof.
  intros H Hid Hp. apply NewEnvelope_Ok in H as [-> _]. split; [|exact Hp]. unfold Envelope_Validate. cbn [ARCP env_ID env_Type].
  rewrite (bool_decide_eq_true_2 (ProtocolVersion = ProtocolVersion)) by done. cbn [negb].
  rewrite (bool_decide_eq_false_2 (id = "")) by done. destruct Hp as [Ht _].
  rewrite bool_decide_eq_false_2; [done|]. intros ->. by destruct p.
Qed.

Lemma IndexByte_Some s c i : IndexByte s c = Some i → ∃ a b, s = a +:+ String c b ∧ len a = i ∧ sin c a = false.
Proof.
  revert i. induction s as [|x s IH]; intros i; simpl; [done|].
  case_bool_decide as Hx.
  - subst. intros [= <-]. by exists "", s.
  - destruct (IndexByte s c) as [j|]; [|done]. intros [= <-].
    destruct (IH j eq_refl) as (a & b & -> & <- & Ha). exists (String x a), b.
    split_and!; try done. simpl. by rewrite bool_decide_eq_false_2.
Qed.

Lemma IndexByte_app a c b : sin c a = false → IndexByte (a +:+ String c b) c = Some (len a).
Proof.
  induction a as [|x a IH]; intros H.
  - change (IndexByte (String c b) c = Some 0). simpl. by rewrite bool_decide_eq_true_2.
  - simpl in H. apply orb_false_iff in H as [Hx Ha]. rewrite sapp_cons.
    cbn [IndexByte len String.length]. rewrite (IH Ha).
    apply bool_decide_eq_false in Hx. by rewrite bool_decide_eq_false_2.
Qed.

Lemma IndexByte_None s c : sin c s = false → IndexByte s c = None.
Proof.
  induction s as [|x s IH]; simpl; [done|]. intros H. apply orb_false_iff in H as [Hx Hs].
  by rewrite Hx, (IH Hs).
Qed.

Lemma sforallb_sin f c s : sforallb f s = true → f c = false → sin c s = false.
Proof.
  intros Hs Hc. induction s as [|x s IH]; [done|]. simpl in *.
  apply andb_true_iff in Hs as [Hx Hs]. rewrite (IH Hs), orb_false_r.
  apply bool_decide_eq_false. intros ->. congruence.
Qed.

Lemma validAgentName_no_at s : validAgentName s = true → sin "@" s = false.
Proof.
  destruct s as [|c s]; [done|]. simpl. intros H. apply andb_true_iff in H as [Hc Hs].
  apply orb_false_iff. split.
  - apply bool_decide_eq_false. intros ->. done.
  - by eapply sforallb_sin.
Qed.

Definition ref_ok (r : AgentRef) : Prop :=
  validAgentName (ref_Name r) = true ∧ (ref_Version r = "" ∨ validAgentVersion (ref_Version r) = true).

Lemma ParseAgentRef_ok s r : ParseAgentRef s = Ok r → ref_ok r ∧ AgentRef_String r = s.
Proof.
  unfold ParseAgentRef. case_bool_decide; [done|].
  destruct (IndexByte s "@") as [i|] eqn:Hi.
  - destruct (IndexByte_Some _ _ _ Hi) as (a & b & -> & <- & Ha).
    rewrite stake_app. replace (sdrop (len a + 1) (a +:+ String "@" b)) with b
      by (by rewrite <-sdrop_sdrop, sdrop_app).
    destruct (validAgentName a) eqn:Hn; [|done]. destruct (validAgentVersion b) eqn:Hv; [|done].
    simpl. intros [= <-]. unfold ref_ok, AgentRef_String. simpl.
    rewrite bool_decide_eq_false_2; [by auto|]. by intros ->.
  - destruct (validAgentName s) eqn:Hn; [|done]. simpl. intros [= <-].
    unfold ref_ok, AgentRef_String. simpl. by auto.
Qed.

(** ** Properties *)

(** [ParseAgentRef] and [AgentRef.String] are inverse: every reference that
    satisfies the grammar parses back from its printed form, and whatever
    parses satisfies the grammar and prints back to the input. *)
Theorem ParseAgentRef_roundtrip :
  (∀ r, ref_ok r → ParseAgentRef (AgentRef_String r) = Ok r) ∧
  (∀ s r, ParseAgentRef s = Ok r → ref_ok r ∧ AgentRef_String r = s).
Proof.
  split; [|apply ParseAgentRef_ok].
  intros [n v] [Hn Hv]. simpl in *. unfold AgentRef_String, ParseAgentRef. simpl.
  pose proof (validAgentName_no_at n Hn) as Hat.
  destruct (decide (v = "")) as [->|Hv0].
  - rewrite (bool_decide_eq_true_2 ("" = "")) by done.
    rewrite bool_decide_eq_false_2 by (intros ->; done).
    rewrite (IndexByte_None n "@" Hat), Hn. done.
  - destruct Hv as [?|Hv]; [done|]. rewrite (bool_decide_eq_false_2 (v = "")) by done.
    rewrite bool_decide_eq_false_2 by (destruct n; done).
    change (n +:+ "@" +:+ v) with (n +:+ String "@" v).
    rewrite (IndexByte_app n "@" v Hat), stake_app.
    replace (sdrop (len n + 1) (n +:+ String "@" v)) with v
      by (by rewrite <-sdrop_sdrop, sdrop_app).
    by rewrite Hn, Hv.
Qed.

Lemma register_all l registry :
  NoDup (l.*1) → Forall (λ p, p.1 ≠ "" ∧ registry !! p.1 = None) l →
  fold_left (λ r p, match r with Some r => RegisterMessageType r p.1 p.2 | None => None end) l (Some registry) =
  Some (list_to_map l ∪ registry).
Proof.
  revert registry. induction l as [|[t struct] l IH]; intros registry Hnd Hl; [by cbn; rewrite map_empty_union|].
  apply NoDup_cons in Hnd as [Hnin Hnd]. apply Forall_cons in Hl as [[Ht Hr] Hl]. cbn [fold_left fst snd] in *.
  unfold RegisterMessageType at 2. rewrite bool_decide_eq_false_2, Hr by done. rewrite IH; [|done|].
  - cbn. f_equal. rewrite <-insert_union_l. symmetry. apply insert_union_r. by apply not_elem_of_list_to_map_1.
  - rewrite Forall_forall in Hl |- *. intros p Hp. destruct (Hl p Hp) as [? ?]. split; [done|].
    rewrite lookup_insert_ne; [done|]. intros ->. apply Hnin. by apply list_elem_of_fmap_2.
Qed.

Lemma message_types_NoDup : NoDup (message_types.*1).
Proof. apply (bool_decide_unpack _). vm_compute. done. Qed.

Lemma init_registry_eq : init_registry = Some (list_to_map message_types).
Proof.
  unfold init_registry. rewrite register_all; [by rewrite map_union_empty|apply message_types_NoDup|].
  apply (bool_decide_unpack _). vm_compute. done.
Qed.

(** package initialisation registers the twenty message types without a
    panic, each wire token resolves to its own struct, and a second
    registration of any of them panics. *)
Theorem registry_complete :
  ∃ reg, init_registry = Some reg ∧
    (∀ t s, (t, s) ∈ message_types → NewPayloadForType reg t = Some s ∧ ∀ s', RegisterMessageType reg t s' = None) ∧
    (∀ t s, NewPayloadForType reg t = Some s → (t, s) ∈ message_types).
Proof.
  pose proof init_registry_eq as Hi.
  pose proof message_types_NoDup as Hnd.
  exists (list_to_map message_types). split; [done|]. split.
  - intros t s Hin. apply elem_of_list_to_map in Hin; [|done].
    unfold NewPayloadForType, RegisterMessageType. split; [done|]. intros s'. rewrite Hin.
    by case_goal.
  - intros t s H. by apply elem_of_list_to_map_2.
Qed.

(** The type of every payload struct is registered. *)
Lemma ARCPType_registered p typ :
  ARCPType p = Some typ → ∃ reg struct, init_registry = Some reg ∧ NewPayloadForType reg typ = Some struct.
Proof.
  intros Ht. exists (list_to_map message_types).
  enough (is_Some (NewPayloadForType (list_to_map message_types) typ)) as [struct Hs].
  { exists struct. split; [apply init_registry_eq|done]. }
  destruct p; try discriminate Ht; apply (inj Some) in Ht as <-; apply (bool_decide_unpack _); vm_compute; exact I.
Qed.

(** [RegisteredTypes] lists each message type once, in some order. *)
Lemma RegisteredTypes_spec `{MapOrder} n reg : init_registry = Some reg → RegisteredTypes n reg ≡ₚ message_types.*1.
Proof.
  rewrite init_registry_eq. intros E. apply (inj Some) in E as <-. unfold RegisteredTypes. rewrite order_keys_perm.
  rewrite map_to_list_to_map; [done|apply message_types_NoDup].
Qed.
