(* ===== verification/EventLog.v ===== *)
(** * The event log

    Models internal/eventlog/eventlog.go: the per-session in-memory log that
    resume and subscription replay read.  The specification is a log that
    never forgets anything but what [Trim] drops ([Unbounded]); the theorem
    says that the bounded log is, after every sequence of operations, the
    [max] youngest entries of the unbounded one. *)

From S2P Require Import Prelude GoStrings Errors Messages.
From Stdlib Require Import ZArith Lia.

Record Entry := mkEntry {
  en_SessionID : string;
  en_EventSeq : Z;
  en_JobID : string;
  en_StoredAt : Time;
  en_Envelope : Envelope
}.

Record Memory := mkMemory { bySess : gmap string (list Entry); max : nat }.

Definition NewMemory (maxPerSession : Z) : Memory :=
  mkMemory ∅ (Z.to_nat (if (maxPerSession <=? 0)%Z then 10000 else maxPerSession)).

(** Reading a missing key of [bySess] gives the nil slice. *)
Definition entries_of (m : Memory) (sid : string) : list Entry := default [] (bySess m !! sid).

(** The default of [Append] for a zero [StoredAt]. *)
Definition stamp (now : Time) (e : Entry) : Entry :=
  if IsZero (en_StoredAt e)
  then mkEntry (en_SessionID e) (en_EventSeq e) (en_JobID e) now (en_Envelope e) else e.

Definition Append (m : Memory) (now : Time) (e : Entry) : Memory :=
  let e := stamp now e in
  let entries := entries_of m (en_SessionID e) ++ [e] in
  let entries := if (max m <? length entries)%nat then drop (length entries - max m) entries else entries in
  mkMemory (<[en_SessionID e := entries]> (bySess m)) (max m).

Definition newer (fromSeq : Z) (e : Entry) : Prop := (fromSeq < en_EventSeq e)%Z.

#[export] Instance newer_dec fromSeq e : Decision (newer fromSeq e).
Proof. apply Z_lt_dec. Defined.

Definition Since (m : Memory) (sid : string) (fromSeq : Z) : list Entry :=
  filter (newer fromSeq) (entries_of m sid).

(** The loop over [m.bySess] visits the sessions in the order [order], a
    permutation of the keys the runtime chooses. *)
Definition SinceJob (m : Memory) (order : list string) (jobID : string) (fromSeq : Z) : list Entry :=
  flat_map (λ sid, filter (λ e, en_JobID e = jobID ∧ newer fromSeq e) (entries_of m sid)) order.

(** The smallest retained sequence number: [entries[0]] and a loop over the
    rest. *)
Definition Oldest (m : Memory) (sid : string) : option Z :=
  match entries_of m sid with
  | [] => None
  | e0 :: es =>
      Some (fold_left (λ min e, if (en_EventSeq e <? min)%Z then en_EventSeq e else min) es (en_EventSeq e0))
  end.

Definition Trim (m : Memory) (sid : string) (beforeSeq : Z) : Memory :=
  let kept := filter (newer beforeSeq) (entries_of m sid) in
  match kept with
  | [] => mkMemory (delete sid (bySess m)) (max m)
  | _ => mkMemory (<[sid := kept]> (bySess m)) (max m)
  end.

(** ** The unbounded specification *)

Module Unbounded.

Abbreviation log := (gmap string (list Entry)).
Definition entries (l : log) (sid : string) : list Entry := default [] (l !! sid).
Definition append (l : log) (e : Entry) : log :=
  <[en_SessionID e := entries l (en_SessionID e) ++ [e]]> l.
Definition trim (l : log) (sid : string) (beforeSeq : Z) : log :=
  <[sid := filter (newer beforeSeq) (entries l sid)]> l.

End Unbounded.

Inductive log_op :=
| LAppend (now : Time) (e : Entry)
| LTrim (sid : string) (beforeSeq : Z).

Definition log_step (m : Memory) (op : log_op) : Memory :=
  match op with
  | LAppend now e => Append m now e
  | LTrim sid n => Trim m sid n
  end.

Definition spec_step (l : Unbounded.log) (op : log_op) : Unbounded.log :=
  match op with
  | LAppend now e => Unbounded.append l (stamp now e)
  | LTrim sid n => Unbounded.trim l sid n
  end.

Definition seq_lt (a b : Entry) : Prop := (en_EventSeq a < en_EventSeq b)%Z.

(** The writer appends to each session in increasing sequence order. *)
Definition op_in_order (l : Unbounded.log) (op : log_op) : Prop :=
  match op with
  | LAppend _ e => Forall (λ x, seq_lt x e) (Unbounded.entries l (en_SessionID e))
  | LTrim _ _ => True
  end.

Fixpoint ops_in_order (l : Unbounded.log) (ops : list log_op) : Prop :=
  match ops with
  | [] => True
  | op :: ops => op_in_order l op ∧ ops_in_order (spec_step l op) ops
  end.

(** The last [n] elements of a list. *)
Definition lastn {A} (n : nat) (l : list A) : list A := drop (length l - n) l.

Definition refines (m : Memory) (l : Unbounded.log) : Prop :=
  ∀ sid, entries_of m sid = lastn (max m) (Unbounded.entries l sid) ∧
         StronglySorted seq_lt (Unbounded.entries l sid).

(** ** Lemmas *)

Lemma lastn_length {A} n (l : list A) : length (lastn n l) = Nat.min n (length l).
Proof. unfold lastn. rewrite length_drop. lia. Qed.

Lemma lastn_snoc {A} n (l : list A) x :
  (if (n <? length (lastn n l ++ [x]))%nat
   then drop (length (lastn n l ++ [x]) - n) (lastn n l ++ [x]) else lastn n l ++ [x]) = lastn n (l ++ [x]).
Proof.
  rewrite !length_app, lastn_length. simpl. unfold lastn. rewrite length_app. simpl.
  destruct (Nat.ltb_spec n (Nat.min n (length l) + 1)) as [H|H].
  - destruct (decide (n = 0)) as [->|Hn].
    + rewrite !drop_ge; rewrite ?length_app, ?length_drop; simpl; try done; lia.
    + rewrite (drop_app_le l [x] (length l + 1 - n)) by lia.
      rewrite drop_app_le by (rewrite length_drop; lia). rewrite drop_drop. f_equal. f_equal. lia.
  - rewrite (drop_app_le l [x] (length l + 1 - n)) by lia. f_equal. f_equal. lia.
Qed.

(** A sorted list is a block of old entries followed by the newer ones. *)
Lemma filter_newer_sorted n l :
  StronglySorted seq_lt l → ∃ k, filter (newer n) l = drop k l ∧ k ≤ length l.
Proof.
  induction 1 as [|x l Hl IH Hx]; [by exists 0|].
  rewrite filter_cons. case_decide as Hn.
  - exists 0. simpl. split; [|lia]. f_equal.
    apply list_filter_all. rewrite Forall_forall in Hx. intros y Hy.
    specialize (Hx y Hy). unfold newer, seq_lt in *. lia.
  - destruct IH as (k & -> & ?). exists (S k). simpl. split; [done|lia].
Qed.

Lemma filter_newer_drop n k l :
  StronglySorted seq_lt l → filter (newer n) (drop k l) = drop (k - (length l - length (filter (newer n) l))) (filter (newer n) l).
Proof.
  revert k. induction l as [|x l IH]; intros k Hs; [by rewrite drop_nil, filter_nil, drop_nil|].
  apply StronglySorted_inv in Hs as [Hs Hx].
  assert (newer n x → filter (newer n) l = l) as Hall.
  { intros Hn. apply list_filter_all. rewrite Forall_forall in Hx. intros y Hy.
    specialize (Hx y Hy). unfold newer, seq_lt in *. lia. }
  destruct k as [|k]; [done|]. cbn [drop]. rewrite IH by done. rewrite filter_cons.
  case_decide as Hn.
  - rewrite !Hall by done. simpl.
    replace (k - (length l - length l)) with k by lia.
    by replace (S k - (length l - length l)) with (S k) by lia.
  - pose proof (list_filter_length_le (newer n) l). f_equal. simpl. lia.
Qed.

Lemma lastn_filter n k l :
  StronglySorted seq_lt l → filter (newer n) (lastn k l) = lastn k (filter (newer n) l).
Proof.
  intros Hs. unfold lastn. rewrite filter_newer_drop by done. f_equal.
  pose proof (list_filter_length_le (newer n) l). lia.
Qed.

Lemma entries_of_insert m sid sid' l n :
  entries_of (mkMemory (<[sid := l]> (bySess m)) n) sid' = if decide (sid = sid') then l else entries_of m sid'.
Proof. unfold entries_of. simpl. rewrite lookup_insert. by case_decide. Qed.

Lemma entries_of_Trim m sid n sid' :
  entries_of (Trim m sid n) sid' =
  if decide (sid = sid') then filter (newer n) (entries_of m sid) else entries_of m sid'.
Proof.
  unfold Trim. destruct (filter (newer n) (entries_of m sid)) as [|x l] eqn:H.
  - unfold entries_of. simpl. rewrite lookup_delete. by case_decide.
  - by rewrite entries_of_insert.
Qed.

Lemma entries_of_Append m now e sid :
  entries_of (Append m now e) sid =
  if decide (en_SessionID e = sid) then
    let es := entries_of m sid ++ [stamp now e] in
    if (max m <? length es)%nat then drop (length es - max m) es else es
  else entries_of m sid.
Proof.
  assert (en_SessionID (stamp now e) = en_SessionID e) as H by (unfold stamp; by case_goal).
  unfold Append. rewrite H, entries_of_insert. case_decide; [by subst|done].
Qed.

Lemma stamp_seq now e : en_EventSeq (stamp now e) = en_EventSeq e.
Proof. unfold stamp. by case_goal. Qed.

Lemma stamp_session now e : en_SessionID (stamp now e) = en_SessionID e.
Proof. unfold stamp. by case_goal. Qed.

Lemma max_log_step m op : max (log_step m op) = max m.
Proof. destruct op; simpl; unfold Append, Trim; [done|]. by case_goal. Qed.

Lemma spec_entries_append l e sid :
  Unbounded.entries (Unbounded.append l e) sid =
  if decide (en_SessionID e = sid) then Unbounded.entries l sid ++ [e] else Unbounded.entries l sid.
Proof.
  unfold Unbounded.entries at 1, Unbounded.append. rewrite lookup_insert.
  case_decide; [by subst|done].
Qed.

Lemma spec_entries_trim l sid n sid' :
  Unbounded.entries (Unbounded.trim l sid n) sid' =
  if decide (sid = sid') then filter (newer n) (Unbounded.entries l sid') else Unbounded.entries l sid'.
Proof.
  unfold Unbounded.entries at 1, Unbounded.trim. rewrite lookup_insert.
  case_decide; [by subst|done].
Qed.

Lemma log_step_refines m l op :
  refines m l → op_in_order l op → refines (log_step m op) (spec_step l op).
Proof.
  intros Hr Ho sid. destruct (Hr sid) as [Heq Hs]. rewrite max_log_step.
  destruct op as [now e|sid' n]; simpl in *.
  - rewrite entries_of_Append, spec_entries_append, stamp_session.
    case_decide as Hsid; [|done]. subst sid. rewrite Heq. cbv zeta. rewrite lastn_snoc.
    split; [done|]. apply StronglySorted_snoc; [done|].
    eapply Forall_impl; [done|]. unfold seq_lt. intros x. by rewrite stamp_seq.
  - rewrite entries_of_Trim, spec_entries_trim. case_decide as Hsid; [|done]. subst sid'.
    rewrite Heq, lastn_filter by done. split; [done|]. by apply StronglySorted_filter.
Qed.

Lemma fold_min_spec es m0 :
  let f := λ min e, if (en_EventSeq e <? min)%Z then en_EventSeq e else min in
  let m := fold_left f es m0 in
  (m <= m0)%Z ∧ Forall (λ e, (m <= en_EventSeq e)%Z) es ∧ (m = m0 ∨ m ∈ en_EventSeq <$> es).
Proof.
  revert m0. induction es as [|e es IH]; intros m0; simpl; [split_and!; auto; lia|].
  destruct (IH (if (en_EventSeq e <? m0)%Z then en_EventSeq e else m0)) as (H1 & H2 & H3).
  destruct (Z.ltb_spec (en_EventSeq e) m0); split_and!; try (constructor; [lia|done]); try lia.
  - right. destruct H3 as [->|H3]; [by left|by right].
  - destruct H3 as [->|H3]; [by left|right; by right].
Qed.

Lemma Oldest_spec m sid n :
  Oldest m sid = Some n ↔
  n ∈ en_EventSeq <$> entries_of m sid ∧ Forall (λ e, (n <= en_EventSeq e)%Z) (entries_of m sid).
Proof.
  unfold Oldest. destruct (entries_of m sid) as [|e0 es]; simpl.
  - split; [done|]. intros [H _]. by apply not_elem_of_nil in H.
  - destruct (fold_min_spec es (en_EventSeq e0)) as (H1 & H2 & H3). cbv zeta in *. split.
    + intros [= <-]. split; [|by constructor].
      destruct H3 as [->|H3]; [by left|by right].
    + intros [Hin Hall]. f_equal. inversion Hall as [|? ? Ha Hb]; subst.
      apply elem_of_cons in Hin.
      assert ((n <= fold_left (λ min e, if (en_EventSeq e <? min)%Z then en_EventSeq e else min) es (en_EventSeq e0))%Z).
      { destruct H3 as [->|H3]; [done|]. apply list_elem_of_fmap in H3 as (e & -> & He).
        rewrite Forall_forall in Hb. by apply Hb. }
      destruct Hin as [->|Hin]; [lia|].
      apply list_elem_of_fmap in Hin as (e & -> & He). rewrite Forall_forall in H2.
      specialize (H2 e He). simpl in *. lia.
Qed.

(** ** Properties *)

(** C39: after any sequence of appends and trims in which each session is
    appended to in increasing sequence order, the bounded log of
    [NewMemory] holds for each session exactly the [max] youngest entries of
    the log that only forgets what is trimmed: retention never drops a young
    entry in favour of an old one, never keeps a trimmed entry, and never
    exceeds the bound. *)
Theorem eventlog_refines_unbounded (maxPerSession : Z) (ops : list log_op) :
  ops_in_order ∅ ops →
  refines (fold_left log_step ops (NewMemory maxPerSession)) (fold_left spec_step ops ∅).
Proof.
  assert (refines (NewMemory maxPerSession) ∅) as H.
  { intros sid. split; [done|constructor]. }
  revert H. generalize (NewMemory maxPerSession), (∅ : Unbounded.log).
  induction ops as [|op ops IH]; intros m l Hr Ho; [done|]. destruct Ho as [Ho Hos].
  simpl. apply IH; [|done]. by apply log_step_refines.
Qed.

Definition wit_env : Envelope := mkEnvelope "1.1" "id" "job.event" "s" "j" "t" 1 PNil.
Definition wit_entry (n : Z) : Entry := mkEntry "s" n "j" 1 wit_env.

Lemma eventlog_refines_unbounded_witness :
  ops_in_order ∅ [LAppend 0 (wit_entry 1); LAppend 0 (wit_entry 2); LTrim "s" 1; LAppend 0 (wit_entry 3)] ∧
  refines (fold_left log_step [LAppend 0 (wit_entry 1); LAppend 0 (wit_entry 2); LTrim "s" 1; LAppend 0 (wit_entry 3)] (NewMemory 1))
          (fold_left spec_step [LAppend 0 (wit_entry 1); LAppend 0 (wit_entry 2); LTrim "s" 1; LAppend 0 (wit_entry 3)] ∅).
Proof.
  assert (ops_in_order ∅ [LAppend 0 (wit_entry 1); LAppend 0 (wit_entry 2); LTrim "s" 1; LAppend 0 (wit_entry 3)]) as H.
  { vm_compute. repeat constructor. }
  split; [exact H|]. apply eventlog_refines_unbounded. exact H.
Defined.
