(* ===== verification/IdStore.v ===== *)
(** * The idempotency store

    Models internal/idstore/idstore.go.  The specification is a table keyed by
    the pair (principal, key); the implementation keys one string map by
    [principal + "\x00" + key].  The refinement theorem is about principals
    without a NUL byte; [PutIfAbsent_nul_collision] shows what happens with
    one.

    The cached [job.accepted] bytes are the payload they decode to; the empty
    byte slice is [None]. *)

From S2P Require Import Prelude GoStrings Errors Messages.
From Stdlib Require Import ZArith Ascii Lia.

Module IdStore.

Record Entry := mkEntry {
  ie_Principal : string;
  ie_Key : string;
  ie_JobID : string;
  ie_CreatedAt : Time;
  ie_ParamsHash : string;
  ie_Accepted : option JobAccepted
}.

Abbreviation Memory := (gmap string Entry).

Definition nul : ascii := "000"%char.
Definition key (principal k : string) : string := principal +:+ String nul k.

(** [NewMemory]: the TTL is kept by the caller. *)
Definition NewMemory : Memory := ∅.

Definition stamp (now : Time) (e : Entry) : Entry :=
  if IsZero (ie_CreatedAt e)
  then mkEntry (ie_Principal e) (ie_Key e) (ie_JobID e) now (ie_ParamsHash e) (ie_Accepted e) else e.

Definition set_accepted (e : Entry) (a : option JobAccepted) : Entry :=
  mkEntry (ie_Principal e) (ie_Key e) (ie_JobID e) (ie_CreatedAt e) (ie_ParamsHash e) a.

(** [ctx_err] is [ctx.Err()]. *)
Definition PutIfAbsent (s : Memory) (ctx_err : option error) (now : Time) (e : Entry) :
    res (Entry * bool) * Memory :=
  match ctx_err with
  | Some err => (Err err, s)
  | None =>
      let k := key (ie_Principal e) (ie_Key e) in
      match s !! k with
      | Some existing => (Ok (existing, false), s)
      | None => let e := stamp now e in (Ok (e, true), <[k := e]> s)
      end
  end.

Definition SetAccepted (s : Memory) (ctx_err : option error) (principal k : string) (accepted : JobAccepted) :
    option error * Memory :=
  match ctx_err with
  | Some err => (Some err, s)
  | None =>
      let k := key principal k in
      match s !! k with
      | Some e => (None, <[k := set_accepted e (Some accepted)]> s)
      | None => (None, s)
      end
  end.

Definition Get (s : Memory) (ctx_err : option error) (principal k : string) : res (option Entry) :=
  match ctx_err with
  | Some err => Err err
  | None => Ok (s !! key principal k)
  end.

Definition Sweep (s : Memory) (ctx_err : option error) (olderThan : Time) : res nat * Memory :=
  match ctx_err with
  | Some err => (Err err, s)
  | None =>
      let keep := filter (λ p : string * Entry, Before (ie_CreatedAt p.2) olderThan = false) s in
      (Ok (size s - size keep), keep)
  end.

(** ** The specification: a table keyed by pairs *)

Abbreviation table := (gmap (string * string) Entry).

Definition t_put (t : table) (now : Time) (e : Entry) : (Entry * bool) * table :=
  match t !! (ie_Principal e, ie_Key e) with
  | Some existing => ((existing, false), t)
  | None => let e := stamp now e in ((e, true), <[(ie_Principal e, ie_Key e) := e]> t)
  end.

Definition t_set (t : table) (principal k : string) (a : JobAccepted) : table :=
  alter (λ e, set_accepted e (Some a)) (principal, k) t.

Definition t_sweep (t : table) (olderThan : Time) : table :=
  filter (λ p : (string * string) * Entry, Before (ie_CreatedAt p.2) olderThan = false) t.

Inductive store_op :=
| SPut (now : Time) (e : Entry)
| SSetAccepted (principal k : string) (a : JobAccepted)
| SSweep (olderThan : Time).

Definition op_principal (op : store_op) : option string :=
  match op with
  | SPut _ e => Some (ie_Principal e)
  | SSetAccepted p _ _ => Some p
  | SSweep _ => None
  end.

Definition store_step (s : Memory) (op : store_op) : Memory :=
  match op with
  | SPut now e => (PutIfAbsent s None now e).2
  | SSetAccepted p k a => (SetAccepted s None p k a).2
  | SSweep t => (Sweep s None t).2
  end.

Definition table_step (t : table) (op : store_op) : table :=
  match op with
  | SPut now e => (t_put t now e).2
  | SSetAccepted p k a => t_set t p k a
  | SSweep u => t_sweep t u
  end.

Definition nul_free (s : string) : Prop := sin nul s = false.
Definition op_ok (op : store_op) : Prop :=
  match op_principal op with Some p => nul_free p | None => True end.

(** The two tables answer every NUL-free query alike. *)
Definition simulates (s : Memory) (t : table) : Prop :=
  ∀ p k, nul_free p → s !! key p k = t !! (p, k).

(** ** Lemmas *)

Lemma key_inj p k p' k' : nul_free p → nul_free p' → key p k = key p' k' → p = p' ∧ k = k'.
Proof.
  unfold nul_free, key. revert p'. induction p as [|c p IH]; intros [|c' p']; simpl; intros Hp Hp' H.
  - by injection H.
  - injection H as <- _. by rewrite bool_decide_eq_true_2 in Hp'.
  - injection H as -> _. by rewrite bool_decide_eq_true_2 in Hp.
  - injection H as <- H. apply orb_false_iff in Hp as [_ Hp], Hp' as [_ Hp'].
    destruct (IH p' Hp Hp' H) as [-> ->]. done.
Qed.

Lemma stamp_ids now e : ie_Principal (stamp now e) = ie_Principal e ∧ ie_Key (stamp now e) = ie_Key e.
Proof. unfold stamp. by case_goal. Qed.

Lemma lookup_key_insert (s : gmap string Entry) p k p' k' e :
  nul_free p → nul_free p' →
  (<[key p k := e]> s) !! key p' k' = if decide ((p, k) = (p', k')) then Some e else s !! key p' k'.
Proof.
  intros Hp Hp'. rewrite lookup_insert. case_decide as H1; case_decide as H2; try done.
  - apply key_inj in H1 as [-> ->]; done.
  - by simplify_eq.
Qed.

Lemma PutIfAbsent_sim s t now e :
  simulates s t → nul_free (ie_Principal e) →
  (PutIfAbsent s None now e).1 = Ok (t_put t now e).1 ∧
  simulates (PutIfAbsent s None now e).2 (t_put t now e).2.
Proof.
  intros Hs Hp. unfold PutIfAbsent, t_put. rewrite (Hs _ _ Hp).
  destruct (t !! (ie_Principal e, ie_Key e)) eqn:Ht; [done|]. cbn [fst snd]. split; [done|].
  destruct (stamp_ids now e) as [-> ->]. intros p k Hp'.
  rewrite lookup_key_insert, lookup_insert by done. case_decide; [done|]. by apply Hs.
Qed.

Lemma SetAccepted_sim s t p k a :
  simulates s t → nul_free p → simulates (SetAccepted s None p k a).2 (t_set t p k a).
Proof.
  intros Hs Hp p' k' Hp'. unfold SetAccepted, t_set. rewrite lookup_alter.
  rewrite <-(Hs p k Hp), <-(Hs p' k' Hp').
  destruct (s !! key p k) as [e|] eqn:He; cbn [snd].
  - rewrite lookup_key_insert by done. by case_decide.
  - case_decide as Heq; [|done]. simplify_eq. by rewrite He.
Qed.

Lemma Sweep_sim s t u : simulates s t → simulates (Sweep s None u).2 (t_sweep t u).
Proof.
  intros Hs p k Hp. cbn [Sweep snd]. unfold t_sweep. apply option_eq. intros e.
  rewrite !map_lookup_filter_Some. by rewrite (Hs p k Hp).
Qed.

Lemma store_step_sim s t op : simulates s t → op_ok op → simulates (store_step s op) (table_step t op).
Proof.
  destruct op; simpl; intros Hs Hok.
  - by apply PutIfAbsent_sim.
  - by apply SetAccepted_sim.
  - by apply Sweep_sim.
Qed.

(** ** Properties *)

(** C40: as long as no principal contains a NUL byte, the store refines the
    table keyed by (principal, key): after any sequence of operations each
    query answers as the table does, [PutIfAbsent] returns the existing row
    with [false] exactly when the pair is present, and no principal can see
    another one's rows. *)
Theorem idstore_refines_table (ops : list store_op) :
  Forall op_ok ops →
  let s := fold_left store_step ops NewMemory in
  let t := fold_left table_step ops (∅ : table) in
  (∀ p k, nul_free p → Get s None p k = Ok (t !! (p, k))) ∧
  (∀ now e, nul_free (ie_Principal e) → (PutIfAbsent s None now e).1 = Ok (t_put t now e).1).
Proof.
  intros Hok. cbv zeta.
  assert (simulates (fold_left store_step ops NewMemory) (fold_left table_step ops (∅ : table))) as Hs.
  { assert (simulates NewMemory (∅ : table)) as H by (intros p k _; done).
    revert H. generalize NewMemory, (∅ : table).
    induction Hok as [|op ops Hop Hok IH]; intros s t Hs; [done|].
    simpl. apply IH. by apply store_step_sim. }
  split.
  - intros p k Hp. unfold Get. by rewrite (Hs p k Hp).
  - intros now e Hp. by apply PutIfAbsent_sim.
Qed.

Definition demo_ops : list store_op := [SPut 5 (mkEntry "alice" "k" "job_1" 3 "h" None); SSweep 4].

Lemma idstore_refines_table_witness :
  Forall op_ok demo_ops ∧
  Get (fold_left store_step demo_ops NewMemory) None "alice" "k" = Ok ((fold_left table_step demo_ops (∅ : table)) !! ("alice", "k")).
Proof.
  assert (Forall op_ok demo_ops) as H by by repeat constructor.
  split; [exact H|]. apply (idstore_refines_table _ H). reflexivity.
Defined.

(** a principal that contains a NUL byte shares rows with another
    principal: the principal ["a\x00b"] with key ["c"] and the principal
    ["a"] with key ["b\x00c"] have the same string key, so the second
    [PutIfAbsent] is answered with the first principal's entry. *)
Theorem PutIfAbsent_nul_collision (jobA jobB hash : string) (now : Time) :
  let pa := "a" +:+ String nul "b" in
  let ea := mkEntry pa "c" jobA 1 hash None in
  let eb := mkEntry "a" ("b" +:+ String nul "c") jobB 1 hash None in
  (ie_Principal ea, ie_Key ea) ≠ (ie_Principal eb, ie_Key eb) ∧
  (PutIfAbsent (PutIfAbsent NewMemory None now ea).2 None now eb).1 = Ok (ea, false).
Proof. cbv zeta. split; [done|]. vm_compute. reflexivity. Qed.

End IdStore.
