(* ===== verification/Agents.v ===== *)
(** * The agent table

    Models the agent registry of server/server.go: registration, default
    versions, the resolution of an agent reference, the version order and the
    inventory advertised in the welcome.  Agent bodies are user code; an
    [AgentFunc] is a handle and nil is [None]. *)

From S2P Require Import Prelude GoStrings Errors Messages.
From Stdlib Require Import ZArith Ascii Lia.

Abbreviation AgentFunc := (option nat).

Record agentEntry := mkAgent {
  a_name : string;
  a_versions : gmap string AgentFunc;
  a_defaultVer : string;
  a_bare : AgentFunc
}.

Abbreviation agent_table := (gmap string agentEntry).

Definition new_entry (name : string) : agentEntry := mkAgent name ∅ "" None.

Definition RegisterAgent (agents : agent_table) (name : string) (fn : AgentFunc) : agent_table :=
  let e := default (new_entry name) (agents !! name) in
  <[name := mkAgent (a_name e) (a_versions e) (a_defaultVer e) fn]> agents.

Definition RegisterAgentVersion (agents : agent_table) (name version : string) (fn : AgentFunc) : agent_table :=
  let e := default (new_entry name) (agents !! name) in
  <[name := mkAgent (a_name e) (<[version := fn]> (a_versions e)) (a_defaultVer e) (a_bare e)]> agents.

Definition SetDefaultAgentVersion (agents : agent_table) (name version : string) :
    option error * agent_table :=
  match agents !! name with
  | None => (Some (arcp_err ErrAgentNotAvailable ("agent " +:+ name +:+ " is not registered")), agents)
  | Some e =>
      match a_versions e !! version with
      | None => (Some (arcp_err ErrAgentVersionNotAvailable (name +:+ "@" +:+ version +:+ " is not registered")), agents)
      | Some _ => (None, <[name := mkAgent (a_name e) (a_versions e) version (a_bare e)]> agents)
      end
  end.

(** The loop of [compareVersions]: a missing component reads as the empty
    string. *)
Fixpoint compare_parts (n : nat) (xs ys : list string) : Z :=
  match n with
  | 0 => 0%Z
  | S n =>
      let av := hd "" xs in
      let bv := hd "" ys in
      match Atoi av, Atoi bv with
      | Some an, Some bn =>
          if negb (an =? bn)%Z then (if (bn <? an)%Z then 1 else -1)%Z
          else compare_parts n (tl xs) (tl ys)
      | _, _ =>
          if negb (bool_decide (av = bv)) then (if str_lt bv av then 1 else -1)%Z
          else compare_parts n (tl xs) (tl ys)
      end
  end.

Definition compareVersions (a b : string) : Z :=
  let xs := Split a "." in
  let ys := Split b "." in
  compare_parts (Nat.max (length xs) (length ys)) xs ys.

(** The loop of [highestVersion] over the keys in iteration order. *)
Definition highestVersion (keys : list string) : string :=
  fold_left (λ best v, if bool_decide (best = "") || (0 <? compareVersions v best)%Z then v else best) keys "".

(** [n] is the iteration number of the [range] in [highestVersion]. *)
Definition resolveAgent `{!MapOrder} (n : nat) (agents : agent_table) (ref : AgentRef) : res (AgentFunc * string) :=
  match agents !! ref_Name ref with
  | None => Err (arcp_err ErrAgentNotAvailable ("agent " +:+ ref_Name ref +:+ " is not registered"))
  | Some e =>
      if negb (bool_decide (ref_Version ref = "")) then
        match a_versions e !! ref_Version ref with
        | None => Err (arcp_err ErrAgentVersionNotAvailable (AgentRef_String ref +:+ " is not registered"))
        | Some fn => Ok (fn, AgentRef_String ref)
        end
      else if negb (bool_decide (a_defaultVer e = "")) then
        match a_versions e !! a_defaultVer e with
        | None => Err (arcp_err ErrAgentVersionNotAvailable
                         (ref_Name ref +:+ "@" +:+ a_defaultVer e +:+ " missing despite default"))
        | Some fn => Ok (fn, ref_Name ref +:+ "@" +:+ a_defaultVer e)
        end
      else if bool_decide (is_Some (a_bare e)) then Ok (a_bare e, ref_Name ref)
      else if (0 <? size (a_versions e))%nat then
        let chosen := highestVersion (order_keys n (elements (dom (a_versions e)))) in
        Ok (default None (a_versions e !! chosen), ref_Name ref +:+ "@" +:+ chosen)
      else Err (arcp_err ErrAgentNotAvailable ("agent " +:+ ref_Name ref +:+ " has no registered handlers"))
  end.

(** [sort.Strings] and [sort.Slice] by name. *)
Definition str_le (a b : string) : Prop := str_lt b a = false.
#[export] Instance str_le_dec a b : Decision (str_le a b).
Proof. unfold str_le. apply _. Defined.

Definition agent_le (a b : AgentEntry) : Prop := str_le (ae_Name a) (ae_Name b).
#[export] Instance agent_le_dec a b : Decision (agent_le a b).
Proof. unfold agent_le. apply _. Defined.

Definition inventory_entry (e : agentEntry) : AgentEntry :=
  mkAgentEntry (a_name e) (merge_sort str_le (elements (dom (a_versions e)))) (a_defaultVer e)
               (bool_decide (is_Some (a_bare e))).

Definition inventory (agents : agent_table) : list AgentEntry :=
  merge_sort agent_le (inventory_entry ∘ snd <$> map_to_list agents).

(** ** The version order *)

(** The components of a version, when all of them are numbers. *)
Definition numeric (v : string) : option (list Z) := mapM Atoi (Split v ".").

(** Lexicographic order of component lists, a proper prefix being older. *)
Fixpoint lex (xs ys : list Z) : Z :=
  match xs, ys with
  | [], [] => 0
  | [], _ :: _ => -1
  | _ :: _, [] => 1
  | x :: xs, y :: ys => if (x =? y)%Z then lex xs ys else if (y <? x)%Z then 1 else -1
  end%Z.

(** ** Lemmas *)

Lemma Atoi_not_empty s z : Atoi s = Some z → s ≠ "".
Proof. by intros H ->. Qed.

Lemma compare_parts_lex xs ys la lb n :
  mapM Atoi xs = Some la → mapM Atoi ys = Some lb → n = Nat.max (length xs) (length ys) →
  compare_parts n xs ys = lex la lb.
Proof.
  revert ys la lb n.
  induction xs as [|x xs IH]; intros [|y ys] la lb n Ha Hb ->;
    simpl in Ha, Hb; unfold mret, option_ret in Ha, Hb; simplify_eq/=; try done.
  - destruct (Atoi y) as [zy|] eqn:Hy; [|done]. simpl in *.
    destruct (mapM Atoi ys); simplify_eq/=.
    rewrite bool_decide_eq_false_2 by (intros <-; done). simpl.
    unfold str_lt. by destruct y.
  - destruct (Atoi x) as [zx|] eqn:Hx; [|done]. simpl in *.
    destruct (mapM Atoi xs); simplify_eq/=.
    rewrite bool_decide_eq_false_2 by (intros ->; done). simpl.
    destruct x; [done|]. done.
  - destruct (Atoi x) as [zx|] eqn:Hx; [|done]. destruct (Atoi y) as [zy|] eqn:Hy; [|done]. simpl in *.
    destruct (mapM Atoi xs) eqn:Hxs; simplify_eq/=. destruct (mapM Atoi ys) eqn:Hys; simplify_eq/=.
    destruct (zx =? zy)%Z; simpl; [|done]. by apply IH.
Qed.

Lemma compareVersions_lex a b la lb :
  numeric a = Some la → numeric b = Some lb → compareVersions a b = lex la lb.
Proof. intros Ha Hb. by apply compare_parts_lex. Qed.

Lemma lex_refl xs : lex xs xs = 0%Z.
Proof. induction xs as [|x xs IH]; [done|]. simpl. by rewrite Z.eqb_refl. Qed.

Lemma lex_antisym xs ys : lex ys xs = (- lex xs ys)%Z.
Proof.
  revert ys. induction xs as [|x xs IH]; intros [|y ys]; try done. simpl.
  rewrite (Z.eqb_sym y x). destruct (Z.eqb_spec x y) as [|Hne]; [by apply IH|].
  destruct (Z.ltb_spec x y), (Z.ltb_spec y x); try done; lia.
Qed.

Lemma lex_trans xs ys zs : (lex xs ys <= 0 → lex ys zs <= 0 → lex xs zs <= 0)%Z.
Proof.
  revert ys zs. induction xs as [|x xs IH]; intros [|y ys] [|z zs]; simpl; try done; try lia.
  destruct (Z.eqb_spec x y), (Z.eqb_spec y z), (Z.eqb_spec x z), (Z.ltb_spec y x), (Z.ltb_spec z y),
    (Z.ltb_spec z x); subst; try lia; try done. apply IH.
Qed.

Definition is_numeric (v : string) : Prop := is_Some (numeric v).

Lemma compareVersions_trans a b c :
  is_numeric a → is_numeric b → is_numeric c →
  (compareVersions a b <= 0 → compareVersions b c <= 0 → compareVersions a c <= 0)%Z.
Proof.
  intros [la Ha] [lb Hb] [lc Hc].
  rewrite (compareVersions_lex a b la lb), (compareVersions_lex b c lb lc), (compareVersions_lex a c la lc) by done.
  apply lex_trans.
Qed.

Lemma compareVersions_antisym a b :
  is_numeric a → is_numeric b → compareVersions b a = (- compareVersions a b)%Z.
Proof.
  intros [la Ha] [lb Hb].
  rewrite (compareVersions_lex a b la lb), (compareVersions_lex b a lb la) by done. apply lex_antisym.
Qed.

Lemma compareVersions_refl a : is_numeric a → compareVersions a a = 0%Z.
Proof. intros [la Ha]. rewrite (compareVersions_lex a a la la) by done. apply lex_refl. Qed.

Lemma is_numeric_not_empty v : is_numeric v → v ≠ "".
Proof. by intros [l Hl] ->. Qed.

(** The loop from a numeric best. *)
Lemma highest_loop keys best :
  is_numeric best → Forall is_numeric keys →
  let r := fold_left (λ best v, if bool_decide (best = "") || (0 <? compareVersions v best)%Z then v else best) keys best in
  r ∈ best :: keys ∧ ∀ w, w ∈ best :: keys → (compareVersions w r <= 0)%Z.
Proof.
  revert best. induction keys as [|k keys IH]; intros best Hb Hk; simpl.
  - split; [by left|]. intros w ->%list_elem_of_singleton. by rewrite compareVersions_refl.
  - apply Forall_cons in Hk as [Hk Hks].
    rewrite bool_decide_eq_false_2 by by apply is_numeric_not_empty. simpl.
    assert (∀ b, is_numeric b → (compareVersions best b <= 0)%Z → (compareVersions k b <= 0)%Z → b ∈ [best; k] →
      let r := fold_left (λ best v, if bool_decide (best = "") || (0 <? compareVersions v best)%Z then v else best) keys b in
      r ∈ best :: k :: keys ∧ ∀ w, w ∈ best :: k :: keys → (compareVersions w r <= 0)%Z) as Hstep.
    { intros b Hbn Hbb Hkb Hin. cbv zeta. destruct (IH b Hbn Hks) as [Hr Hmax].
      assert (is_numeric (fold_left (λ best v, if bool_decide (best = "") || (0 <? compareVersions v best)%Z then v else best) keys b)) as Hrn.
      { apply elem_of_cons in Hr as [->|Hr]; [done|]. rewrite Forall_forall in Hks. by apply Hks. }
      split; [set_solver|]. intros w Hw. specialize (Hmax b ltac:(by left)) as Hbr.
      repeat (apply elem_of_cons in Hw as [->|Hw]).
      - by apply (compareVersions_trans best b).
      - by apply (compareVersions_trans k b).
      - apply Hmax. by right. }
    destruct (Z.ltb_spec 0 (compareVersions k best)).
    + apply Hstep; try done.
      * rewrite compareVersions_antisym by done. lia.
      * by rewrite compareVersions_refl.
      * set_solver.
    + apply Hstep; try done; [by rewrite compareVersions_refl|set_solver].
Qed.

Lemma highestVersion_spec keys :
  keys ≠ [] → Forall is_numeric keys →
  highestVersion keys ∈ keys ∧ ∀ w, w ∈ keys → (compareVersions w (highestVersion keys) <= 0)%Z.
Proof.
  destruct keys as [|k keys]; [done|]. intros _ Hk. apply Forall_cons in Hk as [Hk Hks].
  apply (highest_loop keys k Hk Hks).
Qed.

Lemma highest_loop_in keys best :
  fold_left (λ best v, if bool_decide (best = "") || (0 <? compareVersions v best)%Z then v else best) keys best
  ∈ best :: keys.
Proof.
  revert best. induction keys as [|k keys IH]; intros best; [by left|]. cbn [fold_left].
  destruct (bool_decide (best = "") || (0 <? compareVersions k best)%Z); [|specialize (IH best)]; set_solver.
Qed.

Lemma highestVersion_in_keys keys : keys ≠ [] → highestVersion keys ∈ keys.
Proof. destruct keys as [|k keys]; [done|]. intros _. apply (highest_loop_in keys k). Qed.

Lemma resolveAgent_versioned `{!MapOrder} m agents name v e fn :
  agents !! name = Some e → a_versions e !! v = Some fn → v ≠ "" →
  resolveAgent m agents (mkRef name v) = Ok (fn, name +:+ "@" +:+ v).
Proof.
  intros He Hv Hne. unfold resolveAgent. cbn [ref_Name ref_Version].
  rewrite He, bool_decide_eq_false_2, Hv by done. simpl.
  unfold AgentRef_String. simpl. by rewrite bool_decide_eq_false_2.
Qed.

Lemma versions_not_empty `{!MapOrder} n (m : gmap string AgentFunc) :
  (0 <? size m)%nat = true → highestVersion (order_keys n (elements (dom m))) ∈ dom m.
Proof.
  intros Hs. pose proof (order_keys_perm n (elements (dom m))) as Hp. apply elem_of_elements.
  generalize dependent (order_keys n (elements (dom m))). intros keys Hp. rewrite <-Hp.
  apply highestVersion_in_keys. intros ->.
  apply Permutation_nil_l in Hp. symmetry in Hp. apply elements_empty_inv in Hp.
  assert (dom m = ∅) as Hd by set_solver.
  apply dom_empty_inv_L in Hd. subst m. done.
Qed.

(** ** Properties *)

(** When every registered version is dotted numbers, the version picked
    for a bare reference is a registered one and no registered version is
    newer in the numeric order, whatever the order in which the runtime
    iterates over the map; two iteration orders pick versions of equal rank. *)
Theorem highestVersion_is_maximum (keys keys' : list string) :
  keys ≠ [] → Forall is_numeric keys → keys ≡ₚ keys' →
  highestVersion keys ∈ keys ∧
  (∀ w, w ∈ keys → (compareVersions w (highestVersion keys) <= 0)%Z) ∧
  compareVersions (highestVersion keys) (highestVersion keys') = 0%Z.
Proof.
  intros Hne Hn Hp. destruct (highestVersion_spec keys Hne Hn) as [Hin Hmax].
  assert (Forall is_numeric keys') as Hn' by by rewrite <-Hp.
  assert (keys' ≠ []) as Hne' by (intros ->; by apply Permutation_nil_r in Hp).
  destruct (highestVersion_spec keys' Hne' Hn') as [Hin' Hmax'].
  split_and!; [done|done|].
  pose proof (Hmax (highestVersion keys')) as H1. pose proof (Hmax' (highestVersion keys)) as H2.
  rewrite Forall_forall in Hn.
  assert (highestVersion keys' ∈ keys) as Hin2 by by rewrite Hp.
  assert (highestVersion keys ∈ keys') as Hin3 by by rewrite <-Hp.
  specialize (H1 Hin2). specialize (H2 Hin3).
  rewrite (compareVersions_antisym (highestVersion keys) (highestVersion keys')) in H1 by auto. lia.
Qed.

Lemma highestVersion_is_maximum_witness :
  Forall is_numeric ["1.9.0"; "1.10.0"; "1.2"] ∧
  compareVersions (highestVersion ["1.9.0"; "1.10.0"; "1.2"]) (highestVersion ["1.2"; "1.10.0"; "1.9.0"]) = 0%Z.
Proof.
  assert (Forall is_numeric ["1.9.0"; "1.10.0"; "1.2"]) as H.
  { repeat constructor; (eexists; vm_compute; reflexivity). }
  split; [exact H|].
  apply (highestVersion_is_maximum ["1.9.0"; "1.10.0"; "1.2"] ["1.2"; "1.10.0"; "1.9.0"]); [done|exact H|].
  apply (bool_decide_unpack _). vm_compute. done.
Defined.

(** with a non-numeric component the comparison is not transitive
    ("2" < "10" numerically, "10" < "1a" and "1a" < "2" as text), and the
    version picked for a bare reference depends on the map iteration order. *)
Theorem highestVersion_order_dependent :
  (compareVersions "10" "2" > 0 ∧ compareVersions "1a" "10" > 0 ∧ compareVersions "2" "1a" > 0)%Z ∧
  highestVersion ["2"; "10"; "1a"] = "1a" ∧ highestVersion ["10"; "1a"; "2"] = "2" ∧
  highestVersion ["1a"; "2"; "10"] = "10".
Proof. vm_compute. done. Qed.

(** a successful resolution returns a handler that is registered under
    the canonical name it reports: the version asked for, else the default
    version, else the bare handler, else a registered version; and resolving
    the versioned canonical name again gives the same handler and name. *)
Theorem resolveAgent_canonical `{!MapOrder} (n : nat) (agents : agent_table) (ref : AgentRef)
    (fn : AgentFunc) (canonical : string) :
  resolveAgent n agents ref = Ok (fn, canonical) →
  ∃ e, agents !! ref_Name ref = Some e ∧
    ((canonical = ref_Name ref ∧ fn = a_bare e ∧ is_Some fn ∧ ref_Version ref = "" ∧ a_defaultVer e = "") ∨
     ∃ v, a_versions e !! v = Some fn ∧ canonical = ref_Name ref +:+ "@" +:+ v ∧
          (ref_Version ref ≠ "" → v = ref_Version ref) ∧
          (ref_Version ref = "" → a_defaultVer e ≠ "" → v = a_defaultVer e) ∧
          (v ≠ "" → ∀ m, resolveAgent m agents (mkRef (ref_Name ref) v) = Ok (fn, canonical))).
Proof.
  intros Hr. unfold resolveAgent in Hr. destruct (agents !! ref_Name ref) as [e|] eqn:He; [|done].
  exists e. split; [done|].
  case_in Hr; breflect.
  - destruct (a_versions e !! ref_Version ref) eqn:Hv; simplify_eq. right. exists (ref_Version ref).
    assert (AgentRef_String ref = ref_Name ref +:+ "@" +:+ ref_Version ref) as ->.
    { unfold AgentRef_String. by rewrite bool_decide_eq_false_2. }
    split_and!; try done. intros Hne m. by eapply resolveAgent_versioned.
  - case_in Hr; breflect.
    + destruct (a_versions e !! a_defaultVer e) eqn:Hv; simplify_eq. right. exists (a_defaultVer e).
      split_and!; try done. intros Hne m. by eapply resolveAgent_versioned.
    + case_in Hr; breflect; [simplify_eq; by left|].
      case_in Hr; simplify_eq. right.
      pose proof (versions_not_empty n (a_versions e) ltac:(done)) as Hin.
      apply elem_of_dom in Hin as [fn Hv]. eexists. rewrite Hv. simpl.
      split_and!; try done. intros Hne m. by eapply resolveAgent_versioned.
Qed.

#[export] Instance id_order : MapOrder.
Proof. refine {| order_keys := λ _ l, l |}. done. Defined.

Definition wit_agents : agent_table :=
  RegisterAgentVersion (RegisterAgentVersion ∅ "demo" "1.9.0" (Some 1)) "demo" "1.10.0" (Some 2).

Lemma resolveAgent_canonical_witness :
  resolveAgent 0 wit_agents (mkRef "demo" "") = Ok (Some 2, "demo@1.10.0") ∧
  ∃ e, wit_agents !! "demo" = Some e.
Proof.
  assert (resolveAgent 0 wit_agents (mkRef "demo" "") = Ok (Some 2, "demo@1.10.0")) as H by (vm_compute; reflexivity).
  split; [exact H|].
  destruct (resolveAgent_canonical 0 wit_agents (mkRef "demo" "") (Some 2) "demo@1.10.0" H) as (e & He & _).
  exists e. exact He.
Defined.
