(* ===== verification/ServerState.v ===== *)
(** * The state of the runtime

    Models the data of server/server.go, server/session.go, server/job.go and
    server/options.go: the options, the [Server], [session], [Job] and
    [subscription] structs, the heap they live in, and the monad in which the
    handlers run.  Structs that the code shares by pointer (sessions, jobs,
    subscriptions, sequence allocators) are cells of a heap; a pointer is a
    number.  The state also holds what the outside observes: the envelopes
    written on each transport and the trace of observable actions.

    Goroutines interleave at the granularity of the operations of the file
    Runtime: the fields that the code guards with a mutex are read and written
    inside one operation. *)

From S2P Require Import Prelude GoStrings Errors Features Float64 Lease Canonical LeaseState Messages EventLog IdStore Agents.
From Stdlib Require Import ZArith Lia.

(** ** What the runtime takes from outside

    Identifiers (ulid, uuid and crypto/rand), the SHA-256 of the canonical JSON
    of a submission, the outcome of a transport write, the choice of a [select]
    with several ready cases, map iteration and URL parsing, and the largest
    capacity the platform's [make] accepts for a page of job infos.  The numbers are
    positions in the run. *)

(** The anonymous struct of [submitParamsHash]: agent, input, lease request,
    constraints and runtime limit. *)
Record submit_canon := mkCanon {
  sc_Agent : string;
  sc_Input : string;
  sc_Lease : Lease;
  sc_Constraints : option LeaseConstraints;
  sc_MaxRuntime : Z
}.

Class Runtime := {
  ulid : nat → string;
  uuid : nat → string;
  trace_hex : nat → string;
  ulid_inj : ∀ m n, ulid m = ulid n → m = n;
  uuid_inj : ∀ m n, uuid m = uuid n → m = n;
  uuid_nonempty : ∀ n, uuid n ≠ "";
  sha256_hex : submit_canon → string;
  send_err : nat → option error;
  pick : nat → bool;
  max_page : Z;
  max_page_lt : (max_page < 2 ^ 63 - 1)%Z;
  #[global] runtime_order :: MapOrder;
  #[global] runtime_url :: NetURL
}.

(** ** Identifiers (ids.go) *)

Section ids.
Context {RT : Runtime}.

Definition NewEnvelopeID (n : nat) : string := uuid n.
Definition NewULID (n : nat) : string := ulid n.
Definition NewSessionID (n : nat) : string := "sess_" +:+ NewULID n.
Definition NewJobID (n : nat) : string := "job_" +:+ NewULID n.
Definition NewResultID (n : nat) : string := "res_" +:+ NewULID n.
Definition NewPingNonce (n : nat) : string := "p_" +:+ NewULID n.
Definition NewCallID (n : nat) : string := "c_" +:+ NewULID n.
Definition NewTraceID (n : nat) : string := trace_hex n.

End ids.

(** ** Options *)

(** [auth.Verifier]: the principal of a token, at a position of the run. *)
Abbreviation Verifier := (nat → string → res string).

Record IssueRequest := mkIssue {
  ir_JobID : string;
  ir_Principal : string;
  ir_Agent : string;
  ir_Lease : Lease;
  ir_Budget : gmap Currency f64;
  ir_ExpiresAt : option Time;
  ir_ParentJobID : string
}.

(** [credentials.Provisioner], with the optional [PriorValueRevoker]. *)
Record Provisioner := mkProvisioner {
  pv_Issue : nat → IssueRequest → res (list Credential);
  pv_Revoke : nat → string → option error;
  pv_RevokePriorValue : option (nat → string → string → option error)
}.

(** A [slog.Logger] is where it writes, and a [clock.Clock] which time it
    tells: the standard one ([None] below stands for nil), the discarding one of
    the defaults, or one of the embedding program.  Nothing the server does
    depends on what is logged, and the time of the chosen clock is [now]. *)
Inductive Logger := SlogDefault | SlogDiscard | UserLogger (handle : nat).
Inductive ClockSource := RealClock | UserClock (handle : nat).

Record Options := mkOptions {
  o_Name : string;
  o_Version : string;
  o_HeartbeatInterval : Duration;
  o_ResumeWindow : Duration;
  o_Verifier : option Verifier;
  o_Logger : option Logger;
  o_Clock : option ClockSource;
  o_AckLagThreshold : Z;
  o_Features : list string;
  o_Provisioner : option Provisioner;
  o_MaxResultBytes : Z;
  o_ChunkSize : Z;
  o_EventLogSize : Z;
  o_OutboxBuffer : Z
}.

#[export] Instance eta_Options : Eta Options := λ o,
  mkOptions (o_Name o) (o_Version o) (o_HeartbeatInterval o) (o_ResumeWindow o) (o_Verifier o)
    (o_Logger o) (o_Clock o) (o_AckLagThreshold o) (o_Features o) (o_Provisioner o) (o_MaxResultBytes o) (o_ChunkSize o)
    (o_EventLogSize o) (o_OutboxBuffer o).

Definition withDefaults (o : Options) : Options :=
  let o := if bool_decide (o_Name o = "") then o <| o_Name := "arcp-go-runtime" |> else o in
  let o := if bool_decide (o_Version o = "") then o <| o_Version := "1.0.0" |> else o in
  let o := if (o_HeartbeatInterval o =? 0)%Z then o <| o_HeartbeatInterval := (30 * second)%Z |>
           else if (o_HeartbeatInterval o <? second)%Z then o <| o_HeartbeatInterval := second |> else o in
  let o := if (o_ResumeWindow o =? 0)%Z then o <| o_ResumeWindow := (10 * minute)%Z |> else o in
  let o := match o_Logger o with None => o <| o_Logger := Some SlogDiscard |> | Some _ => o end in
  let o := match o_Clock o with None => o <| o_Clock := Some RealClock |> | Some _ => o end in
  let o := if (o_MaxResultBytes o =? 0)%Z then o <| o_MaxResultBytes := (32 * 2 ^ 20)%Z |> else o in
  let o := if (o_ChunkSize o =? 0)%Z then o <| o_ChunkSize := (2 ^ 20)%Z |> else o in
  let o := if (o_EventLogSize o <=? 0)%Z then o <| o_EventLogSize := 10000%Z |> else o in
  if (o_OutboxBuffer o <=? 0)%Z then o <| o_OutboxBuffer := 128%Z |> else o.

(** ** Sessions *)

(** Where the goroutine of [Accept] stands: the handshake is done, the session
    is registered, it is the live session of its id, the buffered events have
    been replayed and the read loop runs, the deferred cleanup of [run] is
    done, [Accept] has returned. *)
Inductive session_pc := SHandshaken | SRegistered | SCurrent | SReading | SExited | SDone.

#[export] Instance session_pc_eq_dec : EqDecision session_pc.
Proof. solve_decision. Defined.

Record session := mkSession {
  s_id : string;
  s_principal : string;
  s_transport : nat;
  s_features : list string;
  s_clientCap : HelloCapabilities;
  s_ctxDone : bool;
  s_outbox : list Envelope;
  s_outboxClosed : bool;
  s_writing : bool;
  s_pingAt : option Time;
  s_pingArmed : bool;
  s_watchAt : option Time;
  s_seq : nat;
  s_high : N;
  s_backPressureArmed : bool;
  s_heartbeatLost : bool;
  s_gracefulBye : bool;
  s_resumeToken : string;
  s_isResume : bool;
  s_replayFrom : Z;
  s_pc : session_pc
}.

#[export] Instance eta_session : Eta session := λ s,
  mkSession (s_id s) (s_principal s) (s_transport s) (s_features s) (s_clientCap s) (s_ctxDone s)
    (s_outbox s) (s_outboxClosed s) (s_writing s) (s_pingAt s) (s_pingArmed s) (s_watchAt s)
    (s_seq s) (s_high s) (s_backPressureArmed s) (s_heartbeatLost s) (s_gracefulBye s)
    (s_resumeToken s) (s_isResume s) (s_replayFrom s) (s_pc s).

Definition null_session : session :=
  mkSession "" "" 0 [] (mkHelloCaps [] []) true [] true false None false None 0 0%N false false false "" false 0 SDone.

(** ** Jobs *)

Record streamedResult := mkStream {
  sr_resultID : string;
  sr_encoding : string;
  sr_seq : Z;
  sr_size : Z;
  sr_max : Z;
  sr_chunkSize : Z;
  sr_closed : bool
}.

#[export] Instance eta_stream : Eta streamedResult := λ r,
  mkStream (sr_resultID r) (sr_encoding r) (sr_seq r) (sr_size r) (sr_max r) (sr_chunkSize r) (sr_closed r).

(** Where the goroutine of [Job.run] stands: the job is created, the run is
    scheduled, the agent body runs, the run has returned. *)
Inductive job_pc := JCreated | JPending | JAgent | JReturned.

#[export] Instance job_pc_eq_dec : EqDecision job_pc.
Proof. solve_decision. Defined.

(** The struct [Job] with the [JobContext] of its only run.  A timer is its
    deadline while it is armed; the [Due] flags are callbacks that the clock
    has started and that have not run yet. *)
Record Job := mkJob {
  j_id : string;
  j_agent : string;
  j_principal : string;
  j_session : nat;
  j_fn : AgentFunc;
  j_input : string;
  j_traceID : string;
  j_createdAt : Time;
  j_lease : State;
  j_creds : list Credential;
  j_ctxDone : bool;
  j_revoked : bool;
  j_statusV : string;
  j_terminal : bool;
  j_cancelRe : string;
  j_expiryTimer : option Time;
  j_expiryDue : bool;
  j_runtimeTimer : option Time;
  j_runtimeDue : bool;
  j_lastEventSeq : Z;
  j_streamed : option streamedResult;
  j_lastRemainEmit : gmap Currency f64;
  j_pc : job_pc
}.

#[export] Instance eta_Job : Eta Job := λ j,
  mkJob (j_id j) (j_agent j) (j_principal j) (j_session j) (j_fn j) (j_input j) (j_traceID j)
    (j_createdAt j) (j_lease j) (j_creds j) (j_ctxDone j) (j_revoked j) (j_statusV j) (j_terminal j)
    (j_cancelRe j) (j_expiryTimer j) (j_expiryDue j) (j_runtimeTimer j) (j_runtimeDue j)
    (j_lastEventSeq j) (j_streamed j) (j_lastRemainEmit j) (j_pc j).

Definition null_job : Job :=
  mkJob "" "" "" 0 None "" "" 0 (mkState ∅ None ∅ ∅) [] true true StatusError true "" None false None false 0
    None ∅ JReturned.

Record subscription := mkSubscription { sub_session : nat; sub_jobID : string; sub_closed : bool }.

#[export] Instance eta_subscription : Eta subscription := λ s,
  mkSubscription (sub_session s) (sub_jobID s) (sub_closed s).

Definition null_subscription : subscription := mkSubscription 0 "" true.

Record resumeEntry := mkResumeEntry {
  re_sessionID : string;
  re_principal : string;
  re_features : list string;
  re_clientCap : HelloCapabilities;
  re_seq : Z;
  re_resumeToken : string;
  re_expiresAt : Time
}.

(** ** The server *)

(** Observable actions, in the order they happen: an envelope handed to
    [session.send] (or sent ephemerally), an envelope placed on an outbox, an
    entry appended to the event log, and the calls of the provisioner. *)
Inductive obs :=
| OSend (sess : nat) (env : Envelope)
| OEnqueue (sess : nat) (env : Envelope)
| OPersist (e : Entry)
| OIssue (req : IssueRequest)
| ORevoke (credentialID : string)
| ORevokePrior (credentialID priorValue : string).

Record Server := mkServer {
  opts : Options;
  now : Time;
  tick : nat;
  agents : agent_table;
  jobs : gmap string nat;
  subs : gmap string (list nat);
  idStore : IdStore.Memory;
  log : Memory;
  resumes : gmap string resumeEntry;
  sessions : gset nat;
  sessionsDone : bool;
  seqAllocs : gmap string nat;
  current : gmap string nat;
  closed : bool;
  janitorAt : option Time;
  hsess : gmap nat session;
  hjob : gmap nat Job;
  hsub : gmap nat subscription;
  halloc : gmap nat Z;
  wrapped : bool;
  wire : gmap nat (list Envelope);
  tclosed : gset nat;
  trace : list obs;
  crashed : bool
}.

#[export] Instance eta_Server : Eta Server := λ s,
  mkServer (opts s) (now s) (tick s) (agents s) (jobs s) (subs s) (idStore s) (log s) (resumes s)
    (sessions s) (sessionsDone s) (seqAllocs s) (current s) (closed s) (janitorAt s) (hsess s) (hjob s)
    (hsub s) (halloc s) (wrapped s) (wire s) (tclosed s) (trace s) (crashed s).

(** Dereferencing. *)
Definition sess (s : Server) (p : nat) : session := default null_session (hsess s !! p).
Definition job (s : Server) (p : nat) : Job := default null_job (hjob s !! p).
Definition sub (s : Server) (p : nat) : subscription := default null_subscription (hsub s !! p).
Definition alloc (s : Server) (p : nat) : Z := default 0%Z (halloc s !! p).

(** ** The state monad *)

Definition M (A : Type) : Type := Server → A * Server.

#[export] Instance M_ret : MRet M := λ A a s, (a, s).
#[export] Instance M_bind : MBind M := λ A B k m s, let '(a, s') := m s in k a s'.

Definition gets {A} (f : Server → A) : M A := λ s, (f s, s).
Definition modify (f : Server → Server) : M () := λ s, ((), f s).

Fixpoint for_each {A} (l : list A) (k : A → M ()) : M () :=
  match l with
  | [] => mret ()
  | x :: l => k x;; for_each l k
  end.

Definition when (b : bool) (m : M ()) : M () := if b then m else mret ().

(** A position of the run: the seed of an identifier or of a choice, and the
    address of a new cell. *)
Definition fresh : M nat := λ s, (tick s, s <| tick := S (tick s) |>).

Definition set_sess (p : nat) (f : session → session) : M () :=
  modify (λ s, s <| hsess := alter f p (hsess s) |>).
Definition set_job_ (p : nat) (f : Job → Job) : M () :=
  modify (λ s, s <| hjob := <[p := f (job s p)]> (hjob s) |>).
Definition observe (o : obs) : M () := modify (λ s, s <| trace := trace s ++ [o] |>).
