(* ===== verification/Delivery.v ===== *)
(** * Event delivery

    Models the delivery path of server/server.go, server/session.go and
    server/subscription.go: the per-session-id sequence allocators, the map of
    live sessions, [send] with its persistence and back-pressure, the writer
    goroutine and the fan-out to subscribers. *)

From S2P Require Import Prelude GoStrings Errors Features Float64 Lease Canonical LeaseState Messages EventLog IdStore Agents ServerState.
From Stdlib Require Import ZArith Lia.

Section delivery.
Context {RT : Runtime}.

(** ** Sequence allocators *)

(** [seqAlloc.next]; [wrapped] records that the 64-bit counter overflowed. *)
Definition next (a : nat) : M Z :=
  v ← gets (λ s, alloc s a);
  let w := wrap_u64 (v + 1) in
  modify (λ s, s <| halloc := <[a := w]> (halloc s) |> <| wrapped := wrapped s || (w <=? v)%Z |>);;
  mret w.

Definition setIfGreater (a : nat) (v : Z) : M () :=
  modify (λ s, if (alloc s a <? v)%Z then s <| halloc := <[a := v]> (halloc s) |> else s).

Definition allocFor (sessionID : string) : M nat :=
  r ← gets (λ s, seqAllocs s !! sessionID);
  match r with
  | Some a => mret a
  | None =>
      a ← fresh;
      modify (λ s, s <| halloc := <[a := 0%Z]> (halloc s) |> <| seqAllocs := <[sessionID := a]> (seqAllocs s) |>);;
      mret a
  end.

Definition dropAlloc (sessionID : string) : M () :=
  modify (λ s, s <| seqAllocs := delete sessionID (seqAllocs s) |>).

Definition nextSeq (p : nat) : M Z := a ← gets (λ s, s_seq (sess s p)); next a.
Definition currentSeq (s : Server) (p : nat) : Z := alloc s (s_seq (sess s p)).

(** ** The live session of an id *)

Definition setCurrentSession (p : nat) : M () :=
  modify (λ s, s <| current := <[s_id (sess s p) := p]> (current s) |>).

Definition clearCurrentSession (p : nat) : M () :=
  modify (λ s, if bool_decide (current s !! s_id (sess s p) = Some p)
               then s <| current := delete (s_id (sess s p)) (current s) |> else s).

Definition currentSession (s : Server) (id : string) : option nat := current s !! id.

Definition hasFeature (x : session) (name : string) : bool := HasFeature (s_features x) name.

(** ** Envelopes and transports *)

Definition new_envelope (typ : string) (p : payload) : M (res Envelope) :=
  n ← fresh; mret (NewEnvelope (NewEnvelopeID n) typ p).

(** [Transport.Send]: a closed transport refuses, an open one may fail. *)
Definition transport_send (t : nat) (env : Envelope) : M (option error) :=
  n ← fresh;
  dead ← gets (λ s, bool_decide (t ∈ tclosed s));
  if dead : bool then mret (Some ErrClosed)
  else match send_err n with
       | Some e => mret (Some e)
       | None =>
           modify (λ s, s <| wire := <[t := default [] (wire s !! t) ++ [env]]> (wire s) |>);;
           mret None
       end.

Definition transport_close (t : nat) : M () := modify (λ s, s <| tclosed := {[t]} ∪ tclosed s |>).

(** One turn of [writeLoop]: take an envelope and write it, re-arming the
    outbound heartbeat timer; an error or the closed outbox ends the loop. *)
Definition writeLoop_turn (p : nat) : M () :=
  x ← gets (λ s, sess s p);
  if negb (s_writing x) then mret ()
  else match s_outbox x with
       | [] => when (s_outboxClosed x || s_ctxDone x) (set_sess p (λ x, x <| s_writing := false |>))
       | env :: rest =>
           set_sess p (λ x, x <| s_outbox := rest |>);;
           err ← transport_send (s_transport x) env;
           match err with
           | Some _ => set_sess p (λ x, x <| s_writing := false |>)
           | None =>
               modify (λ s, s <| hsess := <[p :=
                 if s_pingArmed (sess s p)
                 then sess s p <| s_pingAt := Some (now s + o_HeartbeatInterval (opts s))%Z |>
                 else sess s p]> (hsess s) |>)
           end
       end.

(** ** Persistence *)

Definition isCredentialRotation (env : Envelope) : bool :=
  if negb (bool_decide (env_Type env = TypeJobEvent)) then false
  else match decode_event (env_Payload env) with
       | Err _ => false
       | Ok ev =>
           if negb (bool_decide (ev_Kind ev = KindStatus)) then false
           else match ev_Body ev with
                | BStatus b => bool_decide (sb_Phase b = PhaseCredentialRotated)
                | _ => false
                end
       end.

Definition persistOutbound (p : nat) (env : Envelope) : M () :=
  if (env_EventSeq env =? 0)%Z then mret ()
  else if isCredentialRotation env then mret ()
  else
    t ← gets now;
    sid ← gets (λ s, s_id (sess s p));
    let e := mkEntry sid (env_EventSeq env) (env_JobID env) t env in
    modify (λ s, s <| log := Append (log s) t e |>);;
    observe (OPersist (stamp t e)).

(** ** The outbox *)

Definition outbox_full (s : Server) (p : nat) : bool :=
  (o_OutboxBuffer (opts s) <=? Z.of_nat (length (s_outbox (sess s p))))%Z.

Definition push (p : nat) (env : Envelope) : M () :=
  set_sess p (λ x, x <| s_outbox := s_outbox x ++ [env] |>);;
  observe (OEnqueue p env).

Definition bp_body (threshold seq high : Z) : event_body :=
  BStatus (mkStatus "back_pressure" "unacked event lag exceeded threshold"
    (<["threshold" := AnyUint threshold]> (<["current_seq" := AnyUint seq]> (<["last_ack" := AnyUint high]> ∅)))).

(** The event is persisted and then enqueued without blocking; a full outbox
    re-arms the breach. *)
Definition maybeEmitBackPressure (p : nat) (jobID : string) (seq : Z) : M () :=
  threshold ← gets (λ s, o_AckLagThreshold (opts s));
  x ← gets (λ s, sess s p);
  let high := Z.of_N (s_high x) in
  if (threshold =? 0)%Z || negb (hasFeature x "ack") then mret ()
  else if (seq <=? high)%Z || (seq - high <? threshold)%Z then mret ()
  else if negb (s_backPressureArmed x) then mret ()
  else
    set_sess p (λ x, x <| s_backPressureArmed := false |>);;
    t ← gets now;
    r ← new_envelope TypeJobEvent (PEvent (mkEvent KindStatus t (bp_body threshold seq high)));
    match r with
    | Err _ => set_sess p (λ x, x <| s_backPressureArmed := true |>)
    | Ok env =>
        n ← nextSeq p;
        let env := set_seq (set_session (set_job env jobID) (s_id x)) n in
        persistOutbound p env;;
        full ← gets (λ s, outbox_full s p);
        if s_outboxClosed x then mret ()
        else if full : bool then set_sess p (λ x, x <| s_backPressureArmed := true |>)
        else push p env
    end.

(** [enqueue]: with room the envelope is placed on the channel (or, once the
    context is done, dropped if the [select] takes the other case); without
    room the sender waits until the writer takes an envelope or the context is
    done. *)
Definition enqueue (p : nat) (env : Envelope) : M () :=
  x ← gets (λ s, sess s p);
  if s_outboxClosed x then mret ()
  else
    n ← fresh;
    full ← gets (λ s, outbox_full s p);
    (if full : bool then
       if negb (s_ctxDone x) && s_writing x && pick n then writeLoop_turn p;; push p env else mret ()
     else if negb (s_ctxDone x) || pick n then push p env else mret ());;
    maybeEmitBackPressure p (env_JobID env) (env_EventSeq env).

(** The live session of the id, else the session itself. *)
Definition route (s : Server) (p : nat) : nat := default p (currentSession s (s_id (sess s p))).

Definition send (p : nat) (env : Envelope) : M () :=
  sid ← gets (λ s, s_id (sess s p));
  let env := set_session env sid in
  observe (OSend p env);;
  persistOutbound p env;;
  cur ← gets (λ s, route s p);
  enqueue cur env.

Definition sendEphemeral (p : nat) (env : Envelope) : M () :=
  sid ← gets (λ s, s_id (sess s p));
  let env := set_session env sid in
  observe (OSend p env);;
  cur ← gets (λ s, route s p);
  enqueue cur env.

(** ** Subscriptions *)

Definition newSubscription (p : nat) (jobID : string) : M nat :=
  n ← fresh;
  modify (λ s, s <| hsub := <[n := mkSubscription p jobID false]> (hsub s) |>);;
  mret n.

Definition publish (q : nat) (env : Envelope) : M () :=
  x ← gets (λ s, sub s q);
  if sub_closed x then mret ()
  else
    n ← nextSeq (sub_session x);
    send (sub_session x) (set_seq env n).

Definition sub_close (q : nat) : M () :=
  modify (λ s, s <| hsub := <[q := sub s q <| sub_closed := true |>]> (hsub s) |>).

Definition subscribers (s : Server) (jobID : string) : list nat := default [] (subs s !! jobID).

Definition fanoutEvent (jobID : string) (env : Envelope) : M () :=
  l ← gets (λ s, subscribers s jobID);
  for_each l (λ q, publish q env).

Definition addSubscriber (jobID : string) (q : nat) : M () :=
  modify (λ s, s <| subs := <[jobID := subscribers s jobID ++ [q]]> (subs s) |>).

(** Removes the first occurrence. *)
Fixpoint remove_first (q : nat) (l : list nat) : list nat :=
  match l with
  | [] => []
  | x :: l => if bool_decide (x = q) then l else x :: remove_first q l
  end.

Definition removeSubscriber (jobID : string) (q : nat) : M () :=
  modify (λ s, if bool_decide (q ∈ subscribers s jobID)
               then s <| subs := <[jobID := remove_first q (subscribers s jobID)]> (subs s) |> else s).

End delivery.
