(* ===== verification/Stream.v ===== *)
(** * Streamed results

    Models the result stream on both sides: the chunking writer
    [streamedResult] of server/jobcontext.go and the assembler of
    client/handle.go ([CollectChunks] and [assembleChunks]), with the base64
    codec and the coercion to valid UTF-8 that [encoding/json] applies to a
    string.  Byte slices are strings. *)

From S2P Require Import Prelude GoStrings Errors Messages ServerState.
From Stdlib Require Import ZArith Ascii Lia Sorted.

(** ** base64.StdEncoding *)

Definition b64_alphabet : string :=
  "ABCDEFGHIJKLMNOPQRSTUVWXYZabcdefghijklmnopqrstuvwxyz0123456789+/".

Definition b64_char (z : Z) : ascii :=
  match String.get (Z.to_nat z) b64_alphabet with Some c => c | None => "A"%char end.

Definition b64_value (c : ascii) : option Z := Z.of_nat <$> IndexByte b64_alphabet c.

Definition chr (z : Z) : ascii := ascii_of_N (Z.to_N z).

Fixpoint EncodeToString (s : string) : string :=
  match s with
  | EmptyString => EmptyString
  | String a EmptyString =>
      let n := (byte_of a * 65536)%Z in
      String (b64_char (n / 262144)) (String (b64_char (n / 4096 mod 64)) "==")
  | String a (String b EmptyString) =>
      let n := (byte_of a * 65536 + byte_of b * 256)%Z in
      String (b64_char (n / 262144)) (String (b64_char (n / 4096 mod 64)) (String (b64_char (n / 64 mod 64)) "="))
  | String a (String b (String c s)) =>
      let n := (byte_of a * 65536 + byte_of b * 256 + byte_of c)%Z in
      String (b64_char (n / 262144)) (String (b64_char (n / 4096 mod 64))
        (String (b64_char (n / 64 mod 64)) (String (b64_char (n mod 64)) (EncodeToString s))))
  end.

(** [DecodeString] on quanta of four characters; padding only at the end.  The
    line breaks that the decoder skips are stripped first. *)
Fixpoint strip_newlines (s : string) : string :=
  match s with
  | EmptyString => EmptyString
  | String c s =>
      if bool_decide (c = "010"%char) || bool_decide (c = "013"%char) then strip_newlines s
      else String c (strip_newlines s)
  end.

Fixpoint decode_quanta (s : string) : option string :=
  match s with
  | EmptyString => Some EmptyString
  | String a (String b (String c (String d s))) =>
      match b64_value a, b64_value b with
      | Some a, Some b =>
          if bool_decide (c = "="%char) then
            if bool_decide (d = "="%char) && bool_decide (s = EmptyString) then
              Some (String (chr ((a * 64 + b) / 16)) EmptyString)
            else None
          else match b64_value c with
               | None => None
               | Some c =>
                   if bool_decide (d = "="%char) then
                     if bool_decide (s = EmptyString) then
                       let n := ((a * 64 + b) * 64 + c)%Z in
                       Some (String (chr (n / 1024)) (String (chr (n / 4 mod 256)) EmptyString))
                     else None
                   else match b64_value d, decode_quanta s with
                        | Some d, Some rest =>
                            let n := (((a * 64 + b) * 64 + c) * 64 + d)%Z in
                            Some (String (chr (n / 65536)) (String (chr (n / 256 mod 256)) (String (chr (n mod 256)) rest)))
                        | _, _ => None
                        end
               end
      | _, _ => None
      end
  | _ => None
  end.

Definition DecodeString (s : string) : option string := decode_quanta (strip_newlines s).

(** ** UTF-8 as encoding/json coerces it

    Each byte that starts no valid encoding is replaced by U+FFFD. *)

Definition in_range (lo hi : Z) (c : ascii) : bool := ((lo <=? byte_of c) && (byte_of c <=? hi))%Z.
Definition cont : ascii → bool := in_range 128 191.

Definition lead2 (a b : ascii) : bool := in_range 194 223 a && cont b.
Definition lead3 (a b c : ascii) : bool :=
  (in_range 224 224 a && in_range 160 191 b || in_range 225 236 a && cont b ||
   in_range 237 237 a && in_range 128 159 b || in_range 238 239 a && cont b) && cont c.
Definition lead4 (a b c d : ascii) : bool :=
  (in_range 240 240 a && in_range 144 191 b || in_range 241 243 a && cont b ||
   in_range 244 244 a && in_range 128 143 b) && cont c && cont d.

Definition replacement : string := String "239" (String "191" (String "189" EmptyString)).

Fixpoint coerce_utf8 (s : string) : string :=
  match s with
  | EmptyString => EmptyString
  | String a s1 =>
      if in_range 0 127 a then String a (coerce_utf8 s1)
      else match s1 with
           | EmptyString => replacement
           | String b s2 =>
               if lead2 a b then String a (String b (coerce_utf8 s2))
               else match s2 with
                    | EmptyString => replacement +:+ coerce_utf8 s1
                    | String c s3 =>
                        if lead3 a b c then String a (String b (String c (coerce_utf8 s3)))
                        else match s3 with
                             | EmptyString => replacement +:+ coerce_utf8 s1
                             | String d s4 =>
                                 if lead4 a b c d
                                 then String a (String b (String c (String d (coerce_utf8 s4))))
                                 else replacement +:+ coerce_utf8 s1
                             end
                    end
           end
  end.

(** ** The writer (server/jobcontext.go) *)

Definition slen (s : string) : Z := Z.of_nat (len s).

(** The data of a chunk as it reaches the wire. *)
Definition chunk_data (encoding segment : string) : string :=
  if bool_decide (encoding = "utf8") then coerce_utf8 segment
  else if bool_decide (encoding = "base64") then EncodeToString segment
  else EmptyString.

(** The loop of [Write] over the unwritten rest of [p]; each turn writes at
    least one byte, so [len p] turns are enough. *)
Fixpoint write_loop (fuel limit : nat) (r : streamedResult) (rest : string) : streamedResult * list ResultChunkBody :=
  match fuel with
  | 0 => (r, [])
  | S fuel =>
      if bool_decide (rest = EmptyString) then (r, [])
      else
        let segment := stake limit rest in
        let body := mkChunk (sr_resultID r) (sr_seq r) (chunk_data (sr_encoding r) segment) (sr_encoding r) true in
        let r := r <| sr_seq := wrap_u64 (sr_seq r + 1) |> <| sr_size := wrap_u64 (sr_size r + slen segment) |> in
        let '(r, bodies) := write_loop fuel limit r (sdrop limit rest) in
        (r, body :: bodies)
  end.

Definition err_closed_stream : error := arcp_err ErrInvalidRequest "write to closed result stream".
Definition err_too_large : error := arcp_err ErrInternalError "streamed result exceeds the configured number of bytes".

(** [Write]: the result, the writer and the bodies of the emitted events. *)
Definition Write (r : streamedResult) (p : string) : res Z * streamedResult * list ResultChunkBody :=
  if sr_closed r then (Err err_closed_stream, r, [])
  else if (0 <? sr_max r)%Z && (sr_max r <? wrap_i64 (wrap_i64 (sr_size r) + slen p))%Z
  then (Err err_too_large, r, [])
  else if (len p =? 0)%nat then (Ok 0%Z, r, [])
  else
    let limit := if (sr_chunkSize r <=? 0)%Z then len p else Z.to_nat (sr_chunkSize r) in
    let '(r, bodies) := write_loop (len p) limit r p in
    (Ok (slen p), r, bodies).

Definition Close (r : streamedResult) : streamedResult * list ResultChunkBody :=
  if sr_closed r then (r, [])
  else
    let body := mkChunk (sr_resultID r) (sr_seq r) EmptyString (sr_encoding r) false in
    (r <| sr_closed := true |>, [body]).

(** ** The assembler (client/handle.go) *)

Record chunkAccum := mkAccum { ca_encoding : string; ca_chunks : gmap Z string }.

Abbreviation accums := (gmap string chunkAccum).

Definition add_chunk (max : Z) (by_ : accums) (total : Z) (ch : ResultChunkBody) : res (accums * Z) :=
  let total := wrap_i64 (total + slen (rc_Data ch)) in
  if (0 <? max)%Z && (max <? total)%Z then
    Err (arcp_err ErrInvalidRequest "assembled result exceeds MaxAssembledBytes")
  else match by_ !! rc_ResultID ch with
       | None =>
           Ok (<[rc_ResultID ch := mkAccum (rc_Encoding ch) (<[rc_ChunkSeq ch := rc_Data ch]> ∅)]> by_, total)
       | Some a =>
           if negb (bool_decide (ca_encoding a = rc_Encoding ch)) then
             Err (arcp_err ErrInvalidRequest "mixed encodings in result_chunk stream")
           else
             Ok (<[rc_ResultID ch := mkAccum (ca_encoding a) (<[rc_ChunkSeq ch := rc_Data ch]> (ca_chunks a))]> by_, total)
       end.

Definition decode_chunk (encoding data : string) : res string :=
  if bool_decide (encoding = "utf8") then Ok data
  else if bool_decide (encoding = "base64") then
    match DecodeString data with
    | Some d => Ok d
    | None => Err (EWrap "decode chunk" (ENew "illegal base64 data"))
    end
  else Ok EmptyString.

(** The gap check: the [i]-th smallest sequence number is [i]. *)
Fixpoint check_gaps (i : Z) (seqs : list Z) : bool :=
  match seqs with
  | [] => true
  | s :: seqs => (s =? i)%Z && check_gaps (i + 1) seqs
  end.

Fixpoint concat_chunks (encoding : string) (chunks : gmap Z string) (seqs : list Z) (out : string) : res string :=
  match seqs with
  | [] => Ok out
  | s :: seqs =>
      match decode_chunk encoding (default EmptyString (chunks !! s)) with
      | Err e => Err e
      | Ok d => concat_chunks encoding chunks seqs (out +:+ d)
      end
  end.

Definition assembleChunks (by_ : accums) : res string :=
  if (size by_ =? 0)%nat then Ok EmptyString
  else if (1 <? size by_)%nat then Err (arcp_err ErrInvalidRequest "multiple result_ids in stream")
  else match map_to_list by_ with
       | (_, a) :: _ =>
           let seqs := merge_sort Z.le (map_to_list (ca_chunks a)).*1 in
           if negb (check_gaps 0 seqs) then Err (arcp_err ErrInvalidRequest "result_chunk gap")
           else concat_chunks (ca_encoding a) (ca_chunks a) seqs EmptyString
       | [] => Ok EmptyString
       end.

(** [CollectChunks] over the chunks the handle delivers: a chunk with
    [more = false] or the end of the channel ends the collection. *)
Fixpoint CollectChunks (max : Z) (by_ : accums) (total : Z) (chunks : list ResultChunkBody) : res string :=
  match chunks with
  | [] => assembleChunks by_
  | ch :: chunks =>
      match add_chunk max by_ total ch with
      | Err e => Err e
      | Ok (by_, total) =>
          if negb (rc_More ch) then assembleChunks by_ else CollectChunks max by_ total chunks
      end
  end.

(** A whole stream: the writes in order, then the close; the emitted bodies, or
    the error of the first write that fails. *)
Fixpoint write_all (r : streamedResult) (ps : list string) : res (streamedResult * list ResultChunkBody) :=
  match ps with
  | [] => Ok (r, [])
  | p :: ps =>
      match Write r p with
      | (Err e, _, _) => Err e
      | (Ok _, r, bodies) =>
          match write_all r ps with
          | Err e => Err e
          | Ok (r, bodies') => Ok (r, bodies ++ bodies')
          end
      end
  end.

Definition stream_all (r : streamedResult) (ps : list string) : res (list ResultChunkBody) :=
  match write_all r ps with
  | Err e => Err e
  | Ok (r, bodies) => Ok (bodies ++ (Close r).2)
  end.

Fixpoint sconcat (l : list string) : string :=
  match l with [] => EmptyString | s :: l => s +:+ sconcat l end.

(** ** Lemmas: base64 *)

Definition b64_good (z : Z) : bool :=
  bool_decide (b64_value (b64_char z) = Some z) && negb (bool_decide (b64_char z = "="%char)) &&
  negb (bool_decide (b64_char z = "010"%char)) && negb (bool_decide (b64_char z = "013"%char)).

Lemma b64_good_all z : (0 <= z < 64)%Z → b64_good z = true.
Proof.
  intros Hz. assert (forallb b64_good (seqZ 0 64) = true) as H by (vm_compute; reflexivity).
  rewrite forallb_forall in H. apply H. apply list_elem_of_In, elem_of_seqZ. lia.
Qed.

Lemma b64_value_char z : (0 <= z < 64)%Z → b64_value (b64_char z) = Some z.
Proof. intros H%b64_good_all. unfold b64_good in H. by breflect. Qed.
Lemma b64_char_not_pad z : (0 <= z < 64)%Z → b64_char z ≠ "="%char.
Proof. intros H%b64_good_all. unfold b64_good in H. by breflect. Qed.
Lemma b64_char_kept z s :
  (0 <= z < 64)%Z → strip_newlines (String (b64_char z) s) = String (b64_char z) (strip_newlines s).
Proof.
  intros H%b64_good_all. unfold b64_good in H. breflect. cbn [strip_newlines].
  by rewrite !bool_decide_eq_false_2.
Qed.

Lemma byte_of_range c : (0 <= byte_of c < 256)%Z.
Proof.
  unfold byte_of. pose proof (N_ascii_bounded c). lia.
Qed.

Lemma chr_byte c z : z = byte_of c → chr z = c.
Proof. intros ->. unfold chr, byte_of. rewrite N2Z.id. apply ascii_N_embedding. Qed.

Lemma String_chr c z s t : z = byte_of c → s = t → String (chr z) s = String c t.
Proof. intros Hz ->. f_equal. by apply chr_byte. Qed.

(** Three bytes in, three bytes out. *)
Ltac b64_digits :=
  repeat match goal with
  | |- context [b64_value (b64_char ?z)] => rewrite (b64_value_char z) by (Z.to_euclidean_division_equations; lia)
  | |- context [bool_decide (b64_char ?z = "="%char)] =>
      rewrite (bool_decide_eq_false_2 (b64_char z = "="%char))
        by (apply b64_char_not_pad; Z.to_euclidean_division_equations; lia)
  end.

Lemma decode_encode_ind n s : len s ≤ n → decode_quanta (EncodeToString s) = Some s.
Proof.
  revert s. induction n as [|n IH]; intros [|a [|b [|c s]]] Hn; try done; try (simpl in Hn; lia).
  - pose proof (byte_of_range a). cbn [EncodeToString decode_quanta]. b64_digits.
    f_equal. apply String_chr; [Z.to_euclidean_division_equations; lia|done].
  - pose proof (byte_of_range a). pose proof (byte_of_range b).
    cbn [EncodeToString decode_quanta]. b64_digits.
    rewrite !(bool_decide_eq_true_2 (_ = _)) by done.
    f_equal. repeat (apply String_chr; [Z.to_euclidean_division_equations; lia|]). done.
  - pose proof (byte_of_range a). pose proof (byte_of_range b). pose proof (byte_of_range c).
    cbn [EncodeToString decode_quanta]. b64_digits. rewrite IH by (simpl in Hn; lia).
    f_equal. repeat (apply String_chr; [Z.to_euclidean_division_equations; lia|]). done.
Qed.

Lemma strip_encode_ind n s : len s ≤ n → strip_newlines (EncodeToString s) = EncodeToString s.
Proof.
  revert s. induction n as [|n IH]; intros [|a [|b [|c s]]] Hn; try done; try (simpl in Hn; lia);
    try pose proof (byte_of_range a); try pose proof (byte_of_range b); try pose proof (byte_of_range c);
    cbn [EncodeToString]; rewrite !b64_char_kept by (Z.to_euclidean_division_equations; lia); [done..|].
  repeat f_equal. apply IH. simpl in Hn. lia.
Qed.

Lemma DecodeString_EncodeToString s : DecodeString (EncodeToString s) = Some s.
Proof. unfold DecodeString. by rewrite (strip_encode_ind (len s)), (decode_encode_ind (len s)). Qed.

(** ** Lemmas: the writer *)

(** The chunk bodies of a list of segments, numbered from [n]. *)
Fixpoint chunks_from (rid enc : string) (n : Z) (segs : list string) : list ResultChunkBody :=
  match segs with
  | [] => []
  | seg :: segs => mkChunk rid n (chunk_data enc seg) enc true :: chunks_from rid enc (n + 1) segs
  end.

Lemma chunks_from_app rid enc n xs ys :
  chunks_from rid enc n (xs ++ ys) = chunks_from rid enc n xs ++ chunks_from rid enc (n + Z.of_nat (length xs)) ys.
Proof.
  revert n. induction xs as [|x xs IH]; intros n; simpl; [by rewrite Z.add_0_r|].
  rewrite IH. do 3 f_equal. lia.
Qed.

Lemma sconcat_app xs ys : sconcat (xs ++ ys) = sconcat xs +:+ sconcat ys.
Proof. induction xs as [|x xs IH]; simpl; [done|]. by rewrite IH, sapp_assoc. Qed.

Lemma slen_app a b : slen (a +:+ b) = (slen a + slen b)%Z.
Proof. unfold slen. rewrite len_app. lia. Qed.

Definition limit62 : Z := (2 ^ 62)%Z.

(** The writer has room for [n] more bytes and chunks on its counters. *)
Definition room (r : streamedResult) (n : Z) : Prop :=
  (0 <= sr_seq r ∧ 0 <= sr_size r ∧ sr_seq r + n < limit62 ∧ sr_size r + n < limit62)%Z.

Definition advance (r : streamedResult) (chunks bytes : Z) : streamedResult :=
  r <| sr_seq := (sr_seq r + chunks)%Z |> <| sr_size := (sr_size r + bytes)%Z |>.

Lemma advance_advance r a b c d : advance (advance r a b) c d = advance r (a + c) (b + d).
Proof. destruct r. unfold advance, set_field. cbn. f_equal; lia. Qed.

Lemma advance_0 r : advance r 0 0 = r.
Proof. destruct r. unfold advance, set_field. cbn. by rewrite !Z.add_0_r. Qed.

Lemma write_loop_spec fuel limit r rest :
  (0 < limit)%nat → (len rest <= fuel)%nat → room r (slen rest) →
  ∃ segs, write_loop fuel limit r rest =
            (advance r (Z.of_nat (length segs)) (slen rest), chunks_from (sr_resultID r) (sr_encoding r) (sr_seq r) segs) ∧
          sconcat segs = rest ∧ (Z.of_nat (length segs) <= slen rest)%Z ∧ Forall (λ s, len s <= limit)%nat segs.
Proof.
  intros Hl. revert r rest. induction fuel as [|fuel IH]; intros r rest Hf Hr.
  - assert (rest = EmptyString) as -> by (apply len_zero_inv; lia).
    exists []. simpl. split_and!; try done. by rewrite advance_0.
  - cbn [write_loop]. case_bool_decide as He.
    + subst. exists []. simpl. split_and!; try done. by rewrite advance_0.
    + assert (0 < len rest)%nat by (destruct rest; [done|rewrite len_cons; lia]).
      pose proof (stake_sdrop limit rest) as Hsplit.
      assert (slen rest = slen (stake limit rest) + slen (sdrop limit rest))%Z as Hlen
        by (by rewrite <-slen_app, Hsplit).
      assert (len (sdrop limit rest) = len rest - limit)%nat as Hdrop by apply len_sdrop.
      set (r1 := r <| sr_seq := wrap_u64 (sr_seq r + 1) |> <| sr_size := wrap_u64 (sr_size r + slen (stake limit rest)) |>).
      unfold room, limit62, slen in *.
      assert (r1 = advance r 1 (slen (stake limit rest))) as Hr1.
      { unfold r1, advance. rewrite !wrap_u64_small; [done| |]; unfold in_u64, two64, slen; lia. }
      destruct (IH r1 (sdrop limit rest)) as (segs & Hw & Hc & Hn & Hs).
      { lia. }
      { rewrite Hr1. unfold advance, slen. cbn. lia. }
      rewrite Hw. exists (stake limit rest :: segs). rewrite Hr1, advance_advance. split_and!.
      * f_equal. f_equal; simpl; unfold slen in *; lia.
      * simpl. by rewrite Hc.
      * simpl. lia.
      * constructor; [|done]. lia.
Qed.

Definition fits (r : streamedResult) (n : Z) : Prop := (sr_max r <= 0 ∨ sr_size r + n <= sr_max r)%Z.

Lemma Write_spec r p :
  sr_closed r = false → room r (slen p) → fits r (slen p) →
  ∃ segs, Write r p = (Ok (slen p), advance r (Z.of_nat (length segs)) (slen p),
                       chunks_from (sr_resultID r) (sr_encoding r) (sr_seq r) segs) ∧
          sconcat segs = p ∧ (Z.of_nat (length segs) <= slen p)%Z ∧
          ((0 < sr_chunkSize r)%Z → Forall (λ s, slen s <= sr_chunkSize r)%Z segs).
Proof.
  intros Hc Hr Hf. unfold Write. rewrite Hc.
  assert ((0 <? sr_max r) && (sr_max r <? wrap_i64 (wrap_i64 (sr_size r) + slen p)) = false)%Z as ->.
  { unfold room, fits, limit62 in *. apply andb_false_iff.
    rewrite !wrap_i64_small; unfold in_i64; rewrite ?wrap_i64_small; unfold in_i64, slen in *; try lia. }
  destruct (Nat.eqb_spec (len p) 0) as [H0|H0].
  - apply len_zero_inv in H0. subst. exists []. split_and!; try done. by rewrite advance_0.
  - edestruct (write_loop_spec (len p) (if (sr_chunkSize r <=? 0)%Z then len p else Z.to_nat (sr_chunkSize r)) r p)
      as (segs & Hw & Hs & Hn & Hl).
    { destruct (Z.leb_spec (sr_chunkSize r) 0); lia. }
    { lia. }
    { done. }
    rewrite Hw. exists segs. split_and!; try done. intros Hpos.
    eapply Forall_impl; [done|]. intros s. unfold slen.
    destruct (Z.leb_spec (sr_chunkSize r) 0); simpl; lia.
Qed.

Lemma write_all_spec ps r :
  sr_closed r = false → room r (slen (sconcat ps)) → fits r (slen (sconcat ps)) →
  ∃ segs, write_all r ps = Ok (advance r (Z.of_nat (length segs)) (slen (sconcat ps)),
                               chunks_from (sr_resultID r) (sr_encoding r) (sr_seq r) segs) ∧
          sconcat segs = sconcat ps ∧
          ((0 < sr_chunkSize r)%Z → Forall (λ s, slen s <= sr_chunkSize r)%Z segs).
Proof.
  revert r. induction ps as [|p ps IH]; intros r Hc Hr Hf; simpl.
  - exists []. split_and!; try done. by rewrite advance_0.
  - simpl in *. rewrite slen_app in Hr, Hf |- *.
    assert (0 <= slen p)%Z by (unfold slen; lia). assert (0 <= slen (sconcat ps))%Z by (unfold slen; lia).
    destruct (Write_spec r p) as (segs & Hw & Hs & Hn & Hl); [done|unfold room in *; lia|unfold fits in *; lia|].
    rewrite Hw.
    destruct (IH (advance r (Z.of_nat (length segs)) (slen p))) as (segs' & Hw' & Hs' & Hl').
    { done. }
    { unfold room, advance in *. cbn. lia. }
    { unfold fits, advance in *. cbn. lia. }
    rewrite Hw'. exists (segs ++ segs'). rewrite advance_advance, length_app. split_and!.
    + f_equal. f_equal; [f_equal; lia|]. by rewrite chunks_from_app.
    + by rewrite sconcat_app, Hs, Hs'.
    + intros Hpos. apply Forall_app. split; [by apply Hl|by apply Hl'].
Qed.

(** ** Lemmas: the assembler *)

Definition accum_of (rid enc : string) (dl : list string) : accums :=
  match dl with
  | [] => ∅
  | _ => {[rid := mkAccum enc (map_seqZ 0 dl)]}
  end.

Fixpoint data_size (bodies : list ResultChunkBody) : Z :=
  match bodies with [] => 0 | b :: bs => slen (rc_Data b) + data_size bs end%Z.

Lemma data_size_nonneg bs : (0 <= data_size bs)%Z.
Proof. induction bs; simpl; unfold slen; lia. Qed.

Lemma map_seqZ_snoc (dl : list string) d :
  <[Z.of_nat (length dl) := d]> (map_seqZ (M:=gmap Z string) 0 dl) = map_seqZ 0 (dl ++ [d]).
Proof.
  apply map_eq. intros i. apply option_eq. intros x.
  rewrite lookup_insert_Some, !lookup_map_seqZ_Some, lookup_app_Some, list_lookup_singleton_Some. split.
  - intros [[<- <-]|[? [? Hx]]]; [split; [lia|]; right; split_and!; [lia|lia|done]|]. split; [done|]. by left.
  - intros [? [Hx|[? [? <-]]]].
    + right. split; [|done]. apply lookup_lt_Some in Hx. lia.
    + left. split; [lia|done].
Qed.

Lemma add_chunk_spec max rid enc dl total d more :
  (0 <= total)%Z → (total + slen d <= max)%Z → (max < 2 ^ 63)%Z →
  add_chunk max (accum_of rid enc dl) total (mkChunk rid (Z.of_nat (length dl)) d enc more) =
  Ok (accum_of rid enc (dl ++ [d]), (total + slen d)%Z).
Proof.
  intros Ht Hd Hm. unfold add_chunk. cbn [rc_Data rc_ResultID rc_Encoding rc_ChunkSeq].
  rewrite wrap_i64_small by (unfold in_i64, slen in *; lia).
  rewrite (proj2 (Z.ltb_ge max (total + slen d))) by lia. rewrite andb_false_r.
  assert (accum_of rid enc (dl ++ [d]) = {[rid := mkAccum enc (map_seqZ 0 (dl ++ [d]))]}) as ->.
  { by destruct dl. }
  rewrite <-map_seqZ_snoc. destruct dl as [|d0 dl].
  - cbn [accum_of]. rewrite lookup_empty. done.
  - cbn [accum_of]. rewrite lookup_singleton_eq. cbn [ca_encoding ca_chunks].
    rewrite bool_decide_eq_true_2 by done. simpl. rewrite insert_singleton_eq. done.
Qed.

Lemma StronglySorted_seqZ m (k : nat) : StronglySorted Z.le (seqZ m (Z.of_nat k)).
Proof.
  revert m. induction k as [|k IH]; intros m; [constructor|].
  rewrite seqZ_cons by lia. replace (Z.pred (Z.of_nat (S k))) with (Z.of_nat k) by lia.
  constructor; [apply IH|]. apply Forall_forall. intros z Hz%elem_of_seqZ. lia.
Qed.

Lemma sorted_keys (dl : list string) :
  merge_sort Z.le (map_to_list (map_seqZ (M:=gmap Z string) 0 dl)).*1 = seqZ 0 (Z.of_nat (length dl)).
Proof.
  apply (Sorted_unique Z.le).
  - apply (Sorted_merge_sort Z.le).
  - apply StronglySorted_Sorted, StronglySorted_seqZ.
  - rewrite merge_sort_Permutation. apply NoDup_Permutation; [apply NoDup_fst_map_to_list|apply NoDup_seqZ|].
    intros i. rewrite elem_of_seqZ, list_elem_of_fmap. split.
    + intros ([j x] & -> & Hx%elem_of_map_to_list). apply lookup_map_seqZ_Some in Hx as [? Hx].
      apply lookup_lt_Some in Hx. simpl. lia.
    + intros Hi. destruct (lookup_lt_is_Some_2 dl (Z.to_nat i)) as [x Hx]; [lia|].
      exists (i, x). split; [done|]. apply elem_of_map_to_list, lookup_map_seqZ_Some.
      split; [lia|]. by rewrite Z.sub_0_r.
Qed.

Lemma check_gaps_seqZ m (k : nat) : check_gaps m (seqZ m (Z.of_nat k)) = true.
Proof.
  revert m. induction k as [|k IH]; intros m; [done|].
  rewrite seqZ_cons by lia. replace (Z.pred (Z.of_nat (S k))) with (Z.of_nat k) by lia.
  simpl. rewrite Z.eqb_refl. apply IH.
Qed.

Lemma concat_chunks_spec enc pre post segs out :
  Forall2 (λ d s, decode_chunk enc d = Ok s) post segs →
  concat_chunks enc (map_seqZ 0 (pre ++ post)) (seqZ (Z.of_nat (length pre)) (Z.of_nat (length post))) out =
  Ok (out +:+ sconcat segs).
Proof.
  intros H. revert pre out. induction H as [|d s post segs Hd H IH]; intros pre out.
  - simpl. by rewrite sapp_nil_r.
  - rewrite seqZ_cons by (simpl; lia). cbn [concat_chunks].
    rewrite lookup_map_seqZ_0 by lia. rewrite Nat2Z.id, list_lookup_middle by done. simpl. rewrite Hd.
    replace (pre ++ d :: post) with ((pre ++ [d]) ++ post) by (by rewrite <-app_assoc).
    replace (Z.succ (Z.of_nat (length pre))) with (Z.of_nat (length (pre ++ [d])))
      by (rewrite length_app; simpl; lia).
    replace (Z.pred (Z.of_nat (S (length post)))) with (Z.of_nat (length post)) by lia.
    rewrite IH. by rewrite sapp_assoc.
Qed.

Lemma assemble_spec rid enc dl segs :
  Forall2 (λ d s, decode_chunk enc d = Ok s) dl segs →
  assembleChunks (accum_of rid enc dl) = Ok (sconcat segs).
Proof.
  intros H. destruct dl as [|d dl'] eqn:Hdl.
  - apply Forall2_nil_inv_l in H. by subst.
  - rewrite <-Hdl in *. assert (accum_of rid enc dl = {[rid := mkAccum enc (map_seqZ 0 dl)]}) as -> by by subst.
    unfold assembleChunks. rewrite map_size_singleton, map_to_list_singleton. simpl.
    rewrite sorted_keys. rewrite check_gaps_seqZ. simpl.
    apply (concat_chunks_spec enc [] dl segs EmptyString H).
Qed.

Lemma collect_spec max rid enc segs dl done_ total :
  Forall2 (λ d s, decode_chunk enc d = Ok s) dl done_ →
  Forall (λ s, decode_chunk enc (chunk_data enc s) = Ok s) segs →
  decode_chunk enc EmptyString = Ok EmptyString →
  (0 <= total)%Z → (max < 2 ^ 63)%Z →
  let final := mkChunk rid (Z.of_nat (length dl) + Z.of_nat (length segs)) EmptyString enc false in
  let bodies := chunks_from rid enc (Z.of_nat (length dl)) segs ++ [final] in
  (total + data_size bodies <= max)%Z →
  CollectChunks max (accum_of rid enc dl) total bodies = Ok (sconcat done_ +:+ sconcat segs).
Proof.
  intros Hdl Hsegs Hempty Ht Hm. revert dl done_ total Hdl Ht.
  induction Hsegs as [|s segs Hs Hsegs IH]; intros dl done_ total Hdl Ht; cbv zeta; simpl; intros Hsz.
  - rewrite Z.add_0_r. rewrite add_chunk_spec by (try done; simpl in *; lia). cbn [rc_More negb].
    rewrite (assemble_spec rid enc _ (done_ ++ [EmptyString])).
    + rewrite sconcat_app. done.
    + apply Forall2_app; [done|]. by repeat constructor.
  - pose proof (data_size_nonneg (chunks_from rid enc (Z.of_nat (length dl) + 1) segs ++
      [mkChunk rid (Z.of_nat (length dl) + Z.of_nat (S (length segs))) EmptyString enc false])) as Hnn.
    assert (0 <= slen (chunk_data enc s))%Z by (unfold slen; lia).
    rewrite add_chunk_spec by (try done; lia). cbn [rc_More negb].
    specialize (IH (dl ++ [chunk_data enc s]) (done_ ++ [s]) (total + slen (chunk_data enc s))%Z).
    cbv zeta in IH. rewrite length_app in IH. simpl in IH.
    replace (Z.of_nat (length dl + 1)) with (Z.of_nat (length dl) + 1)%Z in IH by lia.
    replace (Z.of_nat (length dl) + 1 + Z.of_nat (length segs))%Z
      with (Z.of_nat (length dl) + Z.of_nat (S (length segs)))%Z in IH by lia.
    rewrite IH.
    + rewrite sconcat_app. simpl. by rewrite sapp_nil_r, sapp_assoc.
    + apply Forall2_app; [done|]. by repeat constructor.
    + lia.
    + lia.
Qed.

(** A fresh stream, as [StreamResult] makes it. *)
Definition new_stream (rid enc : string) (max chunk : Z) : streamedResult := mkStream rid enc 0 0 max chunk false.

Lemma decode_chunk_base64 s : decode_chunk "base64" (chunk_data "base64" s) = Ok s.
Proof. unfold decode_chunk, chunk_data. simpl. by rewrite DecodeString_EncodeToString. Qed.

(** ASCII text is valid UTF-8 wherever it is cut. *)
Lemma coerce_ascii s : sforallb (in_range 0 127) s = true → coerce_utf8 s = s.
Proof.
  induction s as [|c s IH]; [done|]. cbn [sforallb coerce_utf8]. intros [Hc Hs]%andb_true_iff.
  by rewrite Hc, IH.
Qed.

Lemma decode_chunk_ascii s :
  sforallb (in_range 0 127) s = true → decode_chunk "utf8" (chunk_data "utf8" s) = Ok s.
Proof. intros Hs. unfold decode_chunk, chunk_data. simpl. by rewrite coerce_ascii. Qed.

Lemma sforallb_sconcat f segs : sforallb f (sconcat segs) = true → Forall (λ s, sforallb f s = true) segs.
Proof.
  induction segs as [|s segs IH]; [constructor|]. simpl. intros H.
  assert (sforallb f s = true ∧ sforallb f (sconcat segs) = true) as [? ?].
  { clear IH. induction s as [|c s IHs]; [done|]. rewrite sapp_cons in H. simpl in *.
    apply andb_true_iff in H as [-> H]. by apply IHs. }
  constructor; auto.
Qed.

Lemma stream_roundtrip_gen rid enc max chunk maxA ps :
  (slen (sconcat ps) < limit62)%Z →
  (max <= 0 ∨ slen (sconcat ps) <= max)%Z → (0 < maxA < 2 ^ 63)%Z →
  (∀ segs, sconcat segs = sconcat ps → Forall (λ s, decode_chunk enc (chunk_data enc s) = Ok s) segs) →
  decode_chunk enc EmptyString = Ok EmptyString →
  ∃ bodies, stream_all (new_stream rid enc max chunk) ps = Ok bodies ∧
    ((data_size bodies <= maxA)%Z → CollectChunks maxA ∅ 0 bodies = Ok (sconcat ps)).
Proof.
  intros Hn Hmax HA Hdec He.
  destruct (write_all_spec ps (new_stream rid enc max chunk)) as (segs & Hw & Hs & _).
  { done. }
  { unfold room, new_stream, slen, limit62 in *. cbn. lia. }
  { unfold fits, new_stream. cbn. lia. }
  unfold stream_all. rewrite Hw.
  eexists. split; [done|]. intros Hsz. cbn in Hsz |- *.
  pose proof (collect_spec maxA rid enc segs [] [] 0) as Hcol. cbv zeta in Hcol. simpl in Hcol.
  rewrite <-Hs. apply Hcol; try done; [by apply Hdec|lia].
Qed.

(** ** Properties *)

(** What an agent streams in base64 is what the client assembles: for any
    sequence of writes to a fresh stream that stays within the configured
    size, every write succeeds whatever the chunk size, and [CollectChunks] on
    the emitted chunks returns exactly the bytes written. *)
Theorem stream_roundtrip_base64 (rid : string) (max chunk maxA : Z) (ps : list string) :
  (slen (sconcat ps) < limit62)%Z →
  (max <= 0 ∨ slen (sconcat ps) <= max)%Z → (0 < maxA < 2 ^ 63)%Z →
  ∃ bodies, stream_all (new_stream rid "base64" max chunk) ps = Ok bodies ∧
    ((data_size bodies <= maxA)%Z → CollectChunks maxA ∅ 0 bodies = Ok (sconcat ps)).
Proof.
  intros Hn Hmax HA. apply stream_roundtrip_gen; try done.
  intros segs _. apply Forall_forall. intros s _. apply decode_chunk_base64.
Qed.

Lemma stream_roundtrip_base64_witness :
  ∃ bodies, stream_all (new_stream "res_1" "base64" 100 3) ["hello "; "world"] = Ok bodies ∧
    ((data_size bodies <= 1000)%Z → CollectChunks 1000 ∅ 0 bodies = Ok "hello world").
Proof.
  apply (stream_roundtrip_base64 "res_1" 100 3 1000 ["hello "; "world"]).
  - vm_compute. reflexivity.
  - right. vm_compute. done.
  - lia.
Defined.

(** the same round trip holds for the "utf8" encoding when the bytes are
    ASCII. *)
Theorem stream_roundtrip_ascii (rid : string) (max chunk maxA : Z) (ps : list string) :
  sforallb (in_range 0 127) (sconcat ps) = true →
  (slen (sconcat ps) < limit62)%Z →
  (max <= 0 ∨ slen (sconcat ps) <= max)%Z → (0 < maxA < 2 ^ 63)%Z →
  ∃ bodies, stream_all (new_stream rid "utf8" max chunk) ps = Ok bodies ∧
    ((data_size bodies <= maxA)%Z → CollectChunks maxA ∅ 0 bodies = Ok (sconcat ps)).
Proof.
  intros Ha Hn Hmax HA. apply stream_roundtrip_gen; try done.
  intros segs Hs. rewrite <-Hs in Ha. apply sforallb_sconcat in Ha.
  eapply Forall_impl; [done|]. intros s. apply decode_chunk_ascii.
Qed.

Lemma stream_roundtrip_ascii_witness :
  ∃ bodies, stream_all (new_stream "res_1" "utf8" 0 4) ["hello "; "world"] = Ok bodies ∧
    ((data_size bodies <= 1000)%Z → CollectChunks 1000 ∅ 0 bodies = Ok "hello world").
Proof.
  apply (stream_roundtrip_ascii "res_1" 0 4 1000 ["hello "; "world"]).
  - vm_compute. reflexivity.
  - vm_compute. reflexivity.
  - left. lia.
  - lia.
Defined.

(** with the "utf8" encoding a chunk boundary inside a multi-byte rune
    corrupts the result: the two-byte rune U+00E9 written to a stream with
    one-byte chunks reaches the client as two replacement characters. *)
Theorem stream_utf8_split_corrupts :
  let e_acute := String "195" (String "169" EmptyString) in
  coerce_utf8 e_acute = e_acute ∧
  ∃ bodies, stream_all (new_stream "res_1" "utf8" 0 1) [e_acute] = Ok bodies ∧
    CollectChunks 1000 ∅ 0 bodies = Ok (replacement +:+ replacement).
Proof.
  cbv zeta. split; [reflexivity|]. eexists. split; [vm_compute; reflexivity|].
  vm_compute. reflexivity.
Qed.
