(* ===== verification/Job.v ===== *)
(** * Jobs

    Models server/job.go and server/jobcontext.go: the job state machine
    (creation, timers, terminal transitions, credential revocation) and the
    operations an agent body performs through its [JobContext]. *)

From S2P Require Import Prelude GoStrings Errors Features Float64 Lease Canonical LeaseState Messages EventLog IdStore Agents ServerState Delivery Stream.
From Stdlib Require Import ZArith Ascii Lia.

Section job.
Context {RT : Runtime}.

(** ** Construction *)

(** [newJob] on the session [p]; the address and the id of the job come from
    the same position of the run. *)
Definition newJob (p : nat) (canonicalAgent : string) (req : JobSubmit) (fn : AgentFunc) (traceID : string) : M nat :=
  n ← fresh;
  let expiresAt := match js_LeaseConstraints req with
                   | Some c => zt_instant <$> lc_ExpiresAt c
                   | None => None
                   end in
  let st := NewState (js_LeaseRequest req) expiresAt in
  m ← fresh;
  let traceID := if bool_decide (traceID = "") then NewTraceID m else traceID in
  t ← gets now;
  x ← gets (λ s, sess s p);
  let left_ := match expiresAt with Some e => (e - t)%Z | None => 0%Z end in
  let armed := bool_decide (is_Some expiresAt) && (0 <? left_)%Z in
  let due := bool_decide (is_Some expiresAt) && negb (0 <? left_)%Z in
  let runtime := if (0 <? js_MaxRuntimeSec req)%Z
                 then Some (t + wrap_i64 (js_MaxRuntimeSec req * second))%Z else None in
  modify (λ s, s <| hjob := <[n :=
    mkJob (NewJobID n) canonicalAgent (s_principal x) p fn (js_Input req) traceID t st [] false false
      StatusPending false "" (if armed then expiresAt else None) due runtime false 0 None ∅ JCreated]> (hjob s) |>);;
  mret n.

(** ** The state machine *)

Definition status (s : Server) (j : nat) : string := j_statusV (job s j).

Definition setStatus (j : nat) (st : string) : M () :=
  set_job_ j (λ x, if negb (j_terminal x) then x <| j_statusV := st |> else x).

(** The first caller wins; every later call reports false. *)
Definition markTerminal (j : nat) (final : string) : M bool :=
  t ← gets (λ s, j_terminal (job s j));
  if t : bool then mret false
  else set_job_ j (λ x, x <| j_terminal := true |> <| j_statusV := final |>);; mret true.

Definition snapshot (s : Server) (j : nat) : JobInfo :=
  let x := job s j in
  mkJobInfo (j_id x) (j_agent x) (j_statusV x) (State_Lease (Some (j_lease x))) "" (j_createdAt x)
            (j_traceID x) (j_lastEventSeq x).

Definition recordSeq (j : nat) (seq : Z) : M () :=
  set_job_ j (λ x, if (seq <=? j_lastEventSeq x)%Z then x else x <| j_lastEventSeq := seq |>).

Definition cancel_ctx (j : nat) : M () := set_job_ j (λ x, x <| j_ctxDone := true |>).

(** [j.ctx.Err() != nil]: the job context descends from the server's. *)
Definition ctx_done (s : Server) (j : nat) : bool := j_ctxDone (job s j) || closed s.

Definition stop_timers (j : nat) : M () :=
  set_job_ j (λ x, x <| j_expiryTimer := None |> <| j_runtimeTimer := None |>).

Definition discard (j : nat) : M () :=
  markTerminal j StatusError;; stop_timers j;; cancel_ctx j.

Definition attachCredentials (j : nat) (creds : list Credential) : M () :=
  set_job_ j (λ x, x <| j_creds := j_creds x ++ creds |>).

(** The first credential with the id gets the new value. *)
Fixpoint replace_value (creds : list Credential) (id newValue : string) : option (string * list Credential) :=
  match creds with
  | [] => None
  | c :: cs =>
      if bool_decide (cr_ID c = id) then
        Some (cr_Value c, mkCredential (cr_ID c) (cr_Scheme c) newValue (cr_Endpoint c) (cr_Profile c) (cr_Constraints c) :: cs)
      else match replace_value cs id newValue with
           | Some (v, cs) => Some (v, c :: cs)
           | None => None
           end
  end.

Definition cancelWithReason (j : nat) (reason : string) : M () :=
  set_job_ j (λ x, x <| j_cancelRe := reason |>);; cancel_ctx j.

(** ** Revocation *)

(** The attempts of [retryRevoke]: one call and three retries, the waits cut
    short when the five-second context ends first. *)
Fixpoint retryRevoke (attempts : nat) (o : obs) (call : nat → option error) : M () :=
  match attempts with
  | 0 => mret ()
  | S attempts =>
      observe o;;
      n ← fresh;
      match call n with
      | None => mret ()
      | Some _ =>
          match attempts with
          | 0 => mret ()
          | _ => m ← fresh; if pick m then mret () else retryRevoke attempts o call
          end
      end
  end.

Definition revokeCredential (pv : Provisioner) (id : string) : M () :=
  retryRevoke 4 (ORevoke id) (λ n, pv_Revoke pv n id).

Definition revokePriorCredentialValue (pv : Provisioner) (id priorValue : string) : M () :=
  match pv_RevokePriorValue pv with
  | None => mret ()
  | Some revoke => retryRevoke 4 (ORevokePrior id priorValue) (λ n, revoke n id priorValue)
  end.

Definition revokeAll (j : nat) : M () :=
  o ← gets (λ s, o_Provisioner (opts s));
  match o with
  | None => mret ()
  | Some pv =>
      done_ ← gets (λ s, j_revoked (job s j));
      if done_ : bool then mret ()
      else
        set_job_ j (λ x, x <| j_revoked := true |>);;
        creds ← gets (λ s, j_creds (job s j));
        for_each creds (λ c, revokeCredential pv (cr_ID c))
  end.

(** ** Terminal events *)

(** The common tail of [emitTerminal] and [emitEvent]. *)
Definition emit_envelope (j : nat) (env : Envelope) : M () :=
  x ← gets (λ s, job s j);
  n ← nextSeq (j_session x);
  let env := set_seq (set_trace (set_job env (j_id x)) (j_traceID x)) n in
  recordSeq j n;;
  send (j_session x) env;;
  fanoutEvent (j_id x) env.

Definition emitTerminal (j : nat) (typ : string) (p : payload) : M () :=
  r ← new_envelope typ p;
  match r with Err _ => mret () | Ok env => emit_envelope j env end.

Definition emitTerminalError (j : nat) (code : ErrorCode) (msg : string) : M () :=
  let final := if bool_decide (code = CodeTimeout) then StatusTimedOut else StatusError in
  emitTerminal j TypeJobError (PJobError (mkJobError final code msg false ∅)).

Definition expireLease (j : nat) : M () :=
  b ← markTerminal j StatusError;
  if negb b then mret ()
  else
    revokeAll j;;
    emitTerminalError j CodeLeaseExpired "lease expired during execution";;
    cancel_ctx j.

Definition timeout (j : nat) : M () :=
  b ← markTerminal j StatusTimedOut;
  if negb b then mret ()
  else
    revokeAll j;;
    emitTerminalError j CodeTimeout "job exceeded max_runtime_sec";;
    cancel_ctx j.

(** ** The run *)

Definition unregisterJob (id : string) : M () :=
  modify (λ s, s <| jobs := delete id (jobs s) |> <| subs := delete id (subs s) |>).

(** The deferred calls of [run]. *)
Definition run_exit (j : nat) : M () :=
  stop_timers j;;
  id ← gets (λ s, j_id (job s j));
  unregisterJob id;;
  set_job_ j (λ x, x <| j_pc := JReturned |>).

(** From the start of [run] to the call of the agent body. *)
Definition run_start (j : nat) : M () :=
  term ← gets (λ s, j_terminal (job s j));
  if term : bool then run_exit j
  else setStatus j StatusRunning;; set_job_ j (λ x, x <| j_pc := JAgent |>).

(** How the agent body ends: it returns an output (nil, or a value that
    marshals to JSON or fails to) and an error, or it panics. *)
Inductive agent_outcome :=
| AReturn (output : option (res string)) (err : option error)
| APanic.

Definition outcome_err (o : agent_outcome) : option error :=
  match o with
  | AReturn _ err => err
  | APanic => Some (arcp_err ErrInternalError "agent panicked")
  end.

Definition outcome_output (o : agent_outcome) : option (res string) :=
  match o with AReturn out _ => out | APanic => None end.

(** A terminal transition of [run]: only the winner revokes and emits. *)
Definition finish (j : nat) (final : string) (typ : string) (p : payload) : M () :=
  b ← markTerminal j final;
  if b : bool then revokeAll j;; emitTerminal j typ p else mret ().

(** From the return of the agent body to the deferred calls. *)
Definition run_body_result (j : nat) (o : agent_outcome) : M () :=
  x ← gets (λ s, job s j);
  cancelled ← gets (λ s, ctx_done s j);
  let err := outcome_err o in
  if match err with Some e => errors_Is e ctx_Canceled | None => false end || cancelled then
    finish j StatusCancelled TypeJobError
      (PJobError (mkJobError StatusCancelled CodeCancelled (j_cancelRe x) false ∅))
  else match err with
  | Some e =>
      finish j StatusError TypeJobError
        (PJobError (mkJobError StatusError (Code (Some e)) (error_string e) (IsRetryable (Some e)) ∅))
  | None =>
      match j_streamed x with
      | Some r =>
          finish j StatusSuccess TypeJobResult
            (PResult (mkResult StatusSuccess "" (sr_resultID r) (sr_size r) ""))
      | None =>
          match outcome_output o with
          | Some (Err e) =>
              finish j StatusSuccess TypeJobError
                (PJobError (mkJobError StatusError CodeInternalError ("marshal result: " +:+ error_string e) true ∅))
          | Some (Ok raw) => finish j StatusSuccess TypeJobResult (PResult (mkResult StatusSuccess raw "" 0 ""))
          | None => finish j StatusSuccess TypeJobResult (PResult (mkResult StatusSuccess "" "" 0 ""))
          end
      end
  end.

Definition run_finish (j : nat) (o : agent_outcome) : M () := run_body_result j o;; run_exit j.

(** ** The job context *)

Definition emitEvent (j : nat) (kind : string) (body : event_body) : M () :=
  if negb (json_ok_body body) then mret ()
  else
    t ← gets now;
    r ← new_envelope TypeJobEvent (PEvent (mkEvent kind t body));
    match r with Err _ => mret () | Ok env => emit_envelope j env end.

Definition ValidateLeaseOp (j : nat) (cap : Capability) (target : string) : M (option error) :=
  gets (λ s, ValidateOp (Some (j_lease (job s j))) (now s) cap target).

Definition ReserveBudget (j : nat) (cap : Capability) (target : string) (debit : BudgetAmount) : M (f64 * option error) :=
  t ← gets now;
  l ← gets (λ s, j_lease (job s j));
  let '(v, err, l') := ValidateAndDebit (Some l) t cap target debit in
  set_job_ j (λ x, x <| j_lease := default l l' |>);;
  mret (v, err).

Definition Log (j : nat) (level msg : string) (fields : gmap string any) : M () :=
  emitEvent j KindLog (BLog level msg fields).
Definition Thought (j : nat) (text : string) : M () := emitEvent j KindThought (BThought text).

Definition dq : string := String "034"%char EmptyString.
Definition args_placeholder : string :=
  "{" +:+ dq +:+ "error" +:+ dq +:+ ":" +:+ dq +:+ "args not serializable" +:+ dq +:+ "}".

(** [args] is the marshalled value, or the error of marshalling it. *)
Definition ToolCall (j : nat) (tool : string) (args : res string) : M string :=
  n ← fresh;
  let callID := NewCallID n in
  let raw := match args with Ok raw => raw | Err _ => args_placeholder end in
  emitEvent j KindToolCall (BToolCall tool raw callID);;
  mret callID.

Definition ToolResult (j : nat) (callID : string) (result_ : res string) : M () :=
  match result_ with
  | Err _ =>
      emitEvent j KindToolResult (BToolResult (mkToolResult callID ""
        (Some (mkToolError CodeInternalError "tool result not serializable" false ∅))))
  | Ok raw => emitEvent j KindToolResult (BToolResult (mkToolResult callID raw None))
  end.

Definition ToolError_ (j : nat) (callID : string) (err : error) : M () :=
  emitEvent j KindToolResult (BToolResult (mkToolResult callID ""
    (Some (mkToolError (Code (Some err)) (error_string err) (IsRetryable (Some err)) ∅)))).

Definition Status (j : nat) (phase message : string) : M () :=
  emitEvent j KindStatus (BStatus (mkStatus phase message ∅)).

Definition rotation_body (id newValue : string) : event_body :=
  BStatus (mkStatus PhaseCredentialRotated id (<["id" := AnyString id]> (<["value" := AnyString newValue]> ∅))).

Definition RotateCredential (j : nat) (id newValue : string) : M (option error) :=
  o ← gets (λ s, o_Provisioner (opts s));
  match o with
  | None => mret (Some (arcp_err ErrInvalidRequest "credential provisioner is not configured"))
  | Some pv =>
      creds ← gets (λ s, j_creds (job s j));
      match replace_value creds id newValue with
      | None => mret (Some (arcp_err ErrInvalidRequest ("credential " +:+ id +:+ " is not attached to job")))
      | Some (prior, creds) =>
          set_job_ j (λ x, x <| j_creds := creds |>);;
          t ← gets now;
          r ← new_envelope TypeJobEvent (PEvent (mkEvent KindStatus t (rotation_body id newValue)));
          match r with
          | Err e => mret (Some e)
          | Ok env =>
              x ← gets (λ s, job s j);
              n ← nextSeq (j_session x);
              recordSeq j n;;
              sendEphemeral (j_session x) (set_seq (set_trace (set_job env (j_id x)) (j_traceID x)) n);;
              revokePriorCredentialValue pv id prior;;
              mret None
          end
      end
  end.

(** The constant 0.05. *)
Definition five_percent : f64 := match ParseFloat "0.05" with Ok f => f | Err _ => fzero end.

Definition maybeEmitRemaining (j : nat) (cur : Currency) (remaining : f64) : M () :=
  x ← gets (λ s, job s j);
  let initial := fget (Initial (Some (j_lease x))) cur in
  let last := j_lastRemainEmit x !! cur in
  let delta := fabs (fsub (default fzero last) remaining) in
  let shouldEmit := bool_decide (last = None) || feq initial fzero ||
                    fle five_percent (fdiv delta initial) || fle remaining fzero in
  when shouldEmit
    (set_job_ j (λ x, x <| j_lastRemainEmit := <[cur := remaining]> (j_lastRemainEmit x) |>);;
     emitEvent j KindMetric (BMetric (mkMetric "cost.budget.remaining" remaining cur ∅))).

Definition Metric (j : nat) (name : string) (value : f64) (unit_ : string) (dims : gmap string string) : M () :=
  emitEvent j KindMetric (BMetric (mkMetric name value unit_ dims));;
  when (HasPrefix name "cost." && negb (bool_decide (unit_ = "")) && fle fzero value)
    (l ← gets (λ s, j_lease (job s j));
     let '(remaining, budgeted, l') := Report l unit_ value in
     set_job_ j (λ x, x <| j_lease := l' |>);;
     when budgeted (maybeEmitRemaining j unit_ remaining)).

Definition ArtifactRef (j : nat) (uri contentType : string) (byteSize : Z) (sha256 : string) : M () :=
  emitEvent j KindArtifactRef (BArtifactRef uri contentType byteSize sha256).
Definition Progress (j : nat) (cur total : Z) (units message : string) : M () :=
  emitEvent j KindProgress (BProgress (mkProgress cur total units message)).

Definition StreamResult (j : nat) (encoding : string) : M (option error) :=
  let encoding := if bool_decide (encoding = "") then "utf8" else encoding in
  if negb (bool_decide (encoding = "utf8")) && negb (bool_decide (encoding = "base64")) then
    mret (Some (arcp_err ErrInvalidRequest "encoding must be utf8 or base64"))
  else
    r ← gets (λ s, j_streamed (job s j));
    match r with
    | Some _ => mret (Some (arcp_err ErrInvalidRequest "StreamResult called twice on the same job"))
    | None =>
        o ← gets opts;
        if (o_ChunkSize o <=? 0)%Z then mret (Some (arcp_err ErrInternalError "server ChunkSize must be > 0"))
        else
          n ← fresh;
          set_job_ j (λ x, x <| j_streamed := Some (mkStream (NewResultID n) encoding 0 0 (o_MaxResultBytes o) (o_ChunkSize o) false) |>);;
          mret None
    end.

Definition emit_chunk (j : nat) (b : ResultChunkBody) : M () := emitEvent j KindResultChunk (BResultChunk b).

Definition stream_Write (j : nat) (p : string) : M (res Z) :=
  r ← gets (λ s, j_streamed (job s j));
  match r with
  | None => mret (Err err_closed_stream)
  | Some r =>
      let '(out, r', bodies) := Write r p in
      for_each bodies (emit_chunk j);;
      set_job_ j (λ x, x <| j_streamed := Some r' |>);;
      mret out
  end.

Definition stream_Close (j : nat) : M () :=
  r ← gets (λ s, j_streamed (job s j));
  match r with
  | None => mret ()
  | Some r =>
      let '(r', bodies) := Close r in
      set_job_ j (λ x, x <| j_streamed := Some r' |>);;
      for_each bodies (emit_chunk j)
  end.

End job.
