(* ===== verification/ListJobsHeap.v ===== *)
(** * The bounded heap of listJobs

    [container/heap] over [maxJobHeap] keeps a permutation with the largest
    entry at the root; the scan keeps the smallest [limit + 1] entries and the
    drain sorts them. *)

From S2P Require Import Prelude GoStrings Errors Features Lease Canonical LeaseState Messages EventLog IdStore Agents ServerState Delivery Stream Job ListJobs.
From Stdlib Require Import ZArith Ascii Lia Sorted.

(** ** The order on entries *)

Definition je_key (e : jobEntry) : Time * string := (je_createdAt e, je_id e).

Lemma jobEntryLess_irrefl a : jobEntryLess a a = false.
Proof. unfold jobEntryLess. rewrite Z.eqb_refl. apply str_lt_irrefl. Qed.

Lemma jobEntryLess_trans a b c : jobEntryLess a b = true → jobEntryLess b c = true → jobEntryLess a c = true.
Proof.
  unfold jobEntryLess, Before. intros H1 H2.
  destruct (Z.eqb_spec (je_createdAt a) (je_createdAt b)), (Z.eqb_spec (je_createdAt b) (je_createdAt c)),
    (Z.eqb_spec (je_createdAt a) (je_createdAt c)); breflect; try lia; try (apply Z.ltb_lt; lia).
  by eapply str_lt_trans.
Qed.

Lemma jobEntryLess_trichotomy a b : jobEntryLess a b = true ∨ je_key a = je_key b ∨ jobEntryLess b a = true.
Proof.
  unfold jobEntryLess, Before, je_key. rewrite (Z.eqb_sym (je_createdAt b)).
  destruct (Z.eqb_spec (je_createdAt a) (je_createdAt b)) as [->|Hne].
  - destruct (str_lt_total (je_id a) (je_id b)) as [H|[->|H]]; auto.
  - destruct (Z.lt_total (je_createdAt a) (je_createdAt b)) as [H|[H|H]]; [left|done|right; right]; by apply Z.ltb_lt.
Qed.

Lemma jobEntryLess_key a b c : je_key a = je_key b → jobEntryLess a c = jobEntryLess b c ∧ jobEntryLess c a = jobEntryLess c b.
Proof. unfold je_key, jobEntryLess. intros [= -> ->]. done. Qed.

#[export] Instance entry_le_total : Total entry_le.
Proof.
  intros a b. unfold entry_le. destruct (jobEntryLess_trichotomy a b) as [H|[H|H]].
  - left. destruct (jobEntryLess b a) eqn:Hba; [|done]. pose proof (jobEntryLess_trans _ _ _ H Hba) as Haa.
    by rewrite jobEntryLess_irrefl in Haa.
  - left. destruct (jobEntryLess_key a b a H) as [<- _]. apply jobEntryLess_irrefl.
  - right. destruct (jobEntryLess a b) eqn:Hab; [|done]. pose proof (jobEntryLess_trans _ _ _ H Hab) as Hbb.
    by rewrite jobEntryLess_irrefl in Hbb.
Qed.

Lemma entry_le_less a b : jobEntryLess a b = true → entry_le a b.
Proof.
  intros H. unfold entry_le. destruct (jobEntryLess b a) eqn:Hba; [|done].
  pose proof (jobEntryLess_trans _ _ _ H Hba) as Haa. by rewrite jobEntryLess_irrefl in Haa.
Qed.

Lemma entry_le_refl a : entry_le a a.
Proof. apply jobEntryLess_irrefl. Qed.

#[export] Instance entry_le_trans : Transitive entry_le.
Proof.
  intros a b c Hab Hbc. unfold entry_le in *. destruct (jobEntryLess c a) eqn:Hca; [|done].
  destruct (jobEntryLess_trichotomy a b) as [H|[H|H]]; [|destruct (jobEntryLess_key a b c H); congruence|congruence].
  pose proof (jobEntryLess_trans _ _ _ Hca H). congruence.
Qed.

Lemma entry_le_antisym a b : entry_le a b → entry_le b a → je_key a = je_key b.
Proof. unfold entry_le. intros H1 H2. destruct (jobEntryLess_trichotomy a b) as [H|[H|H]]; congruence. Qed.

(** ** Slices *)

Lemma nth_entry_lookup h i x : h !! i = Some x → nth_entry h i = x.
Proof. unfold nth_entry. by intros ->. Qed.

Lemma nth_entry_elem h i : i < length h → nth_entry h i ∈ h.
Proof.
  intros Hi. destruct (lookup_lt_is_Some_2 h i Hi) as [x Hx]. rewrite (nth_entry_lookup _ _ _ Hx).
  by eapply list_elem_of_lookup_2.
Qed.

Lemma length_Swap h i j : length (Swap h i j) = length h.
Proof. unfold Swap. by rewrite !length_insert. Qed.

Lemma nth_Swap h i j k :
  i < length h → j < length h →
  nth_entry (Swap h i j) k = if decide (k = j) then nth_entry h i else if decide (k = i) then nth_entry h j else nth_entry h k.
Proof.
  intros Hi Hj. unfold Swap, nth_entry at 1. destruct (decide (k = j)) as [->|Hkj].
  - rewrite list_lookup_insert_eq by (by rewrite length_insert). done.
  - rewrite list_lookup_insert_ne by done. destruct (decide (k = i)) as [->|Hki].
    + by rewrite list_lookup_insert_eq.
    + by rewrite list_lookup_insert_ne.
Qed.

Lemma Swap_perm h i j : i < length h → j < length h → Swap h i j ≡ₚ h.
Proof.
  intros Hi Hj. destruct (lookup_lt_is_Some_2 h i Hi) as [x Hx], (lookup_lt_is_Some_2 h j Hj) as [y Hy].
  unfold Swap. rewrite (nth_entry_lookup _ _ _ Hx), (nth_entry_lookup _ _ _ Hy). by apply Permutation_insert_swap.
Qed.

(** ** The heap property of the first [n] cells

    A child is not above its parent. *)

Definition par (i : nat) : nat := (i - 1) / 2.

Definition edge (h : list jobEntry) (i : nat) : Prop := entry_le (nth_entry h i) (nth_entry h (par i)).
Definition heap_ok (h : list jobEntry) (n : nat) : Prop := ∀ i, 0 < i < n → edge h i.

Lemma par_lt i : 0 < i → par i < i.
Proof. intros Hi. unfold par. apply Nat.Div0.div_lt_upper_bound; lia. Qed.

Lemma par_child i c : 0 < c → par c = i ↔ c = 2 * i + 1 ∨ c = 2 * i + 2.
Proof.
  intros Hc. unfold par. split.
  - intros <-. pose proof (Nat.div_mod_eq (c - 1) 2). pose proof (Nat.mod_upper_bound (c - 1) 2). lia.
  - intros [->| ->].
    + replace (2 * i + 1 - 1) with (i * 2) by lia. by apply Nat.div_mul.
    + replace (2 * i + 2 - 1) with (1 + i * 2) by lia. rewrite Nat.div_add by lia. done.
Qed.

Lemma heap_root h n i : heap_ok h n → i < n → entry_le (nth_entry h i) (nth_entry h 0).
Proof.
  intros Hh. induction (lt_wf i) as [i _ IH]. intros Hi. destruct (decide (i = 0)) as [->|Hne]; [apply entry_le_refl|].
  etrans; [apply Hh; lia|]. apply IH; [apply par_lt; lia|]. pose proof (par_lt i). lia.
Qed.

(** Sifting up: everything holds but the edge above [j], and the children of
    [j] are below the parent of [j]. *)
Definition up_inv (h : list jobEntry) (j n : nat) : Prop :=
  (∀ i, 0 < i < n → i ≠ j → edge h i) ∧
  (∀ c, 0 < c < n → par c = j → 0 < j → entry_le (nth_entry h c) (nth_entry h (par j))).

Lemma heap_up_ok fuel h j :
  up_inv h j (length h) → j < length h → j < fuel →
  heap_ok (heap_up fuel h j) (length h) ∧ heap_up fuel h j ≡ₚ h.
Proof.
  revert h j. induction fuel as [|fuel IH]; intros h j [Hedge Hgrand] Hj Hf; [lia|]. cbn [heap_up]. fold (par j).
  destruct (decide (j = 0)) as [->|Hj0].
  { change (par 0) with 0. rewrite Nat.eqb_refl. split; [|done]. intros i Hi. apply Hedge; lia. }
  pose proof (par_lt j ltac:(lia)) as Hp. destruct (Nat.eqb_spec (par j) j) as [|_]; [lia|]. cbn [orb].
  unfold Less. destruct (jobEntryLess (nth_entry h (par j)) (nth_entry h j)) eqn:Hless; cbn [negb].
  2:{ split; [|done]. intros i Hi. destruct (decide (i = j)) as [->|]; [exact Hless|by apply Hedge]. }
  assert (entry_le (nth_entry h (par j)) (nth_entry h j)) as Hle by by apply entry_le_less.
  destruct (IH (Swap h (par j) j) (par j)) as [H1 H2]; rewrite ?length_Swap; [|lia|lia|].
  - assert (∀ k, nth_entry (Swap h (par j) j) k =
      if decide (k = j) then nth_entry h (par j) else if decide (k = par j) then nth_entry h j else nth_entry h k) as Hn
      by (intros k; apply nth_Swap; lia). split.
    + intros i Hi Hne. unfold edge. rewrite !Hn. destruct (decide (i = j)) as [->|Hij].
      { rewrite (decide_False (P := par j = j)) by lia. by rewrite decide_True. }
      rewrite (decide_False (P := i = par j)) by done.
      destruct (decide (par i = j)) as [Hpj|Hpj]; [apply Hgrand; [lia|done|lia]|].
      destruct (decide (par i = par j)) as [Hpp|Hpp]; [|by apply Hedge].
      etrans; [|exact Hle]. rewrite <-Hpp. by apply Hedge.
    + intros c Hc Hpc Hpos. rewrite !Hn. pose proof (par_lt (par j) Hpos).
      rewrite (decide_False (P := par (par j) = j)) by lia. rewrite (decide_False (P := par (par j) = par j)) by lia.
      assert (entry_le (nth_entry h (par j)) (nth_entry h (par (par j)))) as Hpp by (apply Hedge; lia).
      destruct (decide (c = j)) as [->|Hcj]; [done|]. pose proof (par_lt c). rewrite (decide_False (P := c = par j)) by lia.
      etrans; [|exact Hpp]. rewrite <-Hpc. apply Hedge; [lia|done].
  - rewrite length_Swap in H1. split; [done|]. rewrite H2. apply Swap_perm; lia.
Qed.

(** Sifting down: everything holds but the edges below [i], and the children
    of [i] are below the parent of [i]. *)
Definition down_inv (h : list jobEntry) (i n : nat) : Prop :=
  (∀ k, 0 < k < n → par k ≠ i → edge h k) ∧
  (∀ c, 0 < c < n → par c = i → 0 < i → entry_le (nth_entry h c) (nth_entry h (par i))).

(** One exchange with the largest child [j]. *)
Lemma down_inv_swap h i j n :
  down_inv h i n → n ≤ length h → i < n → 0 < j < n → par j = i →
  (∀ c, 0 < c < n → par c = i → entry_le (nth_entry h c) (nth_entry h j)) →
  entry_le (nth_entry h i) (nth_entry h j) → down_inv (Swap h i j) j n.
Proof.
  intros [Hedge Hgrand] Hn Hi Hj Hpj Hmax Hle. pose proof (par_lt j ltac:(lia)) as Hlt.
  assert (∀ k, nth_entry (Swap h i j) k =
    if decide (k = j) then nth_entry h i else if decide (k = i) then nth_entry h j else nth_entry h k) as Hs
    by (intros k; apply nth_Swap; lia). split.
  - intros k Hk Hpk. unfold edge. rewrite !Hs. rewrite (decide_False (P := par k = j)) by done.
    destruct (decide (k = j)) as [->|Hkj]; [by rewrite decide_True|].
    destruct (decide (k = i)) as [->|Hki].
    { pose proof (par_lt i ltac:(lia)). rewrite decide_False by lia. by apply Hgrand; [|done|lia]. }
    destruct (decide (par k = i)) as [Hpi|Hpi]; [by apply Hmax|by apply Hedge].
  - intros c Hc Hpc _. rewrite !Hs. pose proof (par_lt c ltac:(lia)).
    rewrite (decide_False (P := c = j)), (decide_False (P := c = i)) by lia.
    rewrite (decide_False (P := par j = j)), (decide_True (P := par j = i)) by lia.
    rewrite <-Hpc. apply Hedge; lia.
Qed.

(** The child [heap_down] chooses is the largest. *)
Lemma down_choice h i n :
  2 * i + 1 < n →
  let j := if (2 * i + 1 + 1 <? n)%nat && Less h (2 * i + 1 + 1) (2 * i + 1) then 2 * i + 1 + 1 else 2 * i + 1 in
  0 < j < n ∧ par j = i ∧ ∀ c, 0 < c < n → par c = i → entry_le (nth_entry h c) (nth_entry h j).
Proof.
  intros Hn. cbv zeta. unfold Less.
  destruct (Nat.ltb_spec (2 * i + 1 + 1) n) as [H2|H2]; cbn [andb].
  - destruct (jobEntryLess _ _) eqn:Hl.
    + split_and!; [lia|lia|apply par_child; lia|]. intros c Hc Hpc. destruct (proj1 (par_child i c ltac:(lia)) Hpc) as [->| ->].
      * by apply entry_le_less.
      * replace (2 * i + 2) with (2 * i + 1 + 1) by lia. apply entry_le_refl.
    + split_and!; [lia|lia|apply par_child; lia|]. intros c Hc Hpc. destruct (proj1 (par_child i c ltac:(lia)) Hpc) as [->| ->].
      * apply entry_le_refl.
      * replace (2 * i + 2) with (2 * i + 1 + 1) by lia. exact Hl.
  - split_and!; [lia|lia|apply par_child; lia|]. intros c Hc Hpc. destruct (proj1 (par_child i c ltac:(lia)) Hpc) as [->| ->]; [|lia].
    apply entry_le_refl.
Qed.

Lemma heap_down_ok fuel h i n :
  down_inv h i n → n ≤ length h → i < n → n - i ≤ fuel →
  let h' := (heap_down fuel h i n).1 in
  heap_ok h' n ∧ h' ≡ₚ h ∧ ∀ k, n ≤ k → h' !! k = h !! k.
Proof.
  revert h i. induction fuel as [|fuel IH]; intros h i Hinv Hn Hi Hf; [lia|]. cbv zeta. cbn [heap_down].
  destruct (Nat.leb_spec n (2 * i + 1)) as [Hend|Hend].
  { cbn [fst]. split_and!; [|done|done]. intros k Hk. apply Hinv; [done|]. intros Hp. apply par_child in Hp; lia. }
  pose proof (down_choice h i n Hend) as Hch. cbv zeta in Hch.
  set (j := if _ && _ then _ else _) in *. destruct Hch as (Hj & Hpj & Hmax).
  destruct (Less h j i) eqn:Hless; unfold Less in Hless; cbn [negb].
  - pose proof (par_lt j ltac:(lia)) as Hlt.
    assert (down_inv (Swap h i j) j n) as Hinv' by (apply down_inv_swap; try done; by apply entry_le_less).
    destruct (IH (Swap h i j) j) as (H1 & H2 & H3); [done|by rewrite length_Swap|lia|lia|].
    split_and!; [done|rewrite H2; apply Swap_perm; lia|]. intros k Hk. rewrite H3 by done.
    unfold Swap. rewrite !list_lookup_insert_ne by lia. done.
  - cbn [fst]. split_and!; [|done|done]. intros k Hk. destruct (decide (par k = i)) as [Hp|Hp]; [|by apply Hinv].
    unfold edge. rewrite Hp. etrans; [by apply Hmax|]. exact Hless.
Qed.

(** ** The heap operations *)

Lemma heap_Push_ok h x :
  heap_ok h (length h) → heap_ok (heap_Push h x) (length h + 1) ∧ heap_Push h x ≡ₚ x :: h.
Proof.
  intros Hh. unfold heap_Push. assert (length (h ++ [x]) = length h + 1) as Hl by (rewrite length_app; simpl; lia).
  assert (∀ i, i < length h → nth_entry (h ++ [x]) i = nth_entry h i) as Hn.
  { intros i Hi. unfold nth_entry. by rewrite lookup_app_l. }
  destruct (heap_up_ok (length (h ++ [x])) (h ++ [x]) (length (h ++ [x]) - 1)) as [H1 H2]; [|lia|lia|].
  - split.
    + intros i Hi Hne. pose proof (par_lt i ltac:(lia)). unfold edge. rewrite !Hn by lia. apply Hh. lia.
    + intros c Hc Hp. pose proof (par_lt c). lia.
  - rewrite Hl in H1 at 3. split; [done|]. rewrite H2. by rewrite Permutation_app_comm.
Qed.

Lemma heap_Fix_root_ok h x :
  heap_ok h (length h) → 0 < length h →
  heap_ok (heap_Fix (<[0 := x]> h) 0) (length h) ∧ heap_Fix (<[0 := x]> h) 0 ≡ₚ <[0 := x]> h.
Proof.
  intros Hh Hl. unfold heap_Fix. rewrite length_insert.
  destruct (heap_down_ok (length h) (<[0 := x]> h) 0 (length h)) as (H1 & H2 & _); [|by rewrite length_insert|done|lia|].
  - split; [|intros; lia]. intros k Hk Hp. unfold edge, nth_entry. rewrite !list_lookup_insert_ne by lia. by apply Hh.
  - destruct (heap_down _ _ _ _) as [h' i']. cbn [fst] in *. destruct (0 <? i'); [done|].
    destruct (length h') as [|m]; [done|]. by cbn.
Qed.

Lemma heap_Pop_ok h :
  heap_ok h (length h) → 0 < length h →
  let '(x, h') := heap_Pop h in
  h ≡ₚ x :: h' ∧ heap_ok h' (length h') ∧ length h = S (length h') ∧ ∀ y, y ∈ h' → entry_le y x.
Proof.
  intros Hh Hl. unfold heap_Pop. set (n := length h - 1).
  assert (down_inv (Swap h 0 n) 0 n) as Hinv.
  { split; [|intros; lia]. intros k Hk Hp. unfold edge. rewrite !nth_Swap by lia. pose proof (par_lt k ltac:(lia)).
    rewrite !decide_False by lia. apply Hh. lia. }
  assert (nth_entry (Swap h 0 n) n = nth_entry h 0) as Hroot by (rewrite nth_Swap by lia; by rewrite decide_True).
  assert (∀ h', heap_ok h' n → h' ≡ₚ h → nth_entry h' n = nth_entry h 0 →
    h ≡ₚ nth_entry h' n :: take n h' ∧ heap_ok (take n h') (length (take n h')) ∧
    length h = S (length (take n h')) ∧ ∀ y, y ∈ take n h' → entry_le y (nth_entry h' n)) as Hfin.
  { intros h' Hok Hperm Hlast. pose proof (Permutation_length Hperm) as Hlen.
    assert (length (take n h') = n) as Htk by (rewrite length_take; lia). split_and!.
    - rewrite <-Hperm. rewrite <-(take_drop n h') at 1. destruct (lookup_lt_is_Some_2 h' n) as [z Hz]; [lia|].
      rewrite (drop_S _ z) by done. rewrite drop_ge by lia. rewrite (nth_entry_lookup _ _ _ Hz).
      by rewrite Permutation_app_comm.
    - rewrite Htk. intros i Hi. pose proof (par_lt i ltac:(lia)). unfold edge, nth_entry.
      rewrite !lookup_take_lt by lia. by apply Hok.
    - lia.
    - intros y Hy. rewrite Hlast. assert (y ∈ h) as Hin.
      { rewrite <-Hperm. rewrite <-(take_drop n h'). apply elem_of_app. by left. }
      apply list_elem_of_lookup in Hin as [i Hi]. rewrite <-(nth_entry_lookup _ _ _ Hi).
      apply (heap_root h (length h)); [done|]. by apply lookup_lt_Some in Hi. }
  destruct (decide (n = 0)) as [Hn0|Hn0].
  - destruct (length h) as [|m] eqn:Hlh; [lia|]. cbn [heap_down]. rewrite Hn0. cbn [Nat.leb].
    rewrite Hn0 in *. apply Hfin; [intros i; lia|apply Swap_perm; lia|done].
  - destruct (heap_down_ok (length h) (Swap h 0 n) 0 n) as (H1 & H2 & H3); [done|rewrite length_Swap; lia|lia|lia|].
    destruct (heap_down _ _ _ _) as [h' i']. cbn [fst] in *. apply Hfin; [done|rewrite H2; apply Swap_perm; lia|].
    unfold nth_entry at 1. rewrite H3 by done. exact Hroot.
Qed.

(** ** The scan *)

(** The heap holds the [keep] smallest of the entries seen. *)
Definition scan_inv (keep : nat) (seen h : list jobEntry) : Prop :=
  heap_ok h (length h) ∧
  ∃ rest, h ++ rest ≡ₚ seen ∧ (∀ a b, a ∈ h → b ∈ rest → entry_le a b) ∧ (rest ≠ [] → length h = keep) ∧ length h ≤ keep.

Lemma scan_turn_inv keep seen h e : 0 < keep → scan_inv keep seen h → scan_inv keep (seen ++ [e]) (scan_turn keep h e).
Proof.
  intros Hkeep (Hok & rest & Hperm & Hle & Hfull & Hlen). unfold scan_turn.
  destruct (Nat.ltb_spec (length h) keep) as [Hlt|Hge].
  - destruct (heap_Push_ok h e Hok) as [H1 H2]. pose proof (Permutation_length H2) as Hl. cbn in Hl.
    assert (rest = []) as -> by (destruct rest; [done|]; destruct (decide (j :: rest = [])); [done|]; specialize (Hfull n); lia).
    rewrite app_nil_r in Hperm. split; [by rewrite Hl; replace (S (length h)) with (length h + 1) by lia|].
    exists []. rewrite app_nil_r. split_and!; [|intros a b _ Hb; by apply not_elem_of_nil in Hb|done|lia].
    rewrite H2, Hperm. by rewrite Permutation_app_comm.
  - destruct h as [|r h']; [cbn in Hge; lia|]. destruct (jobEntryLess e (nth_entry (r :: h') 0)) eqn:Hless; cbn [nth_entry] in Hless.
    + destruct (heap_Fix_root_ok (r :: h') e Hok) as [H1 H2]; [cbn; lia|]. change (<[0 := e]> (r :: h')) with (e :: h') in *.
      pose proof (Permutation_length H2) as Hl. cbn in Hl. change (nth_entry (r :: h') 0) with r in Hless.
      split; [by rewrite Hl|]. exists (r :: rest). split_and!.
      * rewrite H2, <-Hperm. cbn. solve_Permutation.
      * intros a b Ha Hb. rewrite H2 in Ha. apply entry_le_less in Hless as Her.
        assert (∀ x, x ∈ r :: h' → entry_le x r) as Hroot.
        { intros x [i Hi]%list_elem_of_lookup. rewrite <-(nth_entry_lookup _ _ _ Hi). change r with (nth_entry (r :: h') 0).
          apply (heap_root _ (length (r :: h'))); [done|]. by apply lookup_lt_Some in Hi. }
        apply elem_of_cons in Ha as [->|Ha]; apply elem_of_cons in Hb as [->|Hb].
        -- done.
        -- etrans; [exact Her|]. apply Hle; [by left|done].
        -- apply Hroot. by right.
        -- apply Hle; [by right|done].
      * intros _. rewrite Hl. cbn in Hge, Hlen. lia.
      * rewrite Hl. cbn in Hlen. lia.
    + split; [done|]. exists (e :: rest). split_and!; [rewrite <-Hperm; solve_Permutation| |intros _; lia|done].
      intros a b Ha [->|Hb]%elem_of_cons; [|by apply Hle]. etrans; [|exact Hless].
      apply list_elem_of_lookup in Ha as [i Hi]. rewrite <-(nth_entry_lookup _ _ _ Hi).
      apply (heap_root _ (length (r :: h'))); [done|]. by apply lookup_lt_Some in Hi.
Qed.

Lemma scan_ok keep refs : 0 < keep → scan_inv keep refs (fold_left (scan_turn keep) refs []).
Proof.
  intros Hk. assert (∀ l seen h, scan_inv keep seen h → scan_inv keep (seen ++ l) (fold_left (scan_turn keep) l h)) as H.
  { induction l as [|e l IH]; intros seen h Hh; cbn; [by rewrite app_nil_r|].
    replace (seen ++ e :: l) with ((seen ++ [e]) ++ l) by (by rewrite <-app_assoc). apply IH. by apply scan_turn_inv. }
  apply (H refs [] []). split; [intros i; cbn; lia|]. exists []. split_and!; [done| |done|cbn; lia].
  intros a b Ha. by apply not_elem_of_nil in Ha.
Qed.

(** ** The drain *)

Lemma drain_ok fuel h page :
  fuel = length h → heap_ok h (length h) → StronglySorted entry_le page → (∀ a b, a ∈ h → b ∈ page → entry_le a b) →
  StronglySorted entry_le (drain fuel h page) ∧ drain fuel h page ≡ₚ h ++ page.
Proof.
  revert h page. induction fuel as [|fuel IH]; intros h page Hf Hok Hs Hle; cbn [drain].
  { destruct h; [done|cbn in Hf; lia]. }
  pose proof (heap_Pop_ok h Hok ltac:(lia)) as Hp. destruct (heap_Pop h) as [x h']. destruct Hp as (Hperm & Hok' & Hlen & Hmax).
  destruct (IH h' (x :: page)) as [H1 H2]; [lia|done| | |].
  - constructor; [done|]. apply Forall_forall. intros b Hb. apply Hle; [rewrite Hperm; by left|done].
  - intros a b Ha [->|Hb]%elem_of_cons; [by apply Hmax|]. apply Hle; [rewrite Hperm; by right|done].
  - split; [done|]. rewrite H2, Hperm. solve_Permutation.
Qed.

(** ** The reference *)

(** Entries of a list are told apart by their keys. *)
Definition keys_distinct (l : list jobEntry) : Prop := ∀ a b, a ∈ l → b ∈ l → je_key a = je_key b → a = b.

Lemma sorted_unique l k :
  keys_distinct l → StronglySorted entry_le l → StronglySorted entry_le k → l ≡ₚ k → l = k.
Proof.
  intros Hd Hl Hk Hp. apply (StronglySorted_unique_strong entry_le); [|done|done|done].
  intros a b Ha Hb H1 H2. apply Hd; [done|by rewrite Hp|by apply entry_le_antisym].
Qed.

Lemma StronglySorted_app_le (l k : list jobEntry) :
  StronglySorted entry_le l → StronglySorted entry_le k → (∀ a b, a ∈ l → b ∈ k → entry_le a b) →
  StronglySorted entry_le (l ++ k).
Proof.
  induction 1 as [|x l Hl IH Hx]; intros Hk Hle; [done|]. cbn. constructor.
  - apply IH; [done|]. intros a b Ha Hb. apply Hle; [by right|done].
  - apply Forall_app. split; [done|]. apply Forall_forall. intros b Hb. apply Hle; [by left|done].
Qed.

(** The heap computes the prefix of the sorted list. *)
Lemma heap_page keep refs :
  0 < keep → keys_distinct refs →
  let h := fold_left (scan_turn keep) refs [] in
  drain (length h) h [] = take keep (merge_sort entry_le refs).
Proof.
  intros Hk Hd. cbv zeta. destruct (scan_ok keep refs Hk) as (Hok & rest & Hperm & Hle & Hfull & Hlen).
  set (h := fold_left _ _ _) in *.
  destruct (drain_ok (length h) h []) as [Hs Hp]; [done|done|constructor|by intros a b _ Hb%not_elem_of_nil|].
  rewrite app_nil_r in Hp. set (page := drain (length h) h []) in *.
  assert (merge_sort entry_le refs = page ++ merge_sort entry_le rest) as ->.
  { apply sorted_unique.
    - intros a b Ha Hb. rewrite merge_sort_Permutation in Ha, Hb. by apply Hd.
    - apply StronglySorted_merge_sort; apply _.
    - apply StronglySorted_app_le; [done|apply StronglySorted_merge_sort; apply _|].
      intros a b Ha Hb. rewrite Hp in Ha. rewrite merge_sort_Permutation in Hb. by apply Hle.
    - rewrite !merge_sort_Permutation, Hp. by symmetry. }
  assert (length page = length h) as Hlp by by apply Permutation_length.
  destruct rest as [|b rest].
  - rewrite app_nil_r. rewrite take_ge; [done|lia].
  - rewrite <-(Hfull ltac:(done)), <-Hlp. by rewrite take_app_length.
Qed.
