(* ===== verification/Session.v ===== *)
(** * Sessions

    Models server/session.go and the session part of server/server.go: the
    handshake with its resume path, the resume table, the lifecycle of
    [Accept], the dispatcher and every request handler. *)

From S2P Require Import Prelude GoStrings Errors Features Float64 Lease Canonical LeaseState Messages EventLog IdStore Agents ServerState Delivery Stream Job ListJobs.
From Stdlib Require Import ZArith Lia.

(** The entries of a log in sequence order. *)
Definition seq_le (a b : Entry) : Prop := (en_EventSeq a <= en_EventSeq b)%Z.
#[export] Instance seq_le_dec a b : Decision (seq_le a b).
Proof. unfold seq_le. apply _. Defined.

Section session.
Context {RT : Runtime}.

(** ** The resume table *)

Definition log_trim (sid : string) (n : Z) : M () := modify (λ s, s <| log := Trim (log s) sid n |>).

Definition entry_expired (t : Time) (e : resumeEntry) : bool := After t (re_expiresAt e).

(** The ids of the expired entries, in iteration order. *)
Definition expired_ids (s : Server) (n : nat) : list string :=
  List.filter (λ id, match resumes s !! id with Some e => entry_expired (now s) e | None => false end)
    (order_keys n (elements (dom (resumes s)))).

Definition delete_resume (id : string) : M () := modify (λ s, s <| resumes := delete id (resumes s) |>).

Definition purgeExpiredResumes : M () :=
  n ← fresh;
  ids ← gets (λ s, expired_ids s n);
  for_each ids delete_resume;;
  for_each ids (λ id, log_trim id max_u64;; dropAlloc id).

Definition stashResume (p : nat) (token : string) : M () :=
  modify (λ s,
    let x := sess s p in
    s <| resumes := <[s_id x :=
      mkResumeEntry (s_id x) (s_principal x) (s_features x) (s_clientCap x) (currentSeq s p) token
        (now s + o_ResumeWindow (opts s))%Z]> (resumes s) |>).

Definition claimResume (req : ResumeRequest) (principal : string) : M (res resumeEntry) :=
  t ← gets now;
  n ← fresh;
  ids ← gets (λ s, expired_ids s n);
  for_each ids (λ id, delete_resume id;; log_trim id max_u64);;
  r ← gets (λ s, resumes s !! rr_SessionID req);
  match r with
  | None => mret (Err (arcp_err ErrResumeWindowExpired ("session " +:+ rr_SessionID req +:+ " is not resumable")))
  | Some entry =>
      if entry_expired t entry then
        delete_resume (rr_SessionID req);; mret (Err (EArcp ErrResumeWindowExpired))
      else if negb (bool_decide (re_resumeToken entry = rr_ResumeToken req)) then
        mret (Err (arcp_err ErrUnauthenticated "resume_token mismatch"))
      else if negb (bool_decide (re_principal entry = principal)) then
        mret (Err (arcp_err ErrUnauthenticated "resume principal mismatch"))
      else delete_resume (rr_SessionID req);; mret (Ok entry)
  end.

Definition dropResume (sessionID : string) : M () :=
  delete_resume sessionID;; log_trim sessionID max_u64;; dropAlloc sessionID.

(** ** The handshake *)

Definition server_features (o : Options) : list string :=
  let has := bool_decide (is_Some (o_Provisioner o)) in
  match o_Features o with
  | [] => filterFeatures has Features
  | l => filterFeatures has l
  end.

Definition buildWelcome (sessionID token : string) (feats : list string) : M (res Envelope) :=
  o ← gets opts;
  ags ← gets (λ s, inventory (agents s));
  r ← new_envelope TypeSessionWelcome
        (PWelcome (mkWelcome (o_Name o) (o_Version o) token (Z.quot (o_ResumeWindow o) second)
                     (Z.quot (o_HeartbeatInterval o) second) ["json"] feats ags));
  match r with
  | Err e => mret (Err e)
  | Ok env => mret (Ok (set_session env sessionID))
  end.

Definition newSession (id principal : string) (t : nat) (feats : list string) (cap : HelloCapabilities)
    (seq : nat) (resumeToken : string) (isResume : bool) (replayFrom : Z) : M nat :=
  n ← fresh;
  modify (λ s, s <| hsess := <[n :=
    mkSession id principal t feats cap false [] false false None false None seq 0%N true false false
      resumeToken isResume replayFrom SHandshaken]> (hsess s) |>);;
  mret n.

Definition sendSessionError (t : nat) (sessionID : string) (code : ErrorCode) (msg : string) : M (option error) :=
  r ← new_envelope TypeSessionError
        (PSessionError (mkSessionError code msg (bool_decide (code = CodeInternalError)) ∅ "" ""));
  match r with
  | Err e => mret (Some e)
  | Ok env => transport_send t (set_session env sessionID)
  end.

(** The principal of a hello. *)
Definition authenticate (o : Options) (n : nat) (hello : SessionHello) : res string :=
  match o_Verifier o with
  | Some verify => verify n (sh_AuthToken hello)
  | None => Ok (sh_ClientName hello)
  end.

(** The tail shared by the two paths: welcome, then the session struct. *)
Definition welcome_session (t : nat) (sessionID principal : string) (hello : SessionHello)
    (floor_ : Z) (isResume : bool) (replayFrom : Z) : M (res nat) :=
  o ← gets opts;
  let feats := IntersectFeatures (server_features o) (hc_Features (sh_Capabilities hello)) in
  n ← fresh;
  let token := NewULID n in
  r ← buildWelcome sessionID token feats;
  match r with
  | Err e => mret (Err e)
  | Ok wenv =>
      err ← transport_send t wenv;
      match err with
      | Some e => mret (Err (EWrap "send welcome" e))
      | None =>
          a ← allocFor sessionID;
          setIfGreater a floor_;;
          p ← newSession sessionID principal t feats (sh_Capabilities hello) a token isResume replayFrom;
          mret (Ok p)
      end
  end.

Definition err_gap : error :=
  arcp_err ErrResumeWindowExpired "resume buffer no longer covers last_event_seq".

Definition handshake (t : nat) (recv : res Envelope) : M (res nat) :=
  match recv with
  | Err e => mret (Err (EWrap "await hello" e))
  | Ok env =>
      if negb (bool_decide (env_Type env = TypeSessionHello)) then
        mret (Err (arcp_err ErrInvalidRequest ("first envelope must be session.hello, got " +:+ env_Type env)))
      else match decode_hello (env_Payload env) with
      | Err e => mret (Err e)
      | Ok hello =>
          o ← gets opts;
          n ← fresh;
          match authenticate o n hello with
          | Err e => sendSessionError t "" CodeUnauthenticated (error_string e);; mret (Err e)
          | Ok principal =>
              match sh_Resume hello with
              | Some rr =>
                  r ← claimResume rr principal;
                  match r with
                  | Err e =>
                      sendSessionError t (rr_SessionID rr) (Code (Some e)) (error_string e);; mret (Err e)
                  | Ok entry =>
                      oldest ← gets (λ s, Oldest (log s) (re_sessionID entry));
                      let gap := match oldest with
                                 | Some old => (wrap_u64 (rr_LastEventSeq rr + 1) <? old)%Z
                                 | None => false
                                 end in
                      if (0 <? rr_LastEventSeq rr)%Z && gap then
                        sendSessionError t (re_sessionID entry) CodeResumeWindowExpired
                          "resume buffer no longer covers last_event_seq";;
                        mret (Err err_gap)
                      else welcome_session t (re_sessionID entry) principal hello (re_seq entry) true (rr_LastEventSeq rr)
                  end
              | None =>
                  m ← fresh;
                  welcome_session t (NewSessionID m) principal hello 0 false 0
              end
          end
      end
  end.

(** ** The lifecycle of Accept *)

Definition set_pc (p : nat) (pc : session_pc) : M () := set_sess p (λ x, x <| s_pc := pc |>).

(** [Accept] up to the end of the handshake. *)
Definition Accept_handshake (t : nat) (recv : res Envelope) : M (res nat) :=
  r ← handshake t recv;
  match r with
  | Err e => transport_close t;; mret (Err e)
  | Ok p => mret (Ok p)
  end.

Definition registerSession (p : nat) : M bool :=
  c ← gets closed;
  if c : bool then mret false
  else modify (λ s, s <| sessions := {[p]} ∪ sessions s |>);; mret true.

Definition Accept_register (p : nat) : M () :=
  b ← registerSession p;
  if b : bool then set_pc p SRegistered
  else t ← gets (λ s, s_transport (sess s p)); transport_close t;; set_pc p SDone.

Definition replayBuffered (p : nat) (fromSeq : Z) : M () :=
  sid ← gets (λ s, s_id (sess s p));
  entries ← gets (λ s, merge_sort seq_le (Since (log s) sid fromSeq));
  for_each entries (λ e, enqueue p (set_session (en_Envelope e) sid)).

(** [run] up to the start of the writer. *)
Definition run_current (p : nat) : M () :=
  setCurrentSession p;;
  set_sess p (λ x, x <| s_writing := true |> <| s_pc := SCurrent |>).

(** The replay and the timers, up to the read loop. *)
Definition run_replay (p : nat) : M () :=
  x ← gets (λ s, sess s p);
  when (s_isResume x) (replayBuffered p (s_replayFrom x));;
  t ← gets now;
  o ← gets opts;
  (if hasFeature x "heartbeat" && (0 <? o_HeartbeatInterval o)%Z then
     set_sess p (λ x, x <| s_pingAt := Some (t + o_HeartbeatInterval o)%Z |> <| s_pingArmed := true |>
                        <| s_watchAt := Some (t + 2 * o_HeartbeatInterval o)%Z |>)
   else mret ());;
  set_pc p SReading.

(** The deferred calls of [run]. *)
Definition session_exit (p : nat) : M () :=
  set_sess p (λ x, x <| s_pingAt := None |> <| s_watchAt := None |>);;
  clearCurrentSession p;;
  set_sess p (λ x, x <| s_ctxDone := true |> <| s_outboxClosed := true |> <| s_writing := false |>);;
  t ← gets (λ s, s_transport (sess s p));
  transport_close t;;
  set_pc p SExited.

Definition unregisterSession (p : nat) : M () :=
  modify (λ s, let left_ := sessions s ∖ {[p]} in
    s <| sessions := left_ |> <| sessionsDone := sessionsDone s || (bool_decide (left_ = ∅) && closed s) |>).

(** [Accept] after [run]. *)
Definition Accept_tail (p : nat) : M () :=
  x ← gets (λ s, sess s p);
  c ← gets closed;
  (if s_gracefulBye x then dropResume (s_id x)
   else if negb (bool_decide (s_resumeToken x = "")) && negb c then stashResume p (s_resumeToken x)
   else mret ());;
  unregisterSession p;;
  set_pc p SDone.

(** The inbound watchdog: tell the client, then cancel. *)
Definition watchdog (p : nat) : M () :=
  set_sess p (λ x, x <| s_heartbeatLost := true |> <| s_watchAt := None |>);;
  r ← new_envelope TypeSessionError
        (PSessionError (mkSessionError CodeHeartbeatLost "heartbeat lost: no inbound traffic within two intervals" true ∅ "" ""));
  x ← gets (λ s, sess s p);
  match r with
  | Ok env => transport_send (s_transport x) (set_session env (s_id x));; mret ()
  | Err _ => mret ()
  end;;
  set_sess p (λ x, x <| s_ctxDone := true |>).

Definition sendPing (p : nat) : M () :=
  x ← gets (λ s, sess s p);
  if negb (hasFeature x "heartbeat") then mret ()
  else
    n ← fresh;
    t ← gets now;
    r ← new_envelope TypeSessionPing (PPing (NewPingNonce n) t);
    match r with Err _ => mret () | Ok env => send p env end.

(** ** Handlers *)

Definition sendErrorFor (p : nat) (reqEnv : Envelope) (code : ErrorCode) (msg : string) : M (option error) :=
  r ← new_envelope TypeSessionError
        (PSessionError (mkSessionError code msg (bool_decide (code = CodeInternalError)) ∅ (env_ID reqEnv) (env_JobID reqEnv)));
  match r with
  | Err e => mret (Some e)
  | Ok out => send p (set_job out (env_JobID reqEnv));; mret None
  end.

Definition handlePing (p : nat) (env : Envelope) : M (option error) :=
  match decode_ping (env_Payload env) with
  | Err e => mret (Some e)
  | Ok nonce =>
      t ← gets now;
      r ← new_envelope TypeSessionPong (PPong nonce t);
      match r with Err e => mret (Some e) | Ok out => send p out;; mret None end
  end.

Definition handleAck (p : nat) (env : Envelope) : M (option error) :=
  x ← gets (λ s, sess s p);
  if negb (hasFeature x "ack") then sendErrorFor p env CodeInvalidRequest "ack feature not negotiated"
  else match decode_ack (env_Payload env) with
  | Err e => mret (Some e)
  | Ok n =>
      set_sess p (λ x, if (s_high x <? n)%N then x <| s_high := n |> else x);;
      high ← gets (λ s, Z.of_N (s_high (sess s p)));
      log_trim (s_id x) (Z.of_N n);;
      threshold ← gets (λ s, o_AckLagThreshold (opts s));
      cur ← gets (λ s, currentSeq s p);
      when ((0 <? threshold) && ((cur <=? high) || (cur - high <? threshold)))%Z
        (set_sess p (λ x, x <| s_backPressureArmed := true |>));;
      mret None
  end.

(** No frame recovers a panic of [listJobs]: it ends the process. *)
Definition handleListJobs (p : nat) (env : Envelope) : M (option error) :=
  x ← gets (λ s, sess s p);
  if negb (hasFeature x "list_jobs") then sendErrorFor p env CodeInvalidRequest "list_jobs feature not negotiated"
  else match decode_list_jobs (env_Payload env) with
  | Err e => mret (Some e)
  | Ok req =>
      n ← fresh;
      res_ ← gets (λ s, listJobs s n (s_principal x) (lj_Filter req) (lj_Limit req) (lj_Cursor req));
      match res_ with
      | None => modify (λ s, s <| crashed := true |>);; mret None
      | Some page =>
          r ← new_envelope TypeSessionJobs (PJobs (mkJobs (env_ID env) page.1 page.2));
          match r with Err e => mret (Some e) | Ok out => send p out;; mret None end
      end
  end.

Definition registerJob (j : nat) : M bool :=
  id ← gets (λ s, j_id (job s j));
  r ← gets (λ s, jobs s !! id);
  match r with
  | Some _ => mret false
  | None => modify (λ s, s <| jobs := <[id := j]> (jobs s) |>);; mret true
  end.

Definition submitParamsHash (req : JobSubmit) : string :=
  sha256_hex (mkCanon (js_Agent req) (js_Input req) (js_LeaseRequest req) (js_LeaseConstraints req) (js_MaxRuntimeSec req)).

Definition leaseConstraintsFromState (t : option Time) : option LeaseConstraints :=
  match t with Some t => Some (mkConstraints (Some (mkZoned t 0))) | None => None end.

Definition replayAccepted (p : nat) (acc : JobAccepted) : M (option error) :=
  r ← new_envelope TypeJobAccepted (PAccepted acc);
  match r with
  | Err e => mret (Some e)
  | Ok out => send p (set_trace (set_job out (ja_JobID acc)) (ja_TraceID acc));; mret None
  end.

Definition session_ctx_err (x : session) : option error := if s_ctxDone x then Some ctx_Canceled else None.

(** The checks of [handleJobSubmit] before the job is created: the handler and
    the canonical name, or the code and message of the rejection. *)
Definition submit_checks (s : Server) (n : nat) (req : JobSubmit) : result (ErrorCode * string) (AgentFunc * string) :=
  match ParseAgentRef (js_Agent req) with
  | Err e => Err (CodeInvalidRequest, error_string e)
  | Ok ref =>
      match resolveAgent n (agents s) ref with
      | Err e => Err (Code (Some e), error_string e)
      | Ok r =>
          let expires := match js_LeaseConstraints req with Some c => lc_ExpiresAt c | None => None end in
          if match expires with Some z => negb (zt_offset z =? 0)%Z | None => false end then
            Err (CodeInvalidRequest, "lease_constraints.expires_at must be UTC (Z suffix)")
          else if match expires with Some z => negb (After (zt_instant z) (now s)) | None => false end then
            Err (CodeInvalidRequest, "lease_constraints.expires_at must be in the future")
          else match list_find (λ pat, is_ok (ParseBudgetAmount pat) = false) (default [] (js_LeaseRequest req !! CapCostBudget)) with
               | Some (_, pat) =>
                   Err (CodeInvalidRequest, "lease_request cost.budget: " +:+
                          match ParseBudgetAmount pat with Err e => error_string e | Ok _ => "" end)
               | None => Ok r
               end
      end
  end.

(** Steps of a rejected job: out of the registry, then discarded. *)
Definition reject_job (j : nat) : M () :=
  id ← gets (λ s, j_id (job s j)); unregisterJob id;; discard j.

(** The tail of [handleJobSubmit] once the credentials are issued, on the job
    struct [y] of the submission at time [t]: attach them, send job.accepted,
    cache its payload and start the run. *)
Definition accept_issued (p : nat) (env : Envelope) (req : JobSubmit) (canonical : string) (j : nat) (y : Job) (t : Time)
    (issued : res (list Credential)) : M (option error) :=
  let st := Some (j_lease y) in
  match issued with
  | Err e =>
      reject_job j;;
      sendErrorFor p env (Code (Some e)) ("credential issue failed: " +:+ error_string e)
  | Ok creds =>
      attachCredentials j creds;;
      let acc := mkAccepted (j_id y) (State_Lease st) (leaseConstraintsFromState (ExpiresAt st))
                   (Initial st) creds t (j_traceID y) "" canonical in
      r ← new_envelope TypeJobAccepted (PAccepted acc);
      match r with
      | Err e => reject_job j;; mret (Some e)
      | Ok aenv =>
          send p (set_trace (set_job aenv (j_id y)) (j_traceID y));;
          when (negb (bool_decide (js_IdempotencyKey req = "")))
            (x ← gets (λ s, sess s p);
             modify (λ s, s <| idStore := (IdStore.SetAccepted (idStore s) (session_ctx_err x) (s_principal x)
                                             (js_IdempotencyKey req) acc).2 |>));;
          set_job_ j (λ y, y <| j_pc := JPending |>);;
          mret None
      end
  end.

(** The tail of [handleJobSubmit] from the credentials on. *)
Definition accept_job (p : nat) (env : Envelope) (req : JobSubmit) (canonical : string) (j : nat) : M (option error) :=
  x ← gets (λ s, sess s p);
  y ← gets (λ s, job s j);
  t ← gets now;
  o ← gets opts;
  let st := Some (j_lease y) in
  issued ← match o_Provisioner o with
           | Some pv =>
               if hasFeature x "provisioned_credentials" then
                 let ireq := mkIssue (j_id y) (s_principal x) canonical (State_Lease st) (Initial st) (ExpiresAt st) "" in
                 observe (OIssue ireq);;
                 n ← fresh;
                 mret (pv_Issue pv n ireq)
               else mret (Ok [])
           | None => mret (Ok [])
           end;
  accept_issued p env req canonical j y t issued.

Definition handleJobSubmit (p : nat) (env : Envelope) : M (option error) :=
  match decode_submit (env_Payload env) with
  | Err e => sendErrorFor p env CodeInvalidRequest (error_string e)
  | Ok req =>
      n ← fresh;
      checks ← gets (λ s, submit_checks s n req);
      match checks with
      | Err (code, msg) => sendErrorFor p env code msg
      | Ok (fn, canonical) =>
          j ← newJob p canonical req fn (env_TraceID env);
          ok ← registerJob j;
          if negb ok then discard j;; sendErrorFor p env CodeInternalError "job id collision"
          else
            let hash := submitParamsHash req in
            if bool_decide (js_IdempotencyKey req = "") then accept_job p env req canonical j
            else
              x ← gets (λ s, sess s p);
              id ← gets (λ s, j_id (job s j));
              t ← gets now;
              let e := IdStore.mkEntry (s_principal x) (js_IdempotencyKey req) id t hash None in
              put ← gets (λ s, IdStore.PutIfAbsent (idStore s) (session_ctx_err x) t e);
              modify (λ s, s <| idStore := put.2 |>);;
              match put.1 with
              | Err err =>
                  reject_job j;;
                  sendErrorFor p env (Code (Some err)) ("idempotency store error: " +:+ error_string err)
              | Ok (entry, true) => accept_job p env req canonical j
              | Ok (entry, false) =>
                  reject_job j;;
                  if negb (bool_decide (IdStore.ie_ParamsHash entry = hash)) then
                    sendErrorFor p env CodeDuplicateKey "idempotency key reused with different parameters"
                  else match IdStore.ie_Accepted entry with
                       | None => sendErrorFor p env CodeInternalError "idempotent submit still in progress"
                       | Some acc => replayAccepted p acc
                       end
              end
      end
  end.

Definition handleJobCancel (p : nat) (env : Envelope) : M (option error) :=
  match decode_cancel (env_Payload env) with
  | Err e => sendErrorFor p env CodeInvalidRequest (error_string e)
  | Ok reason =>
      r ← gets (λ s, jobs s !! env_JobID env);
      match r with
      | None => sendErrorFor p env CodeJobNotFound ("job " +:+ env_JobID env +:+ " not found")
      | Some j =>
          y ← gets (λ s, job s j);
          x ← gets (λ s, sess s p);
          owner ← gets (λ s, s_id (sess s (j_session y)));
          if negb (bool_decide (owner = s_id x)) || negb (bool_decide (j_principal y = s_principal x)) then
            sendErrorFor p env CodePermissionDenied "only the submitting session can cancel"
          else
            a ← new_envelope TypeJobCancelled (PCancelled (j_id y) reason);
            match a with
            | Ok ack =>
                n ← nextSeq p;
                send p (set_seq (set_trace (set_job ack (j_id y)) (j_traceID y)) n)
            | Err _ => mret ()
            end;;
            cancelWithReason j reason;;
            mret None
      end
  end.

Definition handleJobSubscribe (p : nat) (env : Envelope) : M (option error) :=
  x ← gets (λ s, sess s p);
  if negb (hasFeature x "subscribe") then sendErrorFor p env CodeInvalidRequest "subscribe feature not negotiated"
  else match decode_subscribe (env_Payload env) with
  | Err e => mret (Some e)
  | Ok req =>
      r ← gets (λ s, jobs s !! sb_JobID req);
      match r with
      | None => sendErrorFor p env CodeJobNotFound ("job " +:+ sb_JobID req +:+ " not found")
      | Some j =>
          y ← gets (λ s, job s j);
          if negb (bool_decide (j_principal y = s_principal x)) then
            sendErrorFor p env CodePermissionDenied "subscription denied by deployment policy"
          else
            q ← newSubscription p (sb_JobID req);
            addSubscriber (sb_JobID req) q;;
            cur ← gets (λ s, currentSeq s p);
            o ← new_envelope TypeJobSubscribed
                  (PSubscribed (mkSubscribed (j_id y) (j_statusV y) (j_agent y) (State_Lease (Some (j_lease y))) ""
                                  (j_traceID y) cur (sb_History req)));
            match o with
            | Err e => mret (Some e)
            | Ok out =>
                send p (set_job out (j_id y));;
                when (sb_History req)
                  (n ← fresh;
                   entries ← gets (λ s, SinceJob (log s) (order_keys n (elements (dom (bySess (log s))))) (j_id y) (sb_FromEventSeq req));
                   for_each entries (λ e,
                     m ← nextSeq p;
                     enqueue p (set_seq (set_session (en_Envelope e) (s_id x)) m)));;
                mret None
            end
      end
  end.

Definition handleJobUnsubscribe (p : nat) (env : Envelope) : M (option error) :=
  match decode_unsubscribe (env_Payload env) with
  | Err e => mret (Some e)
  | Ok jobID =>
      own ← gets (λ s, list_find (λ q, sub_session (sub s q) = p) (subscribers s jobID));
      match own with
      | None => mret None
      | Some (_, q) => removeSubscriber jobID q;; sub_close q;; mret None
      end
  end.

(** The [session.close] case of [dispatch]. *)
Definition handleClose (p : nat) (env : Envelope) : M (option error) :=
  let reason := match decode_close (env_Payload env) with Ok r => r | Err _ => "" end in
  set_sess p (λ x, x <| s_gracefulBye := true |>);;
  r ← new_envelope TypeSessionClosed (PClosed reason);
  x ← gets (λ s, sess s p);
  match r with
  | Ok c => transport_send (s_transport x) (set_session c (s_id x));; mret ()
  | Err _ => mret ()
  end;;
  set_sess p (λ x, x <| s_ctxDone := true |>);;
  mret None.

Definition dispatch (p : nat) (env : Envelope) : M (option error) :=
  let t := env_Type env in
  if bool_decide (t = TypeSessionPing) then handlePing p env
  else if bool_decide (t = TypeSessionPong) then mret None
  else if bool_decide (t = TypeSessionAck) then handleAck p env
  else if bool_decide (t = TypeSessionListJobs) then handleListJobs p env
  else if bool_decide (t = TypeSessionClose) then handleClose p env
  else if bool_decide (t = TypeJobSubmit) then handleJobSubmit p env
  else if bool_decide (t = TypeJobCancel) then handleJobCancel p env
  else if bool_decide (t = TypeJobSubscribe) then handleJobSubscribe p env
  else if bool_decide (t = TypeJobUnsubscribe) then handleJobUnsubscribe p env
  else sendErrorFor p env CodeInvalidRequest ("unknown envelope type " +:+ t).

(** One turn of the read loop after a successful [Recv]. *)
Definition read_turn (p : nat) (env : Envelope) : M () :=
  t ← gets now;
  o ← gets opts;
  set_sess p (λ x, if s_pingArmed x then x <| s_watchAt := Some (t + 2 * o_HeartbeatInterval o)%Z |> else x);;
  dispatch p env;; mret ().

(** ** The server's own operations *)

Definition idTTL : Duration := (24 * hour)%Z.

Definition janitorInterval (o : Options) : Duration :=
  let iv := Z.quot idTTL 24 in
  let iv := if (0 <? o_ResumeWindow o)%Z && (o_ResumeWindow o <? iv)%Z then o_ResumeWindow o else iv in
  if (iv <=? 0)%Z then minute else iv.

Definition scheduleJanitor : M () :=
  modify (λ s, s <| janitorAt := Some (now s + janitorInterval (opts s))%Z |>).

Definition sweepIdle : M () :=
  modify (λ s, s <| idStore := (IdStore.Sweep (idStore s) (if closed s then Some ctx_Canceled else None)
                                  (now s - idTTL)%Z).2 |>).

Definition janitorTick : M () :=
  c ← gets closed;
  if c : bool then modify (λ s, s <| janitorAt := None |>)
  else sweepIdle;; purgeExpiredResumes;; scheduleJanitor.

(** [Close] up to the wait for the sessions, and after it. *)
Definition Close_begin : M () :=
  c ← gets closed;
  if c : bool then mret ()
  else
    modify (λ s, s <| closed := true |> <| sessionsDone := bool_decide (sessions s = ∅) |>);;
    l ← gets (λ s, elements (sessions s));
    for_each l (λ p, set_sess p (λ x, x <| s_ctxDone := true |>);;
                     t ← gets (λ s, s_transport (sess s p)); transport_close t).

Definition Close_end : M () :=
  b ← gets sessionsDone;
  when b (modify (λ s, s <| resumes := ∅ |>)).

End session.

(** [New]. *)
Definition New (o : Options) (t : Time) : Server :=
  let o := withDefaults o in
  mkServer o t 0 ∅ ∅ ∅ IdStore.NewMemory (NewMemory (o_EventLogSize o)) ∅ ∅ false ∅ ∅ false
    (Some (t + janitorInterval o)%Z) ∅ ∅ ∅ ∅ false ∅ ∅ [] false.
