(* ===== verification/Runtime.v ===== *)
(** * The runtime as a transition system

    The operations of the other server files, each at the point of the program
    where it can happen, as the steps of one machine: connections, reads,
    writes and drops of sessions, timers, the janitor, agent bodies and the
    shutdown.  A run is a list of steps from [New]; a step that is not enabled
    does nothing.  The order of the steps is arbitrary, so a theorem about
    every run covers every interleaving of the goroutines at this
    granularity. *)

From S2P Require Import Prelude GoStrings Errors Features Float64 Lease Canonical LeaseState Messages EventLog IdStore Agents ServerState Delivery Stream Job ListJobs Session.
From Stdlib Require Import ZArith Lia.

(** What an agent body does through its job context. *)
Inductive agent_op :=
| ALog (level msg : string) (fields : gmap string any)
| AThought (text : string)
| AToolCall (tool : string) (args : res string)
| AToolResult (callID : string) (result_ : res string)
| AToolError (callID : string) (err : error)
| AStatus (phase message : string)
| ARotate (id newValue : string)
| AMetric (name : string) (value : f64) (unit_ : string) (dims : gmap string string)
| AArtifact (uri contentType : string) (byteSize : Z) (sha256 : string)
| AProgress (cur total : Z) (units message : string)
| AReserve (cap : Capability) (target : string) (debit : BudgetAmount)
| AStream (encoding : string)
| AWrite (p : string)
| ACloseStream.

Inductive op :=
| OpAdvance (d : Duration)
| OpRegisterAgent (name : string) (fn : AgentFunc)
| OpRegisterAgentVersion (name version : string) (fn : AgentFunc)
| OpSetDefaultAgentVersion (name version : string)
| OpAccept (t : nat) (recv : res Envelope)
| OpRegister (p : nat)
| OpCurrent (p : nat)
| OpReplay (p : nat)
| OpRead (p : nat) (env : Envelope)
| OpWrite (p : nat)
| OpPing (p : nat)
| OpWatchdog (p : nat)
| OpCancelCtx (p : nat)
| OpExit (p : nat)
| OpTail (p : nat)
| OpJanitor
| OpClose
| OpCloseEnd
| OpJobStart (j : nat)
| OpAgent (j : nat) (a : agent_op)
| OpJobReturn (j : nat) (o : agent_outcome)
| OpTimers (j : nat)
| OpExpire (j : nat)
| OpTimeout (j : nat).

Definition due (s : Server) (d : option Time) : bool :=
  match d with Some d => (d <=? now s)%Z | None => false end.

Definition at_pc (s : Server) (p : nat) (pc : session_pc) : bool :=
  bool_decide (is_Some (hsess s !! p)) && bool_decide (s_pc (sess s p) = pc).

Definition job_at (s : Server) (j : nat) (pc : job_pc) : bool :=
  bool_decide (is_Some (hjob s !! j)) && bool_decide (j_pc (job s j) = pc).

Definition enabled (s : Server) (o : op) : bool :=
  match o with
  | OpAdvance d => (0 <=? d)%Z
  | OpRegisterAgent _ _ | OpRegisterAgentVersion _ _ _ | OpSetDefaultAgentVersion _ _ => true
  | OpAccept t _ => bool_decide (wire s !! t = None) && bool_decide (t ∉ tclosed s)
  | OpRegister p => at_pc s p SHandshaken
  | OpCurrent p => at_pc s p SRegistered
  | OpReplay p => at_pc s p SCurrent
  | OpRead p _ | OpExit p => at_pc s p SReading
  | OpWrite p | OpCancelCtx p => bool_decide (is_Some (hsess s !! p))
  | OpPing p => bool_decide (is_Some (hsess s !! p)) && due s (s_pingAt (sess s p))
  | OpWatchdog p => bool_decide (is_Some (hsess s !! p)) && due s (s_watchAt (sess s p))
  | OpTail p => at_pc s p SExited
  | OpJanitor => due s (janitorAt s)
  | OpClose | OpCloseEnd => true
  | OpJobStart j => job_at s j JPending
  | OpAgent j _ | OpJobReturn j _ => job_at s j JAgent
  | OpTimers j => bool_decide (is_Some (hjob s !! j))
  | OpExpire j => bool_decide (is_Some (hjob s !! j)) && j_expiryDue (job s j)
  | OpTimeout j => bool_decide (is_Some (hjob s !! j)) && j_runtimeDue (job s j)
  end.

Section runtime.
Context {RT : Runtime}.

Definition exec_agent (j : nat) (a : agent_op) : M () :=
  match a with
  | ALog level msg fields => Log j level msg fields
  | AThought text => Thought j text
  | AToolCall tool args => ToolCall j tool args;; mret ()
  | AToolResult id r => ToolResult j id r
  | AToolError id e => ToolError_ j id e
  | AStatus phase msg => Status j phase msg
  | ARotate id v => RotateCredential j id v;; mret ()
  | AMetric name v u dims => Metric j name v u dims
  | AArtifact uri ct n sha => ArtifactRef j uri ct n sha
  | AProgress c t u m => Progress j c t u m
  | AReserve cap target debit => ReserveBudget j cap target debit;; mret ()
  | AStream enc => StreamResult j enc;; mret ()
  | AWrite p => stream_Write j p;; mret ()
  | ACloseStream => stream_Close j
  end.

(** The clock starts the callbacks of the timers that are due. *)
Definition fire_timers (j : nat) : M () :=
  modify (λ s,
    let x := job s j in
    let x := if due s (j_expiryTimer x) then x <| j_expiryTimer := None |> <| j_expiryDue := true |> else x in
    let x := if due s (j_runtimeTimer x) then x <| j_runtimeTimer := None |> <| j_runtimeDue := true |> else x in
    s <| hjob := <[j := x]> (hjob s) |>).

Definition exec_op (o : op) : M () :=
  match o with
  | OpAdvance d => modify (λ s, s <| now := (now s + d)%Z |>)
  | OpRegisterAgent name fn => modify (λ s, s <| agents := RegisterAgent (agents s) name fn |>)
  | OpRegisterAgentVersion name v fn => modify (λ s, s <| agents := RegisterAgentVersion (agents s) name v fn |>)
  | OpSetDefaultAgentVersion name v => modify (λ s, s <| agents := (SetDefaultAgentVersion (agents s) name v).2 |>)
  | OpAccept t recv =>
      modify (λ s, s <| wire := <[t := []]> (wire s) |>);; Accept_handshake t recv;; mret ()
  | OpRegister p => Accept_register p
  | OpCurrent p => run_current p
  | OpReplay p => run_replay p
  | OpRead p env => read_turn p env
  | OpWrite p => writeLoop_turn p
  | OpPing p => set_sess p (λ x, x <| s_pingAt := None |>);; sendPing p
  | OpWatchdog p => watchdog p
  | OpCancelCtx p => set_sess p (λ x, x <| s_ctxDone := true |>)
  | OpExit p => session_exit p
  | OpTail p => Accept_tail p
  | OpJanitor => janitorTick
  | OpClose => Close_begin
  | OpCloseEnd => Close_end
  | OpJobStart j => run_start j
  | OpAgent j a => exec_agent j a
  | OpJobReturn j out => run_finish j out
  | OpTimers j => fire_timers j
  | OpExpire j => set_job_ j (λ x, x <| j_expiryDue := false |>);; expireLease j
  | OpTimeout j => set_job_ j (λ x, x <| j_runtimeDue := false |>);; timeout j
  end.

(** A crashed process does nothing. *)
Definition step (s : Server) (o : op) : Server := if negb (crashed s) && enabled s o then (exec_op o s).2 else s.

Definition run (ops : list op) (s : Server) : Server := fold_left step ops s.

(** The states of the runs from a new server. *)
Inductive reachable (o : Options) (t : Time) : Server → Prop :=
| reach_New : reachable o t (New o t)
| reach_step s x : reachable o t s → reachable o t (step s x).

Lemma run_reachable o t s ops : reachable o t s → reachable o t (run ops s).
Proof.
  revert s. induction ops as [|x ops IH]; intros s Hs; [done|]. simpl. apply IH. by constructor.
Qed.

End runtime.
