(* ===== verification/Scenarios.v ===== *)
(** * A concrete world

    An instance of the outside world ([Runtime]) in which identifiers are
    numerals, every transport write succeeds and every [select] takes its
    first ready case; options, envelopes and step lists for the concrete runs
    that witness the theorems and show the findings. *)

From S2P Require Import Prelude GoStrings Errors Features Float64 Lease Canonical LeaseState Messages EventLog IdStore Agents ServerState Delivery Stream Job ListJobs Session Runtime.
From Stdlib Require Import ZArith Ascii Lia.

(** Unary numerals. *)
Fixpoint unary (n : nat) : string :=
  match n with 0 => EmptyString | S n => String "i" (unary n) end.

Lemma unary_inj m n : unary m = unary n → m = n.
Proof.
  revert n. induction m as [|m IH]; intros [|n]; simpl; try done.
  intros [= H]. f_equal. by apply IH.
Qed.

Definition canon_text (c : submit_canon) : string := sc_Agent c +:+ "|" +:+ sc_Input c.

#[export] Instance demo : Runtime := {|
  ulid := unary; uuid := λ n, String "u" (unary n); trace_hex := λ _, "trace";
  ulid_inj := unary_inj; uuid_inj := λ m n H, unary_inj m n (f_equal (sdrop 1) H); uuid_nonempty := λ n H, match H in _ = s return match s with EmptyString => False | _ => True end with eq_refl => I end;
  sha256_hex := canon_text;
  send_err := λ _, None;
  pick := λ _, true;
  max_page := (10 ^ 12)%Z; max_page_lt := eq_refl;
  runtime_order := id_order;
  runtime_url := plain_url
|}.

(** No verifier (the principal is the client name), no provisioner, a log of
    [n] entries per session. *)
Definition demo_opts (n : Z) : Options :=
  mkOptions "" "" 0 0 None None None 0 [] None 0 0 n 0.

Definition client_env (typ : string) (p : payload) : Envelope :=
  mkEnvelope ProtocolVersion "m" typ "" "" "" 0 p.

Definition hello_env (name : string) (resume : option ResumeRequest) : Envelope :=
  client_env TypeSessionHello (PHello (mkHello name "1" "bearer" "" (mkHelloCaps ["json"] Features) resume)).

(** A connection that reaches its read loop, as the session [p]. *)
Definition connect (t : nat) (p : nat) (name : string) (resume : option ResumeRequest) : list op :=
  [OpAccept t (Ok (hello_env name resume)); OpRegister p; OpCurrent p; OpReplay p].

Definition submit_env (agent key : string) (lease : Lease) : Envelope :=
  client_env TypeJobSubmit (PSubmit (mkSubmit agent "null" lease None key 0)).

(** A transport drop: the read loop ends and [Accept] returns. *)
Definition drop_session (p : nat) : list op := [OpExit p; OpTail p].

Definition demo_run (n : Z) (ops : list op) : Server := run ops (New (demo_opts n) 1000).

(** One agent, the session 6 of alice, one job at the address 8. *)
Definition demo_submitted : list op :=
  [OpRegisterAgent "echo" (Some 0)] ++ connect 1 6 "alice" None ++ [OpRead 6 (submit_env "echo" "" ∅)].
Definition demo_sid : string := NewSessionID 1.
Definition demo_jid : string := NewJobID 8.

Definition demo_log (msg : string) : op := OpAgent 8 (ALog "info" msg ∅).

(** The job runs and emits three events. *)
Definition demo_worked : list op := demo_submitted ++ [OpJobStart 8; demo_log "a"; demo_log "b"; demo_log "c"].

Definition subscribe_env (jid : string) : Envelope :=
  client_env TypeJobSubscribe (PSubscribe (mkSubscribe jid 0 false)).

(** The submitter also subscribes and the job succeeds. *)
Definition demo_finished : list op :=
  demo_worked ++ [OpRead 6 (subscribe_env demo_jid); OpJobReturn 8 (AReturn (Some (Ok "1")) None)].

Lemma demo_reachable n ops : reachable (demo_opts n) 1000 (demo_run n ops).
Proof. apply run_reachable. constructor. Qed.

(** A provisioner with one static credential. *)
Definition demo_credential : Credential := mkCredential "cred" "bearer" "secret" "" "" None.
Definition demo_provisioner : Provisioner := mkProvisioner (λ _ _, Ok [demo_credential]) (λ _ _, None) None.
Definition demo_opts_pv : Options := mkOptions "" "" 0 0 None None None 0 [] (Some demo_provisioner) 0 0 0 0.

Definition cancel_env (jid reason : string) : Envelope :=
  mkEnvelope ProtocolVersion "m" TypeJobCancel "" jid "" 0 (PCancel reason).
