(* ===== verification/Invariant.v ===== *)
(** * The invariant of the runtime

    The part of the server state the safety theorems talk about ([view]), the
    invariant that every reachable state satisfies, and one lemma per kind of
    change the code makes to it.  The file Preservation lifts these lemmas to
    the operations. *)

From S2P Require Import Prelude GoStrings Errors Features Float64 Lease Canonical LeaseState Messages EventLog IdStore Agents ServerState Delivery Stream Job ListJobs Session Runtime.
From Stdlib Require Import ZArith Lia.

(** ** The view *)

(** What matters of a session and of a job. *)
Record score := mkScore { sc_id : string; sc_principal : string; sc_seq : nat; sc_pc : session_pc }.
Record jcore := mkJcore { jc_id : string; jc_principal : string; jc_session : nat; jc_terminal : bool }.

Definition score_of (x : session) : score := mkScore (s_id x) (s_principal x) (s_seq x) (s_pc x).
Definition jcore_of (y : Job) : jcore := mkJcore (j_id y) (j_principal y) (j_session y) (j_terminal y).
Definition subcore_of (z : subscription) : nat * string := (sub_session z, sub_jobID z).
Definition rcore_of (e : resumeEntry) : string * string := (re_sessionID e, re_principal e).

Record view := mkView {
  v_tick : nat;
  v_sess : gmap nat score;
  v_job : gmap nat jcore;
  v_jobs : gmap string nat;
  v_hsub : gmap nat (nat * string);
  v_subs : gmap string (list nat);
  v_resumes : gmap string (string * string);
  v_seqAllocs : gmap string nat;
  v_current : gmap string nat;
  v_alloc : gmap nat Z;
  v_wrapped : bool;
  v_log : Memory;
  v_trace : list obs
}.

#[export] Instance eta_view : Eta view := λ v,
  mkView (v_tick v) (v_sess v) (v_job v) (v_jobs v) (v_hsub v) (v_subs v) (v_resumes v) (v_seqAllocs v)
    (v_current v) (v_alloc v) (v_wrapped v) (v_log v) (v_trace v).

Definition view_of (s : Server) : view :=
  mkView (tick s) (score_of <$> hsess s) (jcore_of <$> hjob s) (jobs s) (subcore_of <$> hsub s) (subs s)
    (rcore_of <$> resumes s) (seqAllocs s) (current s) (halloc s) (wrapped s) (log s) (trace s).

(** ** Classification of envelopes *)

(** The envelopes that carry a job's data; [job.accepted] is not one of them:
    the idempotency store can replay it. *)
Definition job_scoped (t : string) : bool :=
  bool_decide (t = TypeJobEvent) || bool_decide (t = TypeJobResult) || bool_decide (t = TypeJobError) ||
  bool_decide (t = TypeJobCancelled) || bool_decide (t = TypeJobSubscribed).

Definition is_terminal (env : Envelope) : bool :=
  bool_decide (env_Type env = TypeJobResult) || bool_decide (env_Type env = TypeJobError).

(** Payloads that cannot hold a credential: events other than a rotation,
    terminal payloads and cancellation notices. *)
Definition secret_free (env : Envelope) : bool :=
  match env_Payload env with
  | PEvent _ => negb (isCredentialRotation env)
  | PResult _ | PJobError _ | PCancelled _ _ => true
  | _ => false
  end.

(** The entries ever appended for a session, oldest first. *)
Definition hist (tr : list obs) (sid : string) : list Entry :=
  omap (λ o, match o with
             | OPersist e => if bool_decide (en_SessionID e = sid) then Some e else None
             | _ => None
             end) tr.

Arguments hist : simpl never.
Arguments entries_of : simpl never.
Arguments Append : simpl never.
Arguments Trim : simpl never.
Arguments stamp : simpl never.

Definition is_persist (o : obs) : bool := match o with OPersist _ => true | _ => false end.

(** [env] belongs to a job of the principal [pr]. *)
Definition job_of (v : view) (pr : string) (id : string) : Prop :=
  ∃ j c, v_job v !! j = Some c ∧ jc_id c = id ∧ jc_principal c = pr.

Definition fit (v : view) (pr : string) (env : Envelope) : Prop :=
  (job_scoped (env_Type env) = true ∨ env_EventSeq env ≠ 0%Z → job_of v pr (env_JobID env)) ∧ well_typed env.

Section invariant.
Context {RT : Runtime}.

Definition persist_ok (v : view) (e : Entry) : Prop :=
  secret_free (en_Envelope e) = true ∧ well_typed (en_Envelope e) ∧ en_JobID e = env_JobID (en_Envelope e) ∧
  ∃ p x, v_sess v !! p = Some x ∧ sc_id x = en_SessionID e ∧ job_of v (sc_principal x) (en_JobID e).

Definition known_id (v : view) (id : string) : Prop := ∃ n, n < v_tick v ∧ id = NewSessionID n.

Record Inv (v : view) : Prop := {
  inv_sess_lt : ∀ p x, v_sess v !! p = Some x → p < v_tick v ∧ known_id v (sc_id x);
  inv_job : ∀ j c, v_job v !! j = Some c →
    j < v_tick v ∧ jc_id c = NewJobID j ∧
    ∃ x, v_sess v !! jc_session c = Some x ∧ sc_principal x = jc_principal c;
  inv_alloc : ∀ a z, v_alloc v !! a = Some z → a < v_tick v ∧ (0 <= z)%Z;
  inv_jobs : ∀ id j, v_jobs v !! id = Some j → ∃ c, v_job v !! j = Some c ∧ jc_id c = id;
  inv_hsub : ∀ q p id, v_hsub v !! q = Some (p, id) →
    q < v_tick v ∧ ∃ x, v_sess v !! p = Some x ∧ job_of v (sc_principal x) id;
  inv_subs : ∀ id l q, v_subs v !! id = Some l → q ∈ l → ∃ p, v_hsub v !! q = Some (p, id);
  inv_same : ∀ p q x y, v_sess v !! p = Some x → v_sess v !! q = Some y → sc_id x = sc_id y →
    sc_principal x = sc_principal y ∧ sc_seq x = sc_seq y;
  inv_sess_alloc : ∀ p x, v_sess v !! p = Some x → is_Some (v_alloc v !! sc_seq x);
  inv_seqAllocs : ∀ id a, v_seqAllocs v !! id = Some a →
    known_id v id ∧ is_Some (v_alloc v !! a) ∧
    ∀ p x, v_sess v !! p = Some x → sc_id x = id → sc_seq x = a;
  inv_resumes : ∀ id r, v_resumes v !! id = Some r →
    r.1 = id ∧ is_Some (v_seqAllocs v !! id) ∧
    (∃ p x, v_sess v !! p = Some x ∧ sc_id x = id ∧ sc_principal x = r.2) ∧
    (∀ p x, v_sess v !! p = Some x → sc_id x = id → sc_pc x = SDone);
  inv_live : ∀ p x, v_sess v !! p = Some x → sc_pc x ≠ SDone →
    is_Some (v_seqAllocs v !! sc_id x) ∧
    ∀ q y, v_sess v !! q = Some y → sc_id y = sc_id x → sc_pc y ≠ SDone → q = p;
  inv_current : ∀ id p, v_current v !! id = Some p → ∃ x, v_sess v !! p = Some x ∧ sc_id x = id;
  inv_log : ∀ sid e, e ∈ entries_of (v_log v) sid → OPersist e ∈ v_trace v ∧ en_SessionID e = sid;
  inv_hist : v_wrapped v = false → ∀ sid,
    entries_of (v_log v) sid `suffix_of` hist (v_trace v) sid ∧
    StronglySorted seq_lt (hist (v_trace v) sid) ∧
    ∀ p x z, v_sess v !! p = Some x → sc_id x = sid → v_alloc v !! sc_seq x = Some z →
      Forall (λ e, 0 < en_EventSeq e <= z)%Z (hist (v_trace v) sid);
  inv_persist : ∀ e, OPersist e ∈ v_trace v → persist_ok v e;
  inv_enqueue : ∀ p env, OEnqueue p env ∈ v_trace v →
    ∃ x, v_sess v !! p = Some x ∧ fit v (sc_principal x) env;
  inv_send : ∀ p env, OSend p env ∈ v_trace v → is_terminal env = true →
    ∃ j c, v_job v !! j = Some c ∧ jc_id c = env_JobID env ∧ jc_terminal c = true;
  inv_send_one : ∀ p env p' env', OSend p env ∈ v_trace v → OSend p' env' ∈ v_trace v →
    is_terminal env = true → is_terminal env' = true → env_JobID env = env_JobID env' →
    env_ID env = env_ID env' ∧ env_Payload env = env_Payload env' ∧ env_Type env = env_Type env'
}.

(** ** Identifiers *)

Lemma NewSessionID_inj m n : NewSessionID m = NewSessionID n → m = n.
Proof. unfold NewSessionID, NewULID. intros H. apply ulid_inj. by simplify_eq/=. Qed.

Lemma NewJobID_inj m n : NewJobID m = NewJobID n → m = n.
Proof. unfold NewJobID, NewULID. intros H. apply ulid_inj. by simplify_eq/=. Qed.

(** ** The initial state *)

Lemma Inv_New o t : Inv (view_of (New o t)).
Proof.
  split; cbn; intros; rewrite ?fmap_empty in *; simplify_map_eq; try done;
    try (by apply not_elem_of_nil in H); try (by apply not_elem_of_nil in H0).
  split_and!; [by exists []|constructor|]. intros. by constructor.
Qed.

(** ** Growth

    What every operation preserves: sessions and jobs keep their identity,
    and a terminal job stays terminal. *)
Definition ext (v w : view) : Prop :=
  v_tick v ≤ v_tick w ∧
  (∀ p x, v_sess v !! p = Some x → ∃ y, v_sess w !! p = Some y ∧
     sc_id y = sc_id x ∧ sc_principal y = sc_principal x ∧ sc_seq y = sc_seq x) ∧
  (∀ j c, v_job v !! j = Some c → ∃ d, v_job w !! j = Some d ∧
     jc_id d = jc_id c ∧ jc_principal d = jc_principal c ∧ jc_session d = jc_session c ∧
     (jc_terminal c = true → jc_terminal d = true)) ∧
  (v_wrapped v = true → v_wrapped w = true) ∧
  (∀ q z, v_hsub v !! q = Some z → v_hsub w !! q = Some z).

#[global] Instance ext_preorder : PreOrder ext.
Proof.
  split.
  - intros v. split_and!; eauto 10.
  - intros u v w (Ht & Hs & Hj & Hw & Hh) (Ht' & Hs' & Hj' & Hw' & Hh'). split_and!; [lia| | |auto|auto].
    + intros p x Hx. destruct (Hs p x Hx) as (y & Hy & ? & ? & ?).
      destruct (Hs' p y Hy) as (z & ? & ? & ? & ?). exists z. split_and!; congruence.
    + intros j c Hc. destruct (Hj j c Hc) as (d & Hd & ? & ? & ? & ?).
      destruct (Hj' j d Hd) as (e & ? & ? & ? & ? & ?). exists e. split_and!; try congruence. auto.
Qed.

Lemma job_of_ext v w pr id : ext v w → job_of v pr id → job_of w pr id.
Proof.
  intros (_ & _ & Hj & _) (j & c & Hc & <- & <-). destruct (Hj j c Hc) as (d & ? & ? & ? & _).
  exists j, d. done.
Qed.

Lemma fit_ext v w pr env : ext v w → fit v pr env → fit w pr env.
Proof. intros He [Hf Ht]. split; [|done]. intros Hs. eapply job_of_ext; eauto. Qed.

(** A session, by its stable part. *)
Definition is_sess (v : view) (p : nat) (id pr : string) : Prop :=
  ∃ x, v_sess v !! p = Some x ∧ sc_id x = id ∧ sc_principal x = pr.
Definition is_job (v : view) (j : nat) (id pr : string) (p : nat) : Prop :=
  ∃ c, v_job v !! j = Some c ∧ jc_id c = id ∧ jc_principal c = pr ∧ jc_session c = p.

Lemma is_sess_ext v w p id pr : ext v w → is_sess v p id pr → is_sess w p id pr.
Proof.
  intros (_ & Hs & _) (x & Hx & <- & <-). destruct (Hs p x Hx) as (y & ? & ? & ? & _). exists y. done.
Qed.

Lemma is_job_ext v w j id pr p : ext v w → is_job v j id pr p → is_job w j id pr p.
Proof.
  intros (_ & _ & Hj & _) (c & Hc & <- & <- & <-). destruct (Hj j c Hc) as (d & ? & ? & ? & ? & _).
  exists d. done.
Qed.

Lemma is_job_of v j id pr p : is_job v j id pr p → job_of v pr id.
Proof. intros (c & ? & ? & ? & _). by exists j, c. Qed.

(** ** Changes of the view

    The fields of the invariant that a change does not touch are the same
    propositions before and after it. *)
Ltac inv_rest HI :=
  try first
    [ exact (inv_sess_lt _ HI) | exact (inv_job _ HI) | exact (inv_alloc _ HI) | exact (inv_jobs _ HI)
    | exact (inv_hsub _ HI) | exact (inv_subs _ HI) | exact (inv_same _ HI) | exact (inv_sess_alloc _ HI)
    | exact (inv_seqAllocs _ HI) | exact (inv_resumes _ HI) | exact (inv_live _ HI) | exact (inv_current _ HI) | exact (inv_log _ HI)
    | exact (inv_hist _ HI) | exact (inv_persist _ HI) | exact (inv_enqueue _ HI) | exact (inv_send _ HI)
    | exact (inv_send_one _ HI) ].

Lemma known_id_mono v n id : v_tick v ≤ n → known_id v id → known_id (v <| v_tick := n |>) id.
Proof. intros Hn (m & Hm & ->). exists m. cbn. split; [lia|done]. Qed.

Lemma Inv_tick v n : Inv v → v_tick v ≤ n → Inv (v <| v_tick := n |>).
Proof.
  intros HI Hn. split; cbn; inv_rest HI.
  - intros p x Hx. destruct (inv_sess_lt v HI p x Hx) as [? ?]. split; [lia|]. by apply known_id_mono.
  - intros j c Hc. destruct (inv_job v HI j c Hc) as (? & ? & ?). split_and!; [lia|done|done].
  - intros a z Ha. destruct (inv_alloc v HI a z Ha). split; [lia|done].
  - intros q p id Hq. destruct (inv_hsub v HI q p id Hq). split; [lia|done].
  - intros id a Ha. destruct (inv_seqAllocs v HI id a Ha) as (? & ? & ?).
    split_and!; [by apply known_id_mono|done|done].
Qed.

Lemma ext_tick v n : v_tick v ≤ n → ext v (v <| v_tick := n |>).
Proof. intros Hn. split_and!; cbn; eauto 10. Qed.

(** A sequence number is allocated. *)
Lemma Inv_bump v a z z' w :
  Inv v → v_alloc v !! a = Some z → (0 <= z')%Z → (w = false → v_wrapped v = false ∧ z <= z')%Z →
  Inv (v <| v_alloc := <[a := z']> (v_alloc v) |> <| v_wrapped := w |>).
Proof.
  intros HI Ha Hz Hw. split; cbn; inv_rest HI.
  - intros b y [[<- <-]|[Hne Hb]]%lookup_insert_Some; [|by apply (inv_alloc v HI b y)].
    destruct (inv_alloc v HI a z Ha). done.
  - intros p x Hx. apply lookup_insert_is_Some'. right. by apply (inv_sess_alloc v HI p x).
  - intros id b Hb. destruct (inv_seqAllocs v HI id b Hb) as (? & ? & ?). split_and!; try done.
    apply lookup_insert_is_Some'. by right.
  - intros Hwf sid. destruct (Hw Hwf) as [Hwf' Hle]. destruct (inv_hist v HI Hwf' sid) as (H1 & H2 & H3).
    split_and!; try done. intros p x y Hx Hid [[Heq <-]|[Hne Hy]]%lookup_insert_Some; [|by eapply H3].
    rewrite Heq in Ha. eapply Forall_impl; [by eapply H3|]. simpl. intros; lia.
Qed.

Lemma ext_bump v m w : (v_wrapped v = true → w = true) → ext v (v <| v_alloc := m |> <| v_wrapped := w |>).
Proof. intros Hw. split_and!; cbn; eauto 10. Qed.

Lemma hist_snoc tr o sid :
  hist (tr ++ [o]) sid =
  hist tr sid ++ match o with OPersist e => if bool_decide (en_SessionID e = sid) then [e] else [] | _ => [] end.
Proof.
  unfold hist. rewrite omap_app. f_equal. simpl. destruct o; try done. by case_bool_decide.
Qed.

Lemma hist_In tr sid e : e ∈ hist tr sid ↔ OPersist e ∈ tr ∧ en_SessionID e = sid.
Proof.
  unfold hist. rewrite list_elem_of_omap. split.
  - intros (o & Ho & He). destruct o; try done. case_bool_decide; simplify_eq. done.
  - intros [Ho <-]. exists (OPersist e). split; [done|]. by rewrite bool_decide_eq_true_2.
Qed.

(** An observation that is neither a terminal send nor a persist. *)
Lemma Inv_observe v o :
  Inv v → is_persist o = false →
  (∀ p env, o = OEnqueue p env → ∃ x, v_sess v !! p = Some x ∧ fit v (sc_principal x) env) →
  (∀ p env, o = OSend p env → is_terminal env = true →
     (∃ j c, v_job v !! j = Some c ∧ jc_id c = env_JobID env ∧ jc_terminal c = true) ∧
     (∀ p' env', OSend p' env' ∈ v_trace v → is_terminal env' = true → env_JobID env' = env_JobID env →
        env_ID env' = env_ID env ∧ env_Payload env' = env_Payload env ∧ env_Type env' = env_Type env)) →
  Inv (v <| v_trace := v_trace v ++ [o] |>).
Proof.
  intros HI Ho Henq Hsend.
  assert (∀ e, OPersist e ∈ v_trace v ++ [o] → OPersist e ∈ v_trace v) as Hpers.
  { intros e [He|He%list_elem_of_singleton]%elem_of_app; [done|]. by subst. }
  split; cbn; inv_rest HI.
  - intros sid e He. destruct (inv_log v HI sid e He). split; [|done]. apply elem_of_app. by left.
  - intros Hw sid. rewrite hist_snoc. destruct o; try done; rewrite app_nil_r; by apply (inv_hist v HI).
  - intros e He. by apply (inv_persist v HI), Hpers.
  - intros p env [He|He%list_elem_of_singleton]%elem_of_app; [by apply (inv_enqueue v HI)|].
    by apply Henq.
  - intros p env [He|He%list_elem_of_singleton]%elem_of_app Ht; [by eapply (inv_send v HI)|].
    by destruct (Hsend p env (eq_sym He) Ht) as [? _].
  - intros p env p' env' [H1|H1%list_elem_of_singleton]%elem_of_app [H2|H2%list_elem_of_singleton]%elem_of_app Ht Ht' Hid.
    + by eapply (inv_send_one v HI).
    + destruct (Hsend p' env' (eq_sym H2) Ht') as [_ Hu]. by apply (Hu p env).
    + destruct (Hsend p env (eq_sym H1) Ht) as [_ Hu]. destruct (Hu p' env' H2 Ht') as (? & ? & ?); [done|].
      split_and!; congruence.
    + by simplify_eq.
Qed.

Lemma ext_trace v tr : ext v (v <| v_trace := tr |>).
Proof. split_and!; cbn; eauto 10. Qed.

(** An entry is appended to the log. *)
Lemma Inv_append v t e :
  Inv v → persist_ok v (stamp t e) →
  (v_wrapped v = false →
     (0 < en_EventSeq e)%Z ∧
     (∀ e', e' ∈ hist (v_trace v) (en_SessionID e) → en_EventSeq e' < en_EventSeq e)%Z ∧
     (∀ p x z, v_sess v !! p = Some x → sc_id x = en_SessionID e → v_alloc v !! sc_seq x = Some z →
        en_EventSeq e <= z)%Z) →
  Inv (v <| v_log := Append (v_log v) t e |> <| v_trace := v_trace v ++ [OPersist (stamp t e)] |>).
Proof.
  intros HI Hok Hseq. split; cbn; inv_rest HI.
  - intros sid e' He. rewrite entries_of_Append in He. case_decide as Hsid.
    + assert (e' ∈ entries_of (v_log v) sid ++ [stamp t e]) as Hin.
      { cbv zeta in He. case_in He; [|done]. by eapply elem_of_drop_inv. }
      apply elem_of_app in Hin as [Hin|Hin%list_elem_of_singleton].
      * destruct (inv_log v HI sid e' Hin). split; [|done]. apply elem_of_app. by left.
      * subst e'. rewrite stamp_session. split; [|done]. apply elem_of_app. right. by left.
    + destruct (inv_log v HI sid e' He). split; [|done]. apply elem_of_app. by left.
  - intros Hw sid. destruct (Hseq Hw) as (Hpos & Hlt & Hle).
    destruct (inv_hist v HI Hw sid) as (Hsuf & Hsort & Hall).
    rewrite entries_of_Append, hist_snoc, stamp_session. case_decide as Hsid.
    + rewrite bool_decide_eq_true_2 by done. subst sid. split_and!.
      * assert (entries_of (v_log v) (en_SessionID e) ++ [stamp t e] `suffix_of` hist (v_trace v) (en_SessionID e) ++ [stamp t e]) as Hs
          by (destruct Hsuf as [k ->]; exists k; by rewrite app_assoc).
        cbv zeta. case_goal; [|done]. etrans; [apply drop_suffix|done].
      * apply StronglySorted_snoc; [done|]. apply Forall_forall. intros e' He. unfold seq_lt.
        rewrite stamp_seq. by apply Hlt.
      * intros p x z Hx Hid Hz. apply Forall_app. split; [by eapply Hall|].
        constructor; [|done]. rewrite stamp_seq. split; [done|]. by eapply Hle.
    + rewrite bool_decide_eq_false_2, app_nil_r by done. split_and!; done.
  - intros e' [He|He%list_elem_of_singleton]%elem_of_app; [by apply (inv_persist v HI)|]. simplify_eq. done.
  - intros p env [He|He%list_elem_of_singleton]%elem_of_app; [by apply (inv_enqueue v HI)|done].
  - intros p env [He|He%list_elem_of_singleton]%elem_of_app; [by apply (inv_send v HI p)|done].
  - intros p env p' env' [H1|H1%list_elem_of_singleton]%elem_of_app [H2|H2%list_elem_of_singleton]%elem_of_app; try done.
    by apply (inv_send_one v HI p env p' env').
Qed.

(** The log is trimmed. *)
Lemma filter_newer_suffix n l : StronglySorted seq_lt l → filter (newer n) l `suffix_of` l.
Proof. intros Hs. destruct (filter_newer_sorted n l Hs) as (k & -> & _). apply drop_suffix. Qed.

Lemma StronglySorted_suffix {A} (R : relation A) (l l' : list A) :
  l `suffix_of` l' → StronglySorted R l' → StronglySorted R l.
Proof. intros [k ->] Hs. by apply StronglySorted_app_1_r in Hs. Qed.

Lemma Inv_trim v sid n : Inv v → Inv (v <| v_log := Trim (v_log v) sid n |>).
Proof.
  intros HI. split; cbn; inv_rest HI.
  - intros sid' e He. rewrite entries_of_Trim in He. case_decide; [subst sid'|by apply (inv_log v HI)].
    apply list_elem_of_filter in He as [_ He]. by apply (inv_log v HI).
  - intros Hw sid'. destruct (inv_hist v HI Hw sid') as (Hsuf & Hsort & Hall). split_and!; try done.
    rewrite entries_of_Trim. case_decide; [subst sid'|done].
    etrans; [|done]. apply filter_newer_suffix. by eapply StronglySorted_suffix.
Qed.

Lemma ext_log v m tr : ext v (v <| v_log := m |> <| v_trace := tr |>).
Proof. split_and!; cbn; eauto 10. Qed.

Lemma persist_ok_ext v w e : ext v w → persist_ok v e → persist_ok w e.
Proof.
  intros He (H1 & H2 & H3 & p & x & Hx & Hid & Hj). split; [done|]. split; [done|]. split; [done|].
  pose proof He as (_ & Hs & _). destruct (Hs p x Hx) as (y & Hy & Hyid & Hyp & _).
  exists p, y. split_and!; [done|congruence|]. rewrite Hyp. by eapply job_of_ext.
Qed.

(** The fields about the trace and the subscriptions only need [ext]. *)
Lemma Inv_via_ext v w :
  Inv v → ext v w →
  v_hsub w = v_hsub v → v_trace w = v_trace v →
  (∀ q p id, v_hsub w !! q = Some (p, id) →
     q < v_tick w ∧ ∃ x, v_sess w !! p = Some x ∧ job_of w (sc_principal x) id) ∧
  (∀ e, OPersist e ∈ v_trace w → persist_ok w e) ∧
  (∀ p env, OEnqueue p env ∈ v_trace w → ∃ x, v_sess w !! p = Some x ∧ fit w (sc_principal x) env) ∧
  (∀ p env, OSend p env ∈ v_trace w → is_terminal env = true →
     ∃ j c, v_job w !! j = Some c ∧ jc_id c = env_JobID env ∧ jc_terminal c = true) ∧
  (v_current w = v_current v →
     ∀ id p, v_current w !! id = Some p → ∃ x, v_sess w !! p = Some x ∧ sc_id x = id).
Proof.
  intros HI He Hh Ht. rewrite Hh, Ht. pose proof He as (Htick & Hs & Hj & _). split_and!.
  - intros q p id Hq. destruct (inv_hsub v HI q p id Hq) as (? & x & Hx & Hjob). split; [lia|].
    destruct (Hs p x Hx) as (y & Hy & _ & Hp & _). exists y. split; [done|]. rewrite Hp. by eapply job_of_ext.
  - intros e Hin. eapply persist_ok_ext; [done|]. by apply (inv_persist v HI).
  - intros p env Hin. destruct (inv_enqueue v HI p env Hin) as (x & Hx & Hf).
    destruct (Hs p x Hx) as (y & Hy & _ & Hp & _). exists y. split; [done|]. rewrite Hp. by eapply fit_ext.
  - intros p env Hin Hterm. destruct (inv_send v HI p env Hin Hterm) as (j & c & Hc & Hid & Htm).
    destruct (Hj j c Hc) as (d & Hd & Hdid & _ & _ & Hdt). exists j, d. split_and!; [done|congruence|auto].
  - intros Hcur id p Hp. rewrite Hcur in Hp. destruct (inv_current v HI id p Hp) as (x & Hx & Hid).
    destruct (Hs p x Hx) as (y & Hy & Hyid & _). exists y. split; [done|congruence].
Qed.

(** A job changes, keeping its identity. *)
Lemma ext_job_update v j c d :
  v_job v !! j = Some c → jc_id d = jc_id c → jc_principal d = jc_principal c → jc_session d = jc_session c →
  (jc_terminal c = true → jc_terminal d = true) →
  ext v (v <| v_job := <[j := d]> (v_job v) |>).
Proof.
  intros Hc H1 H2 H3 H4. split_and!; cbn; eauto 10. intros k e He. rewrite lookup_insert.
  case_decide as Hk; [|by eauto 10]. subst k. exists d. simplify_eq. split_and!; auto.
Qed.

Lemma Inv_job_update v j c d :
  Inv v → v_job v !! j = Some c → jc_id d = jc_id c → jc_principal d = jc_principal c →
  jc_session d = jc_session c → (jc_terminal c = true → jc_terminal d = true) →
  Inv (v <| v_job := <[j := d]> (v_job v) |>).
Proof.
  intros HI Hc H1 H2 H3 H4.
  destruct (Inv_via_ext v (v <| v_job := <[j := d]> (v_job v) |>) HI) as (E1 & E2 & E3 & E4 & E5);
    [by eapply ext_job_update|done|done|].
  split; cbn; inv_rest HI; try assumption; try exact (E5 eq_refl).
  - intros k e [[<- <-]|[Hne He]]%lookup_insert_Some; [|by apply (inv_job v HI k e)].
    destruct (inv_job v HI j c Hc) as (? & ? & x & ? & ?). split_and!; [done|congruence|].
    exists x. split; congruence.
  - intros id k Hk. destruct (inv_jobs v HI id k Hk) as (e & He & Hid). rewrite lookup_insert.
    case_decide; [|by eauto]. subst k. exists d. simplify_eq. split; [done|congruence].
Qed.

(** A new job. *)
Lemma ext_new_job v j d : v_job v !! j = None → ext v (v <| v_job := <[j := d]> (v_job v) |>).
Proof.
  intros Hj. split_and!; cbn; eauto 10. intros k e He. rewrite lookup_insert.
  case_decide as Hk; [|by eauto 10]. subst k. congruence.
Qed.

Lemma Inv_new_job v j p x :
  Inv v → v_job v !! j = None → j < v_tick v → v_sess v !! p = Some x →
  Inv (v <| v_job := <[j := mkJcore (NewJobID j) (sc_principal x) p false]> (v_job v) |>).
Proof.
  intros HI Hj Hlt Hx. set (d := mkJcore _ _ _ _).
  destruct (Inv_via_ext v (v <| v_job := <[j := d]> (v_job v) |>) HI) as (E1 & E2 & E3 & E4 & E5);
    [by apply ext_new_job|done|done|].
  split; cbn; inv_rest HI; try assumption; try exact (E5 eq_refl).
  - intros k e [[<- <-]|[Hne He]]%lookup_insert_Some; [|by apply (inv_job v HI k e)].
    split_and!; [done|done|]. by exists x.
  - intros id k Hk. destruct (inv_jobs v HI id k Hk) as (e & He & Hid). exists e. split; [|done].
    rewrite lookup_insert_ne; [done|]. intros ->. congruence.
Qed.

(** The registries. *)
Lemma Inv_jobs v m :
  Inv v → (∀ id j, m !! id = Some j → v_jobs v !! id = Some j ∨ ∃ c, v_job v !! j = Some c ∧ jc_id c = id) →
  Inv (v <| v_jobs := m |>).
Proof.
  intros HI Hm. split; cbn; inv_rest HI.
  intros id j Hj. destruct (Hm id j Hj) as [H|H]; [by apply (inv_jobs v HI)|done].
Qed.

Lemma Inv_subs v m :
  Inv v → (∀ id l q, m !! id = Some l → q ∈ l →
     (∃ l', v_subs v !! id = Some l' ∧ q ∈ l') ∨ ∃ p, v_hsub v !! q = Some (p, id)) →
  Inv (v <| v_subs := m |>).
Proof.
  intros HI Hm. split; cbn; inv_rest HI.
  intros id l q Hl Hq. destruct (Hm id l q Hl Hq) as [(l' & ? & ?)|H]; [|done]. by eapply (inv_subs v HI).
Qed.

Lemma Inv_new_sub v q p x id :
  Inv v → v_hsub v !! q = None → q < v_tick v → v_sess v !! p = Some x → job_of v (sc_principal x) id →
  Inv (v <| v_hsub := <[q := (p, id)]> (v_hsub v) |>).
Proof.
  intros HI Hq Hlt Hx Hj. split; cbn; inv_rest HI.
  - intros q' p' id' [[<- Heq]|[Hne H]]%lookup_insert_Some; [|by apply (inv_hsub v HI q')].
    simplify_eq. split; [done|]. by exists x.
  - intros id' l q' Hl Hin. destruct (inv_subs v HI id' l q' Hl Hin) as (p' & Hp').
    exists p'. rewrite lookup_insert_ne; [done|]. intros ->. congruence.
Qed.

Lemma ext_registry v m1 m2 : ext v (v <| v_jobs := m1 |> <| v_subs := m2 |>).
Proof. split_and!; cbn; eauto 10. Qed.

Lemma ext_new_sub v q z : v_hsub v !! q = None → ext v (v <| v_hsub := <[q := z]> (v_hsub v) |>).
Proof.
  intros Hq. split_and!; cbn; eauto 10. intros q' z' Hz'. rewrite lookup_insert_ne; [done|]. intros ->. congruence.
Qed.

(** A session moves to another point of [Accept]. *)
Definition with_pc (x : score) (pc : session_pc) : score := mkScore (sc_id x) (sc_principal x) (sc_seq x) pc.

Lemma ext_pc v p x pc : v_sess v !! p = Some x → ext v (v <| v_sess := <[p := with_pc x pc]> (v_sess v) |>).
Proof.
  intros Hx. split_and!; cbn; eauto 10. intros q y Hy. rewrite lookup_insert.
  case_decide; [|by eauto 10]. subst q. exists (with_pc x pc). by simplify_eq.
Qed.

(** Looking up in the updated map, up to the program point. *)
Lemma with_pc_lookup (m : gmap nat score) p x pc q y :
  m !! p = Some x → <[p := with_pc x pc]> m !! q = Some y →
  ∃ z, m !! q = Some z ∧ sc_id y = sc_id z ∧ sc_principal y = sc_principal z ∧ sc_seq y = sc_seq z ∧
       sc_pc y = (if decide (p = q) then pc else sc_pc z).
Proof.
  intros Hx [[<- <-]|[Hne Hy]]%lookup_insert_Some.
  - exists x. by rewrite decide_True.
  - exists y. by rewrite decide_False.
Qed.

Lemma Inv_pc v p x pc :
  Inv v → v_sess v !! p = Some x → (pc ≠ SDone → sc_pc x ≠ SDone) →
  Inv (v <| v_sess := <[p := with_pc x pc]> (v_sess v) |>).
Proof.
  intros HI Hx Hpc.
  destruct (Inv_via_ext v (v <| v_sess := <[p := with_pc x pc]> (v_sess v) |>) HI) as (E1 & E2 & E3 & E4 & E5);
    [by apply ext_pc|done|done|].
  split; cbn; inv_rest HI; try assumption; try exact (E5 eq_refl).
  - intros q y Hy. destruct (with_pc_lookup _ _ _ _ _ _ Hx Hy) as (z & Hz & -> & _). by apply (inv_sess_lt v HI).
  - intros j c Hc. destruct (inv_job v HI j c Hc) as (? & ? & y & Hy & ?). split_and!; try done.
    rewrite lookup_insert. case_decide as Heq; [|by eauto]. rewrite <-Heq in Hy. simplify_eq. eexists. split; [done|]. done.
  - intros q r y y' Hy Hy' Hid. destruct (with_pc_lookup _ _ _ _ _ _ Hx Hy) as (z & Hz & ? & -> & -> & _).
    destruct (with_pc_lookup _ _ _ _ _ _ Hx Hy') as (z' & Hz' & ? & -> & -> & _).
    eapply (inv_same v HI); [done|done|congruence].
  - intros q y Hy. destruct (with_pc_lookup _ _ _ _ _ _ Hx Hy) as (z & Hz & _ & _ & -> & _).
    by apply (inv_sess_alloc v HI q).
  - intros id a Ha. destruct (inv_seqAllocs v HI id a Ha) as (? & ? & Hall). split_and!; try done.
    intros q y Hy Hid. destruct (with_pc_lookup _ _ _ _ _ _ Hx Hy) as (z & Hz & ? & _ & -> & _).
    eapply Hall; [done|congruence].
  - intros id r Hr. destruct (inv_resumes v HI id r Hr) as (? & ? & (q & y & Hy & ? & ?) & Hdone).
    split_and!; try done.
    + exists q. rewrite lookup_insert. case_decide as Heq; [|by eauto]. rewrite <-Heq in Hy. simplify_eq. eexists. by split.
    + intros q' y' Hy' Hid. destruct (with_pc_lookup _ _ _ _ _ _ Hx Hy') as (z & Hz & Hzid & _ & _ & ->).
      case_decide as Heq; [|by apply (Hdone q' z); [|congruence]]. subst q'. simplify_eq.
      destruct (decide (pc = SDone)); [done|]. exfalso. apply Hpc; [done|]. apply (Hdone p x); [done|congruence].
  - intros q y Hy Hlive. destruct (with_pc_lookup _ _ _ _ _ _ Hx Hy) as (z & Hz & Hzid & _ & _ & Hzpc).
    assert (sc_pc z ≠ SDone) as Hzl.
    { rewrite Hzpc in Hlive. case_decide as Heq; [|done]. subst q. simplify_eq. auto. }
    destruct (inv_live v HI q z Hz Hzl) as [? Huniq]. rewrite Hzid. split; [done|].
    intros q' y' Hy' Hid Hlive'. destruct (with_pc_lookup _ _ _ _ _ _ Hx Hy') as (z' & Hz' & Hz'id & _ & _ & Hz'pc).
    apply (Huniq q' z'); [done|congruence|]. rewrite Hz'pc in Hlive'. case_decide as Heq; [|done].
    subst q'. simplify_eq. auto.
  - intros Hw sid. destruct (inv_hist v HI Hw sid) as (? & ? & Hall). split_and!; try done.
    intros q y z' Hy Hid Hz'. destruct (with_pc_lookup _ _ _ _ _ _ Hx Hy) as (z & Hz & Hzid & _ & Hseq & _).
    eapply (Hall q z); [done|congruence|]. by rewrite <-Hseq.
Qed.

(** A new session of a known id that has no live session. *)
Lemma ext_new_sess v p x : v_sess v !! p = None → ext v (v <| v_sess := <[p := x]> (v_sess v) |>).
Proof.
  intros Hp. split_and!; cbn; eauto 10. intros q y Hy. rewrite lookup_insert.
  case_decide; [|by eauto 10]. subst q. congruence.
Qed.

Lemma Inv_new_sess v p x :
  Inv v → v_sess v !! p = None → p < v_tick v →
  v_seqAllocs v !! sc_id x = Some (sc_seq x) → v_resumes v !! sc_id x = None →
  (∀ q y, v_sess v !! q = Some y → sc_id y = sc_id x → sc_pc y = SDone ∧ sc_principal y = sc_principal x) →
  Inv (v <| v_sess := <[p := x]> (v_sess v) |>).
Proof.
  intros HI Hp Hlt Ha Hr Hold. destruct (inv_seqAllocs v HI _ _ Ha) as (Hknown & Halloc & Hseq).
  destruct (Inv_via_ext v (v <| v_sess := <[p := x]> (v_sess v) |>) HI) as (E1 & E2 & E3 & E4 & E5);
    [by apply ext_new_sess|done|done|].
  assert (∀ q y, v_sess v !! q = Some y → <[p:=x]> (v_sess v) !! q = Some y) as Hkeep.
  { intros q y Hy. rewrite lookup_insert_ne; [done|]. intros ->. congruence. }
  split; cbn; inv_rest HI; try assumption; try exact (E5 eq_refl).
  - intros q y [[<- <-]|[Hne Hy]]%lookup_insert_Some; [done|by apply (inv_sess_lt v HI)].
  - intros j c Hc. destruct (inv_job v HI j c Hc) as (? & ? & y & ? & ?). split_and!; eauto.
  - intros q r y z [[<- <-]|[Hne Hy]]%lookup_insert_Some [[<- <-]|[Hne' Hz]]%lookup_insert_Some Hid; try done.
    + destruct (Hold r z Hz) as [_ ?]; [congruence|]. split; [congruence|]. symmetry. by eapply Hseq.
    + destruct (Hold q y Hy) as [_ ?]; [congruence|]. split; [congruence|]. by eapply Hseq.
    + by eapply (inv_same v HI q r).
  - intros q y [[<- <-]|[Hne Hy]]%lookup_insert_Some; [done|by apply (inv_sess_alloc v HI q)].
  - intros id a Hida. destruct (inv_seqAllocs v HI id a Hida) as (? & ? & Hall). split_and!; try done.
    intros q y [[<- <-]|[Hne Hy]]%lookup_insert_Some Hid; [congruence|by eapply Hall].
  - intros id r Hidr. destruct (inv_resumes v HI id r Hidr) as (? & ? & (q & y & Hy & ? & ?) & Hdone).
    split_and!; [done|done|by exists q, y; auto|].
    intros q' y' [[<- <-]|[Hne Hy']]%lookup_insert_Some Hid; [congruence|by eapply Hdone].
  - intros q y [[<- <-]|[Hne Hy]]%lookup_insert_Some Hlive.
    + split; [by eauto|]. intros q' y' [[<- <-]|[Hne' Hy']]%lookup_insert_Some Hid Hl; [done|].
      destruct (Hold q' y' Hy' Hid). done.
    + destruct (inv_live v HI q y Hy Hlive) as [? Huniq]. split; [done|].
      intros q' y' [[<- <-]|[Hne' Hy']]%lookup_insert_Some Hid Hl; [|by eapply Huniq].
      destruct (Hold q y Hy); [congruence|]. done.
  - intros Hw sid. destruct (inv_hist v HI Hw sid) as (? & ? & Hall). split_and!; try done.
    intros q y z [[<- <-]|[Hne Hy]]%lookup_insert_Some Hid Hz; [|by eapply Hall].
    apply Forall_forall. intros e He. apply hist_In in He as He'. destruct He' as [Hin Hsid].
    destruct (inv_persist v HI e Hin) as (_ & _ & _ & q & y & Hy & Hyid & _).
    assert (sc_seq y = sc_seq x) as Hys by (eapply Hseq; [done|congruence]).
    assert (Forall (λ e, 0 < en_EventSeq e <= z)%Z (hist (v_trace v) sid)) as Hf.
    { eapply (Hall q y); [done|congruence|by rewrite Hys]. }
    rewrite Forall_forall in Hf. by apply Hf.
Qed.

(** The allocator of an id that no session has yet. *)
Lemma Inv_new_alloc v a id :
  Inv v → v_alloc v !! a = None → a < v_tick v → known_id v id → v_seqAllocs v !! id = None →
  (∀ p x, v_sess v !! p = Some x → sc_id x ≠ id) →
  Inv (v <| v_alloc := <[a := 0%Z]> (v_alloc v) |> <| v_seqAllocs := <[id := a]> (v_seqAllocs v) |>).
Proof.
  intros HI Ha Hlt Hk Hid Hno.
  assert (∀ b, is_Some (v_alloc v !! b) → is_Some (<[a := 0%Z]> (v_alloc v) !! b)) as Hmono.
  { intros b Hb. apply lookup_insert_is_Some'. by right. }
  split; cbn; inv_rest HI.
  - intros b z [[<- <-]|[Hne Hb]]%lookup_insert_Some; [done|by apply (inv_alloc v HI)].
  - intros p x Hx. by apply Hmono, (inv_sess_alloc v HI p).
  - intros id' b [[<- <-]|[Hne Hb]]%lookup_insert_Some.
    + split_and!; [done|by rewrite lookup_insert_eq; eauto|]. intros p x Hx Hidx. by destruct (Hno p x Hx).
    + destruct (inv_seqAllocs v HI id' b Hb) as (? & ? & ?). split_and!; auto.
  - intros id' r Hr. destruct (inv_resumes v HI id' r Hr) as (? & Hs & ? & ?). split_and!; try done.
    apply lookup_insert_is_Some'. by right.
  - intros p x Hx Hl. destruct (inv_live v HI p x Hx Hl). split; [|done].
    apply lookup_insert_is_Some'. by right.
  - intros Hw sid. destruct (inv_hist v HI Hw sid) as (? & ? & Hall). split_and!; try done.
    intros p x z Hx Hidx [[Heq <-]|[Hne Hz]]%lookup_insert_Some; [|by eapply Hall].
    destruct (inv_sess_alloc v HI p x Hx). congruence.
Qed.

(** Resume entries. *)
Lemma Inv_delete_resume v id : Inv v → Inv (v <| v_resumes := delete id (v_resumes v) |>).
Proof.
  intros HI. split; cbn; inv_rest HI.
  intros id' r [_ Hr]%lookup_delete_Some. by apply (inv_resumes v HI).
Qed.

Lemma Inv_drop_alloc v id :
  Inv v → v_resumes v !! id = None → (∀ p x, v_sess v !! p = Some x → sc_id x = id → sc_pc x = SDone) →
  Inv (v <| v_seqAllocs := delete id (v_seqAllocs v) |>).
Proof.
  intros HI Hr Hdone. split; cbn; inv_rest HI.
  - intros id' a [_ Ha]%lookup_delete_Some. by apply (inv_seqAllocs v HI).
  - intros id' r Hidr. destruct (inv_resumes v HI id' r Hidr) as (? & ? & ? & ?). split_and!; try done.
    rewrite lookup_delete_ne; [done|]. intros ->. congruence.
  - intros p x Hx Hl. destruct (inv_live v HI p x Hx Hl). split; [|done].
    rewrite lookup_delete_ne; [done|]. intros ->. by destruct Hl; eapply Hdone.
Qed.

Lemma Inv_stash v p x :
  Inv v → v_sess v !! p = Some x → sc_pc x = SDone → is_Some (v_seqAllocs v !! sc_id x) →
  (∀ q y, v_sess v !! q = Some y → sc_id y = sc_id x → sc_pc y = SDone) →
  Inv (v <| v_resumes := <[sc_id x := (sc_id x, sc_principal x)]> (v_resumes v) |>).
Proof.
  intros HI Hx Hpc Ha Hdone. split; cbn; inv_rest HI.
  intros id r [[<- <-]|[Hne Hr]]%lookup_insert_Some; [|by apply (inv_resumes v HI)].
  split_and!; [done|done|by exists p, x|done].
Qed.

Lemma Inv_resumes_empty v : Inv v → Inv (v <| v_resumes := ∅ |>).
Proof. intros HI. split; cbn; inv_rest HI. intros id r Hr. by rewrite lookup_empty in Hr. Qed.

Lemma Inv_current v m :
  Inv v → (∀ id p, m !! id = Some p →
     v_current v !! id = Some p ∨ ∃ x, v_sess v !! p = Some x ∧ sc_id x = id) →
  Inv (v <| v_current := m |>).
Proof.
  intros HI Hm. split; cbn; inv_rest HI.
  intros id p Hp. destruct (Hm id p Hp) as [H|H]; [by apply (inv_current v HI)|done].
Qed.

Lemma ext_tables v m1 m2 m3 :
  ext v (v <| v_resumes := m1 |> <| v_seqAllocs := m2 |> <| v_current := m3 |>).
Proof. split_and!; cbn; eauto 10. Qed.

End invariant.
