(* ===== verification/Preservation.v ===== *)
(** * Delivery preserves the invariant

    A small program logic for the server monad ([good]) and the lemmas about
    sequence allocation, persistence, the outbox, [send] and the fan-out. *)

From S2P Require Import Prelude GoStrings Errors Features Float64 Lease Canonical LeaseState Messages EventLog IdStore Agents ServerState Delivery Stream Job ListJobs Session Runtime Invariant.
From Stdlib Require Import ZArith Lia.

Arguments mret : simpl never.
Arguments mbind : simpl never.

Section logic.
Context {RT : Runtime}.

(** From [s], the computation keeps the invariant, only grows the view, and
    ends with [Q]. *)
Definition good {A} (s : Server) (m : M A) (Q : A → Server → Prop) : Prop :=
  Inv (view_of s) →
  Inv (view_of (m s).2) ∧ ext (view_of s) (view_of (m s).2) ∧ Q (m s).1 (m s).2.

Lemma good_ret {A} s (a : A) (Q : A → Server → Prop) : Q a s → good s (mret a) Q.
Proof. intros HQ HI. by split_and!. Qed.

Lemma good_bind {A B} s (m : M A) (k : A → M B) Q :
  good s m (λ a s', ext (view_of s) (view_of s') → good s' (k a) Q) → good s (m ≫= k) Q.
Proof.
  intros Hm HI. destruct (Hm HI) as (HI' & He & Hk).
  unfold mbind, M_bind. destruct (m s) as [a s'] eqn:Hms. simpl in *.
  destruct (Hk He HI') as (HI'' & He' & HQ). split_and!; [done|by etrans|done].
Qed.

Lemma good_mono {A} s (m : M A) (Q Q' : A → Server → Prop) :
  good s m Q → (∀ a s', ext (view_of s) (view_of s') → Q a s' → Q' a s') → good s m Q'.
Proof. intros Hm HQ HI. destruct (Hm HI) as (? & ? & ?). split_and!; auto. Qed.

Lemma good_gets {A} s (f : Server → A) (Q : A → Server → Prop) : Q (f s) s → good s (gets f) Q.
Proof. intros HQ HI. by split_and!. Qed.

Lemma good_gets_bind {A B} s (f : Server → A) (k : A → M B) Q :
  good s (k (f s)) Q → good s (gets f ≫= k) Q.
Proof. intros HQ. apply good_bind, good_gets. done. Qed.

Lemma good_when s (b : bool) m (Q : () → Server → Prop) :
  (b = true → good s m Q) → (b = false → Q () s) → good s (when b m) Q.
Proof. destruct b; simpl; intros H1 H2; [by apply H1|by apply good_ret, H2]. Qed.

(** Changes that touch nothing but the clock of the run. *)
Definition calm (v w : view) : Prop := v_tick v ≤ v_tick w ∧ w = v <| v_tick := v_tick w |>.

Lemma calm_refl v : calm v v.
Proof. split; [done|]. by destruct v. Qed.

Lemma calm_trans u v w : calm u v → calm v w → calm u w.
Proof. intros [H1 ->] [H2 ->]. cbn in *. split; [cbn; lia|done]. Qed.

Lemma calm_eq s s' : view_of s' = view_of s → calm (view_of s) (view_of s').
Proof. intros ->. apply calm_refl. Qed.

Lemma good_calm {A} s (m : M A) (Q : A → Server → Prop) :
  calm (view_of s) (view_of (m s).2) → Q (m s).1 (m s).2 → good s m Q.
Proof.
  intros [Ht Hv] HQ HI. rewrite Hv. split_and!; [by apply Inv_tick|by apply ext_tick|done].
Qed.

(** No new envelope is handed to [send], and no session moves. *)
Definition quiet (v w : view) : Prop :=
  (∀ p e, OSend p e ∈ v_trace w → OSend p e ∈ v_trace v) ∧ v_sess w = v_sess v.

Lemma quiet_refl v : quiet v v.
Proof. by split. Qed.

Lemma calm_quiet v w : calm v w → quiet v w.
Proof. by intros [_ ->]. Qed.

Lemma quiet_trans u v w : quiet u v → quiet v w → quiet u w.
Proof. intros [H1 E1] [H2 E2]. split; [|congruence]. intros p e H. by apply H1, H2. Qed.

(** ** Facts and their stability *)

Lemma sess_view s p x : hsess s !! p = Some x → v_sess (view_of s) !! p = Some (score_of x) ∧ sess s p = x.
Proof. intros Hx. cbn. rewrite lookup_fmap, Hx. unfold sess. by rewrite Hx. Qed.

Lemma is_sess_inv s p id pr :
  is_sess (view_of s) p id pr →
  ∃ x, hsess s !! p = Some x ∧ sess s p = x ∧ s_id x = id ∧ s_principal x = pr.
Proof.
  intros (c & Hc & <- & <-). cbn in Hc. rewrite lookup_fmap in Hc.
  destruct (hsess s !! p) as [x|] eqn:Hx; simplify_eq/=. exists x. unfold sess. by rewrite Hx.
Qed.

Lemma is_job_inv s j id pr p :
  is_job (view_of s) j id pr p →
  ∃ y, hjob s !! j = Some y ∧ job s j = y ∧ j_id y = id ∧ j_principal y = pr ∧ j_session y = p.
Proof.
  intros (c & Hc & <- & <- & <-). cbn in Hc. rewrite lookup_fmap in Hc.
  destruct (hjob s !! j) as [y|] eqn:Hy; simplify_eq/=. exists y. unfold job. by rewrite Hy.
Qed.

(** [n] may be persisted next for the session [p]: it is above everything
    persisted for its id and not above the id's counter. *)
Definition ready (v : view) (p : nat) (n : Z) : Prop :=
  ∀ x, v_sess v !! p = Some x → v_wrapped v = false →
    (0 < n)%Z ∧ (∀ e, e ∈ hist (v_trace v) (sc_id x) → en_EventSeq e < n)%Z ∧
    (∀ q y z, v_sess v !! q = Some y → sc_id y = sc_id x → v_alloc v !! sc_seq y = Some z → n <= z)%Z.

Lemma ready_calm v w p n : calm v w → ready v p n → ready w p n.
Proof. intros [_ ->] H. exact H. Qed.

(** A terminal envelope of a terminal job that repeats no other event. *)
Definition same_event (e f : Envelope) : Prop :=
  env_ID f = env_ID e ∧ env_Payload f = env_Payload e ∧ env_Type f = env_Type e.

Definition term_ok (v : view) (env : Envelope) : Prop :=
  is_terminal env = true →
  (∃ j c, v_job v !! j = Some c ∧ jc_id c = env_JobID env ∧ jc_terminal c = true) ∧
  (∀ p e, OSend p e ∈ v_trace v → is_terminal e = true → env_JobID e = env_JobID env → same_event env e).

Lemma term_ok_quiet v w env : ext v w → quiet v w → term_ok v env → term_ok w env.
Proof.
  intros (_ & _ & Hj & _) Hq Ht Hterm. destruct (Ht Hterm) as [(j & c & Hc & Hid & Htm) Hu]. split.
  - destruct (Hj j c Hc) as (d & Hd & ? & _ & _ & ?). exists j, d. split_and!; [done|congruence|auto].
  - intros p e He. by eapply Hu, Hq.
Qed.

(** ** Ticks *)

Lemma calm_tick s : calm (view_of s) (view_of (s <| tick := S (tick s) |>)).
Proof. split; [cbn; lia|done]. Qed.

Lemma fresh_good s (Q : nat → Server → Prop) :
  (∀ s', calm (view_of s) (view_of s') → tick s < tick s' → s' = s <| tick := S (tick s) |> → Q (tick s) s') →
  good s fresh Q.
Proof. intros HQ. apply good_calm; [apply calm_tick|]. apply HQ; [apply calm_tick|cbn; lia|done]. Qed.

(** Updates of a session or a job outside the view. *)
Lemma view_set_sess s p x f :
  hsess s !! p = Some x → score_of (f x) = score_of x →
  view_of (s <| hsess := <[p := f (sess s p)]> (hsess s) |>) = view_of s.
Proof.
  intros Hx Hf. unfold view_of. cbn. f_equal. rewrite fmap_insert. apply insert_id.
  rewrite lookup_fmap, Hx. unfold sess. rewrite Hx. cbn. by rewrite Hf.
Qed.

Lemma view_set_job s j y f :
  hjob s !! j = Some y → jcore_of (f y) = jcore_of y →
  view_of (s <| hjob := <[j := f (job s j)]> (hjob s) |>) = view_of s.
Proof.
  intros Hy Hf. unfold view_of. cbn. f_equal. rewrite fmap_insert. apply insert_id.
  rewrite lookup_fmap, Hy. unfold job. rewrite Hy. cbn. by rewrite Hf.
Qed.

Lemma view_alter_sess s p f :
  (∀ x, score_of (f x) = score_of x) → view_of (s <| hsess := alter f p (hsess s) |>) = view_of s.
Proof.
  intros Hf. unfold view_of. cbn. f_equal. apply map_eq. intros q. rewrite !lookup_fmap, lookup_alter.
  case_decide; [|done]. subst q. destruct (hsess s !! p); simpl; [|done]. by rewrite Hf.
Qed.

Lemma set_sess_calm_good s p f (Q : () → Server → Prop) :
  (∀ x, score_of (f x) = score_of x) →
  (∀ s', calm (view_of s) (view_of s') → Q () s') → good s (set_sess p f) Q.
Proof.
  intros Hf HQ. assert (view_of (set_sess p f s).2 = view_of s) as Hv by by apply view_alter_sess.
  apply good_calm; [by apply calm_eq|]. by apply HQ, calm_eq.
Qed.

Lemma set_sess_good s p id pr f (Q : () → Server → Prop) :
  is_sess (view_of s) p id pr → (∀ x, score_of (f x) = score_of x) →
  (∀ s', calm (view_of s) (view_of s') → Q () s') → good s (set_sess p f) Q.
Proof. intros _. apply set_sess_calm_good. Qed.

Lemma set_job_good s j id pr p f (Q : () → Server → Prop) :
  is_job (view_of s) j id pr p → (∀ y, jcore_of (f y) = jcore_of y) →
  (∀ s', calm (view_of s) (view_of s') → Q () s') → good s (set_job_ j f) Q.
Proof.
  intros Hp Hf HQ. destruct (is_job_inv _ _ _ _ _ Hp) as (x & Hx & _).
  assert (view_of (set_job_ j f s).2 = view_of s) as Hv by (eapply view_set_job; eauto).
  apply good_calm; [by apply calm_eq|]. by apply HQ, calm_eq.
Qed.

(** Envelopes and transports. *)
Lemma new_envelope_good s typ p (Q : res Envelope → Server → Prop) :
  (∀ s', calm (view_of s) (view_of s') →
     (∀ env, NewEnvelope (NewEnvelopeID (tick s)) typ p = Ok env → Q (Ok env) s') ∧ (∀ e, Q (Err e) s')) →
  good s (new_envelope typ p) Q.
Proof.
  intros HQ. apply good_bind, fresh_good. intros s' Hc _ _ _. apply good_ret.
  destruct (HQ s' Hc) as [H1 H2]. destruct (NewEnvelope _ typ p) as [env|e] eqn:He; auto.
Qed.

Lemma transport_send_good s t env (Q : option error → Server → Prop) :
  (∀ r s', calm (view_of s) (view_of s') → Q r s') → good s (transport_send t env) Q.
Proof.
  intros HQ. apply good_bind, fresh_good. intros s' Hc _ _ _. apply good_gets_bind.
  destruct (bool_decide _); [by apply good_ret, HQ|].
  destruct (send_err (tick s)); [by apply good_ret, HQ|].
  apply good_bind, good_calm; [by apply calm_eq|]. intros _. apply good_ret, HQ.
  eapply calm_trans; [done|]. by apply calm_eq.
Qed.

Lemma transport_close_good s t (Q : () → Server → Prop) :
  (∀ s', calm (view_of s) (view_of s') → Q () s') → good s (transport_close t) Q.
Proof. intros HQ. apply good_calm; [by apply calm_eq|]. by apply HQ, calm_eq. Qed.

Lemma is_sess_calm v w p id pr : calm v w → is_sess v p id pr → is_sess w p id pr.
Proof. by intros [_ ->]. Qed.
Lemma is_job_calm v w j id pr p : calm v w → is_job v j id pr p → is_job w j id pr p.
Proof. by intros [_ ->]. Qed.
Lemma fit_calm v w pr env : calm v w → fit v pr env → fit w pr env.
Proof. by intros [_ ->]. Qed.

(** ** Sequence numbers *)

Lemma nextSeq_good s p id pr (Q : Z → Server → Prop) :
  is_sess (view_of s) p id pr →
  (∀ n s', ext (view_of s) (view_of s') → quiet (view_of s) (view_of s') → ready (view_of s') p n → Q n s') →
  good s (nextSeq p) Q.
Proof.
  intros Hp HQ HI. destruct (is_sess_inv _ _ _ _ Hp) as (x & Hx & Hsx & Hid & _).
  destruct (sess_view s p x Hx) as [Hv _].
  destruct (inv_sess_alloc _ HI p _ Hv) as [z Hz]. cbn in Hz.
  unfold nextSeq, next. unfold gets, modify, mbind, M_bind, mret, M_ret. cbn. rewrite Hsx.
  assert (alloc s (s_seq x) = z) as -> by (unfold alloc; by rewrite Hz).
  set (z' := wrap_u64 (z + 1)). set (w := wrapped s || (z' <=? z)%Z).
  pose proof (wrap_u64_range (z + 1)) as Hr. unfold in_u64 in Hr. fold z' in Hr.
  assert (w = false → wrapped s = false ∧ (z < z')%Z) as Hw.
  { unfold w. intros [-> H]%orb_false_iff. split; [done|]. by apply Z.leb_gt. }
  set (s' := s <| halloc := <[s_seq x := z']> (halloc s) |> <| wrapped := w |>).
  change (Inv (view_of s') ∧ ext (view_of s) (view_of s') ∧ Q z' s').
  assert (ext (view_of s) (view_of s')) as He.
  { apply ext_bump. cbn. unfold w. intros ->. done. }
  split_and!; [|done|].
  - apply (Inv_bump (view_of s) (s_seq x) z z' w); [done|done|lia|]. intros Hf. destruct (Hw Hf). split; [done|lia].
  - apply HQ; [done|by split|]. intros y Hy Hwf. change (v_sess (view_of s) !! p = Some y) in Hy.
    rewrite Hv in Hy. injection Hy as <-.
    destruct (Hw Hwf) as [Hwf' Hlt]. destruct (inv_hist _ HI Hwf' (s_id x)) as (_ & _ & Hall).
    pose proof (Hall p (score_of x) z Hv eq_refl Hz) as Hf. rewrite Forall_forall in Hf.
    destruct (inv_alloc _ HI _ _ Hz) as [_ Hz0]. split_and!; [lia| |].
    + intros e Hin. specialize (Hf e Hin). cbn in *. lia.
    + intros q y u Hy Hyid Hu. destruct (inv_same _ HI q p y (score_of x) Hy Hv Hyid) as [_ Hseq].
      cbn in Hu. rewrite Hseq in Hu. cbn in Hu. rewrite lookup_insert_eq in Hu. simplify_eq. lia.
Qed.

(** ** Persistence *)

(** The payloads that [send] may log. *)
Definition loggable (env : Envelope) : bool :=
  match env_Payload env with PEvent _ | PResult _ | PJobError _ | PCancelled _ _ => true | _ => false end.

Lemma loggable_secret_free env :
  loggable env = true → isCredentialRotation env = false → secret_free env = true.
Proof. unfold loggable, secret_free. intros Hl Hr. destruct (env_Payload env); try done. by rewrite Hr. Qed.

Lemma observe_view s o : view_of (observe o s).2 = view_of s <| v_trace := trace s ++ [o] |>.
Proof. done. Qed.

Lemma persistOutbound_good s p id pr env (Q : () → Server → Prop) :
  is_sess (view_of s) p id pr → fit (view_of s) pr env →
  (env_EventSeq env ≠ 0%Z → loggable env = true ∧ ready (view_of s) p (env_EventSeq env)) →
  (∀ s', ext (view_of s) (view_of s') → quiet (view_of s) (view_of s') → Q () s') →
  good s (persistOutbound p env) Q.
Proof.
  intros Hp Hfit Hlog HQ. unfold persistOutbound.
  destruct (Z.eqb_spec (env_EventSeq env) 0) as [H0|H0]; [by apply good_ret, HQ; [|apply quiet_refl]|].
  destruct (isCredentialRotation env) eqn:Hrot; [by apply good_ret, HQ; [|apply quiet_refl]|].
  destruct (Hlog H0) as [Hl Hready].
  apply good_gets_bind, good_gets_bind. intros HI.
  destruct (is_sess_inv _ _ _ _ Hp) as (x & Hx & Hsx & Hid & Hpr). destruct (sess_view s p x Hx) as [Hv _].
  rewrite Hsx. set (e := mkEntry (s_id x) (env_EventSeq env) (env_JobID env) (now s) env).
  set (s' := s <| log := Append (log s) (now s) e |> <| trace := trace s ++ [OPersist (stamp (now s) e)] |>).
  change (Inv (view_of s') ∧ ext (view_of s) (view_of s') ∧ Q () s').
  assert (ext (view_of s) (view_of s')) as He by apply ext_log.
  split_and!; [|done|].
  - apply (Inv_append (view_of s) (now s) e); [done| |].
    + destruct Hfit as [Hfit Htyped]. assert (en_Envelope (stamp (now s) e) = env ∧ en_JobID (stamp (now s) e) = env_JobID env ∧
        en_SessionID (stamp (now s) e) = s_id x) as (E1 & E2 & E3) by (unfold stamp; by case_goal).
      unfold persist_ok. rewrite E1, E2, E3. split; [by apply loggable_secret_free|]. split; [done|]. split; [done|].
      exists p, (score_of x). split_and!; [done|done|]. cbn. rewrite Hpr. apply Hfit. by right.
    + intros Hw. destruct (Hready _ Hv Hw) as (? & ? & ?). done.
  - apply HQ; [done|]. split; [|done]. intros q env' Hin. cbn in Hin. apply elem_of_app in Hin as [Hin|Hin%list_elem_of_singleton]; done.
Qed.

(** ** The outbox *)

Lemma observe_good s o (Q : () → Server → Prop) :
  is_persist o = false →
  (∀ p env, o = OEnqueue p env → ∃ id pr, is_sess (view_of s) p id pr ∧ fit (view_of s) pr env) →
  (∀ p env, o = OSend p env → term_ok (view_of s) env) →
  (∀ s', view_of s' = view_of s <| v_trace := trace s ++ [o] |> → Q () s') →
  good s (observe o) Q.
Proof.
  intros Hpers Henq Hsend HQ HI. rewrite observe_view. split_and!; [|apply ext_trace|by apply HQ].
  apply (Inv_observe (view_of s) o HI Hpers).
  - intros p env ->. destruct (Henq p env eq_refl) as (id & pr & (x & Hx & _ & <-) & Hf). by exists x.
  - intros p env -> Ht. destruct (Hsend p env eq_refl Ht) as [H1 H2]. split; [done|].
    intros p' env' Hin Ht' Hid. destruct (H2 p' env' Hin Ht' Hid) as (? & ? & ?). done.
Qed.

Lemma push_good s p id pr env (Q : () → Server → Prop) :
  is_sess (view_of s) p id pr → fit (view_of s) pr env →
  (∀ s', ext (view_of s) (view_of s') → quiet (view_of s) (view_of s') → Q () s') →
  good s (push p env) Q.
Proof.
  intros Hp Hf HQ. apply good_bind. eapply set_sess_good; [done|by intros []|].
  intros s1 Hc He1. apply observe_good; [done| |done|].
  - intros q env' [= <- <-]. exists id, pr. split; [by eapply is_sess_calm|by eapply fit_calm].
  - intros s2 Hv2. apply HQ.
    + rewrite Hv2. etrans; [exact He1|apply ext_trace].
    + eapply quiet_trans; [by apply calm_quiet|]. rewrite Hv2. split; [|done]. intros q env' Hin. cbn in Hin.
      by apply elem_of_app in Hin as [Hin|Hin%list_elem_of_singleton].
Qed.

Lemma writeLoop_turn_good s p id pr (Q : () → Server → Prop) :
  is_sess (view_of s) p id pr → (∀ s', calm (view_of s) (view_of s') → Q () s') →
  good s (writeLoop_turn p) Q.
Proof.
  intros Hp HQ. apply good_gets_bind. destruct (negb _); [apply good_ret, HQ, calm_refl|].
  destruct (s_outbox (sess s p)) as [|env rest].
  - apply good_when; [|intros _; apply HQ, calm_refl]. intros _. eapply set_sess_good; [done|by intros []|done].
  - apply good_bind. eapply set_sess_good; [done|by intros []|]. intros s1 Hc1 _.
    apply good_bind, transport_send_good. intros r s2 Hc2 _.
    assert (calm (view_of s) (view_of s2)) as Hc by by eapply calm_trans.
    assert (is_sess (view_of s2) p id pr) as Hp2 by by eapply is_sess_calm.
    destruct r.
    + eapply set_sess_good; [done|by intros []|]. intros s3 Hc3. apply HQ. by eapply calm_trans.
    + destruct (is_sess_inv _ _ _ _ Hp2) as (x & Hx & Hsx & _).
      set (f := λ y : session, if s_pingArmed y then y <| s_pingAt := Some (now s2 + o_HeartbeatInterval (opts s2))%Z |> else y).
      assert (view_of (s2 <| hsess := <[p := f (sess s2 p)]> (hsess s2) |>) = view_of s2) as Hv.
      { eapply view_set_sess; [done|]. unfold f. by case_goal. }
      apply good_calm; [by apply calm_eq|]. apply HQ. eapply calm_trans; [done|]. by apply calm_eq.
Qed.

Lemma NewEnvelope_fields id typ p env :
  NewEnvelope id typ p = Ok env →
  env_ID env = id ∧ env_Type env = typ ∧ env_EventSeq env = 0%Z ∧ env_Payload env = p ∧ env_JobID env = "" ∧
  (id ≠ "" → payload_typed typ p → well_typed env).
Proof.
  intros H. pose proof (NewEnvelope_typed _ _ _ _ H). apply NewEnvelope_Ok in H as [-> _]. done.
Qed.

Lemma NewEnvelopeID_nonempty n : NewEnvelopeID n ≠ "".
Proof. apply uuid_nonempty. Qed.

Lemma maybeEmitBackPressure_good s p id pr jobID seq (Q : () → Server → Prop) :
  is_sess (view_of s) p id pr → (seq ≠ 0%Z → job_of (view_of s) pr jobID) →
  (∀ s', ext (view_of s) (view_of s') → quiet (view_of s) (view_of s') → Q () s') →
  good s (maybeEmitBackPressure p jobID seq) Q.
Proof.
  intros Hp Hjob HQ. apply good_gets_bind, good_gets_bind. cbv zeta.
  assert (∀ s', calm (view_of s) (view_of s') → ext (view_of s) (view_of s') → Q () s') as HQc.
  { intros s' Hc He. apply HQ; [done|by apply calm_quiet]. }
  case_goal; [apply good_ret, HQc; [apply calm_refl|done]|].
  destruct ((seq <=? Z.of_N (s_high (sess s p)))%Z || _) eqn:Hlag; [apply good_ret, HQc; [apply calm_refl|done]|].
  destruct (negb (s_backPressureArmed (sess s p))); [apply good_ret, HQc; [apply calm_refl|done]|].
  assert (job_of (view_of s) pr jobID) as Hj. { breflect. apply Hjob. lia. }
  apply good_bind. eapply set_sess_good; [done|by intros []|]. intros s1 Hc1 He1. apply good_gets_bind.
  apply good_bind, new_envelope_good. intros s2 Hc2.
  assert (calm (view_of s) (view_of s2)) as Hc by by eapply calm_trans.
  assert (is_sess (view_of s2) p id pr) as Hp2 by by eapply is_sess_calm.
  split; [|intros e He2; eapply set_sess_good; [done|by intros []|]; intros s3 Hc3; apply HQ;
           [etrans; [exact He1|]; etrans; [exact He2|]; destruct Hc3 as [? ->]; by apply ext_tick
           |apply calm_quiet; by eapply calm_trans]].
  intros env Henv He2. apply NewEnvelope_fields in Henv as (_ & Hty & _ & Hpl & _ & Hwt).
  apply good_bind. eapply nextSeq_good; [done|]. intros n s3 He3 Hq3 Hr3 _.
  set (env' := set_seq (set_session (set_job env jobID) (s_id (sess s p))) n).
  assert (is_sess (view_of s3) p id pr) as Hp3 by by eapply is_sess_ext.
  assert (ext (view_of s) (view_of s3)) as He03 by (etrans; [exact He1|]; by etrans).
  assert (fit (view_of s3) pr env') as Hfit.
  { split; [intros _; by eapply job_of_ext|]. apply Hwt; [apply NewEnvelopeID_nonempty|done]. }
  apply good_bind. eapply persistOutbound_good; [done|done| |].
  { intros _. split; [by unfold loggable; cbn; rewrite Hpl|done]. }
  intros s4 He4 Hq4 _. apply good_gets_bind.
  assert (is_sess (view_of s4) p id pr) as Hp4 by by eapply is_sess_ext.
  assert (quiet (view_of s) (view_of s4)) as Hq04.
  { eapply quiet_trans; [by apply calm_quiet|]. by eapply quiet_trans. }
  assert (ext (view_of s) (view_of s4)) as He04 by by etrans.
  case_goal; [by apply good_ret, HQ|]. case_goal.
  - eapply set_sess_good; [done|by intros []|]. intros s5 Hc5. apply HQ.
    + etrans; [done|]. destruct Hc5 as [? ->]. by apply ext_tick.
    + eapply quiet_trans; [done|by apply calm_quiet].
  - eapply push_good; [done|eapply fit_ext; [exact He4|done]|].
    intros s5 He5 Hq5. apply HQ; [by etrans|by eapply quiet_trans].
Qed.

Lemma enqueue_good s p id pr env (Q : () → Server → Prop) :
  is_sess (view_of s) p id pr → fit (view_of s) pr env →
  (∀ s', ext (view_of s) (view_of s') → quiet (view_of s) (view_of s') → Q () s') →
  good s (enqueue p env) Q.
Proof.
  intros Hp Hf HQ. apply good_gets_bind. case_goal; [by apply good_ret, HQ; [|apply quiet_refl]|].
  apply good_bind, fresh_good. intros s1 Hc1 _ _ He1. apply good_gets_bind.
  assert (∀ s2, ext (view_of s1) (view_of s2) → quiet (view_of s1) (view_of s2) →
    good s2 (maybeEmitBackPressure p (env_JobID env) (env_EventSeq env)) Q) as Htail.
  { intros s2 He2 Hq2. assert (ext (view_of s) (view_of s2)) as He by by etrans.
    eapply maybeEmitBackPressure_good; [by eapply is_sess_ext| |].
    - intros Hn. eapply job_of_ext; [done|]. apply (proj1 Hf). by right.
    - intros s3 He3 Hq3. apply HQ; [by etrans|].
      eapply quiet_trans; [by apply calm_quiet|]. by eapply quiet_trans. }
  assert (is_sess (view_of s1) p id pr) as Hp1 by by eapply is_sess_calm.
  assert (fit (view_of s1) pr env) as Hf1 by by eapply fit_calm.
  apply good_bind. case_goal.
  - case_goal; [|by apply good_ret; intros _; apply Htail; [|apply quiet_refl]].
    apply good_bind. eapply writeLoop_turn_good; [done|]. intros s2 Hc2 He2.
    eapply push_good; [by eapply is_sess_calm|by eapply fit_calm|].
    intros s3 He3 Hq3 _. apply Htail; [by etrans|]. eapply quiet_trans; [by apply calm_quiet|done].
  - case_goal; [|by apply good_ret; intros _; apply Htail; [|apply quiet_refl]].
    eapply push_good; [done|done|]. intros s2 He2 Hq2 _. by apply Htail.
Qed.

(** ** Sending *)

(** The session an envelope is routed to has the same id, hence the same
    principal. *)
Lemma route_sess s p id pr :
  Inv (view_of s) → is_sess (view_of s) p id pr → is_sess (view_of s) (route s p) id pr.
Proof.
  intros HI Hp. unfold route, currentSession. destruct (is_sess_inv _ _ _ _ Hp) as (x & Hx & Hsx & Hid & Hpr).
  rewrite Hsx. destruct (current s !! s_id x) as [q|] eqn:Hq; [|done]. simpl.
  destruct (inv_current _ HI (s_id x) q Hq) as (y & Hy & Hyid).
  destruct (sess_view s p x Hx) as [Hv _].
  destruct (inv_same _ HI q p y (score_of x) Hy Hv Hyid) as [Hpy _].
  exists y. split_and!; [done|congruence|]. rewrite Hpy. done.
Qed.

(** The trace has no send but the old ones and this one. *)
Definition sent (v w : view) (p : nat) (env : Envelope) : Prop :=
  ∀ q e, OSend q e ∈ v_trace w → OSend q e ∈ v_trace v ∨ (q = p ∧ ∃ sid, e = set_session env sid).

Lemma good_Inv {A} s (m : M A) Q : (Inv (view_of s) → good s m Q) → good s m Q.
Proof. intros H HI. by apply H. Qed.

Lemma term_ok_session v env sid : term_ok v env → term_ok v (set_session env sid).
Proof. done. Qed.

(** The tail shared by [send] and [sendEphemeral]. *)
Lemma deliver_good s p id pr env (Q : () → Server → Prop) :
  is_sess (view_of s) p id pr → fit (view_of s) pr env →
  (∀ s', ext (view_of s) (view_of s') → quiet (view_of s) (view_of s') → Q () s') →
  good s (cur ← gets (λ s, route s p); enqueue cur env) Q.
Proof.
  intros Hp Hf HQ. apply good_Inv. intros HI. apply good_gets_bind.
  eapply enqueue_good; [by apply route_sess|done|done].
Qed.

Lemma send_good s p id pr env (Q : () → Server → Prop) :
  is_sess (view_of s) p id pr → fit (view_of s) pr env →
  (env_EventSeq env ≠ 0%Z → loggable env = true ∧ ready (view_of s) p (env_EventSeq env)) →
  term_ok (view_of s) env →
  (∀ s', ext (view_of s) (view_of s') → sent (view_of s) (view_of s') p env → Q () s') →
  good s (send p env) Q.
Proof.
  intros Hp Hf Hlog Hterm HQ. apply good_gets_bind. cbv zeta.
  set (sid := s_id (sess s p)). set (env' := set_session env sid).
  apply good_bind, observe_good; [done|done|by intros q e [= <- <-]|].
  intros s1 Hv1 He1.
  assert (is_sess (view_of s1) p id pr) as Hp1 by by rewrite Hv1.
  assert (fit (view_of s1) pr env') as Hf1 by by rewrite Hv1.
  apply good_bind. eapply persistOutbound_good; [done|done| |].
  { intros Hn. destruct (Hlog Hn) as [Hl Hr]. split; [done|]. rewrite Hv1. intros x Hx Hw. cbn in Hx, Hw |- *.
    rewrite hist_snoc, app_nil_r. by apply Hr. }
  intros s2 He2 Hq2 _. eapply deliver_good; [by eapply is_sess_ext|by eapply fit_ext|].
  intros s3 He3 Hq3. apply HQ; [etrans; [exact He1|]; by etrans|].
  intros q e Hin. apply Hq3, Hq2 in Hin. rewrite Hv1 in Hin. cbn in Hin.
  apply elem_of_app in Hin as [Hin|Hin%list_elem_of_singleton]; [by left|]. right. simplify_eq. eauto.
Qed.

Lemma sendEphemeral_good s p id pr env (Q : () → Server → Prop) :
  is_sess (view_of s) p id pr → fit (view_of s) pr env → is_terminal env = false →
  (∀ s', ext (view_of s) (view_of s') → Q () s') → good s (sendEphemeral p env) Q.
Proof.
  intros Hp Hf Ht HQ. apply good_gets_bind. cbv zeta.
  apply good_bind, observe_good; [done|done| |].
  { intros q e [= <- <-] Ht'. cbn in Ht'. unfold is_terminal in *. cbn in Ht'. congruence. }
  intros s1 Hv1 He1. eapply deliver_good; [by rewrite Hv1|by rewrite Hv1|].
  intros s2 He2 Hq2. apply HQ. by etrans.
Qed.

(** A send that is not terminal and carries no sequence number. *)
Lemma send_plain_good s p id pr env (Q : () → Server → Prop) :
  is_sess (view_of s) p id pr → fit (view_of s) pr env → env_EventSeq env = 0%Z → is_terminal env = false →
  (∀ s', ext (view_of s) (view_of s') → Q () s') → good s (send p env) Q.
Proof.
  intros Hp Hf H0 Ht HQ. eapply send_good; [done|done|by intros ?|by intros ?; congruence|].
  intros s' He _. by apply HQ.
Qed.

(** ** Subscriptions *)

Lemma term_ok_sent v w p env env0 :
  ext v w → sent v w p env → term_ok v env0 →
  (is_terminal env = true → env_JobID env = env_JobID env0 → same_event env0 env) → term_ok w env0.
Proof.
  intros (_ & _ & Hj & _) Hs Ht Hsame Hterm. destruct (Ht Hterm) as [(j & c & Hc & Hid & Htm) Hu]. split.
  - destruct (Hj j c Hc) as (d & Hd & ? & _ & _ & ?). exists j, d. split_and!; [done|congruence|auto].
  - intros q e Hin Hte Hide. destruct (Hs q e Hin) as [Hold|[-> [sid ->]]]; [by eapply Hu|].
    by apply Hsame.
Qed.

(** What a fan-out publishes: job data with a body the log accepts. *)
Definition publishable (v : view) (env : Envelope) : Prop := loggable env = true ∧ well_typed env ∧ term_ok v env.

Lemma publish_good s q p pr env (Q : () → Server → Prop) :
  v_hsub (view_of s) !! q = Some (p, env_JobID env) → (∃ id, is_sess (view_of s) p id pr) →
  job_of (view_of s) pr (env_JobID env) → publishable (view_of s) env →
  (∀ s', ext (view_of s) (view_of s') → publishable (view_of s') env → Q () s') →
  good s (publish q env) Q.
Proof.
  intros Hq [id Hp] Hj (Hl & Hwt & Ht) HQ. apply good_gets_bind.
  assert (sub_session (sub s q) = p) as ->.
  { cbn in Hq. rewrite lookup_fmap in Hq. unfold sub. destruct (hsub s !! q) as [z|] eqn:Hz; [|done].
    simpl in *. unfold subcore_of in Hq. by simplify_eq. }
  case_goal; [by apply good_ret, HQ|].
  apply good_bind. eapply nextSeq_good; [done|]. intros n s1 He1 Hq1 Hr1 _.
  assert (term_ok (view_of s1) (set_seq env n)) as Ht1.
  { eapply (term_ok_quiet _ _ _ He1 Hq1) in Ht. exact Ht. }
  eapply send_good; [by eapply is_sess_ext| |done|done|].
  - split; [intros _; by eapply job_of_ext|done].
  - intros s2 He2 Hs2. apply HQ; [by etrans|]. split; [done|]. split; [done|].
    assert (term_ok (view_of s2) (set_seq env n)) as Ht2; [|exact Ht2].
    eapply term_ok_sent; [done|done|done|]. intros _ _. done.
Qed.

Lemma fanout_loop_good l s env (Q : () → Server → Prop) :
  (∀ q, q ∈ l → ∃ p x, v_hsub (view_of s) !! q = Some (p, env_JobID env) ∧
     v_sess (view_of s) !! p = Some x ∧ job_of (view_of s) (sc_principal x) (env_JobID env)) →
  publishable (view_of s) env →
  (∀ s', ext (view_of s) (view_of s') → Q () s') →
  good s (for_each l (λ q, publish q env)) Q.
Proof.
  revert s. induction l as [|q l IH]; intros s Hl Hpub HQ; [by apply good_ret, HQ|]. simpl.
  destruct (Hl q) as (p & x & Hq & Hx & Hj); [by left|].
  apply good_bind. eapply publish_good; [done|by exists (sc_id x), x|done|done|].
  intros s1 He1 Hpub1 _. apply IH; [|done|intros s2 He2; apply HQ; by etrans].
  intros q' Hq'. destruct (Hl q') as (p' & x' & Hq1 & Hx' & Hj'); [by right|].
  pose proof He1 as (_ & Hs & _ & _ & Hh). destruct (Hs p' x' Hx') as (y & Hy & _ & Hp & _).
  exists p', y. split_and!; [by apply Hh|done|]. rewrite Hp. by eapply job_of_ext.
Qed.

Lemma fanoutEvent_good s env (Q : () → Server → Prop) :
  publishable (view_of s) env → (∀ s', ext (view_of s) (view_of s') → Q () s') →
  good s (fanoutEvent (env_JobID env) env) Q.
Proof.
  intros Hpub HQ. apply good_Inv. intros HI. apply good_gets_bind. apply fanout_loop_good; [|done|done].
  intros q Hq. unfold subscribers in Hq. destruct (subs s !! env_JobID env) as [l|] eqn:Hl; [|by apply not_elem_of_nil in Hq].
  destruct (inv_subs _ HI _ _ _ Hl Hq) as (p & Hp). destruct (inv_hsub _ HI _ _ _ Hp) as (_ & x & Hx & Hj).
  by exists p, x.
Qed.

End logic.
