(* ===== verification/JobPreservation.v ===== *)
(** * Jobs preserve the invariant

    The lemmas about the operations of the file Job: terminal transitions,
    revocation, the run and the job context. *)

From S2P Require Import Prelude GoStrings Errors Features Float64 Lease Canonical LeaseState Messages EventLog IdStore Agents ServerState Delivery Stream Job ListJobs Session Runtime Invariant Preservation.
From Stdlib Require Import ZArith Lia.

Section jobs.
Context {RT : Runtime}.

Lemma job_session s j id pr p :
  Inv (view_of s) → is_job (view_of s) j id pr p → ∃ sid, is_sess (view_of s) p sid pr.
Proof.
  intros HI (c & Hc & _ & <- & <-). destruct (inv_job _ HI j c Hc) as (_ & _ & x & Hx & Hp).
  exists (sc_id x), x. done.
Qed.

(** Job updates that leave the view alone. *)
Lemma set_job_ext_good s j id pr p f (Q : () → Server → Prop) :
  is_job (view_of s) j id pr p → (∀ y, jcore_of (f y) = jcore_of y) →
  (∀ s', ext (view_of s) (view_of s') → quiet (view_of s) (view_of s') → Q () s') → good s (set_job_ j f) Q.
Proof.
  intros Hj Hf HQ. eapply set_job_good; [done|done|]. intros s' Hc. apply HQ; [|by apply calm_quiet].
  destruct Hc as [? ->]. by apply ext_tick.
Qed.

(** ** Emission *)

Lemma emit_envelope_good s j id pr p env (Q : () → Server → Prop) :
  is_job (view_of s) j id pr p → loggable env = true → well_typed env → term_ok (view_of s) (set_job env id) →
  (∀ s', ext (view_of s) (view_of s') → Q () s') → good s (emit_envelope j env) Q.
Proof.
  intros Hj Hl Hwt Ht HQ. apply good_Inv. intros HI. destruct (job_session _ _ _ _ _ HI Hj) as [sid Hp].
  destruct (is_job_inv _ _ _ _ _ Hj) as (y & Hy & Hsy & Hid & Hpr & Hps).
  apply good_gets_bind. rewrite Hsy, Hps, Hid.
  apply good_bind. eapply nextSeq_good; [done|]. intros n s1 He1 Hq1 Hr1 _. cbv zeta.
  set (env' := set_seq (set_trace (set_job env id) (j_traceID y)) n).
  assert (term_ok (view_of s1) env') as Ht1 by exact (term_ok_quiet _ _ _ He1 Hq1 Ht).
  assert (is_job (view_of s1) j id pr p) as Hj1 by by eapply is_job_ext.
  apply good_bind. eapply set_job_good; [done|intros z; by case_goal|]. intros s2 Hc2 He2.
  assert (is_job (view_of s2) j id pr p) as Hj2 by by eapply is_job_ext.
  assert (is_sess (view_of s2) p sid pr) as Hp2 by (eapply is_sess_ext; [exact He2|]; by eapply is_sess_ext).
  assert (term_ok (view_of s2) env') as Ht2 by (eapply term_ok_quiet; [done|by apply calm_quiet|done]).
  apply good_bind. eapply send_good; [exact Hp2| | |exact Ht2|].
  - split; [intros _; by eapply is_job_of|done].
  - intros _. split; [done|]. by eapply ready_calm.
  - intros s3 He3 Hs3 _. apply (fanoutEvent_good s3 env').
    + split; [done|]. split; [done|]. eapply term_ok_sent; [done|done|done|]. intros _ _. done.
    + intros s4 He4. apply HQ. etrans; [exact He1|]. etrans; [exact He2|]. by etrans.
Qed.

Lemma emitEvent_good s j id pr p kind body (Q : () → Server → Prop) :
  is_job (view_of s) j id pr p → body_kind body = Some kind → (∀ s', ext (view_of s) (view_of s') → Q () s') →
  good s (emitEvent j kind body) Q.
Proof.
  intros Hj Hk HQ. unfold emitEvent. destruct (negb _); [by apply good_ret, HQ|]. apply good_gets_bind.
  apply good_bind, new_envelope_good. intros s1 Hc1. split; [|intros e He1; by apply good_ret, HQ].
  intros env Henv He1. apply NewEnvelope_fields in Henv as (_ & Hty & _ & Hpl & _ & Hwt).
  eapply emit_envelope_good; [by eapply is_job_calm| | | |].
  - unfold loggable. by rewrite Hpl.
  - apply Hwt; [apply NewEnvelopeID_nonempty|done].
  - unfold term_ok, is_terminal. cbn. rewrite Hty. done.
  - intros s2 He2. apply HQ. by etrans.
Qed.

(** ** Terminal transitions *)

(** The job is terminal and no terminal event has been sent for it. *)
Definition terminal_unsent (v : view) (j : nat) (id : string) : Prop :=
  (∃ c, v_job v !! j = Some c ∧ jc_id c = id ∧ jc_terminal c = true) ∧
  ∀ p e, OSend p e ∈ v_trace v → is_terminal e = true → env_JobID e ≠ id.

Lemma terminal_unsent_quiet v w j id : ext v w → quiet v w → terminal_unsent v j id → terminal_unsent w j id.
Proof.
  intros (_ & _ & Hj & _) Hq [(c & Hc & Hid & Ht) Hu]. split.
  - destruct (Hj j c Hc) as (d & ? & ? & _ & _ & ?). exists d. split_and!; [done|congruence|auto].
  - intros p e He. by eapply Hu, Hq.
Qed.

Lemma markTerminal_good s j id pr p final (Q : bool → Server → Prop) :
  is_job (view_of s) j id pr p → (Q false s) →
  (∀ s', ext (view_of s) (view_of s') → terminal_unsent (view_of s') j id → Q true s') →
  good s (markTerminal j final) Q.
Proof.
  intros Hj HQf HQt. apply good_gets_bind. destruct (is_job_inv _ _ _ _ _ Hj) as (y & Hy & Hsy & Hid & Hpr & Hps).
  rewrite Hsy. destruct (j_terminal y) eqn:Ht; [by apply good_ret|].
  intros HI. set (y' := y <| j_terminal := true |> <| j_statusV := final |>).
  set (s' := s <| hjob := <[j := y']> (hjob s) |>).
  assert ((set_job_ j (λ x, x <| j_terminal := true |> <| j_statusV := final |>);; mret true) s = (true, s')) as ->.
  { unfold set_job_, modify, mbind, M_bind, mret, M_ret. cbn. by rewrite Hsy. }
  assert (v_job (view_of s) !! j = Some (jcore_of y)) as Hv by (cbn; by rewrite lookup_fmap, Hy).
  assert (view_of s' = view_of s <| v_job := <[j := jcore_of y']> (v_job (view_of s)) |>) as Hview.
  { unfold view_of, s'. cbn. by rewrite fmap_insert. }
  cbn [fst snd]. rewrite Hview.
  assert (ext (view_of s) (view_of s <| v_job := <[j := jcore_of y']> (v_job (view_of s)) |>)) as He
    by by eapply ext_job_update.
  split_and!; [by eapply Inv_job_update|done|]. apply HQt; [by rewrite Hview|]. rewrite Hview. split.
  - exists (jcore_of y'). cbn. rewrite lookup_insert_eq. done.
  - intros q e Hin Hte Hide. destruct (inv_send _ HI q e Hin Hte) as (k & c & Hc & Hcid & Hct).
    destruct (inv_job _ HI k c Hc) as (_ & Hk & _). destruct (inv_job _ HI j _ Hv) as (_ & Hjid & _).
    assert (k = j) as ->. { apply NewJobID_inj. cbn in Hjid. congruence. }
    rewrite Hv in Hc. injection Hc as <-. cbn in Hct. congruence.
Qed.

(** Revocation only adds provisioner calls to the trace. *)
Lemma observe_call_good s o (Q : () → Server → Prop) :
  (match o with OIssue _ | ORevoke _ | ORevokePrior _ _ => True | _ => False end) →
  (∀ s', ext (view_of s) (view_of s') → quiet (view_of s) (view_of s') → Q () s') → good s (observe o) Q.
Proof.
  intros Ho HQ. apply observe_good; [by destruct o|by intros ? ? ->|by intros ? ? ->|].
  intros s' Hv. apply HQ; rewrite Hv; [apply ext_trace|]. split; [|done].
  intros p e Hin. cbn in Hin. apply elem_of_app in Hin as [Hin|Hin%list_elem_of_singleton]; [done|]. by subst o.
Qed.

Lemma retryRevoke_good n s o call (Q : () → Server → Prop) :
  (match o with OIssue _ | ORevoke _ | ORevokePrior _ _ => True | _ => False end) →
  (∀ s', ext (view_of s) (view_of s') → quiet (view_of s) (view_of s') → Q () s') → good s (retryRevoke n o call) Q.
Proof.
  intros Ho. revert s. induction n as [|n IH]; intros s HQ; simpl; [by apply good_ret, HQ; [|apply quiet_refl]|].
  apply good_bind, observe_call_good; [done|]. intros s1 He1 Hq1 _.
  apply good_bind, fresh_good. intros s2 Hc2 _ _ He2.
  assert (ext (view_of s) (view_of s2)) as He by by etrans.
  assert (quiet (view_of s) (view_of s2)) as Hq by (eapply quiet_trans; [done|by apply calm_quiet]).
  case_goal; [|by apply good_ret, HQ]. destruct n as [|n]; [by apply good_ret, HQ|].
  apply good_bind, fresh_good. intros s3 Hc3 _ _ He3.
  assert (quiet (view_of s) (view_of s3)) as Hq3 by (eapply quiet_trans; [done|by apply calm_quiet]).
  case_goal; [apply good_ret, HQ; [by etrans|done]|].
  apply IH. intros s4 He4 Hq4. apply HQ; [etrans; [done|]; by etrans|by eapply quiet_trans].
Qed.

Lemma for_each_good {A} (l : list A) (k : A → M ()) s (R : Server → Prop) (Q : () → Server → Prop) :
  R s →
  (∀ x s', x ∈ l → ext (view_of s) (view_of s') → R s' → good s' (k x) (λ _ s'', R s'')) →
  (∀ s', ext (view_of s) (view_of s') → R s' → Q () s') → good s (for_each l k) Q.
Proof.
  revert s. induction l as [|x l IH]; intros s HR Hk HQ; simpl; [by apply good_ret, HQ|].
  apply good_bind. eapply good_mono; [apply Hk; [by left|done|done]|]. simpl. intros _ s1 He1 HR1 _.
  apply IH; [done| |].
  - intros y s2 Hy He2 HR2. apply Hk; [by right|by etrans|done].
  - intros s2 He2 HR2. apply HQ; [by etrans|done].
Qed.

Lemma revokeAll_good s j id pr p (Q : () → Server → Prop) :
  is_job (view_of s) j id pr p →
  (∀ s', ext (view_of s) (view_of s') → quiet (view_of s) (view_of s') → Q () s') → good s (revokeAll j) Q.
Proof.
  intros Hj HQ. apply good_gets_bind. case_goal; [|by apply good_ret, HQ; [|apply quiet_refl]].
  apply good_gets_bind. case_goal; [by apply good_ret, HQ; [|apply quiet_refl]|].
  apply good_bind. eapply set_job_ext_good; [done|by intros []|]. intros s1 He1 Hq1 _. apply good_gets_bind.
  apply (for_each_good _ _ s1 (λ s', quiet (view_of s) (view_of s'))); [done| |].
  - intros c s2 _ He2 Hq2. apply retryRevoke_good; [done|]. intros s3 He3 Hq3. by eapply quiet_trans.
  - intros s2 He2 Hq2. apply HQ; [by etrans|done].
Qed.

Lemma emitTerminal_good s j id pr p typ pl (Q : () → Server → Prop) :
  is_job (view_of s) j id pr p → terminal_unsent (view_of s) j id →
  (match pl with PResult _ | PJobError _ | PCancelled _ _ => ARCPType pl = Some typ | _ => False end) →
  (∀ s', ext (view_of s) (view_of s') → Q () s') → good s (emitTerminal j typ pl) Q.
Proof.
  intros Hj Ht Hpl HQ. apply good_bind, new_envelope_good. intros s1 Hc1.
  split; [|intros e He1; by apply good_ret, HQ]. intros env Henv He1.
  apply NewEnvelope_fields in Henv as (_ & Hty & _ & Hp & _ & Hwt).
  eapply emit_envelope_good; [by eapply is_job_calm| | | |intros s2 He2; apply HQ; by etrans].
  - unfold loggable. rewrite Hp. by destruct pl.
  - apply Hwt; [apply NewEnvelopeID_nonempty|]. by destruct pl.
  - assert (terminal_unsent (view_of s1) j id) as [(c & Hc & Hid & Htm) Hu].
    { eapply terminal_unsent_quiet; [done|by apply calm_quiet|done]. }
    intros _. split; [by exists j, c|]. intros q e Hin Hte Hide. by destruct (Hu q e Hin Hte).
Qed.

Lemma finish_good s j id pr p final typ pl (Q : () → Server → Prop) :
  is_job (view_of s) j id pr p →
  (match pl with PResult _ | PJobError _ | PCancelled _ _ => ARCPType pl = Some typ | _ => False end) →
  (∀ s', ext (view_of s) (view_of s') → Q () s') → good s (finish j final typ pl) Q.
Proof.
  intros Hj Hpl HQ. apply good_bind. eapply markTerminal_good; [done|by intros _; apply good_ret, HQ|].
  intros s1 He1 Ht1 _. apply good_bind. eapply revokeAll_good; [by eapply is_job_ext|].
  intros s2 He2 Hq2 _. eapply emitTerminal_good; [|eapply terminal_unsent_quiet; [exact He2|done|done]|done|].
  - eapply is_job_ext; [exact He2|]. by eapply is_job_ext.
  - intros s3 He3. apply HQ. etrans; [exact He1|]. by etrans.
Qed.

Lemma cancel_ctx_good s j id pr p (Q : () → Server → Prop) :
  is_job (view_of s) j id pr p → (∀ s', ext (view_of s) (view_of s') → Q () s') → good s (cancel_ctx j) Q.
Proof. intros Hj HQ. eapply set_job_ext_good; [done|by intros []|]. auto. Qed.

(** [expireLease] and [timeout] are the same program up to the texts. *)
Lemma terminal_timer_good s j id pr p final code msg (Q : () → Server → Prop) :
  is_job (view_of s) j id pr p → (∀ s', ext (view_of s) (view_of s') → Q () s') →
  good s (b ← markTerminal j final;
          if negb b then mret () else revokeAll j;; emitTerminalError j code msg;; cancel_ctx j) Q.
Proof.
  intros Hj HQ. apply good_bind. eapply markTerminal_good; [done|by intros _; apply good_ret, HQ|].
  intros s1 He1 Ht1 _. simpl. apply good_bind. eapply revokeAll_good; [by eapply is_job_ext|].
  intros s2 He2 Hq2 _.
  assert (ext (view_of s) (view_of s2)) as He by by etrans.
  assert (is_job (view_of s2) j id pr p) as Hj2 by by eapply is_job_ext.
  apply good_bind. eapply emitTerminal_good; [done|eapply terminal_unsent_quiet; [exact He2|done|done]|done|].
  intros s3 He3 _. eapply cancel_ctx_good; [by eapply is_job_ext|]. intros s4 He4. apply HQ.
  etrans; [exact He|]. by etrans.
Qed.

Lemma unregisterJob_good s id (Q : () → Server → Prop) :
  (∀ s', ext (view_of s) (view_of s') → Q () s') → good s (unregisterJob id) Q.
Proof.
  intros HQ HI. set (s' := s <| jobs := delete id (jobs s) |> <| subs := delete id (subs s) |>).
  change (Inv (view_of s') ∧ ext (view_of s) (view_of s') ∧ Q () s').
  assert (ext (view_of s) (view_of s')) as He by apply ext_registry.
  split_and!; [|done|by apply HQ].
  assert (view_of s' = view_of s <| v_jobs := delete id (jobs s) |> <| v_subs := delete id (subs s) |>) as -> by reflexivity.
  apply Inv_subs.
  - apply Inv_jobs; [done|]. intros id' j [_ Hj]%lookup_delete_Some. by left.
  - intros id' l q [_ Hl]%lookup_delete_Some Hq. left. by exists l.
Qed.

Lemma stop_timers_good s j id pr p (Q : () → Server → Prop) :
  is_job (view_of s) j id pr p → (∀ s', ext (view_of s) (view_of s') → Q () s') → good s (stop_timers j) Q.
Proof. intros Hj HQ. eapply set_job_ext_good; [done|by intros []|]. auto. Qed.

Lemma run_exit_good s j id pr p (Q : () → Server → Prop) :
  is_job (view_of s) j id pr p → (∀ s', ext (view_of s) (view_of s') → Q () s') → good s (run_exit j) Q.
Proof.
  intros Hj HQ. apply good_bind. eapply stop_timers_good; [done|]. intros s1 He1 _. apply good_gets_bind.
  apply good_bind, unregisterJob_good. intros s2 He2 _.
  eapply set_job_ext_good; [|by intros []|].
  - eapply is_job_ext; [exact He2|]. by eapply is_job_ext.
  - intros s3 He3 _. apply HQ. etrans; [exact He1|]. by etrans.
Qed.

Lemma run_start_good s j id pr p (Q : () → Server → Prop) :
  is_job (view_of s) j id pr p → (∀ s', ext (view_of s) (view_of s') → Q () s') → good s (run_start j) Q.
Proof.
  intros Hj HQ. apply good_gets_bind. case_goal; [by eapply run_exit_good|].
  apply good_bind. eapply set_job_ext_good; [done|intros y; by case_goal|]. intros s1 He1 _ _.
  eapply set_job_ext_good; [by eapply is_job_ext|by intros []|]. intros s2 He2 _. apply HQ. by etrans.
Qed.

Lemma run_finish_good s j id pr p o (Q : () → Server → Prop) :
  is_job (view_of s) j id pr p → (∀ s', ext (view_of s) (view_of s') → Q () s') → good s (run_finish j o) Q.
Proof.
  intros Hj HQ. apply good_bind.
  assert (good s (run_body_result j o) (λ _ s1, ext (view_of s) (view_of s1))) as Hbody.
  { apply good_gets_bind, good_gets_bind. cbv zeta.
    repeat (case_goal; try (eapply finish_good; [done|done|done])). }
  eapply good_mono; [exact Hbody|]. simpl. intros _ s1 He1 _ _.
  eapply run_exit_good; [by eapply is_job_ext|]. intros s2 He2. apply HQ. by etrans.
Qed.

(** ** The job context *)

Lemma emit_chunks_good l s j id pr p (Q : () → Server → Prop) :
  is_job (view_of s) j id pr p → (∀ s', ext (view_of s) (view_of s') → Q () s') →
  good s (for_each l (emit_chunk j)) Q.
Proof.
  intros Hj HQ. apply (for_each_good _ _ s (λ _, True)); [done| |intros; by apply HQ].
  intros b s' _ He _. eapply emitEvent_good; [by eapply is_job_ext|done|done].
Qed.

Lemma ToolResult_good s j id pr p callID r (Q : () → Server → Prop) :
  is_job (view_of s) j id pr p → (∀ s', ext (view_of s) (view_of s') → Q () s') → good s (ToolResult j callID r) Q.
Proof. intros Hj HQ. destruct r; by eapply emitEvent_good. Qed.

Lemma RotateCredential_good s j id pr p cid v (Q : option error → Server → Prop) :
  is_job (view_of s) j id pr p → (∀ r s', ext (view_of s) (view_of s') → Q r s') → good s (RotateCredential j cid v) Q.
Proof.
  intros Hj HQ. apply good_gets_bind. case_goal; [|by apply good_ret, HQ]. apply good_gets_bind.
  destruct (replace_value _ cid v) as [[prior creds]|]; [|by apply good_ret, HQ].
  apply good_bind. eapply set_job_ext_good; [done|by intros []|]. intros s1 He1 _ _. apply good_gets_bind.
  apply good_bind, new_envelope_good. intros s2 Hc2. split; [|intros e He2; apply good_ret, HQ; by etrans].
  intros env Henv He2. apply NewEnvelope_fields in Henv as (_ & Hty & _ & _ & _ & Hwt).
  assert (is_job (view_of s2) j id pr p) as Hj2 by (eapply is_job_ext; [exact He2|]; by eapply is_job_ext).
  destruct (is_job_inv _ _ _ _ _ Hj2) as (y & Hy & Hsy & Hid & _ & Hps). apply good_gets_bind.
  rewrite Hsy, Hps, Hid. apply good_Inv. intros HI. destruct (job_session _ _ _ _ _ HI Hj2) as [sid Hp].
  apply good_bind. eapply nextSeq_good; [done|]. intros n s3 He3 _ _ _.
  assert (is_job (view_of s3) j id pr p) as Hj3 by by eapply is_job_ext.
  apply good_bind. eapply set_job_ext_good; [done|intros z; by case_goal|]. intros s4 He4 _ _.
  apply good_bind. eapply sendEphemeral_good.
  - eapply is_sess_ext; [exact He4|]. by eapply is_sess_ext.
  - split; [intros _; eapply is_job_of, is_job_ext; [exact He4|done]|]. by apply Hwt; [apply NewEnvelopeID_nonempty|].
  - unfold is_terminal. cbn. by rewrite Hty.
  - intros s5 He5 _. apply good_bind. unfold revokePriorCredentialValue.
    assert (ext (view_of s) (view_of s5)) as He05.
    { etrans; [exact He1|]. etrans; [exact He2|]. etrans; [exact He3|]. by etrans. }
    case_goal; [apply retryRevoke_good; [done|]; intros s6 He6 _ _; apply good_ret, HQ; by etrans|].
    apply good_ret. intros _. by apply good_ret, HQ.
Qed.

Lemma maybeEmitRemaining_good s j id pr p cur rem (Q : () → Server → Prop) :
  is_job (view_of s) j id pr p → (∀ s', ext (view_of s) (view_of s') → Q () s') → good s (maybeEmitRemaining j cur rem) Q.
Proof.
  intros Hj HQ. apply good_gets_bind. cbv zeta. apply good_when; [|by intros _; apply HQ]. intros _.
  apply good_bind. eapply set_job_ext_good; [done|by intros []|]. intros s1 He1 _ _.
  eapply emitEvent_good; [by eapply is_job_ext|done|]. intros s2 He2. apply HQ. by etrans.
Qed.

Lemma Metric_good s j id pr p name v u dims (Q : () → Server → Prop) :
  is_job (view_of s) j id pr p → (∀ s', ext (view_of s) (view_of s') → Q () s') → good s (Metric j name v u dims) Q.
Proof.
  intros Hj HQ. apply good_bind. eapply emitEvent_good; [done|done|]. intros s1 He1 _.
  apply good_when; [|by intros _; apply HQ]. intros _. apply good_gets_bind.
  destruct (Report _ u v) as [[rem budgeted] l'].
  apply good_bind. eapply set_job_ext_good; [by eapply is_job_ext|by intros []|]. intros s2 He2 _ _.
  assert (ext (view_of s) (view_of s2)) as He by by etrans.
  apply good_when; [|by intros _; apply HQ]. intros _.
  eapply maybeEmitRemaining_good; [by eapply is_job_ext|]. intros s3 He3. apply HQ. by etrans.
Qed.

Lemma exec_agent_good s j id pr p a (Q : () → Server → Prop) :
  is_job (view_of s) j id pr p → (∀ s', ext (view_of s) (view_of s') → Q () s') → good s (exec_agent j a) Q.
Proof.
  intros Hj HQ. destruct a; cbn [exec_agent].
  - by eapply emitEvent_good.
  - by eapply emitEvent_good.
  - apply good_bind. apply good_bind, fresh_good. intros s1 Hc1 _ _ He1. apply good_bind.
    eapply emitEvent_good; [by eapply is_job_calm|done|]. intros s2 He2 _. apply good_ret. intros _.
    apply good_ret, HQ. by etrans.
  - by eapply ToolResult_good.
  - by eapply emitEvent_good.
  - by eapply emitEvent_good.
  - apply good_bind. eapply RotateCredential_good; [done|]. intros r s1 He1 _. by apply good_ret, HQ.
  - by eapply Metric_good.
  - by eapply emitEvent_good.
  - by eapply emitEvent_good.
  - apply good_bind. apply good_gets_bind, good_gets_bind. destruct (ValidateAndDebit _ _ _ _ _) as [[v err] l'].
    apply good_bind. eapply set_job_ext_good; [done|by intros []|]. intros s1 He1 _ _. apply good_ret. intros _.
    by apply good_ret, HQ.
  - apply good_bind. unfold StreamResult. cbv zeta.
    match goal with |- context [if ?b && ?c then _ else _] => destruct (b && c) end;
      [by apply good_ret; intros _; apply good_ret, HQ|].
    apply good_gets_bind. case_goal; [by apply good_ret; intros _; apply good_ret, HQ|]. apply good_gets_bind.
    case_goal; [by apply good_ret; intros _; apply good_ret, HQ|].
    apply good_bind, fresh_good. intros s1 Hc1 _ _ He1. apply good_bind.
    eapply set_job_ext_good; [by eapply is_job_calm|by intros []|]. intros s2 He2 _ _. apply good_ret. intros _.
    apply good_ret, HQ. by etrans.
  - apply good_bind, good_gets_bind. case_goal; [|by apply good_ret; intros _; apply good_ret, HQ].
    destruct (Write _ _) as [[out r'] bodies]. apply good_bind. eapply emit_chunks_good; [done|].
    intros s1 He1 _. apply good_bind. eapply set_job_ext_good; [by eapply is_job_ext|by intros []|].
    intros s2 He2 _ _. apply good_ret. intros _. apply good_ret, HQ. by etrans.
  - apply good_gets_bind. case_goal; [|by apply good_ret, HQ]. destruct (Close _) as [r' bodies].
    apply good_bind. eapply set_job_ext_good; [done|by intros []|]. intros s1 He1 _ _.
    eapply emit_chunks_good; [by eapply is_job_ext|]. intros s2 He2. apply HQ. by etrans.
Qed.

(** ** Creation and rejection *)

Lemma newJob_good s p sid pr canonical req fn trace_ (Q : nat → Server → Prop) :
  is_sess (view_of s) p sid pr →
  (∀ j s', ext (view_of s) (view_of s') → is_job (view_of s') j (NewJobID j) pr p →
     jobs s' = jobs s → Q j s') →
  good s (newJob p canonical req fn trace_) Q.
Proof.
  intros Hp HQ. apply good_Inv. intros HI0. apply good_bind, fresh_good. intros s1 Hc1 Hlt1 -> He1.
  apply good_bind, fresh_good. intros s2 Hc2 Hlt2 -> He2.
  set (s2 := s <| tick := S (tick s) |> <| tick := S (tick (s <| tick := S (tick s) |>)) |>) in *.
  apply good_gets_bind, good_gets_bind. cbv zeta. intros HI.
  assert (is_sess (view_of s2) p sid pr) as Hp2 by (eapply is_sess_ext; [exact He2|]; by eapply is_sess_ext).
  destruct (is_sess_inv _ _ _ _ Hp2) as (x & Hx & Hsx & Hid & Hpr). destruct (sess_view s2 p x Hx) as [Hv _].
  match goal with |- context [modify (λ s, s <| hjob := <[tick _ := ?y]> _ |>)] => set (y0 := y) end.
  set (s3 := s2 <| hjob := <[tick s := y0]> (hjob s2) |>).
  change (Inv (view_of s3) ∧ ext (view_of s2) (view_of s3) ∧ Q (tick s) s3).
  assert (v_job (view_of s2) !! tick s = None) as Hnone.
  { destruct (v_job (view_of s2) !! tick s) as [c|] eqn:Hc; [|done].
    destruct (inv_job _ HI0 (tick s) c Hc) as (Hlt & _). cbn in Hlt. lia. }
  assert (view_of s3 = view_of s2 <| v_job := <[tick s := mkJcore (NewJobID (tick s)) (sc_principal (score_of x)) p false]> (v_job (view_of s2)) |>) as Hview.
  { unfold view_of, s3. cbn. rewrite fmap_insert. unfold jcore_of, y0. cbn. by rewrite Hsx. }
  rewrite Hview. assert (ext (view_of s2) (view_of s3)) as He3 by (rewrite Hview; by apply ext_new_job).
  split_and!.
  - apply Inv_new_job; [done|done| |done]. cbn. lia.
  - by rewrite <-Hview.
  - apply HQ; [|rewrite Hview|done].
    + etrans; [exact He1|]. by etrans.
    + eexists. cbn. rewrite lookup_insert_eq. split; [done|]. by split_and!.
Qed.

Lemma discard_good s j id pr p (Q : () → Server → Prop) :
  is_job (view_of s) j id pr p → (∀ s', ext (view_of s) (view_of s') → Q () s') → good s (discard j) Q.
Proof.
  intros Hj HQ. apply good_bind. eapply markTerminal_good; [done| |].
  - intros _. apply good_bind. eapply stop_timers_good; [done|]. intros s1 He1 _.
    eapply cancel_ctx_good; [by eapply is_job_ext|]. intros s2 He2. apply HQ. by etrans.
  - intros s0 He0 _ _. apply good_bind. eapply stop_timers_good; [by eapply is_job_ext|]. intros s1 He1 _.
    eapply cancel_ctx_good; [eapply is_job_ext; [exact He1|]; by eapply is_job_ext|].
    intros s2 He2. apply HQ. etrans; [exact He0|]. by etrans.
Qed.

Lemma reject_job_good s j id pr p (Q : () → Server → Prop) :
  is_job (view_of s) j id pr p → (∀ s', ext (view_of s) (view_of s') → Q () s') → good s (reject_job j) Q.
Proof.
  intros Hj HQ. apply good_gets_bind. apply good_bind, unregisterJob_good. intros s1 He1 _.
  eapply discard_good; [by eapply is_job_ext|]. intros s2 He2. apply HQ. by etrans.
Qed.

End jobs.
