(* ===== verification/SessionPreservation.v ===== *)
(** * Sessions preserve the invariant

    The lemmas about the operations of the file Session, and the theorem that
    every reachable state satisfies the invariant. *)

From S2P Require Import Prelude GoStrings Errors Features Float64 Lease Canonical LeaseState Messages EventLog IdStore Agents ServerState Delivery Stream Job ListJobs Session Runtime Invariant Preservation JobPreservation.
From Stdlib Require Import ZArith Lia.

Section sessions.
Context {RT : Runtime}.

(** ** Replies *)

(** An envelope that carries no job data fits every session. *)
Lemma fit_reply v pr env :
  job_scoped (env_Type env) = false → env_EventSeq env = 0%Z → well_typed env → fit v pr env.
Proof. intros H1 H2 H3. split; [|done]. intros [H|H]; congruence. Qed.

(** Build an unsequenced reply and send it. *)
Lemma reply_good s p id pr typ pl (f : Envelope → Envelope) (Q : option error → Server → Prop) :
  is_sess (view_of s) p id pr → job_scoped typ = false → payload_typed typ pl →
  (∀ env, env_Type (f env) = env_Type env ∧ env_EventSeq (f env) = env_EventSeq env ∧
     (well_typed env → well_typed (f env))) →
  (∀ r s', ext (view_of s) (view_of s') → Q r s') →
  good s (r ← new_envelope typ pl; match r with Err e => mret (Some e) | Ok env => send p (f env);; mret None end) Q.
Proof.
  intros Hp Hty Hpt Hf HQ. apply good_bind, new_envelope_good. intros s1 Hc1.
  split; [|intros e He1; by apply good_ret, HQ]. intros env Henv He1.
  apply NewEnvelope_fields in Henv as (_ & Ht & Hs & _ & _ & Hwt). destruct (Hf env) as (Hf1 & Hf2 & Hf3).
  apply good_bind. eapply send_plain_good.
  - by eapply is_sess_ext.
  - apply fit_reply; [congruence|congruence|]. apply Hf3, Hwt; [apply NewEnvelopeID_nonempty|done].
  - congruence.
  - unfold is_terminal. rewrite Hf1, Ht. unfold job_scoped in Hty.
    do 3 (apply orb_false_iff in Hty as [Hty ?]). apply orb_false_iff in Hty as [? ?]. by apply orb_false_iff.
  - intros s2 He2 _. apply good_ret, HQ. by etrans.
Qed.

Lemma sendErrorFor_good s p id pr env code msg (Q : option error → Server → Prop) :
  is_sess (view_of s) p id pr → (∀ r s', ext (view_of s) (view_of s') → Q r s') →
  good s (sendErrorFor p env code msg) Q.
Proof. intros Hp HQ. by apply (reply_good s p id pr _ _ (λ out, set_job out (env_JobID env))). Qed.

Lemma handlePing_good s p id pr env (Q : option error → Server → Prop) :
  is_sess (view_of s) p id pr → (∀ r s', ext (view_of s) (view_of s') → Q r s') → good s (handlePing p env) Q.
Proof.
  intros Hp HQ. unfold handlePing. case_goal; [|by apply good_ret, HQ]. apply good_gets_bind.
  by apply (reply_good s p id pr _ _ (λ out, out)).
Qed.

Lemma handleListJobs_good s p id pr env (Q : option error → Server → Prop) :
  is_sess (view_of s) p id pr → (∀ r s', ext (view_of s) (view_of s') → Q r s') → good s (handleListJobs p env) Q.
Proof.
  intros Hp HQ. apply good_gets_bind. case_goal; [by eapply sendErrorFor_good|].
  case_goal; [|by apply good_ret, HQ]. apply good_bind, fresh_good. intros s1 Hc1 _ _ He1. apply good_gets_bind.
  destruct (listJobs _ _ _ _ _ _) as [page|].
  2:{ apply good_bind, good_calm; [by apply calm_eq|]. intros He2. apply good_ret, HQ. by etrans. }
  apply (reply_good s1 p id pr _ _ (λ out, out)); [by eapply is_sess_calm|done|done|done|].
  intros r s2 He2. apply HQ. by etrans.
Qed.

Lemma replayAccepted_good s p id pr acc (Q : option error → Server → Prop) :
  is_sess (view_of s) p id pr → (∀ r s', ext (view_of s) (view_of s') → Q r s') → good s (replayAccepted p acc) Q.
Proof.
  intros Hp HQ.
  by apply (reply_good s p id pr _ _ (λ out, set_trace (set_job out (ja_JobID acc)) (ja_TraceID acc))).
Qed.

(** ** Tables *)

Lemma log_trim_good s sid n (Q : () → Server → Prop) :
  (∀ s', ext (view_of s) (view_of s') → view_of s' = view_of s <| v_log := Trim (log s) sid n |> → Q () s') →
  good s (log_trim sid n) Q.
Proof.
  intros HQ HI. split_and!; [by apply (Inv_trim (view_of s))| |apply HQ; [|done]]; split_and!; cbn; eauto 10.
Qed.

Lemma delete_resume_good s id (Q : () → Server → Prop) :
  (∀ s', ext (view_of s) (view_of s') → resumes s' = delete id (resumes s) → seqAllocs s' = seqAllocs s →
     hsess s' = hsess s → Q () s') →
  good s (delete_resume id) Q.
Proof.
  intros HQ HI. set (s' := s <| resumes := delete id (resumes s) |>).
  change (Inv (view_of s') ∧ ext (view_of s) (view_of s') ∧ Q () s').
  assert (view_of s' = view_of s <| v_resumes := delete id (v_resumes (view_of s)) |>) as Hv.
  { unfold view_of, s'. cbn. by rewrite fmap_delete. }
  assert (ext (view_of s) (view_of s')) as He by (rewrite Hv; split_and!; cbn; eauto 10).
  split_and!; [rewrite Hv; by apply Inv_delete_resume|done|by apply HQ].
Qed.

(** No session of the id is live and it has no resume entry. *)
Definition dead (s : Server) (id : string) : Prop :=
  resumes s !! id = None ∧ ∀ p x, v_sess (view_of s) !! p = Some x → sc_id x = id → sc_pc x = SDone.

Lemma dropAlloc_good s id (Q : () → Server → Prop) :
  dead s id →
  (∀ s', ext (view_of s) (view_of s') → resumes s' = resumes s → hsess s' = hsess s → Q () s') →
  good s (dropAlloc id) Q.
Proof.
  intros [Hr Hd] HQ HI. set (s' := s <| seqAllocs := delete id (seqAllocs s) |>).
  change (Inv (view_of s') ∧ ext (view_of s) (view_of s') ∧ Q () s').
  assert (ext (view_of s) (view_of s')) as He by (split_and!; cbn; eauto 10).
  split_and!; [|done|by apply HQ]. apply (Inv_drop_alloc (view_of s)); [done| |done].
  cbn. by rewrite lookup_fmap, Hr.
Qed.

Lemma resumes_dead s id e :
  Inv (view_of s) → resumes s !! id = Some e →
  re_sessionID e = id ∧ is_Some (seqAllocs s !! id) ∧
  (∃ p x, v_sess (view_of s) !! p = Some x ∧ sc_id x = id ∧ sc_principal x = re_principal e) ∧
  (∀ p x, v_sess (view_of s) !! p = Some x → sc_id x = id → sc_pc x = SDone).
Proof.
  intros HI He. assert (v_resumes (view_of s) !! id = Some (rcore_of e)) as Hv by (cbn; by rewrite lookup_fmap, He).
  by destruct (inv_resumes _ HI id _ Hv) as (? & ? & ? & ?).
Qed.

(** The purge of the janitor. *)
Lemma purge_good s (Q : () → Server → Prop) :
  (∀ s', ext (view_of s) (view_of s') → Q () s') → good s purgeExpiredResumes Q.
Proof.
  intros HQ. apply good_bind, fresh_good. intros s1 Hc1 _ _ He1. apply good_Inv. intros HI1. apply good_gets_bind.
  set (ids := expired_ids s1 (tick s)).
  assert (∀ id, id ∈ ids → ∀ p x, v_sess (view_of s1) !! p = Some x → sc_id x = id → sc_pc x = SDone) as Hdone.
  { intros id Hid. unfold ids, expired_ids in Hid. apply list_elem_of_In, filter_In in Hid as [_ Hid].
    destruct (resumes s1 !! id) as [e|] eqn:He; [|done]. by destruct (resumes_dead s1 id e HI1 He) as (_ & _ & _ & ?). }
  apply good_bind.
  assert (∀ l s2, (∀ id, id ∈ l → id ∈ ids) → v_sess (view_of s2) = v_sess (view_of s1) →
    good s2 (for_each l delete_resume) (λ _ s3, v_sess (view_of s3) = v_sess (view_of s1) ∧
      (∀ id, id ∈ l ∨ resumes s2 !! id = None → resumes s3 !! id = None))) as Hdel.
  { induction l as [|id l IH]; intros s2 Hl Hs2; simpl.
    - apply good_ret. split; [done|]. intros id [H|H]; [by apply not_elem_of_nil in H|done].
    - apply good_bind, delete_resume_good. intros s3 He3 Hr3 _ Hh3 _.
      eapply good_mono; [apply IH|].
      + intros id' Hid'. apply Hl. by right.
      + cbn. by rewrite Hh3.
      + simpl. intros _ s4 _ [Hs4 Hr4]. split; [done|]. intros id' Hid'. apply Hr4. rewrite Hr3.
        destruct Hid' as [[->|?]%elem_of_cons|Hn]; [right; apply lookup_delete_eq|by left|].
        right. apply lookup_delete_None. by right. }
  eapply good_mono; [by apply Hdel|]. simpl. intros _ s2 He2 [Hs2 Hr2] _.
  assert (∀ l s3, (∀ id, id ∈ l → id ∈ ids) → v_sess (view_of s3) = v_sess (view_of s1) →
    (∀ id, id ∈ l → resumes s3 !! id = None) →
    good s3 (for_each l (λ id, log_trim id max_u64;; dropAlloc id)) (λ _ _, True)) as Hdrop.
  { induction l as [|id l IH]; intros s3 Hl Hs3 Hr3; simpl; [by apply good_ret|].
    apply good_bind, good_bind, log_trim_good. intros s4 _ Hv4 _. apply dropAlloc_good.
    - split.
      + assert (v_resumes (view_of s4) !! id = None) as H; [|cbn in H; rewrite lookup_fmap in H; by apply fmap_None in H].
        rewrite Hv4. cbn. rewrite lookup_fmap, Hr3; [done|by left].
      + rewrite Hv4. cbn [v_sess set_field]. intros p x Hx. cbn in Hx. unfold view_of in Hs3. cbn in Hs3. rewrite Hs3 in Hx.
        eapply Hdone; [apply Hl; by left|exact Hx].
    - intros s5 _ Hr5 Hh5 _. assert (v_sess (view_of s5) = v_sess (view_of s1)) as Hs5.
      { cbn. rewrite Hh5. change (v_sess (view_of s4) = v_sess (view_of s1)). by rewrite Hv4. }
      apply IH; [|done|].
      + intros id' Hid'. apply Hl. by right.
      + intros id' Hid'. rewrite Hr5.
        assert (v_resumes (view_of s4) !! id' = None) as H; [|cbn in H; rewrite lookup_fmap in H; by apply fmap_None in H].
        rewrite Hv4. cbn. rewrite lookup_fmap, Hr3; [done|by right]. }
  eapply good_mono; [apply Hdrop; [done|done|]|].
  - intros id Hid. apply Hr2. by left.
  - simpl. intros [] s3 He3 _. apply HQ. etrans; [exact He1|]. by etrans.
Qed.

(** ** Resume *)

(** The id can be given to a new session of the principal. *)
Definition claimable (v : view) (id pr : string) : Prop :=
  is_Some (v_seqAllocs v !! id) ∧ v_resumes v !! id = None ∧
  ∀ q y, v_sess v !! q = Some y → sc_id y = id → sc_pc y = SDone ∧ sc_principal y = pr.

Lemma claimResume_good s req pr (Q : res resumeEntry → Server → Prop) :
  (∀ e s', ext (view_of s) (view_of s') → Q (Err e) s') →
  (∀ entry s', ext (view_of s) (view_of s') → claimable (view_of s') (re_sessionID entry) pr → Q (Ok entry) s') →
  good s (claimResume req pr) Q.
Proof.
  intros HQe HQo. apply good_gets_bind. apply good_bind, fresh_good. intros s1 Hc1 _ _ He1. apply good_gets_bind.
  apply good_bind. apply (for_each_good _ _ s1 (λ _, True)); [done| |].
  { intros id s2 _ _ _. apply good_bind, delete_resume_good. intros s3 _ _ _ _ _. by apply log_trim_good. }
  intros s2 He2 _ _. assert (ext (view_of s) (view_of s2)) as He by by etrans.
  apply good_Inv. intros HI2. apply good_gets_bind.
  destruct (resumes s2 !! rr_SessionID req) as [entry|] eqn:Hent; [|by apply good_ret, HQe].
  destruct (entry_expired _ entry).
  { apply good_bind, delete_resume_good. intros s3 He3 _ _ _ _. apply good_ret, HQe. by etrans. }
  case_goal; [by apply good_ret, HQe|]. destruct (negb (bool_decide (re_principal entry = pr))) eqn:Hpr; [by apply good_ret, HQe|].
  breflect. destruct (resumes_dead s2 _ _ HI2 Hent) as (Hid & Ha & (p & x & Hx & Hxid & Hxpr) & Hdone).
  apply good_bind, delete_resume_good. intros s3 He3 Hr3 Hs3 Hh3 _. apply good_ret, HQo; [by etrans|].
  rewrite Hid. split_and!.
  - cbn. by rewrite Hs3.
  - cbn. rewrite lookup_fmap, Hr3, lookup_delete_eq. done.
  - intros q y Hy Hyid. cbn in Hy. rewrite Hh3 in Hy. split; [by eapply Hdone|].
    destruct (inv_same _ HI2 q p y x Hy Hx) as [? _]; [congruence|]. congruence.
Qed.

(** ** The handshake *)

(** Nobody has the id yet. *)
Definition brand_new (v : view) (id : string) : Prop :=
  known_id v id ∧ v_seqAllocs v !! id = None ∧ ∀ q y, v_sess v !! q = Some y → sc_id y ≠ id.

Lemma claimable_calm v w id pr : calm v w → claimable v id pr → claimable w id pr.
Proof. by intros [_ ->]. Qed.

Lemma brand_new_calm v w id : calm v w → brand_new v id → brand_new w id.
Proof.
  intros [Ht ->] ((n & Hn & ->) & H2 & H3). split_and!; [|done|done]. exists n. cbn in *. split; [lia|done].
Qed.

Lemma buildWelcome_good s id token feats (Q : res Envelope → Server → Prop) :
  (∀ r s', calm (view_of s) (view_of s') → Q r s') → good s (buildWelcome id token feats) Q.
Proof.
  intros HQ. apply good_gets_bind, good_gets_bind. apply good_bind, new_envelope_good.
  intros s1 Hc1. split; intros; by apply good_ret, HQ.
Qed.

Lemma allocFor_good s id pr (Q : nat → Server → Prop) :
  claimable (view_of s) id pr ∨ brand_new (view_of s) id →
  (∀ a s', ext (view_of s) (view_of s') → claimable (view_of s') id pr → v_seqAllocs (view_of s') !! id = Some a → Q a s') →
  good s (allocFor id) Q.
Proof.
  intros Hslot HQ. apply good_Inv. intros HI. apply good_gets_bind.
  destruct (seqAllocs s !! id) as [a|] eqn:Ha.
  - apply good_ret, HQ; [done| |done]. destruct Hslot as [H|(_ & H & _)]; [done|]. cbn in H. congruence.
  - destruct Hslot as [[[a H] _]|(Hk & Hn & Hno)]; [cbn in H; congruence|].
    apply good_bind, fresh_good. intros s1 Hc1 Hlt -> He1 HI1.
    set (s1 := s <| tick := S (tick s) |>) in *.
    set (s2 := s1 <| halloc := <[tick s := 0%Z]> (halloc s1) |> <| seqAllocs := <[id := tick s]> (seqAllocs s1) |>).
    change (Inv (view_of s2) ∧ ext (view_of s1) (view_of s2) ∧ Q (tick s) s2).
    assert (ext (view_of s1) (view_of s2)) as He2 by (split_and!; cbn; eauto 10).
    split_and!; [|done|].
    + apply (Inv_new_alloc (view_of s1) (tick s) id HI1).
      * cbn. destruct (halloc s !! tick s) as [z|] eqn:Hz; [|done].
        destruct (inv_alloc _ HI _ _ Hz) as [Hl _]. cbn in Hl. lia.
      * cbn. lia.
      * by eapply brand_new_calm.
      * done.
      * done.
    + apply HQ; [by etrans| |cbn; by rewrite lookup_insert_eq]. split_and!.
      * cbn. rewrite lookup_insert_eq. by eauto.
      * cbn. rewrite lookup_fmap. destruct (resumes s !! id) as [e|] eqn:Hr; [|done].
        destruct (resumes_dead s id e HI Hr) as (_ & [? ?] & _). congruence.
      * intros q y Hy Hid. by destruct (Hno q y Hy).
Qed.

Lemma setIfGreater_good s a v (Q : () → Server → Prop) :
  is_Some (halloc s !! a) →
  (∀ s', ext (view_of s) (view_of s') → resumes s' = resumes s → seqAllocs s' = seqAllocs s → hsess s' = hsess s → Q () s') →
  good s (setIfGreater a v) Q.
Proof.
  intros [z Hz] HQ HI. unfold setIfGreater, modify. cbn [fst snd].
  assert (alloc s a = z) as Hal by (unfold alloc; by rewrite Hz). rewrite Hal.
  destruct (Z.ltb_spec z v); [|by split_and!; [|done|apply HQ]].
  destruct (inv_alloc _ HI _ _ Hz) as [_ Hz0].
  set (s' := s <| halloc := <[a := v]> (halloc s) |>).
  assert (view_of s' = view_of s <| v_alloc := <[a := v]> (v_alloc (view_of s)) |> <| v_wrapped := wrapped s |>) as Hv by reflexivity.
  assert (ext (view_of s) (view_of s')) as He by (rewrite Hv; by apply ext_bump).
  split_and!; [rewrite Hv|done|by apply HQ].
  apply (Inv_bump (view_of s) a z v (wrapped s)); [done|done|lia|]. intros Hw. split; [exact Hw|lia].
Qed.

Lemma newSession_good s id pr t feats cap a token isr from (Q : nat → Server → Prop) :
  claimable (view_of s) id pr → v_seqAllocs (view_of s) !! id = Some a →
  (∀ p s', ext (view_of s) (view_of s') → Q p s') →
  good s (newSession id pr t feats cap a token isr from) Q.
Proof.
  intros Hcl Ha HQ. apply good_Inv. intros HI. apply good_bind, fresh_good. intros s1 Hc1 Hlt -> He1 HI1.
  set (s1 := s <| tick := S (tick s) |>) in *.
  unfold mbind, M_bind, modify, mret, M_ret.
  set (x := mkSession id pr t feats cap false [] false false None false None a 0%N true false false token isr from SHandshaken).
  set (s2 := s1 <| hsess := <[tick s := x]> (hsess s1) |>).
  change (Inv (view_of s2) ∧ ext (view_of s1) (view_of s2) ∧ Q (tick s) s2).
  assert (view_of s2 = view_of s1 <| v_sess := <[tick s := score_of x]> (v_sess (view_of s1)) |>) as Hv.
  { unfold view_of, s2. cbn. by rewrite fmap_insert. }
  assert (v_sess (view_of s1) !! tick s = None) as Hnone.
  { destruct (v_sess (view_of s1) !! tick s) as [y|] eqn:Hy; [|done].
    destruct (inv_sess_lt _ HI (tick s) y Hy) as [Hl _]. cbn in Hl. lia. }
  assert (ext (view_of s1) (view_of s2)) as He2 by (rewrite Hv; by apply ext_new_sess).
  destruct Hcl as (_ & Hr & Hall).
  split_and!; [rewrite Hv|done|apply HQ; by etrans].
  apply Inv_new_sess; [done|done|cbn; lia|exact Ha|exact Hr|exact Hall].
Qed.

Lemma welcome_session_good s t id pr hello floor_ isr from (Q : res nat → Server → Prop) :
  claimable (view_of s) id pr ∨ brand_new (view_of s) id →
  (∀ r s', ext (view_of s) (view_of s') → Q r s') →
  good s (welcome_session t id pr hello floor_ isr from) Q.
Proof.
  intros Hslot HQ. apply good_gets_bind. cbv zeta. apply good_bind, fresh_good. intros s1 Hc1 _ _ He1.
  apply good_bind, buildWelcome_good. intros r s2 Hc2 He2. destruct r as [wenv|]; [|apply good_ret, HQ; by etrans].
  apply good_bind, transport_send_good. intros err s3 Hc3 He3.
  assert (ext (view_of s) (view_of s3)) as He by (etrans; [exact He1|]; by etrans).
  destruct err; [by apply good_ret, HQ|].
  assert (calm (view_of s) (view_of s3)) as Hc by (eapply calm_trans; [exact Hc1|]; by eapply calm_trans).
  apply good_bind. eapply allocFor_good.
  { destruct Hslot; [left; by eapply claimable_calm|right; by eapply brand_new_calm]. }
  intros a s4 He4 Hcl4 Ha4 _. apply good_Inv. intros HI4.
  apply good_bind, setIfGreater_good; [by destruct (inv_seqAllocs _ HI4 id a Ha4) as (_ & ? & _)|].
  intros s5 He5 Hr5 Hs5 Hh5 _. apply good_bind.
  eapply newSession_good; [|cbn; rewrite Hs5; exact Ha4|].
  - destruct Hcl4 as (H1 & H2 & H3). split_and!; cbn in *; rewrite ?Hr5, ?Hs5, ?Hh5; done.
  - intros p s6 He6 _. apply good_ret, HQ. etrans; [exact He|]. etrans; [exact He4|]. by etrans.
Qed.

Lemma sendSessionError_good s t id code msg (Q : option error → Server → Prop) :
  (∀ r s', calm (view_of s) (view_of s') → Q r s') → good s (sendSessionError t id code msg) Q.
Proof.
  intros HQ. apply good_bind, new_envelope_good. intros s1 Hc1. split; [|intros; by apply good_ret, HQ].
  intros env _ _. apply transport_send_good. intros r s2 Hc2. apply HQ. by eapply calm_trans.
Qed.

Lemma handshake_good s t recv (Q : res nat → Server → Prop) :
  (∀ r s', ext (view_of s) (view_of s') → Q r s') → good s (handshake t recv) Q.
Proof.
  intros HQ. unfold handshake. destruct recv as [env|]; [|by apply good_ret, HQ].
  case_goal; [by apply good_ret, HQ|]. destruct (decode_hello _) as [hello|]; [|by apply good_ret, HQ].
  apply good_gets_bind, good_bind, fresh_good. intros s1 Hc1 _ _ He1.
  destruct (authenticate _ _ _) as [pr|e].
  2:{ apply good_bind, sendSessionError_good. intros r s2 Hc2 He2. apply good_ret, HQ. by etrans. }
  destruct (sh_Resume hello) as [rr|].
  - apply good_bind. apply claimResume_good.
    + intros e s2 He2 _. apply good_bind, sendSessionError_good. intros r s3 Hc3 He3. apply good_ret, HQ.
      etrans; [exact He1|]. by etrans.
    + intros entry s2 He2 Hcl _. apply good_gets_bind. cbv zeta.
      match goal with |- context [if ?b && ?c then _ else _] => destruct (b && c) end.
      * apply good_bind, sendSessionError_good. intros r s3 Hc3 He3. apply good_ret, HQ.
        etrans; [exact He1|]. by etrans.
      * eapply welcome_session_good; [by left|]. intros r s3 He3. apply HQ. etrans; [exact He1|]. by etrans.
  - apply good_Inv. intros HI1. apply good_bind, fresh_good. intros s2 Hc2 Hlt2 Heq2 He2.
    eapply welcome_session_good; [right|intros r s3 He3; apply HQ; etrans; [exact He1|]; by etrans].
    assert (∀ id, known_id (view_of s1) id → id ≠ NewSessionID (tick s1)) as Hne.
    { intros id (n & Hn & ->) H%NewSessionID_inj. cbn in Hn. lia. }
    rewrite Heq2. split_and!.
    + exists (tick s1). cbn. split; [lia|done].
    + destruct (v_seqAllocs _ !! _) as [a|] eqn:Ha; [|done].
      destruct (inv_seqAllocs _ HI1 _ _ Ha) as (Hk & _). by destruct (Hne _ Hk).
    + intros q y Hy. destruct (inv_sess_lt _ HI1 q y Hy) as [_ Hk]. by apply Hne.
Qed.

Lemma Accept_handshake_good s t recv (Q : res nat → Server → Prop) :
  (∀ r s', ext (view_of s) (view_of s') → Q r s') → good s (Accept_handshake t recv) Q.
Proof.
  intros HQ. apply good_bind, handshake_good. intros r s1 He1 _. destruct r; [by apply good_ret, HQ|].
  apply good_bind, transport_close_good. intros s2 Hc2 He2. apply good_ret, HQ. by etrans.
Qed.

(** ** The lifecycle *)

(** The session is live: [Accept] has not returned. *)
Definition live (v : view) (p : nat) : Prop := ∃ x, v_sess v !! p = Some x ∧ sc_pc x ≠ SDone.

Lemma live_quiet v w p : quiet v w → live v p → live w p.
Proof. intros [_ Hs] (x & Hx & Hl). exists x. by rewrite Hs. Qed.

Lemma live_sess v p : live v p → ∃ id pr, is_sess v p id pr.
Proof. intros (x & Hx & _). by exists (sc_id x), (sc_principal x), x. Qed.

Lemma fmap_alter_pc (m : gmap nat session) p x f pc :
  m !! p = Some x → score_of (f x) = with_pc (score_of x) pc →
  score_of <$> alter f p m = <[p := with_pc (score_of x) pc]> (score_of <$> m).
Proof.
  intros Hx Hf. apply map_eq. intros q. rewrite lookup_fmap, lookup_alter, lookup_insert. case_decide.
  - subst q. rewrite Hx. simpl. by rewrite Hf.
  - by rewrite lookup_fmap.
Qed.

Lemma view_alter_pc s p x f pc :
  hsess s !! p = Some x → score_of (f x) = with_pc (score_of x) pc →
  view_of (s <| hsess := alter f p (hsess s) |>) =
  view_of s <| v_sess := <[p := with_pc (score_of x) pc]> (v_sess (view_of s)) |>.
Proof.
  intros Hx Hf. unfold view_of at 1. cbn. rewrite (fmap_alter_pc _ _ x _ pc) by done. reflexivity.
Qed.

Lemma set_pc_good s p f pc (Q : () → Server → Prop) :
  live (view_of s) p → (∀ x, score_of (f x) = with_pc (score_of x) pc) →
  (∀ s', ext (view_of s) (view_of s') → Q () s') → good s (set_sess p f) Q.
Proof.
  intros (c & Hc & Hl) Hf HQ HI. cbn in Hc. rewrite lookup_fmap in Hc.
  destruct (hsess s !! p) as [x|] eqn:Hx; simplify_eq/=.
  pose proof (view_alter_pc s p x f pc Hx (Hf x)) as Hv. destruct (sess_view s p x Hx) as [Hvx _].
  assert (ext (view_of s) (view_of (s <| hsess := alter f p (hsess s) |>))) as He by (rewrite Hv; by apply ext_pc).
  unfold set_sess, modify. cbn [fst snd]. split_and!; [rewrite Hv; apply Inv_pc; [done|done|intros _; exact Hl]|done|by apply HQ].
Qed.

Lemma calm_live v w p : calm v w → live v p → live w p.
Proof. intros Hc. by apply live_quiet, calm_quiet. Qed.

Lemma Accept_register_good s p (Q : () → Server → Prop) :
  live (view_of s) p → (∀ s', ext (view_of s) (view_of s') → Q () s') → good s (Accept_register p) Q.
Proof.
  intros Hl HQ. apply good_bind. apply good_gets_bind. case_goal.
  - apply good_ret. intros _. apply good_gets_bind. apply good_bind, transport_close_good. intros s1 Hc1 He1.
    eapply (set_pc_good _ _ _ SDone); [by eapply calm_live|intros []; reflexivity|]. intros s2 He2. apply HQ. by etrans.
  - apply good_bind, good_calm; [by apply calm_eq|]. intros He1. apply good_ret. intros _.
    eapply (set_pc_good _ _ _ SRegistered); [exact Hl|intros []; reflexivity|]. intros s2 He2. apply HQ. by etrans.
Qed.

Lemma setCurrentSession_good s p id pr (Q : () → Server → Prop) :
  is_sess (view_of s) p id pr →
  (∀ s', ext (view_of s) (view_of s') → quiet (view_of s) (view_of s') → Q () s') → good s (setCurrentSession p) Q.
Proof.
  intros Hp HQ HI. destruct (is_sess_inv _ _ _ _ Hp) as (x & Hx & Hsx & _). destruct (sess_view s p x Hx) as [Hv _].
  unfold setCurrentSession, modify. cbn [fst snd]. rewrite Hsx.
  set (s' := s <| current := <[s_id x := p]> (current s) |>).
  assert (ext (view_of s) (view_of s')) as He by (split_and!; cbn; eauto 10).
  split_and!; [|done|by apply HQ].
  apply (Inv_current (view_of s) (<[s_id x := p]> (current s))); [done|].
  intros i q [[<- <-]|[_ Hq]]%lookup_insert_Some; [right; by exists (score_of x)|by left].
Qed.

Lemma clearCurrentSession_good s p (Q : () → Server → Prop) :
  (∀ s', ext (view_of s) (view_of s') → quiet (view_of s) (view_of s') → Q () s') → good s (clearCurrentSession p) Q.
Proof.
  intros HQ HI. unfold clearCurrentSession, modify. cbn [fst snd]. case_goal; [|by split_and!; [|done|apply HQ]].
  set (s' := s <| current := delete (s_id (sess s p)) (current s) |>).
  assert (ext (view_of s) (view_of s')) as He by (split_and!; cbn; eauto 10).
  split_and!; [|done|by apply HQ].
  apply (Inv_current (view_of s) (delete (s_id (sess s p)) (current s))); [done|].
  intros i q [_ Hq]%lookup_delete_Some. by left.
Qed.

Lemma run_current_good s p (Q : () → Server → Prop) :
  live (view_of s) p → (∀ s', ext (view_of s) (view_of s') → Q () s') → good s (run_current p) Q.
Proof.
  intros Hl HQ. destruct (live_sess _ _ Hl) as (id & pr & Hp). apply good_bind.
  eapply setCurrentSession_good; [done|]. intros s1 He1 Hq1 _.
  eapply (set_pc_good _ _ _ SCurrent); [by eapply live_quiet|intros []; reflexivity|]. intros s2 He2. apply HQ. by etrans.
Qed.

(** A logged entry fits every session of its id. *)
Lemma logged_fit v p id pr e n sid :
  Inv v → is_sess v p id pr → e ∈ entries_of (v_log v) id → fit v pr (set_seq (set_session (en_Envelope e) sid) n).
Proof.
  intros HI (x & Hx & Hxid & Hxpr) He. destruct (inv_log v HI id e He) as [Hin Hsid].
  destruct (inv_persist v HI e Hin) as (_ & Hwt & Hjid & q & y & Hy & Hyid & Hj). split; [intros _|exact Hwt].
  destruct (inv_same v HI q p y x Hy Hx) as [Hpr _]; [congruence|].
  cbn. rewrite <-Hjid. by rewrite <-Hxpr, <-Hpr.
Qed.

Lemma set_seq_same env : set_seq env (env_EventSeq env) = env.
Proof. by destruct env. Qed.

Lemma replayBuffered_good s p id pr from (Q : () → Server → Prop) :
  is_sess (view_of s) p id pr →
  (∀ s', ext (view_of s) (view_of s') → quiet (view_of s) (view_of s') → Q () s') →
  good s (replayBuffered p from) Q.
Proof.
  intros Hp HQ. apply good_Inv. intros HI. destruct (is_sess_inv _ _ _ _ Hp) as (x & Hx & Hsx & Hid & _).
  apply good_gets_bind, good_gets_bind. rewrite Hsx, Hid.
  apply (for_each_good _ _ s (λ s', quiet (view_of s) (view_of s'))); [apply quiet_refl| |done].
  intros e s1 He He1 Hq1. rewrite merge_sort_Permutation in He. unfold Since in He.
  apply list_elem_of_filter in He as [_ He].
  eapply enqueue_good; [by eapply is_sess_ext| |].
  - eapply fit_ext; [exact He1|]. rewrite <-(set_seq_same (set_session (en_Envelope e) id)).
    eapply logged_fit; [done|done|exact He].
  - intros s2 He2 Hq2. by eapply quiet_trans.
Qed.

Lemma run_replay_good s p (Q : () → Server → Prop) :
  live (view_of s) p → (∀ s', ext (view_of s) (view_of s') → Q () s') → good s (run_replay p) Q.
Proof.
  intros Hl HQ. destruct (live_sess _ _ Hl) as (id & pr & Hp). apply good_gets_bind. apply good_bind.
  assert (good s (when (s_isResume (sess s p)) (replayBuffered p (s_replayFrom (sess s p))))
    (λ _ s1, quiet (view_of s) (view_of s1))) as Hrep.
  { apply good_when; [|intros _; apply quiet_refl]. intros _. by eapply replayBuffered_good. }
  eapply good_mono; [exact Hrep|]. simpl. intros _ s1 He1 Hq1 _. apply good_gets_bind, good_gets_bind.
  apply good_bind. case_goal.
  - apply set_sess_calm_good; [by intros []|]. intros s2 Hc2 He2.
    eapply (set_pc_good _ _ _ SReading); [eapply calm_live; [done|by eapply live_quiet]|intros []; reflexivity|].
    intros s3 He3. apply HQ. etrans; [exact He1|]. by etrans.
  - apply good_ret. intros _. eapply (set_pc_good _ _ _ SReading); [by eapply live_quiet|intros []; reflexivity|].
    intros s3 He3. apply HQ. by etrans.
Qed.

Lemma session_exit_good s p (Q : () → Server → Prop) :
  live (view_of s) p → (∀ s', ext (view_of s) (view_of s') → Q () s') → good s (session_exit p) Q.
Proof.
  intros Hl HQ. apply good_bind, set_sess_calm_good; [by intros []|]. intros s1 Hc1 He1.
  apply good_bind, clearCurrentSession_good. intros s2 He2 Hq2 _.
  apply good_bind, set_sess_calm_good; [by intros []|]. intros s3 Hc3 He3. apply good_gets_bind.
  apply good_bind, transport_close_good. intros s4 Hc4 He4.
  eapply (set_pc_good _ _ _ SExited); [|intros []; reflexivity|].
  - eapply calm_live; [exact Hc4|]. eapply calm_live; [exact Hc3|]. eapply live_quiet; [exact Hq2|]. by eapply calm_live.
  - intros s5 He5. apply HQ. etrans; [exact He1|]. etrans; [exact He2|]. etrans; [exact He3|]. by etrans.
Qed.

(** The only live session of its id, once it is done. *)
Lemma all_done v p x :
  Inv v → v_sess v !! p = Some x → sc_pc x ≠ SDone →
  ∀ q y, v_sess (v <| v_sess := <[p := with_pc x SDone]> (v_sess v) |>) !! q = Some y → sc_id y = sc_id x → sc_pc y = SDone.
Proof.
  intros HI Hx Hl q y Hy Hid. destruct (with_pc_lookup _ _ _ _ _ _ Hx Hy) as (z & Hz & Hzid & _ & _ & ->).
  case_decide as Heq; [done|]. destruct (decide (sc_pc z = SDone)) as [|Hzl]; [done|].
  destruct (inv_live v HI p x Hx Hl) as [_ Hu]. destruct Heq. symmetry. apply (Hu q z); [done|congruence|done].
Qed.

Lemma Accept_tail_good s p (Q : () → Server → Prop) :
  live (view_of s) p → (∀ s', ext (view_of s) (view_of s') → Q () s') → good s (Accept_tail p) Q.
Proof.
  intros (c & Hc & Hl) HQ HI. pose proof Hc as Hc'. cbn in Hc'. rewrite lookup_fmap in Hc'.
  destruct (hsess s !! p) as [x|] eqn:Hx; simplify_eq/=.
  assert (sess s p = x) as Hsx by (unfold sess; by rewrite Hx).
  set (v1 := view_of s <| v_sess := <[p := with_pc (score_of x) SDone]> (v_sess (view_of s)) |>).
  assert (Inv v1) as HI1 by (apply Inv_pc; [done|done|by intros ?]).
  assert (ext (view_of s) v1) as He1 by by apply ext_pc.
  assert (v_sess v1 !! p = Some (with_pc (score_of x) SDone)) as Hv1 by (cbn; by rewrite lookup_insert_eq).
  pose proof (all_done (view_of s) p (score_of x) HI Hc Hl) as Hdone. fold v1 in Hdone.
  destruct (inv_live _ HI p _ Hc Hl) as [Halloc _]. cbn in Halloc.
  unfold Accept_tail, mbind, M_bind, gets. rewrite Hsx.
  destruct (s_gracefulBye x); [|destruct (negb (bool_decide (s_resumeToken x = "")) && negb (closed s))];
    unfold dropResume, stashResume, unregisterSession, set_pc, set_sess, delete_resume, log_trim, dropAlloc, mbind, M_bind,
      mret, M_ret, modify; cbn [fst snd].
  - match goal with |- Inv (view_of ?s') ∧ _ => set (s'' := s') end.
    assert (view_of s'' = v1 <| v_resumes := delete (s_id x) (v_resumes v1) |> <| v_log := Trim (v_log v1) (s_id x) max_u64 |>
      <| v_seqAllocs := delete (s_id x) (v_seqAllocs v1) |>) as Hv.
    { unfold view_of at 1. cbn. rewrite (fmap_alter_pc _ _ x _ SDone), fmap_delete by done. reflexivity. }
    assert (ext (view_of s) (view_of s'')) as He by (rewrite Hv; etrans; [exact He1|]; split_and!; cbn; eauto 10).
    split_and!; [rewrite Hv|done|by apply HQ].
    set (v2 := v1 <| v_resumes := delete (s_id x) (v_resumes v1) |>).
    set (v3 := v2 <| v_log := Trim (v_log v2) (s_id x) max_u64 |>).
    apply (Inv_drop_alloc v3 (s_id x)).
    + apply (Inv_trim v2). by apply Inv_delete_resume.
    + cbn. by rewrite lookup_delete_eq.
    + exact Hdone.
  - match goal with |- Inv (view_of ?s') ∧ _ => set (s'' := s') end.
    assert (view_of s'' = v1 <| v_resumes := <[s_id x := (s_id x, s_principal x)]> (v_resumes v1) |>) as Hv.
    { unfold view_of at 1. cbn. rewrite (fmap_alter_pc _ _ x _ SDone), Hsx, fmap_insert by done. reflexivity. }
    assert (ext (view_of s) (view_of s'')) as He by (rewrite Hv; etrans; [exact He1|]; split_and!; cbn; eauto 10).
    split_and!; [rewrite Hv|done|by apply HQ].
    apply (Inv_stash v1 p (with_pc (score_of x) SDone)); [done|done|done|exact Halloc|exact Hdone].
  - match goal with |- Inv (view_of ?s') ∧ _ => set (s'' := s') end.
    assert (view_of s'' = v1) as Hv.
    { unfold view_of at 1. cbn. rewrite (fmap_alter_pc _ _ x _ SDone) by done. reflexivity. }
    split_and!; [by rewrite Hv|by rewrite Hv|apply HQ; by rewrite Hv].
Qed.

End sessions.
