(* ===== verification/HandlerPreservation.v ===== *)
(** * Handlers preserve the invariant

    The lemmas about the request handlers of the file Session, the timers and
    the shutdown, and the theorem that every step of the runtime keeps the
    invariant. *)

From S2P Require Import Prelude GoStrings Errors Features Float64 Lease Canonical LeaseState Messages EventLog IdStore Agents ServerState Delivery Stream Job ListJobs Session Runtime Invariant Preservation JobPreservation SessionPreservation.
From Stdlib Require Import ZArith Lia.

Section handlers.
Context {RT : Runtime}.

Lemma calm_ext v w : calm v w → ext v w.
Proof. intros [? ->]. by apply ext_tick. Qed.

(** A change of the fields outside the view. *)
Lemma modify_calm_good s f (Q : () → Server → Prop) :
  view_of (f s) = view_of s → (∀ s', calm (view_of s) (view_of s') → Q () s') → good s (modify f) Q.
Proof. intros Hv HQ. apply good_calm; [by apply calm_eq|]. by apply HQ, calm_eq. Qed.

Lemma handleAck_good s p id pr env (Q : option error → Server → Prop) :
  is_sess (view_of s) p id pr → (∀ r s', ext (view_of s) (view_of s') → Q r s') → good s (handleAck p env) Q.
Proof.
  intros Hp HQ. apply good_gets_bind. case_goal; [by eapply sendErrorFor_good|].
  case_goal; [|by apply good_ret, HQ].
  apply good_bind, set_sess_calm_good; [intros x; by case_goal|]. intros s1 Hc1 He1. apply good_gets_bind.
  apply good_bind, log_trim_good. intros s2 He2 _ _. apply good_gets_bind, good_gets_bind. apply good_bind.
  apply good_when.
  - intros _. apply set_sess_calm_good; [by intros []|]. intros s3 Hc3 He3. apply good_ret, HQ. etrans; [exact He1|]. by etrans.
  - intros _ _. apply good_ret, HQ. by etrans.
Qed.

(** ** Submission *)

Lemma registerJob_good s j id pr p (Q : bool → Server → Prop) :
  is_job (view_of s) j id pr p → (∀ b s', ext (view_of s) (view_of s') → Q b s') → good s (registerJob j) Q.
Proof.
  intros Hj HQ. apply good_gets_bind, good_gets_bind. case_goal; [by apply good_ret, HQ|].
  destruct (is_job_inv _ _ _ _ _ Hj) as (y & Hy & Hsy & Hid & _). rewrite Hsy, Hid. intros HI.
  set (s' := s <| jobs := <[id := j]> (jobs s) |>).
  change (Inv (view_of s') ∧ ext (view_of s) (view_of s') ∧ Q true s').
  assert (ext (view_of s) (view_of s')) as He by (split_and!; cbn; eauto 10).
  split_and!; [|done|by apply HQ]. apply (Inv_jobs (view_of s) (<[id := j]> (jobs s))); [done|].
  destruct Hj as (c & Hc & Hcid & _). intros i k [[<- <-]|[_ Hk]]%lookup_insert_Some; [right; by exists c|by left].
Qed.

Lemma job_accepted_good s p id pr env (Q : () → Server → Prop) :
  is_sess (view_of s) p id pr → env_Type env = TypeJobAccepted → env_EventSeq env = 0%Z → well_typed env →
  (∀ s', ext (view_of s) (view_of s') → Q () s') → good s (send p env) Q.
Proof.
  intros Hp Ht H0 Hwt HQ. eapply send_plain_good; [done| |done| |done].
  - apply fit_reply; [by rewrite Ht|done|done].
  - unfold is_terminal. by rewrite Ht.
Qed.

Lemma accept_issued_good s p id pr env req canonical j y t issued jid p' (Q : option error → Server → Prop) :
  is_sess (view_of s) p id pr → is_job (view_of s) j jid pr p' →
  (∀ r s', ext (view_of s) (view_of s') → Q r s') → good s (accept_issued p env req canonical j y t issued) Q.
Proof.
  intros Hp Hj HQ. unfold accept_issued. destruct issued as [creds|e].
  2:{ apply good_bind. eapply reject_job_good; [done|]. intros s2 He2 _. eapply sendErrorFor_good; [by eapply is_sess_ext|].
      intros r s3 He3. apply HQ. by etrans. }
  apply good_bind. eapply set_job_ext_good; [done|by intros []|]. intros s2 He2 _ _.
  apply good_bind, new_envelope_good. intros s3 Hc3. split.
  - intros aenv Haenv He3. apply NewEnvelope_fields in Haenv as (_ & Ht & Hseq & _ & _ & Hwt).
    assert (ext (view_of s) (view_of s3)) as He03 by by etrans.
    apply good_bind. eapply job_accepted_good; [by eapply is_sess_ext|done|done|by apply Hwt; [apply NewEnvelopeID_nonempty|]|]. intros s4 He4 _.
    apply good_bind.
    assert (∀ s5, ext (view_of s4) (view_of s5) → good s5 (set_job_ j (λ y, y <| j_pc := JPending |>);; mret None) Q) as Hend.
    { intros s5 He5. assert (ext (view_of s) (view_of s5)) as He05 by (etrans; [exact He03|]; by etrans).
      apply good_bind. eapply set_job_ext_good; [by eapply is_job_ext|by intros []|]. intros s6 He6 _ _.
      apply good_ret, HQ. by etrans. }
    apply good_when; [|intros _ _; by apply Hend]. intros _. apply good_gets_bind.
    apply modify_calm_good; [done|]. intros s5 Hc5 He5. by apply Hend.
  - intros e He3. apply good_bind. eapply reject_job_good; [eapply is_job_ext; [exact He3|]; by eapply is_job_ext|].
    intros s4 He4 _. apply good_ret, HQ. etrans; [exact He2|]. by etrans.
Qed.

Lemma accept_job_good s p id pr env req canonical j jid p' (Q : option error → Server → Prop) :
  is_sess (view_of s) p id pr → is_job (view_of s) j jid pr p' →
  (∀ r s', ext (view_of s) (view_of s') → Q r s') → good s (accept_job p env req canonical j) Q.
Proof.
  intros Hp Hj HQ. do 4 apply good_gets_bind. cbv zeta. apply good_bind.
  assert (∀ r s1, ext (view_of s) (view_of s1) →
    good s1 (accept_issued p env req canonical j (job s j) (now s) r) Q) as Htail.
  { intros r s1 He1. eapply accept_issued_good; [by eapply is_sess_ext|by eapply is_job_ext|].
    intros r' s2 He2. apply HQ. by etrans. }
  destruct (o_Provisioner _) as [pv|]; [|apply good_ret; intros _; by apply Htail].
  destruct (hasFeature _ _); [|apply good_ret; intros _; by apply Htail].
  apply good_bind, observe_call_good; [done|]. intros s1 He1 _ _.
  apply good_bind, fresh_good. intros s2 Hc2 _ _ He2. apply good_ret. intros _. apply Htail. by etrans.
Qed.

Lemma handleJobSubmit_good s p id pr env (Q : option error → Server → Prop) :
  is_sess (view_of s) p id pr → (∀ r s', ext (view_of s) (view_of s') → Q r s') → good s (handleJobSubmit p env) Q.
Proof.
  intros Hp HQ. unfold handleJobSubmit. destruct (decode_submit _) as [req|]; [|by eapply sendErrorFor_good].
  apply good_bind, fresh_good. intros s1 Hc1 _ _ He1. apply good_gets_bind.
  destruct (submit_checks _ _ _) as [[fn canonical]|[code msg]].
  2:{ eapply sendErrorFor_good; [by eapply is_sess_ext|]. intros r s2 He2. apply HQ. by etrans. }
  apply good_bind. eapply newJob_good; [by eapply is_sess_ext|]. intros j s2 He2 Hj2 _ _.
  apply good_bind. eapply registerJob_good; [done|]. intros b s3 He3 _.
  assert (ext (view_of s) (view_of s3)) as He03 by (etrans; [exact He1|]; by etrans).
  assert (is_sess (view_of s3) p id pr) as Hp3 by exact (is_sess_ext _ _ _ _ _ He03 Hp).
  assert (is_job (view_of s3) j (NewJobID j) pr p) as Hj3 by exact (is_job_ext _ _ _ _ _ _ He3 Hj2).
  destruct (negb b).
  { apply good_bind. eapply discard_good; [done|]. intros s4 He4 _. eapply sendErrorFor_good; [by eapply is_sess_ext|].
    intros r s5 He5. apply HQ. etrans; [exact He03|]. by etrans. }
  cbv zeta. case_goal.
  { eapply accept_job_good; [done|done|]. intros r s4 He4. apply HQ. by etrans. }
  do 4 apply good_gets_bind. apply good_bind, modify_calm_good; [done|]. intros s4 Hc4 He4.
  assert (ext (view_of s) (view_of s4)) as He04 by by etrans.
  assert (is_sess (view_of s4) p id pr) as Hp4 by exact (is_sess_ext _ _ _ _ _ He04 Hp).
  assert (is_job (view_of s4) j (NewJobID j) pr p) as Hj4 by exact (is_job_ext _ _ _ _ _ _ He4 Hj3).
  destruct (IdStore.PutIfAbsent _ _ _ _).1 as [[entry []]|err].
  - eapply accept_job_good; [done|done|]. intros r s5 He5. apply HQ. by etrans.
  - apply good_bind. eapply reject_job_good; [done|]. intros s5 He5 _.
    assert (is_sess (view_of s5) p id pr) as Hp5 by by eapply is_sess_ext.
    assert (∀ r s6, ext (view_of s5) (view_of s6) → Q r s6) as HQ5.
    { intros r s6 He6. apply HQ. etrans; [exact He04|]. by etrans. }
    case_goal; [by eapply sendErrorFor_good|]. case_goal; [by eapply replayAccepted_good|by eapply sendErrorFor_good].
  - apply good_bind. eapply reject_job_good; [done|]. intros s5 He5 _. eapply sendErrorFor_good; [by eapply is_sess_ext|].
    intros r s6 He6. apply HQ. etrans; [exact He04|]. by etrans.
Qed.

(** ** Cancellation *)

(** A registered job, found by its id. *)
Lemma registered_job s id j :
  Inv (view_of s) → jobs s !! id = Some j →
  is_job (view_of s) j id (j_principal (job s j)) (j_session (job s j)) ∧ j_id (job s j) = id.
Proof.
  intros HI Hj. destruct (inv_jobs _ HI id j Hj) as (c & Hc & Hid). cbn in Hc. rewrite lookup_fmap in Hc.
  destruct (hjob s !! j) as [y|] eqn:Hy; simplify_eq/=. unfold job. rewrite Hy. cbn. split; [|done].
  exists (jcore_of y). split_and!; try done. cbn. by rewrite lookup_fmap, Hy.
Qed.

Lemma cancelWithReason_good s j id pr p reason (Q : () → Server → Prop) :
  is_job (view_of s) j id pr p → (∀ s', ext (view_of s) (view_of s') → Q () s') → good s (cancelWithReason j reason) Q.
Proof.
  intros Hj HQ. apply good_bind. eapply set_job_ext_good; [done|by intros []|]. intros s1 He1 _ _.
  eapply cancel_ctx_good; [by eapply is_job_ext|]. intros s2 He2. apply HQ. by etrans.
Qed.

Lemma handleJobCancel_good s p id pr env (Q : option error → Server → Prop) :
  is_sess (view_of s) p id pr → (∀ r s', ext (view_of s) (view_of s') → Q r s') → good s (handleJobCancel p env) Q.
Proof.
  intros Hp HQ. unfold handleJobCancel. destruct (decode_cancel _) as [reason|]; [|by eapply sendErrorFor_good].
  apply good_Inv. intros HI. apply good_gets_bind.
  destruct (jobs s !! env_JobID env) as [j|] eqn:Hj; [|by eapply sendErrorFor_good].
  do 3 apply good_gets_bind. destruct (registered_job s _ _ HI Hj) as [Hjob Hjid].
  destruct (is_sess_inv _ _ _ _ Hp) as (x & Hx & Hsx & Hid & Hpr). rewrite Hsx, Hpr.
  match goal with |- context [if ?b then _ else _] => destruct b eqn:Hauth end; [by eapply sendErrorFor_good|].
  apply orb_false_iff in Hauth as [_ Hauth]. apply negb_false_iff, bool_decide_eq_true in Hauth. rewrite Hauth in Hjob.
  apply good_bind, new_envelope_good. intros s1 Hc1.
  assert (∀ s2, ext (view_of s1) (view_of s2) → ext (view_of s) (view_of s1) →
    good s2 (cancelWithReason j reason;; mret None) Q) as Htail.
  { intros s2 He2 He1. assert (ext (view_of s) (view_of s2)) as He02 by by etrans. apply good_bind.
    eapply cancelWithReason_good; [exact (is_job_ext _ _ _ _ _ _ He02 Hjob)|]. intros s3 He3 _. apply good_ret, HQ. by etrans. }
  split; [|intros e He1; apply good_bind, good_ret; intros _; by apply Htail].
  intros ack Hack He1. apply NewEnvelope_fields in Hack as (_ & Ht & _ & Hpl & _ & Hwt). apply good_bind, good_bind.
  eapply nextSeq_good; [exact (is_sess_ext _ _ _ _ _ He1 Hp)|]. intros n s2 He2 Hq2 Hr2 _.
  assert (ext (view_of s) (view_of s2)) as He02 by by etrans.
  eapply send_good; [exact (is_sess_ext _ _ _ _ _ He02 Hp)| | | |].
  - split; [intros _; cbn; rewrite Hjid; eapply is_job_of, is_job_ext; [exact He02|done]|].
    by apply Hwt; [apply NewEnvelopeID_nonempty|].
  - intros _. split; [|done]. unfold loggable. cbn. by rewrite Hpl.
  - unfold term_ok, is_terminal. cbn. by rewrite Ht.
  - intros s3 He3 _ _. apply Htail; [by etrans|done].
Qed.

(** ** Subscription *)

Lemma subscription_good s p id pr jobID (Q : nat → Server → Prop) :
  is_sess (view_of s) p id pr → job_of (view_of s) pr jobID →
  (∀ q s', ext (view_of s) (view_of s') → Q q s') →
  good s (q ← newSubscription p jobID; addSubscriber jobID q;; mret q) Q.
Proof.
  intros Hp Hj HQ. apply good_Inv. intros HI. apply good_bind, good_bind, fresh_good. intros s1 Hc1 Hlt -> He1 HI1.
  set (s1 := s <| tick := S (tick s) |>) in *.
  unfold addSubscriber, mbind, M_bind, modify, mret, M_ret. cbn [fst snd].
  set (s2 := s1 <| hsub := <[tick s := mkSubscription p jobID false]> (hsub s1) |>).
  assert (view_of s2 = view_of s1 <| v_hsub := <[tick s := (p, jobID)]> (v_hsub (view_of s1)) |>) as Hv2.
  { unfold view_of, s2. cbn. by rewrite fmap_insert. }
  assert (v_hsub (view_of s1) !! tick s = None) as Hnone.
  { destruct (v_hsub (view_of s1) !! tick s) as [[p' id']|] eqn:Hq; [|done].
    destruct (inv_hsub _ HI (tick s) p' id' Hq) as [Hl _]. cbn in Hl. lia. }
  assert (ext (view_of s1) (view_of s2)) as He2 by (rewrite Hv2; by apply ext_new_sub).
  pose proof Hp as (x & Hx & _ & Hxpr).
  assert (Inv (view_of s2)) as HI2.
  { rewrite Hv2. apply (Inv_new_sub (view_of s1) (tick s) p x jobID); [done|done|cbn; lia|done|by rewrite Hxpr]. }
  split_and!; [done|done|]. intros He2' _.
  set (s3 := s2 <| subs := <[jobID := subscribers s2 jobID ++ [tick s]]> (subs s2) |>).
  change (Inv (view_of s3) ∧ ext (view_of s2) (view_of s3) ∧ Q (tick s) s3).
  assert (ext (view_of s2) (view_of s3)) as He3 by (split_and!; cbn; eauto 10).
  split_and!; [|done|apply HQ; etrans; [exact He1|]; by etrans].
  apply (Inv_subs (view_of s2) (<[jobID := subscribers s2 jobID ++ [tick s]]> (subs s2))); [done|].
  intros id' l q [[<- <-]|[_ Hl]]%lookup_insert_Some Hq; [|left; by exists l].
  apply elem_of_app in Hq as [Hq|Hq%list_elem_of_singleton].
  - left. unfold subscribers in Hq. cbn. destruct (subs s !! jobID) as [l|] eqn:Hl.
    + exists l. split; [done|]. unfold s2, s1 in Hq. cbn in Hq. by rewrite Hl in Hq.
    + unfold s2, s1 in Hq. cbn in Hq. rewrite Hl in Hq. by apply not_elem_of_nil in Hq.
  - right. exists p. subst q. rewrite Hv2. cbn. by rewrite lookup_insert_eq.
Qed.

Lemma good_ext {A} s (m m' : M A) Q : m s = m' s → good s m' Q → good s m Q.
Proof. unfold good. by intros ->. Qed.

Lemma bind_flatten {A B} s (m : M A) (f : A → M ()) (k : M B) :
  (m ≫= λ q, f q;; k) s = ((m ≫= λ q, f q;; mret q) ≫= λ _, k) s.
Proof. unfold mbind, M_bind, mret, M_ret. destruct (m s) as [a s1]. by destruct (f a s1) as [[] s2]. Qed.

(** The replay of a job's history to a new subscriber. *)
Lemma history_good s p id pr jid entries sid (Q : () → Server → Prop) :
  is_sess (view_of s) p id pr → job_of (view_of s) pr jid →
  (∀ e, e ∈ entries → env_JobID (en_Envelope e) = jid ∧ well_typed (en_Envelope e)) →
  (∀ s', ext (view_of s) (view_of s') → Q () s') →
  good s (for_each entries (λ e, m ← nextSeq p; enqueue p (set_seq (set_session (en_Envelope e) sid) m))) Q.
Proof.
  intros Hp Hj Hall HQ. apply (for_each_good _ _ s (λ _, True)); [done| |intros; by apply HQ].
  intros e s1 He He1 _. apply good_bind. eapply nextSeq_good; [exact (is_sess_ext _ _ _ _ _ He1 Hp)|].
  intros n s2 He2 _ _ _. assert (ext (view_of s) (view_of s2)) as He02 by by etrans.
  eapply enqueue_good; [exact (is_sess_ext _ _ _ _ _ He02 Hp)| |done].
  destruct (Hall e He) as [Hej Hwt]. split; [intros _; cbn; rewrite Hej; by eapply job_of_ext|exact Hwt].
Qed.

Lemma SinceJob_job m order jid n e :
  e ∈ SinceJob m order jid n → en_JobID e = jid ∧ ∃ sid, e ∈ entries_of m sid.
Proof.
  unfold SinceJob. rewrite list_elem_of_In, in_flat_map. intros (sid & _ & He).
  apply list_elem_of_In, list_elem_of_filter in He as [[Hj _] He]. split; [done|]. by exists sid.
Qed.

Lemma handleJobSubscribe_good s p id pr env (Q : option error → Server → Prop) :
  is_sess (view_of s) p id pr → (∀ r s', ext (view_of s) (view_of s') → Q r s') → good s (handleJobSubscribe p env) Q.
Proof.
  intros Hp HQ. apply good_gets_bind. case_goal; [by eapply sendErrorFor_good|].
  destruct (decode_subscribe _) as [req|]; [|by apply good_ret, HQ]. apply good_Inv. intros HI. apply good_gets_bind.
  destruct (jobs s !! sb_JobID req) as [j|] eqn:Hj; [|by eapply sendErrorFor_good]. apply good_gets_bind.
  destruct (registered_job s _ _ HI Hj) as [Hjob Hjid]. set (y := job s j) in *.
  destruct (is_sess_inv _ _ _ _ Hp) as (x & Hx & Hsx & Hid & Hpr). rewrite Hsx, Hpr.
  match goal with |- context [if ?b then _ else _] => destruct b eqn:Hauth end; [by eapply sendErrorFor_good|]. apply negb_false_iff, bool_decide_eq_true in Hauth.
  rewrite Hauth in Hjob. apply is_job_of in Hjob.
  eapply good_ext; [apply bind_flatten|].
  apply good_bind. eapply subscription_good; [done|done|]. intros q s1 He1 _.
  apply good_gets_bind, good_bind, new_envelope_good. intros s2 Hc2.
  split; [|intros e He2; apply good_ret, HQ; by etrans]. intros out Hout He2.
  apply NewEnvelope_fields in Hout as (_ & Ht & H0 & _ & _ & Hwt).
  assert (ext (view_of s) (view_of s2)) as He02 by by etrans.
  apply good_bind. eapply send_plain_good; [exact (is_sess_ext _ _ _ _ _ He02 Hp)| |done| |].
  { split; [intros _; cbn; rewrite Hjid; by eapply job_of_ext|]. by apply Hwt; [apply NewEnvelopeID_nonempty|]. }
  { unfold is_terminal. cbn. by rewrite Ht. }
  intros s3 He3 _. assert (ext (view_of s) (view_of s3)) as He03 by by etrans. apply good_bind.
  apply good_when; [|intros _ _; by apply good_ret, HQ]. intros _.
  apply good_bind, fresh_good. intros s4 Hc4 _ _ He4. assert (ext (view_of s) (view_of s4)) as He04 by by etrans.
  apply good_Inv. intros HI4. apply good_gets_bind.
  eapply (history_good s4 p id pr (j_id y)); [exact (is_sess_ext _ _ _ _ _ He04 Hp)|rewrite Hjid; by eapply job_of_ext| |].
  - intros e He. apply SinceJob_job in He as [Hje [sid He]]. destruct (inv_log _ HI4 sid e He) as [Hin _].
    destruct (inv_persist _ HI4 e Hin) as (_ & Hwt' & Heq & _). split; [congruence|done].
  - intros s5 He5 _. apply good_ret, HQ. by etrans.
Qed.

Lemma remove_first_sub q q' l : q' ∈ remove_first q l → q' ∈ l.
Proof.
  induction l as [|x l IH]; simpl; [done|]. case_bool_decide; [by right|].
  intros [->|Hq]%elem_of_cons; [by left|right; by apply IH].
Qed.

Lemma handleJobUnsubscribe_good s p env (Q : option error → Server → Prop) :
  (∀ r s', ext (view_of s) (view_of s') → Q r s') → good s (handleJobUnsubscribe p env) Q.
Proof.
  intros HQ. unfold handleJobUnsubscribe. destruct (decode_unsubscribe _) as [jobID|]; [|by apply good_ret, HQ].
  apply good_gets_bind. destruct (list_find _ _) as [[i q]|] eqn:Hf; [|by apply good_ret, HQ].
  apply list_find_Some in Hf as (Hq & _ & _). apply list_elem_of_lookup_2 in Hq.
  apply good_bind. intros HI.
  assert (is_Some (hsub s !! q)) as [z Hz].
  { unfold subscribers in Hq. destruct (subs s !! jobID) as [l|] eqn:Hl; [|by apply not_elem_of_nil in Hq].
    destruct (inv_subs _ HI jobID l q Hl Hq) as (p' & Hp'). cbn in Hp'. rewrite lookup_fmap in Hp'.
    destruct (hsub s !! q); [by eauto|done]. }
  unfold removeSubscriber, modify. cbn [fst snd]. rewrite bool_decide_eq_true_2 by done.
  set (s1 := s <| subs := <[jobID := remove_first q (subscribers s jobID)]> (subs s) |>).
  assert (ext (view_of s) (view_of s1)) as He1 by (split_and!; cbn; eauto 10).
  assert (Inv (view_of s1)) as HI1.
  { apply (Inv_subs (view_of s) (<[jobID := remove_first q (subscribers s jobID)]> (subs s))); [done|].
    intros id' l q' [[<- <-]|[_ Hl]]%lookup_insert_Some Hq'; [|left; by exists l].
    apply remove_first_sub in Hq'. left. unfold subscribers in Hq'. cbn.
    destruct (subs s !! jobID) as [l|]; [by exists l|by apply not_elem_of_nil in Hq']. }
  split_and!; [done|done|]. intros _. apply good_bind.
  assert (view_of (sub_close q s1).2 = view_of s1) as Hv.
  { unfold sub_close, modify, view_of. cbn [snd]. cbn. f_equal. rewrite fmap_insert. apply insert_id.
    rewrite lookup_fmap. unfold sub, s1. cbn. by rewrite Hz. }
  apply good_calm; [by apply calm_eq|]. intros He2. apply good_ret, HQ. by etrans.
Qed.

Lemma handleClose_good s p env (Q : option error → Server → Prop) :
  (∀ r s', ext (view_of s) (view_of s') → Q r s') → good s (handleClose p env) Q.
Proof.
  intros HQ. unfold handleClose. cbv zeta. apply good_bind, set_sess_calm_good; [by intros []|]. intros s1 Hc1 He1.
  apply good_bind, new_envelope_good. intros s2 Hc2.
  assert (∀ s3, ext (view_of s1) (view_of s3) → good s3 (set_sess p (λ x, x <| s_ctxDone := true |>);; mret None) Q) as Htail.
  { intros s3 He3. apply good_bind, set_sess_calm_good; [by intros []|]. intros s4 Hc4 He4. apply good_ret, HQ.
    etrans; [exact He1|]. by etrans. }
  split; intros; apply good_gets_bind, good_bind; [|apply good_ret; intros _; by apply Htail].
  apply good_bind, transport_send_good. intros r s3 Hc3 He3. apply good_ret. intros _. apply Htail. by etrans.
Qed.

Lemma dispatch_good s p id pr env (Q : option error → Server → Prop) :
  is_sess (view_of s) p id pr → (∀ r s', ext (view_of s) (view_of s') → Q r s') → good s (dispatch p env) Q.
Proof.
  intros Hp HQ. unfold dispatch. cbv zeta.
  case_goal; [by eapply handlePing_good|]. case_goal; [by apply good_ret, HQ|].
  case_goal; [by eapply handleAck_good|]. case_goal; [by eapply handleListJobs_good|].
  case_goal; [by apply handleClose_good|]. case_goal; [by eapply handleJobSubmit_good|].
  case_goal; [by eapply handleJobCancel_good|]. case_goal; [by eapply handleJobSubscribe_good|].
  case_goal; [by apply handleJobUnsubscribe_good|]. by eapply sendErrorFor_good.
Qed.

Lemma read_turn_good s p id pr env (Q : () → Server → Prop) :
  is_sess (view_of s) p id pr → (∀ s', ext (view_of s) (view_of s') → Q () s') → good s (read_turn p env) Q.
Proof.
  intros Hp HQ. do 2 apply good_gets_bind. apply good_bind, set_sess_calm_good; [intros x; by case_goal|].
  intros s1 Hc1 He1. apply good_bind. eapply dispatch_good; [exact (is_sess_ext _ _ _ _ _ He1 Hp)|].
  intros r s2 He2 _. apply good_ret, HQ. by etrans.
Qed.

(** ** Timers and the shutdown *)

Lemma watchdog_good s p (Q : () → Server → Prop) :
  (∀ s', ext (view_of s) (view_of s') → Q () s') → good s (watchdog p) Q.
Proof.
  intros HQ. apply good_bind, set_sess_calm_good; [by intros []|]. intros s1 Hc1 He1.
  apply good_bind, new_envelope_good. intros s2 Hc2.
  assert (∀ s3, ext (view_of s1) (view_of s3) → good s3 (set_sess p (λ x, x <| s_ctxDone := true |>)) Q) as Htail.
  { intros s3 He3. apply set_sess_calm_good; [by intros []|]. intros s4 Hc4. apply HQ. etrans; [exact He1|].
    etrans; [exact He3|]. by apply calm_ext. }
  split; intros; apply good_gets_bind, good_bind; [|apply good_ret; intros _; by apply Htail].
  apply good_bind, transport_send_good. intros r s3 Hc3 He3. apply good_ret. intros _. apply Htail. by etrans.
Qed.

Lemma sendPing_good s p id pr (Q : () → Server → Prop) :
  is_sess (view_of s) p id pr → (∀ s', ext (view_of s) (view_of s') → Q () s') → good s (sendPing p) Q.
Proof.
  intros Hp HQ. apply good_gets_bind. case_goal; [by apply good_ret, HQ|].
  apply good_bind, fresh_good. intros s1 Hc1 _ _ He1. apply good_gets_bind, good_bind, new_envelope_good.
  intros s2 Hc2. split; [|intros; apply good_ret, HQ; by etrans]. intros env Henv He2.
  assert (ext (view_of s) (view_of s2)) as He02 by by etrans.
  apply NewEnvelope_fields in Henv as (_ & Ht & H0 & _ & _ & Hwt).
  eapply send_plain_good; [exact (is_sess_ext _ _ _ _ _ He02 Hp)|apply fit_reply; [by rewrite Ht|done|by apply Hwt; [apply NewEnvelopeID_nonempty|]]|done| |].
  - unfold is_terminal. by rewrite Ht.
  - intros s3 He3. apply HQ. by etrans.
Qed.

Lemma janitorTick_good s (Q : () → Server → Prop) :
  (∀ s', ext (view_of s) (view_of s') → Q () s') → good s janitorTick Q.
Proof.
  intros HQ. apply good_gets_bind. case_goal; [apply modify_calm_good; [done|]; intros s1 Hc1; by apply HQ, calm_ext|].
  apply good_bind, modify_calm_good; [done|]. intros s1 Hc1 He1. apply good_bind, purge_good. intros s2 He2 _.
  apply modify_calm_good; [done|]. intros s3 Hc3. apply HQ. etrans; [exact He1|]. etrans; [exact He2|]. by apply calm_ext.
Qed.

Lemma Close_begin_good s (Q : () → Server → Prop) :
  (∀ s', ext (view_of s) (view_of s') → Q () s') → good s Close_begin Q.
Proof.
  intros HQ. apply good_gets_bind. case_goal; [by apply good_ret, HQ|].
  apply good_bind, modify_calm_good; [done|]. intros s1 Hc1 He1. apply good_gets_bind.
  apply (for_each_good _ _ s1 (λ _, True)); [done| |intros s2 He2 _; apply HQ; by etrans].
  intros p s2 _ _ _. apply good_bind, set_sess_calm_good; [by intros []|]. intros s3 Hc3 He3.
  apply good_gets_bind. by apply transport_close_good.
Qed.

Lemma Close_end_good s (Q : () → Server → Prop) :
  (∀ s', ext (view_of s) (view_of s') → Q () s') → good s Close_end Q.
Proof.
  intros HQ. apply good_gets_bind. apply good_when; [|intros _; by apply HQ]. intros _ HI.
  set (s' := s <| resumes := ∅ |>). change (Inv (view_of s') ∧ ext (view_of s) (view_of s') ∧ Q () s').
  assert (view_of s' = view_of s <| v_resumes := ∅ |>) as Hv by (unfold view_of, s'; cbn; by rewrite fmap_empty).
  assert (ext (view_of s) (view_of s')) as He by (rewrite Hv; split_and!; cbn; eauto 10).
  split_and!; [rewrite Hv; by apply Inv_resumes_empty|done|by apply HQ].
Qed.

Lemma fire_timers_good s j id pr p (Q : () → Server → Prop) :
  is_job (view_of s) j id pr p → (∀ s', ext (view_of s) (view_of s') → Q () s') → good s (fire_timers j) Q.
Proof.
  intros Hj HQ. destruct (is_job_inv _ _ _ _ _ Hj) as (y & Hy & _).
  apply modify_calm_good; [|intros s' Hc; by apply HQ, calm_ext]. cbv zeta.
  match goal with |- context [<[j := ?z]> (hjob s)] => set (f := λ y : Job, z) end.
  apply (view_set_job s j y f); [done|]. unfold f, job. rewrite Hy. cbn. by repeat case_goal.
Qed.

(** ** Steps *)

Lemma at_pc_live s p pc : at_pc s p pc = true → pc ≠ SDone → live (view_of s) p.
Proof.
  unfold at_pc, sess. intros H Hpc. apply andb_true_iff in H as [[x Hx]%bool_decide_eq_true H%bool_decide_eq_true].
  rewrite Hx in H. simpl in H. exists (score_of x). cbn. rewrite lookup_fmap, Hx. split; [done|]. cbn. congruence.
Qed.

Lemma is_Some_sess s p : is_Some (hsess s !! p) → ∃ id pr, is_sess (view_of s) p id pr.
Proof.
  intros [x Hx]. exists (s_id x), (s_principal x), (score_of x). cbn. by rewrite lookup_fmap, Hx.
Qed.

Lemma is_Some_job s j : is_Some (hjob s !! j) → ∃ id pr p, is_job (view_of s) j id pr p.
Proof.
  intros [y Hy]. exists (j_id y), (j_principal y), (j_session y), (jcore_of y). cbn. by rewrite lookup_fmap, Hy.
Qed.

Lemma job_at_job s j pc : job_at s j pc = true → ∃ id pr p, is_job (view_of s) j id pr p.
Proof. intros H. apply andb_true_iff in H as [H%bool_decide_eq_true _]. by apply is_Some_job. Qed.

Lemma exec_op_good s o : enabled s o = true → good s (exec_op o) (λ _ _, True).
Proof.
  intros Hen. destruct o; cbn [exec_op enabled] in *.
  - by apply modify_calm_good.
  - by apply modify_calm_good.
  - by apply modify_calm_good.
  - by apply modify_calm_good.
  - apply good_bind, modify_calm_good; [done|]. intros s1 _ _. apply good_bind, Accept_handshake_good. intros r s2 _ _. by apply good_ret.
  - by apply Accept_register_good; [eapply at_pc_live|].
  - by apply run_current_good; [eapply at_pc_live|].
  - by apply run_replay_good; [eapply at_pc_live|].
  - destruct (live_sess _ _ (at_pc_live _ _ _ Hen ltac:(done))) as (id & pr & Hp). by eapply read_turn_good.
  - destruct (is_Some_sess s p) as (id & pr & Hp); [by apply bool_decide_eq_true in Hen|]. by eapply writeLoop_turn_good.
  - destruct (is_Some_sess s p) as (id & pr & Hp); [by apply andb_true_iff in Hen as [?%bool_decide_eq_true _]|].
    apply good_bind, set_sess_calm_good; [by intros []|]. intros s1 Hc1 He1.
    by eapply sendPing_good; [exact (is_sess_ext _ _ _ _ _ He1 Hp)|].
  - by apply watchdog_good.
  - by apply set_sess_calm_good; [intros []|].
  - by apply session_exit_good; [eapply at_pc_live|].
  - by apply Accept_tail_good; [eapply at_pc_live|].
  - by apply janitorTick_good.
  - by apply Close_begin_good.
  - by apply Close_end_good.
  - destruct (job_at_job _ _ _ Hen) as (id & pr & p & Hj). by eapply run_start_good.
  - destruct (job_at_job _ _ _ Hen) as (id & pr & p & Hj). by eapply exec_agent_good.
  - destruct (job_at_job _ _ _ Hen) as (id & pr & p & Hj). by eapply run_finish_good.
  - destruct (is_Some_job s j) as (id & pr & p & Hj); [by apply bool_decide_eq_true in Hen|]. by eapply fire_timers_good.
  - destruct (is_Some_job s j) as (id & pr & p & Hj); [by apply andb_true_iff in Hen as [?%bool_decide_eq_true _]|].
    apply good_bind. eapply set_job_ext_good; [done|by intros []|]. intros s1 He1 _ _.
    by eapply terminal_timer_good; [exact (is_job_ext _ _ _ _ _ _ He1 Hj)|].
  - destruct (is_Some_job s j) as (id & pr & p & Hj); [by apply andb_true_iff in Hen as [?%bool_decide_eq_true _]|].
    apply good_bind. eapply set_job_ext_good; [done|by intros []|]. intros s1 He1 _ _.
    by eapply terminal_timer_good; [exact (is_job_ext _ _ _ _ _ _ He1 Hj)|].
Qed.

Lemma step_good s o : Inv (view_of s) → Inv (view_of (step s o)) ∧ ext (view_of s) (view_of (step s o)).
Proof.
  intros HI. unfold step. destruct (enabled s o) eqn:Hen; [|by rewrite andb_false_r].
  destruct (crashed s); [done|]. cbn [negb andb].
  by destruct (exec_op_good s o Hen HI) as (? & ? & _).
Qed.

Lemma reachable_Inv o t s : reachable o t s → Inv (view_of s).
Proof. induction 1 as [|s x _ IH]; [apply Inv_New|]. by apply step_good. Qed.

Lemma run_ext ops s : Inv (view_of s) → Inv (view_of (run ops s)) ∧ ext (view_of s) (view_of (run ops s)).
Proof.
  revert s. induction ops as [|x ops IH]; intros s HI; [done|]. simpl. destruct (step_good s x HI) as [HI1 He1].
  destruct (IH _ HI1) as [HI2 He2]. split; [done|by etrans].
Qed.

End handlers.
