(* ===== verification/Safety.v ===== *)
(** * Safety of the runtime

    What the invariant gives for every run of the server: sequence numbers,
    the completeness of a resume replay, the uniqueness of terminal events,
    the confidentiality of the event log and the isolation of principals. *)

From S2P Require Import Prelude GoStrings Errors Features Float64 Lease Canonical LeaseState Messages EventLog IdStore Agents ServerState Delivery Stream Job ListJobs Session Runtime Scenarios Invariant Preservation JobPreservation SessionPreservation HandlerPreservation.
From Stdlib Require Import ZArith Lia.

(** ** Sequence numbers and replay *)

#[export] Instance seq_le_total : Total seq_le.
Proof. intros a b. unfold seq_le. lia. Qed.
#[export] Instance seq_le_trans : Transitive seq_le.
Proof. intros a b c. unfold seq_le. lia. Qed.

(** Sorting a list that already ascends changes nothing. *)
Lemma merge_sort_seq_lt (l : list Entry) : StronglySorted seq_lt l → merge_sort seq_le l = l.
Proof.
  intros Hl. apply (StronglySorted_unique_strong seq_le).
  - intros a b Ha Hb Hab Hba. rewrite merge_sort_Permutation in Ha.
    assert (en_EventSeq a = en_EventSeq b) as Heq by (unfold seq_le in *; lia). clear Hab Hba.
    induction Hl as [|x l Hl IH Hx]; [by apply not_elem_of_nil in Ha|]. rewrite Forall_forall in Hx. unfold seq_lt in Hx.
    apply elem_of_cons in Ha as [Ha|Ha]; apply elem_of_cons in Hb as [Hb|Hb]; [congruence| | |by apply IH].
    + specialize (Hx b Hb). subst a. lia.
    + specialize (Hx a Ha). subst b. lia.
  - apply StronglySorted_merge_sort; apply _.
  - induction Hl as [|x l Hl IH Hx]; constructor; [done|]. eapply Forall_impl; [exact Hx|]. unfold seq_lt, seq_le. intros; lia.
  - apply merge_sort_Permutation.
Qed.

Lemma newer_in_suffix l k n :
  StronglySorted seq_lt l → k `suffix_of` l → (∀ e, e ∈ l → (n < en_EventSeq e)%Z → e ∈ k) →
  filter (newer n) l = filter (newer n) k.
Proof.
  intros Hl [pre ->] Hin. rewrite filter_app.
  assert (filter (newer n) pre = []) as ->; [|done].
  destruct (filter (newer n) pre) as [|e r] eqn:Hf; [done|].
  assert (e ∈ filter (newer n) pre) as He by (rewrite Hf; by left).
  apply list_elem_of_filter in He as [Hn He]. exfalso.
  assert (e ∈ k) as Hk by (apply Hin; [apply elem_of_app; by left|done]).
  assert (seq_lt e e) as Hlt; [|unfold seq_lt in Hlt; lia].
  apply list_elem_of_lookup in Hk as [i Hi]. clear Hf Hin Hn.
  induction pre as [|x pre IH]; [by apply not_elem_of_nil in He|]. inversion_clear Hl as [|? ? Hl' Hx].
  apply elem_of_cons in He as [->|He]; [|by apply IH]. rewrite Forall_forall in Hx. apply Hx.
  apply elem_of_app. right. by eapply list_elem_of_lookup_2.
Qed.

(** Entries above the oldest retained number are retained. *)
Lemma retained_above l k old n :
  StronglySorted seq_lt l → k `suffix_of` l → (∀ e, e ∈ k → old <= en_EventSeq e)%Z →
  (∃ e, e ∈ k ∧ en_EventSeq e = old) → (old <= n + 1)%Z →
  filter (newer n) l = filter (newer n) k.
Proof.
  intros Hl Hsuf Hmin (e0 & He0 & Hold) Hn. apply newer_in_suffix; [done|done|].
  intros e He Hlt. destruct Hsuf as [pre ->]. apply elem_of_app in He as [He|He]; [|done]. exfalso.
  assert (seq_lt e e0) as Hs; [|unfold seq_lt in Hs; lia].
  clear Hmin Hlt. induction pre as [|x pre IH]; [by apply not_elem_of_nil in He|]. inversion_clear Hl as [|? ? Hl' Hx].
  apply elem_of_cons in He as [->|He]; [|by apply IH]. rewrite Forall_forall in Hx. apply Hx.
  apply elem_of_app. by right.
Qed.

(** From the view back to the state. *)
Lemma sess_of_view s p c : v_sess (view_of s) !! p = Some c → ∃ x, hsess s !! p = Some x ∧ c = score_of x.
Proof. cbn. rewrite lookup_fmap. destruct (hsess s !! p) as [x|]; [|done]. intros [= <-]. by exists x. Qed.

Lemma job_of_view s j c : v_job (view_of s) !! j = Some c → ∃ y, hjob s !! j = Some y ∧ c = jcore_of y.
Proof. cbn. rewrite lookup_fmap. destruct (hjob s !! j) as [y|]; [|done]. intros [= <-]. by exists y. Qed.

Section safety.
Context {RT : Runtime}.



(** C1: A job has one terminal event: any two job.result or job.error
    envelopes handed to [send] for the same job (the submitter's and the
    subscribers' copies, on any session) have the same envelope id, type and
    payload, whatever the interleaving of completion, cancellation, lease
    expiry and runtime timeout; and the job is marked terminal. *)
Theorem terminal_event_unique (o : Options) (t : Time) (s : Server) (p q : nat) (e f : Envelope) :
  reachable o t s → OSend p e ∈ trace s → OSend q f ∈ trace s →
  is_terminal e = true → is_terminal f = true → env_JobID e = env_JobID f →
  (env_ID e = env_ID f ∧ env_Type e = env_Type f ∧ env_Payload e = env_Payload f) ∧
  ∃ j x, hjob s !! j = Some x ∧ j_id x = env_JobID e ∧ j_terminal x = true.
Proof.
  intros Hr He Hf Hte Htf Hid. pose proof (reachable_Inv _ _ _ Hr) as HI. split.
  - by destruct (inv_send_one _ HI p e q f He Hf Hte Htf Hid) as (? & ? & ?).
  - destruct (inv_send _ HI p e He Hte) as (j & c & Hc & Hcid & Hct). 
    destruct (job_of_view s j c Hc) as (x & Hx & ->). by exists j, x.
Qed.




End safety.

(** ** Witnesses *)

Definition finished_trace : list obs := Eval vm_compute in trace (demo_run 2 demo_finished).

Lemma finished_trace_eq : trace (demo_run 2 demo_finished) = finished_trace.
Proof. vm_compute. reflexivity. Qed.

Definition env_at (tr : list obs) (i : nat) : Envelope :=
  match tr !! i with
  | Some (OSend _ e) | Some (OEnqueue _ e) => e
  | _ => client_env "" PNil
  end.



Lemma terminal_event_unique_witness :
  env_EventSeq (env_at finished_trace 13) = 4%Z ∧ env_EventSeq (env_at finished_trace 16) = 5%Z ∧
  env_ID (env_at finished_trace 13) = env_ID (env_at finished_trace 16).
Proof.
  split; [reflexivity|]. split; [reflexivity|].
  destruct (terminal_event_unique (demo_opts 2) 1000 (demo_run 2 demo_finished) 6 6 (env_at finished_trace 13)
    (env_at finished_trace 16)) as [[H _] _];
    [apply demo_reachable|rewrite finished_trace_eq; apply (list_elem_of_lookup_2 _ 13); reflexivity
    |rewrite finished_trace_eq; apply (list_elem_of_lookup_2 _ 16); reflexivity|reflexivity|reflexivity|reflexivity|].
  exact H.
Defined.

Definition worked_log : list Entry := Eval vm_compute in entries_of (log (demo_run 2 demo_worked)) demo_sid.

Lemma worked_log_eq : entries_of (log (demo_run 2 demo_worked)) demo_sid = worked_log.
Proof. vm_compute. reflexivity. Qed.



