(* ===== verification/Frames.v ===== *)
(** * Frames

    What an operation leaves alone.  Delivery (allocation, persistence,
    queueing, transport writes) changes neither the jobs nor the registries,
    and only adds deliveries to the trace; the handlers' theorems rest on
    this. *)

From S2P Require Import Prelude GoStrings Errors Features Float64 Lease Canonical LeaseState Messages EventLog IdStore Agents ServerState Delivery Stream Job ListJobs Session.
From Stdlib Require Import ZArith Lia.

(** The trace entries of a delivery. *)
Definition is_delivery (o : obs) : bool :=
  match o with OSend _ _ | OEnqueue _ _ | OPersist _ => true | _ => false end.

(** The parts of the state that delivery does not touch. *)
Definition core (s : Server) :=
  (opts s, now s, agents s, jobs s, subs s, idStore s, (resumes s, sessions s, seqAllocs s, current s, closed s, hjob s, hsub s)).

Definition delivers (s s' : Server) : Prop :=
  core s' = core s ∧ (∀ p, s_id (sess s' p) = s_id (sess s p) ∧ s_principal (sess s' p) = s_principal (sess s p) ∧
                           s_features (sess s' p) = s_features (sess s p)) ∧
  ∃ l, trace s' = trace s ++ l ∧ forallb is_delivery l = true.

#[global] Instance delivers_preorder : PreOrder delivers.
Proof.
  split.
  - intros s. split_and!; [done|done|]. exists []. by rewrite app_nil_r.
  - intros s1 s2 s3 (Hc & Hp & l & Hl & Fl) (Hc' & Hp' & k & Hk & Fk). split_and!; [congruence| |].
    + intros p. destruct (Hp p) as (? & ? & ?), (Hp' p) as (? & ? & ?). split_and!; congruence.
    + exists (l ++ k). rewrite Hk, Hl, app_assoc. split; [done|]. rewrite forallb_app. by rewrite Fl, Fk.
Qed.

Lemma bind_eq {A B} (m : M A) (k : A → M B) s : (m ≫= k) s = k (m s).1 (m s).2.
Proof. unfold mbind, M_bind. by destruct (m s). Qed.

Lemma ret_eq {A} (a : A) s : (mret a : M A) s = (a, s).
Proof. done. Qed.

(** Runs the leading reads of a computation. *)
Ltac run_reads := repeat (rewrite !bind_eq; cbn [gets fresh fst snd]; rewrite ?ret_eq; cbn [fst snd]).

(** Every run of [m] moves along [R]. *)
Definition moves {A} (R : relation Server) (m : M A) : Prop := ∀ s, R s (m s).2.

Section moves.
Context (R : relation Server) `{!PreOrder R}.

Lemma moves_ret {A} (a : A) : moves R (mret a).
Proof. by intros s. Qed.

Lemma moves_bind {A B} (m : M A) (k : A → M B) : moves R m → (∀ a, moves R (k a)) → moves R (m ≫= k).
Proof.
  intros Hm Hk s. unfold mbind, M_bind. specialize (Hm s). destruct (m s) as [a s1]. etrans; [exact Hm|]. apply Hk.
Qed.

Lemma moves_gets {A} (f : Server → A) : moves R (gets f).
Proof. by intros s. Qed.

Lemma moves_when b (m : M ()) : moves R m → moves R (when b m).
Proof. destruct b; [done|]. intros _. apply moves_ret. Qed.

Lemma moves_for_each {A} (l : list A) (k : A → M ()) : (∀ x, moves R (k x)) → moves R (for_each l k).
Proof. intros Hk. induction l as [|x l IH]; simpl; [apply moves_ret|]. apply moves_bind; [apply Hk|done]. Qed.

End moves.

Ltac moves_step :=
  lazymatch goal with
  | |- moves _ (mbind _ _) => refine (moves_bind _ _ _ _ _); [|intros ?]
  | |- moves _ (mret _) => refine (moves_ret _ _)
  | |- moves _ (gets _) => refine (moves_gets _ _)
  | |- moves _ (when _ _) => refine (moves_when _ _ _ _)
  | |- moves _ (for_each _ _) => refine (moves_for_each _ _ _ _); intros ?
  | |- moves _ (match ?x with _ => _ end) => destruct x
  end.

Section frames.
Context {RT : Runtime}.

(** Updates of one session that keep its identity. *)
Definition stable_sess (f : session → session) : Prop :=
  ∀ x, s_id (f x) = s_id x ∧ s_principal (f x) = s_principal x ∧ s_features (f x) = s_features x.

Lemma set_sess_delivers p f : stable_sess f → moves delivers (set_sess p f).
Proof.
  intros Hf s. split_and!; [done| |exists []; by rewrite app_nil_r].
  intros q. unfold sess. cbn. rewrite lookup_alter. case_decide; [|done]. subst q.
  destruct (hsess s !! p); [apply Hf|done].
Qed.

Lemma modify_delivers f : (∀ s, core (f s) = core s ∧ hsess (f s) = hsess s ∧ trace (f s) = trace s) → moves delivers (modify f).
Proof.
  intros Hf s. destruct (Hf s) as (H1 & H2 & H3). split_and!; [done| |exists []; by rewrite app_nil_r].
  intros p. unfold sess. cbn. by rewrite H2.
Qed.

Lemma fresh_delivers : moves delivers fresh.
Proof. intros s. split_and!; [done|done|exists []; by rewrite app_nil_r]. Qed.

Lemma observe_delivers o : is_delivery o = true → moves delivers (observe o).
Proof. intros Ho s. split_and!; [done|done|]. exists [o]. simpl. by rewrite Ho. Qed.

Lemma nextSeq_delivers p : moves delivers (nextSeq p).
Proof. unfold nextSeq, next. repeat moves_step. by apply modify_delivers. Qed.

Lemma new_envelope_delivers typ pl : moves delivers (new_envelope typ pl).
Proof. unfold new_envelope. repeat moves_step. apply fresh_delivers. Qed.

Lemma transport_send_delivers t env : moves delivers (transport_send t env).
Proof. unfold transport_send. repeat moves_step; [apply fresh_delivers|]. by apply modify_delivers. Qed.

Lemma persistOutbound_delivers p env : moves delivers (persistOutbound p env).
Proof.
  unfold persistOutbound. repeat moves_step; [by apply modify_delivers|by apply observe_delivers].
Qed.

Lemma push_delivers p env : moves delivers (push p env).
Proof. unfold push. repeat moves_step; [by apply set_sess_delivers|by apply observe_delivers]. Qed.

Lemma sess_insert s p q z : sess (s <| hsess := <[p := z]> (hsess s) |>) q = if decide (p = q) then z else sess s q.
Proof. unfold sess. cbn. rewrite lookup_insert. by case_decide. Qed.

Lemma writeLoop_turn_delivers p : moves delivers (writeLoop_turn p).
Proof.
  unfold writeLoop_turn. repeat moves_step; try (by apply set_sess_delivers); [by apply transport_send_delivers|].
  intros s. split_and!; [done| |exists []; by rewrite app_nil_r].
  intros q. unfold modify. cbn [snd]. rewrite sess_insert. case_decide; [|done]. subst q. by case_goal.
Qed.

Lemma maybeEmitBackPressure_delivers p jobID seq : moves delivers (maybeEmitBackPressure p jobID seq).
Proof.
  unfold maybeEmitBackPressure. repeat moves_step; try (by apply set_sess_delivers).
  - apply new_envelope_delivers.
  - apply nextSeq_delivers.
  - apply persistOutbound_delivers.
  - apply push_delivers.
Qed.

Lemma enqueue_delivers p env : moves delivers (enqueue p env).
Proof.
  unfold enqueue. repeat moves_step; try apply fresh_delivers; try apply writeLoop_turn_delivers;
    try apply push_delivers; apply maybeEmitBackPressure_delivers.
Qed.

Lemma send_delivers p env : moves delivers (send p env).
Proof.
  unfold send. repeat moves_step; [by apply observe_delivers|apply persistOutbound_delivers|apply enqueue_delivers].
Qed.

Lemma publish_delivers q env : moves delivers (publish q env).
Proof. unfold publish. repeat moves_step; [apply nextSeq_delivers|apply send_delivers]. Qed.

Lemma fanoutEvent_delivers jobID env : moves delivers (fanoutEvent jobID env).
Proof. unfold fanoutEvent. repeat moves_step. apply publish_delivers. Qed.

Lemma sendErrorFor_delivers p env code msg : moves delivers (sendErrorFor p env code msg).
Proof. unfold sendErrorFor. repeat moves_step; [apply new_envelope_delivers|apply send_delivers]. Qed.

Lemma replayAccepted_delivers p acc : moves delivers (replayAccepted p acc).
Proof. unfold replayAccepted. repeat moves_step; [apply new_envelope_delivers|apply send_delivers]. Qed.

(** [send] first observes the envelope, stamped with the session id. *)
Lemma send_trace p env s :
  ∃ l, trace (send p env s).2 = trace s ++ OSend p (set_session env (s_id (sess s p))) :: l ∧ forallb is_delivery l = true.
Proof.
  unfold send. unfold mbind at 1, M_bind at 1, gets at 1. cbv zeta. unfold mbind at 1, M_bind at 1, observe, modify.
  set (e := set_session env (s_id (sess s p))). set (s1 := s <| trace := trace s ++ [OSend p e] |>).
  assert (moves delivers (persistOutbound p e;; cur ← gets (λ s, route s p); enqueue cur e)) as H.
  { repeat moves_step; [apply persistOutbound_delivers|apply enqueue_delivers]. }
  destruct (H s1) as (_ & _ & l & Hl & Fl). exists l. rewrite Hl. unfold s1. cbn. by rewrite <-app_assoc.
Qed.

End frames.
