(* ===== verification/JobLife.v ===== *)
(** * The life of a job

    What time does to a job.  [aged y y'] says how the job [y] may look later:
    who submitted it, what it runs, its input and its grant never change, its
    flags only rise, its last sequence number only grows, and once it is
    terminal its status is final.  Every operation of the runtime ages every
    job, and moves the program counter of no job but the one whose run starts
    or returns. *)

From S2P Require Import Prelude GoStrings Errors Features Float64 Lease Canonical LeaseState Messages EventLog IdStore Agents ServerState Delivery Stream Job ListJobs Session Runtime Scenarios Invariant Preservation JobPreservation SessionPreservation HandlerPreservation Frames.
From Stdlib Require Import ZArith Lia.

(** The grant of a lease state: the patterns, the deadline and the budget. *)
Definition grant (l : State) : Lease * option Time * gmap Currency f64 := (st_lease l, st_expiresAt l, st_initialized l).

(** What a job is, whatever happens to it. *)
Definition birth (y : Job) :=
  (j_id y, j_agent y, j_principal y, j_session y, j_fn y, j_input y, j_traceID y, j_createdAt y, grant (j_lease y)).

Record aged (y y' : Job) : Prop := {
  aged_birth : birth y' = birth y;
  aged_terminal : j_terminal y = true → j_terminal y' = true ∧ j_statusV y' = j_statusV y;
  aged_ctx : j_ctxDone y = true → j_ctxDone y' = true;
  aged_revoked : j_revoked y = true → j_revoked y' = true;
  aged_seq : (j_lastEventSeq y <= j_lastEventSeq y')%Z
}.

#[global] Instance aged_preorder : PreOrder aged.
Proof.
  split; [by intros y|]. intros x y z [B1 T1 C1 R1 S1] [B2 T2 C2 R2 S2]. split; [congruence| | | |lia]; try tauto.
  intros Hx. destruct (T1 Hx) as [Hy E1]. destruct (T2 Hy) as [Hz E2]. split; [done|congruence].
Qed.

(** The jobs of [s], each with an address that is taken, age into those of
    [s']; the program counters of the jobs outside [X] stay, and outside [Y] no
    agent body begins to run.  What is on a transport stays, and more follows. *)
Definition ages (X Y : gset nat) (s s' : Server) : Prop :=
  tick s ≤ tick s' ∧
  (∀ j y, j < tick s → hjob s !! j = Some y →
    ∃ y', hjob s' !! j = Some y' ∧ aged y y' ∧ (j ∉ X → j_pc y' = j_pc y)) ∧
  (∀ j y', hjob s' !! j = Some y' → j ∉ Y → j_pc y' = JAgent → ∃ y, hjob s !! j = Some y ∧ j_pc y = JAgent) ∧
  (∀ t w, wire s !! t = Some w → ∃ more, wire s' !! t = Some (w ++ more)).

#[global] Instance ages_preorder X Y : PreOrder (ages X Y).
Proof.
  split.
  { intros s. split_and!; [done|intros j y _ Hy; exists y; by split_and!|intros j y Hy _ Hp; by exists y|].
    intros t w Hw. exists []. by rewrite app_nil_r. }
  intros s1 s2 s3 (T1 & H1 & B1 & W1) (T2 & H2 & B2 & W2). split_and!; [lia| | |].
  - intros j y Hj Hy. destruct (H1 j y Hj Hy) as (y2 & Hy2 & A2 & P2).
    destruct (H2 j y2 ltac:(lia) Hy2) as (y3 & Hy3 & A3 & P3). exists y3. split_and!; [done|by etrans|].
    intros HX. by rewrite P3, P2.
  - intros j y3 Hy3 HY Hp. destruct (B2 j y3 Hy3 HY Hp) as (y2 & Hy2 & Hp2). by apply (B1 j y2).
  - intros t w Hw. destruct (W1 t w Hw) as [m1 Hm1]. destruct (W2 t _ Hm1) as [m2 Hm2]. exists (m1 ++ m2). by rewrite app_assoc.
Qed.

Lemma wire_same (s s' : Server) : wire s' = wire s → ∀ t w, wire s !! t = Some w → ∃ more, wire s' !! t = Some (w ++ more).
Proof. intros -> t w Hw. exists []. by rewrite app_nil_r. Qed.

Create HintDb ages.
#[export] Hint Constants Opaque : ages.

Section ages.
Context {RT : Runtime}.
Context (X Y : gset nat).

(** ** Primitive changes *)

Lemma modify_ages f : (∀ s, hjob (f s) = hjob s ∧ tick (f s) = tick s ∧ wire (f s) = wire s) → moves (ages X Y) (modify f).
Proof.
  intros Hf s. destruct (Hf s) as (E1 & E2 & E3). cbn. unfold ages. rewrite E1, E2. split_and!; [done| | |by apply wire_same].
  - intros j y _ Hy. by exists y.
  - intros j y Hy _ Hp. by exists y.
Qed.

Lemma fresh_ages : moves (ages X Y) fresh.
Proof.
  intros s. split_and!; [cbn; lia| | |by apply wire_same].
  - intros j y _ Hy. by exists y.
  - intros j y Hy _ Hp. by exists y.
Qed.

Lemma set_sess_ages p f : moves (ages X Y) (set_sess p f).
Proof. by apply modify_ages. Qed.

Lemma job_some s j y : hjob s !! j = Some y → job s j = y.
Proof. intros H. unfold job. by rewrite H. Qed.

(** An update of the job [j] that is read from the state. *)
Lemma update_ages s j (y' : Job) :
  aged (job s j) y' → (j ∉ X → j_pc y' = j_pc (job s j)) → (j_pc y' = JAgent → j ∉ Y → j_pc (job s j) = JAgent) →
  ages X Y s (s <| hjob := <[j := y']> (hjob s) |>).
Proof.
  intros Ha Hp Hb. split_and!; [done| | |by apply wire_same].
  - intros k y Hk Hy. cbn. rewrite lookup_insert. case_decide as E; [subst k|by exists y].
    rewrite (job_some _ _ _ Hy) in Ha, Hp. by exists y'.
  - intros k z. cbn. rewrite lookup_insert. case_decide as E; [subst k; intros [= <-]|intros Hz _ Hpc; by exists z].
    intros HY Hpc. specialize (Hb Hpc HY). unfold job in Hb. destruct (hjob s !! j) as [y|]; [by exists y|done].
Qed.

Lemma set_job_ages j f :
  (∀ y, aged y (f y) ∧ (j ∉ X → j_pc (f y) = j_pc y) ∧ (j_pc (f y) = JAgent → j ∉ Y → j_pc y = JAgent)) →
  moves (ages X Y) (set_job_ j f).
Proof. intros Hf s. destruct (Hf (job s j)) as (? & ? & ?). by apply update_ages. Qed.

Lemma observe_ages o : moves (ages X Y) (observe o).
Proof. by apply modify_ages. Qed.

Lemma transport_send_ages t env : moves (ages X Y) (transport_send t env).
Proof.
  unfold transport_send. repeat moves_step; [apply fresh_ages|]. intros s. split_and!; [done| | |].
  - intros j y _ Hy. by exists y.
  - intros j y Hy _ Hp. by exists y.
  - intros u w Hw. cbn. rewrite lookup_insert. case_decide as E; [subst u|exists []; by rewrite app_nil_r].
    rewrite Hw. by exists [env].
Qed.

Lemma writeLoop_turn_ages p : moves (ages X Y) (writeLoop_turn p).
Proof.
  unfold writeLoop_turn. repeat moves_step; try apply transport_send_ages; by apply modify_ages.
Qed.

Ltac solve_aged :=
  intros ?; repeat match goal with |- context [if ?b then _ else _] => destruct b eqn:? end;
  (split_and!; [split; cbn; first [done|lia]|done|done]).

Ltac age_step :=
  lazymatch goal with
  | |- moves _ (modify _) => apply modify_ages; intros ?; repeat case_match; by split_and!
  | |- moves _ (set_sess _ _) => apply set_sess_ages
  | |- moves _ (set_job_ _ _) => apply set_job_ages; solve_aged
  | |- moves _ (observe _) => apply observe_ages
  | |- moves _ fresh => apply fresh_ages
  | |- _ => first [moves_step | solve [auto with ages nocore]]
  end.
Ltac age := repeat age_step.

#[local] Hint Resolve writeLoop_turn_ages : ages.

(** ** Delivery *)

Lemma new_envelope_ages typ pl : moves (ages X Y) (new_envelope typ pl).
Proof. unfold new_envelope. age. Qed.
Lemma transport_close_ages t : moves (ages X Y) (transport_close t).
Proof. unfold transport_close. age. Qed.
Lemma nextSeq_ages p : moves (ages X Y) (nextSeq p).
Proof. unfold nextSeq, next. age. Qed.
Lemma persistOutbound_ages p env : moves (ages X Y) (persistOutbound p env).
Proof. unfold persistOutbound. age. Qed.
#[local] Hint Resolve new_envelope_ages transport_send_ages transport_close_ages nextSeq_ages persistOutbound_ages : ages.

Lemma maybeEmitBackPressure_ages p jobID seq : moves (ages X Y) (maybeEmitBackPressure p jobID seq).
Proof. unfold maybeEmitBackPressure, push. age. Qed.
#[local] Hint Resolve maybeEmitBackPressure_ages : ages.

Lemma enqueue_ages p env : moves (ages X Y) (enqueue p env).
Proof. unfold enqueue, push. age. Qed.
#[local] Hint Resolve enqueue_ages : ages.

Lemma send_ages p env : moves (ages X Y) (send p env).
Proof. unfold send. age. Qed.
Lemma sendEphemeral_ages p env : moves (ages X Y) (sendEphemeral p env).
Proof. unfold sendEphemeral. age. Qed.
#[local] Hint Resolve send_ages sendEphemeral_ages : ages.

Lemma fanoutEvent_ages jobID env : moves (ages X Y) (fanoutEvent jobID env).
Proof. unfold fanoutEvent, publish. age. Qed.
#[local] Hint Resolve fanoutEvent_ages : ages.

(** ** Jobs *)

Lemma retryRevoke_ages n o call : moves (ages X Y) (retryRevoke n o call).
Proof. induction n as [|n IH]; simpl; age. Qed.
#[local] Hint Resolve retryRevoke_ages : ages.

Lemma revokeAll_ages j : moves (ages X Y) (revokeAll j).
Proof. unfold revokeAll, revokeCredential. age. Qed.

Lemma setStatus_ages j st : moves (ages X Y) (setStatus j st).
Proof.
  apply set_job_ages. intros y. destruct (j_terminal y) eqn:Ht; cbn [negb]; [by split_and!|].
  split_and!; [split; cbn; try done|done|done]. congruence.
Qed.

(** The status is final: [markTerminal] changes only a job that is not terminal. *)
Lemma markTerminal_ages j st : moves (ages X Y) (markTerminal j st).
Proof.
  intros s. unfold markTerminal. run_reads. destruct (j_terminal (job s j)) eqn:Ht; [done|].
  rewrite bind_eq. apply update_ages; [|done|done]. split; cbn; try done. congruence.
Qed.
#[local] Hint Resolve revokeAll_ages setStatus_ages markTerminal_ages : ages.

Lemma emit_envelope_ages j env : moves (ages X Y) (emit_envelope j env).
Proof. unfold emit_envelope, recordSeq. age. Qed.
#[local] Hint Resolve emit_envelope_ages : ages.

Lemma emitTerminal_ages j typ p : moves (ages X Y) (emitTerminal j typ p).
Proof. unfold emitTerminal. age. Qed.
#[local] Hint Resolve emitTerminal_ages : ages.

Lemma unregisterJob_ages id : moves (ages X Y) (unregisterJob id).
Proof. unfold unregisterJob. age. Qed.
#[local] Hint Resolve unregisterJob_ages : ages.

Lemma expireLease_ages j : moves (ages X Y) (expireLease j).
Proof. unfold expireLease, emitTerminalError, cancel_ctx. age. Qed.
Lemma timeout_ages j : moves (ages X Y) (timeout j).
Proof. unfold timeout, emitTerminalError, cancel_ctx. age. Qed.

Lemma emitEvent_ages j kind body : moves (ages X Y) (emitEvent j kind body).
Proof. unfold emitEvent. age. Qed.
#[local] Hint Resolve emitEvent_ages : ages.

Lemma RotateCredential_ages j id v : moves (ages X Y) (RotateCredential j id v).
Proof. unfold RotateCredential, recordSeq, revokePriorCredentialValue. age. Qed.

(** Debits move the counters, never the grant. *)
Lemma Report_grant l cur v : grant (Report l cur v).2 = grant l.
Proof. unfold Report. by repeat case_goal. Qed.

Lemma ValidateAndDebit_grant l t cap target debit l' v err :
  ValidateAndDebit (Some l) t cap target debit = (v, err, Some l') → grant l' = grant l.
Proof. unfold ValidateAndDebit. repeat case_goal; by intros [= _ _ <-]. Qed.

Lemma lease_ages s j l : grant l = grant (j_lease (job s j)) → ages X Y s (set_job_ j (λ y, y <| j_lease := l |>) s).2.
Proof.
  intros Hl. apply update_ages; [|done|done]. split; try done. unfold birth. cbn. by rewrite Hl.
Qed.

Lemma maybeEmitRemaining_ages j cur rem : moves (ages X Y) (maybeEmitRemaining j cur rem).
Proof. unfold maybeEmitRemaining. age. Qed.
#[local] Hint Resolve maybeEmitRemaining_ages : ages.

Lemma Metric_ages j name v u dims : moves (ages X Y) (Metric j name v u dims).
Proof.
  unfold Metric. age_step; [age|]. apply (moves_when _ _). intros s. run_reads.
  pose proof (Report_grant (j_lease (job s j)) u v) as Hg. destruct (Report _ u v) as [[rem budgeted] l']. rewrite bind_eq.
  etrans; [by apply (lease_ages s j l')|].
  enough (moves (ages X Y) (when budgeted (maybeEmitRemaining j u rem))) as Hm by apply Hm. age.
Qed.

Lemma ReserveBudget_ages j cap target debit : moves (ages X Y) (ReserveBudget j cap target debit).
Proof.
  intros s. unfold ReserveBudget. run_reads. destruct (ValidateAndDebit _ _ _ _ _) as [[v err] l'] eqn:Hv.
  rewrite bind_eq. apply lease_ages. destruct l' as [l'|]; [|done]. by eapply ValidateAndDebit_grant.
Qed.

Lemma stream_Write_ages j p : moves (ages X Y) (stream_Write j p).
Proof. unfold stream_Write, emit_chunk. age. Qed.
Lemma stream_Close_ages j : moves (ages X Y) (stream_Close j).
Proof. unfold stream_Close, emit_chunk. age. Qed.
Lemma StreamResult_ages j e : moves (ages X Y) (StreamResult j e).
Proof. unfold StreamResult. age. Qed.
#[local] Hint Resolve RotateCredential_ages Metric_ages ReserveBudget_ages stream_Write_ages stream_Close_ages StreamResult_ages : ages.

Lemma exec_agent_ages j a : moves (ages X Y) (exec_agent j a).
Proof.
  destruct a; cbn [exec_agent];
    unfold Log, Thought, ToolCall, ToolResult, ToolError_, Status, ArtifactRef, Progress; age.
Qed.

(** *** The start and the end of a run move the program counter *)

Lemma run_exit_ages j : j ∈ X → moves (ages X Y) (run_exit j).
Proof. intros Hj. unfold run_exit, stop_timers. age. Qed.

Lemma run_start_ages j : j ∈ X → j ∈ Y → moves (ages X Y) (run_start j).
Proof. intros Hj HY. unfold run_start. age. by apply run_exit_ages. Qed.

Lemma run_finish_ages j o : j ∈ X → moves (ages X Y) (run_finish j o).
Proof. intros Hj. unfold run_finish, run_body_result, finish. age. by apply run_exit_ages. Qed.

(** ** Sessions *)

Lemma sendErrorFor_ages p env code msg : moves (ages X Y) (sendErrorFor p env code msg).
Proof. unfold sendErrorFor. age. Qed.
Lemma sendPing_ages p : moves (ages X Y) (sendPing p).
Proof. unfold sendPing. age. Qed.
Lemma replayAccepted_ages p acc : moves (ages X Y) (replayAccepted p acc).
Proof. unfold replayAccepted. age. Qed.
Lemma watchdog_ages p : moves (ages X Y) (watchdog p).
Proof. unfold watchdog. age. Qed.
Lemma handleClose_ages p env : moves (ages X Y) (handleClose p env).
Proof. unfold handleClose. cbv zeta. age. Qed.
Lemma dropResume_ages id : moves (ages X Y) (dropResume id).
Proof. unfold dropResume, delete_resume, log_trim, dropAlloc. age. Qed.
Lemma claimResume_ages rr principal : moves (ages X Y) (claimResume rr principal).
Proof. unfold claimResume, delete_resume, log_trim. age. Qed.
#[local] Hint Resolve sendErrorFor_ages replayAccepted_ages handleClose_ages dropResume_ages claimResume_ages : ages.

Lemma discard_ages j : moves (ages X Y) (discard j).
Proof. unfold discard, stop_timers, cancel_ctx. age. Qed.
#[local] Hint Resolve discard_ages : ages.
Lemma reject_job_ages j : moves (ages X Y) (reject_job j).
Proof. unfold reject_job. age. Qed.
Lemma registerJob_ages j : moves (ages X Y) (registerJob j).
Proof. unfold registerJob. age. Qed.
#[local] Hint Resolve reject_job_ages registerJob_ages : ages.

Lemma accept_job_ages p env req canonical j : j ∈ X → moves (ages X Y) (accept_job p env req canonical j).
Proof. intros Hj. unfold accept_job, accept_issued, attachCredentials. cbv zeta. age. Qed.

Lemma handleJobCancel_ages p env : moves (ages X Y) (handleJobCancel p env).
Proof. unfold handleJobCancel, cancelWithReason, cancel_ctx. age. Qed.
Lemma handleJobSubscribe_ages p env : moves (ages X Y) (handleJobSubscribe p env).
Proof. unfold handleJobSubscribe, newSubscription, addSubscriber. age. Qed.
Lemma handleJobUnsubscribe_ages p env : moves (ages X Y) (handleJobUnsubscribe p env).
Proof. unfold handleJobUnsubscribe, removeSubscriber, sub_close. age. Qed.
Lemma handleListJobs_ages p env : moves (ages X Y) (handleListJobs p env).
Proof. unfold handleListJobs. age. Qed.
Lemma handleAck_ages p env : moves (ages X Y) (handleAck p env).
Proof. unfold handleAck, log_trim. cbv zeta. age. Qed.
Lemma handlePing_ages p env : moves (ages X Y) (handlePing p env).
Proof. unfold handlePing. age. Qed.

Lemma welcome_session_ages t sid principal hello floor_ isResume from :
  moves (ages X Y) (welcome_session t sid principal hello floor_ isResume from).
Proof. unfold welcome_session, buildWelcome, allocFor, setIfGreater, newSession. cbv zeta. age. Qed.
#[local] Hint Resolve welcome_session_ages : ages.

Lemma Accept_handshake_ages t recv : moves (ages X Y) (Accept_handshake t recv).
Proof. unfold Accept_handshake, handshake, sendSessionError. cbv zeta. age. Qed.
Lemma Accept_register_ages p : moves (ages X Y) (Accept_register p).
Proof. unfold Accept_register, registerSession, set_pc. age. Qed.
Lemma run_current_ages p : moves (ages X Y) (run_current p).
Proof. unfold run_current, setCurrentSession. age. Qed.
Lemma run_replay_ages p : moves (ages X Y) (run_replay p).
Proof. unfold run_replay, replayBuffered, set_pc. age. Qed.
Lemma session_exit_ages p : moves (ages X Y) (session_exit p).
Proof. unfold session_exit, clearCurrentSession, set_pc. age. Qed.
Lemma Accept_tail_ages p : moves (ages X Y) (Accept_tail p).
Proof. unfold Accept_tail, stashResume, unregisterSession, set_pc. cbv zeta. age. Qed.
Lemma janitorTick_ages : moves (ages X Y) janitorTick.
Proof. unfold janitorTick, sweepIdle, purgeExpiredResumes, scheduleJanitor, delete_resume, log_trim, dropAlloc. age. Qed.
Lemma Close_begin_ages : moves (ages X Y) Close_begin.
Proof. unfold Close_begin. age. Qed.
End ages.

(** ** Every operation *)

Section run.
Context {RT : Runtime}.

(** What happens after the creation of the job [j] to the jobs before it. *)
Lemma ages_new s s1 s2 j : ages ∅ ∅ s s1 → ages {[j]} ∅ s1 s2 → tick s ≤ j → ages ∅ ∅ s s2.
Proof.
  intros (T1 & H1 & B1 & W1) (T2 & H2 & B2 & W2) Hj. split_and!; [lia| | |].
  - intros k y Hk Hy. destruct (H1 k y Hk Hy) as (y1 & Hy1 & A1 & P1).
    destruct (H2 k y1 ltac:(lia) Hy1) as (y2 & Hy2 & A2 & P2). exists y2. split_and!; [done|by etrans|].
    intros _. rewrite <-P1 by set_solver. apply P2. rewrite elem_of_singleton. lia.
  - intros k y2 Hy2 HY Hp. destruct (B2 k y2 Hy2 HY Hp) as (y1 & Hy1 & Hp1). by apply (B1 k y1).
  - intros t w Hw. destruct (W1 t w Hw) as [m1 Hm1]. destruct (W2 t _ Hm1) as [m2 Hm2]. exists (m1 ++ m2). by rewrite app_assoc.
Qed.

Lemma newJob_fresh p canonical req fn tr s :
  (newJob p canonical req fn tr s).1 = tick s ∧ ages ∅ ∅ s (newJob p canonical req fn tr s).2.
Proof.
  unfold newJob, mbind, M_bind, fresh, gets, modify. cbn. split; [done|]. rewrite ret_eq. split_and!; [cbn; lia| | |by apply wire_same].
  - intros j y Hj Hy. exists y. cbn. rewrite lookup_insert_ne by lia. done.
  - intros j y. cbn. rewrite lookup_insert. case_decide; [by intros [= <-]|intros Hy _ Hp; by exists y].
Qed.

Lemma handleJobSubmit_ages p env : moves (ages ∅ ∅) (handleJobSubmit p env).
Proof.
  unfold handleJobSubmit. destruct (decode_submit _) as [req|e]; [|apply sendErrorFor_ages].
  moves_step; [apply fresh_ages|]. moves_step; [moves_step|]. destruct a0 as [[fn canonical]|[code msg]]; [|apply sendErrorFor_ages].
  intros s. rewrite bind_eq. destruct (newJob_fresh p canonical req fn (env_TraceID env) s) as [Hj Hs].
  destruct (newJob _ _ _ _ _ s) as [j s1]. cbn in Hj, Hs |- *. subst j. eapply ages_new; [exact Hs| |done].
  match goal with |- ages ?X ?Y _ (?m _).2 => enough (moves (ages X Y) m) as Hm by apply Hm end.
  assert (tick s ∈ ({[tick s]} : gset nat)) as Hin by set_solver.
  repeat lazymatch goal with
    | |- moves _ (registerJob _) => apply registerJob_ages
    | |- moves _ (discard _) => apply discard_ages
    | |- moves _ (reject_job _) => apply reject_job_ages
    | |- moves _ (sendErrorFor _ _ _ _) => apply sendErrorFor_ages
    | |- moves _ (replayAccepted _ _) => apply replayAccepted_ages
    | |- moves _ (accept_job _ _ _ _ _) => by apply accept_job_ages
    | |- moves _ (modify _) => by apply modify_ages
    | |- _ => moves_step
    end.
Qed.

Lemma read_turn_ages p env : moves (ages ∅ ∅) (read_turn p env).
Proof.
  unfold read_turn, dispatch. cbv zeta.
  repeat moves_step; first [apply set_sess_ages | idtac].
  - apply handlePing_ages.
  - apply handleAck_ages.
  - apply handleListJobs_ages.
  - apply handleClose_ages.
  - apply handleJobSubmit_ages.
  - apply handleJobCancel_ages.
  - apply handleJobSubscribe_ages.
  - apply handleJobUnsubscribe_ages.
  - apply sendErrorFor_ages.
Qed.

(** The job whose program counter an operation moves. *)
Definition moved (o : op) : gset nat :=
  match o with OpJobStart j | OpJobReturn j _ => {[j]} | _ => ∅ end.

(** The job whose body begins to run. *)
Definition begun (o : op) : gset nat := match o with OpJobStart j => {[j]} | _ => ∅ end.

Lemma fire_timers_ages j : moves (ages ∅ ∅) (fire_timers j).
Proof. intros s. unfold fire_timers, modify. cbn [snd]. apply update_ages; by repeat case_goal. Qed.

(** A connection brings a transport of its own. *)
Lemma Accept_ages s t recv : enabled s (OpAccept t recv) = true → ages ∅ ∅ s (exec_op (OpAccept t recv) s).2.
Proof.
  cbn [enabled exec_op]. intros [Hw%bool_decide_eq_true _]%andb_true_iff. rewrite !bind_eq. cbn [fst snd].
  etrans; [|apply Accept_handshake_ages]. split_and!; [done| | |].
  - intros j y _ Hy. by exists y.
  - intros j y Hy _ Hp. by exists y.
  - intros u w Hu. cbn. rewrite lookup_insert_ne by congruence. exists []. by rewrite app_nil_r.
Qed.

Lemma exec_op_ages s o : enabled s o = true → ages (moved o) (begun o) s (exec_op o s).2.
Proof.
  intros He. destruct o;
    lazymatch goal with
    | |- ages _ _ _ (exec_op (OpAccept _ _) _).2 => by apply Accept_ages
    | |- ages ?X ?Y _ (?m _).2 => enough (moves (ages X Y) m) as Hm by apply Hm; clear He
    end; cbn [exec_op moved begun]; try lazymatch goal with |- moves _ (modify _) => by apply modify_ages end.
  - apply Accept_register_ages.
  - apply run_current_ages.
  - apply run_replay_ages.
  - apply read_turn_ages.
  - apply writeLoop_turn_ages.
  - moves_step; [apply set_sess_ages|apply sendPing_ages].
  - apply watchdog_ages.
  - apply set_sess_ages.
  - apply session_exit_ages.
  - apply Accept_tail_ages.
  - apply janitorTick_ages.
  - apply Close_begin_ages.
  - unfold Close_end. repeat moves_step. by apply modify_ages.
  - apply run_start_ages; set_solver.
  - apply exec_agent_ages.
  - apply run_finish_ages. set_solver.
  - apply fire_timers_ages.
  - moves_step; [by apply set_job_ages|apply expireLease_ages].
  - moves_step; [by apply set_job_ages|apply timeout_ages].
Qed.

Lemma step_ages s o : ages (moved o) (begun o) s (step s o).
Proof.
  unfold step. destruct (negb (crashed s) && enabled s o) eqn:He; [|done]. apply andb_true_iff in He as [_ He]. by apply exec_op_ages.
Qed.

(** What is on a transport stays. *)
Lemma step_wire s o t w : wire s !! t = Some w → ∃ more, wire (step s o) !! t = Some (w ++ more).
Proof. destruct (step_ages s o) as (_ & _ & _ & H). apply H. Qed.

Lemma job_taken o t s j y : reachable o t s → hjob s !! j = Some y → j < tick s.
Proof.
  intros Hr Hy. destruct (inv_job _ (reachable_Inv _ _ _ Hr) j (jcore_of y)) as [Hj _]; [|exact Hj].
  cbn. by rewrite lookup_fmap, Hy.
Qed.

(** How far a run has come. *)
Definition progress (pc : job_pc) : nat :=
  match pc with JCreated => 0 | JPending => 1 | JAgent => 2 | JReturned => 3 end.

Lemma run_exit_returned j s : ∃ y, hjob (run_exit j s).2 !! j = Some y ∧ j_pc y = JReturned.
Proof. unfold run_exit. rewrite !bind_eq. eexists. split; [apply lookup_insert_eq|done]. Qed.

Lemma run_start_pc j s : ∃ y, hjob (run_start j s).2 !! j = Some y ∧ 2 ≤ progress (j_pc y).
Proof.
  unfold run_start. run_reads. destruct (j_terminal _).
  - destruct (run_exit_returned j s) as (y & Hy & Hpc). exists y. split; [done|]. rewrite Hpc. cbn. lia.
  - eexists. split; [apply lookup_insert_eq|]. cbn. lia.
Qed.

Lemma run_finish_returned j o s : ∃ y, hjob (run_finish j o s).2 !! j = Some y ∧ j_pc y = JReturned.
Proof. unfold run_finish. rewrite bind_eq. apply run_exit_returned. Qed.

Lemma job_at_spec s j pc : job_at s j pc = true ↔ ∃ y, hjob s !! j = Some y ∧ j_pc y = pc.
Proof.
  unfold job_at. rewrite andb_true_iff, !bool_decide_eq_true. split.
  - intros [[y Hy] Hpc]. exists y. by rewrite (job_some _ _ _ Hy) in Hpc.
  - intros (y & Hy & Hpc). split; [by exists y|]. by rewrite (job_some _ _ _ Hy).
Qed.

(** A step ages a job, and its run only goes on. *)
Lemma step_life s o j y :
  j < tick s → hjob s !! j = Some y →
  ∃ y', hjob (step s o) !! j = Some y' ∧ aged y y' ∧ progress (j_pc y) ≤ progress (j_pc y').
Proof.
  intros Hj Hy. destruct (step_ages s o) as (_ & H & _ & _). destruct (H j y Hj Hy) as (y' & Hy' & Ha & Hp).
  exists y'. split_and!; [done|done|]. destruct (decide (j ∈ moved o)) as [Hm|Hm]; [|by rewrite Hp].
  revert Hy'. unfold step. destruct (negb (crashed s) && enabled s o) eqn:He; [|intros Hy'; by simplify_eq].
  apply andb_true_iff in He as [_ He].
  destruct o; cbn [moved] in Hm; try (by apply elem_of_empty in Hm); apply elem_of_singleton in Hm; subst;
    cbn [enabled exec_op] in *; apply job_at_spec in He as (z & Hz & Hpc); simplify_eq; intros Hy'.
  - destruct (run_start_pc j0 s) as (z' & Hz' & Hr). simplify_eq. rewrite Hpc. cbn. lia.
  - destruct (run_finish_returned j0 o s) as (z' & Hz' & Hr). simplify_eq. rewrite Hr, Hpc. cbn. lia.
Qed.

Lemma run_life o t ops s j y :
  reachable o t s → hjob s !! j = Some y →
  ∃ y', hjob (run ops s) !! j = Some y' ∧ aged y y' ∧ progress (j_pc y) ≤ progress (j_pc y').
Proof.
  revert s y. induction ops as [|x ops IH]; intros s y Hr Hy; [by exists y|].
  destruct (step_life s x j y) as (y1 & Hy1 & A1 & P1); [by eapply job_taken|done|].
  destruct (IH (step s x) y1) as (y2 & Hy2 & A2 & P2); [by constructor|done|].
  exists y2. split_and!; [done|by etrans|lia].
Qed.

(** C13: A job is what was accepted.  Whatever happens after a point of a run, a
    job keeps its identifier, its agent, its principal, its session, its
    handler, its input, its trace and its grant (the patterns, the deadline and
    the initial budget of its lease); its cancellation and the revocation of
    its credentials are not undone, its last sequence number never decreases,
    its run never goes back, and once it is terminal it stays terminal with the
    same status. *)
Theorem job_identity_permanent (o : Options) (t : Time) (s : Server) (ops : list op) (j : nat) (y : Job) :
  reachable o t s → hjob s !! j = Some y →
  ∃ y', hjob (run ops s) !! j = Some y' ∧ progress (j_pc y) ≤ progress (j_pc y') ∧
    birth y' = birth y ∧
    (j_terminal y = true → j_terminal y' = true ∧ j_statusV y' = j_statusV y) ∧
    (j_ctxDone y = true → j_ctxDone y' = true) ∧ (j_revoked y = true → j_revoked y' = true) ∧
    (j_lastEventSeq y <= j_lastEventSeq y')%Z.
Proof.
  intros Hr Hy. destruct (run_life o t ops s j y Hr Hy) as (y' & Hy' & [] & Hp). exists y'. by split_and!.
Qed.
End run.

(** The job of the concrete run, from its start to after its end. *)
Lemma job_identity_permanent_witness :
  let s := demo_run 2 demo_worked in
  j_statusV (job s 8) = StatusRunning ∧
  ∃ y', hjob (run [OpJobReturn 8 (AReturn (Some (Ok "1")) None); OpRead 6 (cancel_env demo_jid "late")] s) !! 8 = Some y' ∧
    birth y' = birth (job s 8) ∧ j_statusV y' = StatusSuccess.
Proof.
  cbv zeta. split; [vm_compute; reflexivity|].
  destruct (job_identity_permanent (demo_opts 2) 1000 (demo_run 2 demo_worked)
    [OpJobReturn 8 (AReturn (Some (Ok "1")) None); OpRead 6 (cancel_env demo_jid "late")] 8 (job (demo_run 2 demo_worked) 8))
    as (y' & Hy' & _ & Hb & _).
  - apply demo_reachable.
  - vm_compute. reflexivity.
  - exists y'. split; [done|]. split; [done|]. revert Hy'. vm_compute. by intros [= <-].
Defined.
