(* ===== verification/ServerWire.v ===== *)
(** * From the queue to the wire

    The link between what the handlers queue on a session and what its writer
    puts on the session's transport: [Flow], an invariant of the outboxes, the
    trace and the wires, and its preservation by every operation.  The theorem
    says that the transport carries the queue in order and without gaps, the
    control messages that bypass the queue apart. *)

From S2P Require Import Prelude GoStrings Errors Features Float64 Lease Canonical LeaseState Messages EventLog IdStore Agents ServerState Delivery Stream Job ListJobs Session Runtime Scenarios Invariant Preservation JobPreservation SessionPreservation HandlerPreservation Frames Safety.
From Stdlib Require Import ZArith Lia.

(** What a client takes an event from: job data, or anything numbered. *)
Definition event_like (e : Envelope) : bool := job_scoped (env_Type e) || negb (env_EventSeq e =? 0)%Z.

(** The envelopes ever queued on the session [p], oldest first. *)
Definition queued_on (tr : list obs) (p : nat) : list Envelope :=
  omap (λ o, match o with OEnqueue q e => if bool_decide (q = p) then Some e else None | _ => None end) tr.

Arguments queued_on : simpl never.

Lemma queued_on_app tr tr' p : queued_on (tr ++ tr') p = queued_on tr p ++ queued_on tr' p.
Proof. apply omap_app. Qed.

Lemma queued_on_push p q env : queued_on [OEnqueue q env] p = if bool_decide (q = p) then [env] else [].
Proof. unfold queued_on. cbn. by case_bool_decide. Qed.

(** The writer of the session has been started. *)
Definition started (pc : session_pc) : bool := match pc with SHandshaken | SRegistered => false | _ => true end.

(** The tagged envelopes of a wire that came from the queue. *)
Definition from_queue (w : list (bool * Envelope)) : list Envelope := (filter (λ e, e.1 = true) w).*2.

Lemma from_queue_app w w' : from_queue (w ++ w') = from_queue w ++ from_queue w'.
Proof. unfold from_queue. by rewrite filter_app, fmap_app. Qed.

(** The wire of the session [p]: tagged with whether they came from the queue,
    the envelopes on it; the queue is what was taken from it, at most one
    envelope lost by the failed write that ended the writer, and the outbox. *)
Definition wire_ok (s : Server) (p : nat) (x : session) : Prop :=
  ∃ (w : list (bool * Envelope)) (lost : list Envelope),
    wire s !! s_transport x = Some w.*2 ∧
    Forall (λ e, e.1 = false → event_like e.2 = false) w ∧
    queued_on (trace s) p = from_queue w ++ lost ++ s_outbox x ∧
    (s_writing x = true → lost = [] ∧ started (s_pc x) = true) ∧
    (started (s_pc x) = false → lost = []).

Definition Flow (s : Server) : Prop :=
  (∀ p x, hsess s !! p = Some x → wire_ok s p x) ∧
  (∀ p q x y, hsess s !! p = Some x → hsess s !! q = Some y → s_transport x = s_transport y → p = q).

Definition flows (s s' : Server) : Prop := Flow s → Flow s'.

#[global] Instance flows_preorder : PreOrder flows.
Proof. split; [by intros s H|]. intros s1 s2 s3 H1 H2 H. by apply H2, H1. Qed.

Create HintDb flow.
#[export] Hint Constants Opaque : flow.

Section flow.
Context {RT : Runtime}.

(** ** Primitive changes *)

Lemma same_flows s s' : hsess s' = hsess s → wire s' = wire s → trace s' = trace s → flows s s'.
Proof.
  intros E1 E2 E3 [H1 H2]. split; rewrite E1; [|exact H2]. intros p x Hx. unfold wire_ok. rewrite E2, E3. by apply H1.
Qed.

Lemma modify_flows f :
  (∀ s, hsess (f s) = hsess s ∧ wire (f s) = wire s ∧ trace (f s) = trace s) → moves flows (modify f).
Proof. intros Hf s. destruct (Hf s) as (? & ? & ?). by apply same_flows. Qed.

Lemma fresh_flows : moves flows fresh.
Proof. intros s H. exact H. Qed.

Lemma set_job_flows j f : moves flows (set_job_ j f).
Proof. by apply modify_flows. Qed.

Lemma observe_flows o : (∀ p e, o ≠ OEnqueue p e) → moves flows (observe o).
Proof.
  intros Ho s [H1 H2]. split; [|exact H2]. intros p x Hx. destruct (H1 p x Hx) as (w & lost & Hw & Hd & Hq & Hr).
  exists w, lost. split; [exact Hw|]. split; [exact Hd|]. split; [|exact Hr].
  unfold observe, modify. cbn. rewrite queued_on_app, Hq. unfold queued_on. destruct o as [|q e| | | |]; try by rewrite app_nil_r.
  by destruct (Ho q e).
Qed.

(** Updates of a session that leave its transport and its outbox alone, never
    start the writer and never go back before its start. *)
Definition flow_stable (f : session → session) : Prop :=
  ∀ x, s_transport (f x) = s_transport x ∧ s_outbox (f x) = s_outbox x ∧
       (s_writing (f x) = true → s_writing x = true) ∧ (started (s_pc x) = true → started (s_pc (f x)) = true).

Lemma set_sess_flows p f : flow_stable f → moves flows (set_sess p f).
Proof.
  intros Hf s [H1 H2]. unfold set_sess, modify. cbn [snd]. split; cbn.
  - intros q x. rewrite lookup_alter_Some. intros [(<- & y & Hy & ->)|(Hne & Hx)]; [|by apply H1].
    destruct (H1 p y Hy) as (w & lost & Hw & Hd & Hq & Hl & Hs). destruct (Hf y) as (E1 & E2 & E3 & E4).
    exists w, lost. rewrite E1, E2. split_and!; [done|done|done| |].
    + intros Hx. destruct (Hl (E3 Hx)) as [? ?]. split; [done|by apply E4].
    + intros Hx. apply Hs. destruct (started (s_pc y)); [by rewrite E4 in Hx|done].
  - assert (∀ q x, alter f p (hsess s) !! q = Some x → ∃ y, hsess s !! q = Some y ∧ s_transport y = s_transport x) as Ha.
    { intros q x. rewrite lookup_alter_Some. intros [(<- & y & Hy & ->)|(_ & Hx)]; [|by exists x].
      exists y. split; [done|]. by destruct (Hf y) as (-> & _). }
    intros q r x y (x' & Hx & Ex)%Ha (y' & Hy & Ey)%Ha He. apply (H2 q r x' y'); [done|done|congruence].
Qed.

Lemma push_flows p env : moves flows (push p env).
Proof.
  intros s [H1 H2]. unfold push. rewrite bind_eq. unfold set_sess, observe, modify. cbn [fst snd]. split; cbn.
  - intros q x. rewrite lookup_alter_Some. intros [(<- & y & Hy & ->)|(Hne & Hx)].
    + destruct (H1 p y Hy) as (w & lost & Hw & Hd & Hq & Hr). exists w, lost. split_and!; [done|done| |apply Hr..]. cbn.
      by rewrite queued_on_app, queued_on_push, Hq, bool_decide_eq_true_2, <-!app_assoc by done.
    + destruct (H1 q x Hx) as (w & lost & Hw & Hd & Hq & Hr). exists w, lost. split_and!; [done|done| |apply Hr..]. cbn.
      by rewrite queued_on_app, queued_on_push, Hq, bool_decide_eq_false_2, app_nil_r by done.
  - intros q r x y Hx Hy. revert Hx Hy. rewrite !lookup_alter_Some.
    intros [(<- & x' & Hx & ->)|(_ & Hx)] [(<- & y' & Hy & ->)|(_ & Hy)]; cbn; by apply H2.
Qed.

Lemma writing_lost s p x : Flow s → hsess s !! p = Some x → s_writing x = true →
  ∃ w, wire s !! s_transport x = Some w.*2 ∧ Forall (λ e, e.1 = false → event_like e.2 = false) w ∧
    queued_on (trace s) p = from_queue w ++ s_outbox x ∧ started (s_pc x) = true.
Proof.
  intros [H1 _] Hx Hw. destruct (H1 p x Hx) as (w & lost & ? & ? & Hq & Hl & _). destruct (Hl Hw) as [-> ?].
  by exists w.
Qed.

(** A message that is no event is written past the queue. *)
Lemma transport_send_flows t env : event_like env = false → moves flows (transport_send t env).
Proof.
  intros He. unfold transport_send. repeat moves_step; [apply fresh_flows|]. intros s [H1 H2]. split; [|exact H2].
  cbn. intros p x Hx. destruct (H1 p x Hx) as (w & lost & Hw & Hd & Hq & Hr). destruct (decide (s_transport x = t)) as [<-|Hne].
  - exists (w ++ [(false, env)]), lost. split_and!; [|apply Forall_app; split; [done|by apply Forall_singleton]| |apply Hr..].
    + cbn. rewrite lookup_insert, Hw, fmap_app. by rewrite decide_True.
    + cbn. by rewrite Hq, from_queue_app, app_nil_r.
  - exists w, lost. split_and!; [|done|done|apply Hr..]. cbn. by rewrite lookup_insert_ne.
Qed.

(** A session whose writer runs is replaced by one whose outbox, writer, wire
    and trace keep [wire_ok]. *)
Lemma replace_session s s' p x y :
  Flow s → hsess s !! p = Some x → hsess s' = <[p := y]> (hsess s) → s_transport y = s_transport x →
  trace s' = trace s → (∀ t, t ≠ s_transport x → wire s' !! t = wire s !! t) → wire_ok s' p y → Flow s'.
Proof.
  intros [H1 H2] Hx Hs Ht Htr Hw Hy. split; rewrite Hs.
  - intros q z [[<- <-]|[Hne Hz]]%lookup_insert_Some; [done|]. destruct (H1 q z Hz) as (w & lost & Hq & Hr).
    exists w, lost. rewrite Htr, Hw; [done|]. intros He. by apply Hne, (H2 p q x z).
  - assert (∀ q z, <[p := y]> (hsess s) !! q = Some z → ∃ z', hsess s !! q = Some z' ∧ s_transport z' = s_transport z) as Ha.
    { intros q z [[<- <-]|[_ Hz]]%lookup_insert_Some; [by exists x|by exists z]. }
    intros q r u v (u' & Hu & Eu)%Ha (v' & Hv & Ev)%Ha He. apply (H2 q r u' v'); [done|done|congruence].
Qed.

Lemma sess_some s p x : hsess s !! p = Some x → sess s p = x.
Proof. intros H. unfold sess. by rewrite H. Qed.

Lemma alter_insert {A} (f : A → A) (m : gmap nat A) p x : m !! p = Some x → alter f p m = <[p := f x]> m.
Proof.
  intros H. apply map_eq. intros q. rewrite lookup_alter, lookup_insert. case_decide; [|done]. subst q. by rewrite H.
Qed.

(** A write succeeds, or leaves the wires as they are. *)
Lemma transport_send_cases t env s :
  (∃ e, transport_send t env s = (Some e, s <| tick := S (tick s) |>)) ∨
  transport_send t env s =
    (None, s <| tick := S (tick s) |> <| wire := <[t := default [] (wire s !! t) ++ [env]]> (wire s) |>).
Proof.
  unfold transport_send, mbind, M_bind, fresh, gets, modify. cbn.
  destruct (bool_decide (t ∈ tclosed s)); [left; by eexists|]. destruct (send_err (tick s)); [left; by eexists|by right].
Qed.

Lemma writeLoop_turn_flows p : moves flows (writeLoop_turn p).
Proof.
  intros s H. unfold writeLoop_turn. run_reads.
  destruct (hsess s !! p) as [x|] eqn:Hx; [|unfold sess; by rewrite Hx]. rewrite (sess_some _ _ _ Hx).
  destruct (s_writing x) eqn:Hw; [|done]. destruct (writing_lost s p x H Hx Hw) as (w & Hwi & Hd & Hq & Hst). cbn [negb].
  destruct (s_outbox x) as [|env rest] eqn:Ho.
  { destruct (s_outboxClosed x || s_ctxDone x); [|done]. by apply set_sess_flows. }
  rewrite !bind_eq. unfold set_sess at 1 3, modify at 1 3. cbn [fst snd]. rewrite (alter_insert _ _ _ _ Hx).
  set (x1 := x <| s_outbox := rest |>). set (s1 := s <| hsess := <[p := x1]> (hsess s) |>).
  destruct (transport_send_cases (s_transport x) env s1) as [(e & ->)| ->]; cbn [fst snd].
  - unfold set_sess, modify. cbn [snd]. eapply (replace_session s _ p x (x1 <| s_writing := false |>)); try done.
    + cbn. rewrite (alter_insert _ _ p x1) by apply lookup_insert_eq. by rewrite insert_insert_eq.
    + exists w, [env]. split_and!; try done. cbn. by rewrite Hst.
  - unfold modify. cbn [snd]. set (y := if s_pingArmed _ then _ else _).
    assert (s_transport y = s_transport x ∧ s_outbox y = rest ∧ s_writing y = true ∧ s_pc y = s_pc x) as (E1 & E2 & E3 & E4).
    { unfold y, sess. cbn. rewrite lookup_insert_eq. cbn. by case_goal. }
    eapply (replace_session s _ p x y); try done.
    + cbn. by rewrite insert_insert_eq.
    + intros t Ht. cbn. by rewrite lookup_insert_ne.
    + exists (w ++ [(true, env)]), []. rewrite E1, E2, E4. split_and!; try done.
      * cbn. by rewrite lookup_insert_eq, Hwi, fmap_app.
      * by apply Forall_app; split; [|apply Forall_singleton].
      * cbn. rewrite Hq, from_queue_app, <-app_assoc. done.
Qed.

(** ** The operations *)

Lemma new_envelope_flows typ pl : moves flows (new_envelope typ pl).
Proof. unfold new_envelope. repeat moves_step. apply fresh_flows. Qed.

(** A new envelope has its type and no number. *)
Lemma moves_new_envelope {A} (R : relation Server) `{!PreOrder R} typ pl (k : res Envelope → M A) :
  moves R fresh → (∀ env, env_Type env = typ → env_EventSeq env = 0%Z → moves R (k (Ok env))) →
  (∀ e, moves R (k (Err e))) → moves R (new_envelope typ pl ≫= k).
Proof.
  intros Hf Hok Herr s. rewrite bind_eq. unfold new_envelope. run_reads. etrans; [apply (Hf s)|]. cbn [snd fresh].
  unfold NewEnvelope. destruct (MarshalPayload pl); [by apply Hok|apply Herr].
Qed.

Ltac flow_step :=
  lazymatch goal with
  | |- moves _ (modify _) => apply modify_flows; intros ?; repeat case_match; by split_and!
  | |- moves _ (set_sess _ _) => apply set_sess_flows; intros ?; repeat case_match; by split_and!
  | |- moves _ (set_job_ _ _) => apply set_job_flows
  | |- moves _ (observe _) => apply observe_flows; by intros
  | |- moves _ fresh => apply fresh_flows
  | |- moves _ (push _ _) => apply push_flows
  | |- moves _ (writeLoop_turn _) => apply writeLoop_turn_flows
  | |- moves _ (new_envelope _ _) => apply new_envelope_flows
  | |- _ => first [moves_step | solve [auto with flow nocore]]
  end.
Ltac flow := repeat flow_step.

Lemma nextSeq_flows p : moves flows (nextSeq p).
Proof. unfold nextSeq, next. flow. Qed.
#[local] Hint Resolve nextSeq_flows : flow.

Lemma transport_close_flows t : moves flows (transport_close t).
Proof. unfold transport_close. flow. Qed.
#[local] Hint Resolve transport_close_flows : flow.

Lemma persistOutbound_flows p env : moves flows (persistOutbound p env).
Proof. unfold persistOutbound. flow. Qed.
#[local] Hint Resolve persistOutbound_flows : flow.

Lemma maybeEmitBackPressure_flows p jobID seq : moves flows (maybeEmitBackPressure p jobID seq).
Proof. unfold maybeEmitBackPressure. flow. Qed.
#[local] Hint Resolve maybeEmitBackPressure_flows : flow.

Lemma enqueue_flows p env : moves flows (enqueue p env).
Proof. unfold enqueue. flow. Qed.
#[local] Hint Resolve enqueue_flows : flow.

Lemma send_flows p env : moves flows (send p env).
Proof. unfold send. flow. Qed.
Lemma sendEphemeral_flows p env : moves flows (sendEphemeral p env).
Proof. unfold sendEphemeral. flow. Qed.
#[local] Hint Resolve send_flows sendEphemeral_flows : flow.

Lemma fanoutEvent_flows jobID env : moves flows (fanoutEvent jobID env).
Proof. unfold fanoutEvent, publish. flow. Qed.
#[local] Hint Resolve fanoutEvent_flows : flow.

(** *** Jobs *)

Lemma retryRevoke_flows n o call : (∀ p e, o ≠ OEnqueue p e) → moves flows (retryRevoke n o call).
Proof. intros Ho. induction n as [|n IH]; simpl; flow; by apply observe_flows. Qed.

Lemma revokeAll_flows j : moves flows (revokeAll j).
Proof. unfold revokeAll, revokeCredential. flow. by apply retryRevoke_flows. Qed.
#[local] Hint Resolve revokeAll_flows : flow.

Lemma setStatus_flows j st : moves flows (setStatus j st).
Proof. unfold setStatus. flow. Qed.
Lemma markTerminal_flows j st : moves flows (markTerminal j st).
Proof. unfold markTerminal. flow. Qed.
#[local] Hint Resolve setStatus_flows markTerminal_flows : flow.

Lemma emit_envelope_flows j env : moves flows (emit_envelope j env).
Proof. unfold emit_envelope, recordSeq. flow. Qed.
#[local] Hint Resolve emit_envelope_flows : flow.

Lemma emitTerminal_flows j typ p : moves flows (emitTerminal j typ p).
Proof. unfold emitTerminal. flow. Qed.
#[local] Hint Resolve emitTerminal_flows : flow.

Lemma unregisterJob_flows id : moves flows (unregisterJob id).
Proof. unfold unregisterJob. flow. Qed.
#[local] Hint Resolve unregisterJob_flows : flow.

Lemma run_exit_flows j : moves flows (run_exit j).
Proof. unfold run_exit, stop_timers. flow. Qed.
#[local] Hint Resolve run_exit_flows : flow.

Lemma expireLease_flows j : moves flows (expireLease j).
Proof. unfold expireLease, emitTerminalError, cancel_ctx. flow. Qed.
Lemma timeout_flows j : moves flows (timeout j).
Proof. unfold timeout, emitTerminalError, cancel_ctx. flow. Qed.

Lemma run_finish_flows j o : moves flows (run_finish j o).
Proof. unfold run_finish, run_body_result, finish. flow. Qed.

Lemma run_start_flows j : moves flows (run_start j).
Proof. unfold run_start. flow. Qed.

Lemma emitEvent_flows j kind body : moves flows (emitEvent j kind body).
Proof. unfold emitEvent. flow. Qed.
#[local] Hint Resolve emitEvent_flows : flow.

Lemma RotateCredential_flows j id v : moves flows (RotateCredential j id v).
Proof.
  unfold RotateCredential, recordSeq, revokePriorCredentialValue. flow. by apply retryRevoke_flows.
Qed.
#[local] Hint Resolve RotateCredential_flows : flow.

Lemma Metric_flows j name v u dims : moves flows (Metric j name v u dims).
Proof. unfold Metric, maybeEmitRemaining. flow. Qed.

#[local] Hint Resolve Metric_flows : flow.

Lemma stream_Write_flows j p : moves flows (stream_Write j p).
Proof. unfold stream_Write, emit_chunk. flow. Qed.
Lemma stream_Close_flows j : moves flows (stream_Close j).
Proof. unfold stream_Close, emit_chunk. flow. Qed.
Lemma StreamResult_flows j e : moves flows (StreamResult j e).
Proof. unfold StreamResult. flow. Qed.
#[local] Hint Resolve stream_Write_flows stream_Close_flows StreamResult_flows : flow.

Lemma exec_agent_flows j a : moves flows (exec_agent j a).
Proof.
  destruct a; cbn [exec_agent];
    unfold Log, Thought, ToolCall, ToolResult, ToolError_, Status, ArtifactRef, Progress, ReserveBudget; flow.
Qed.

(** *** Sessions *)

Lemma sendErrorFor_flows p env code msg : moves flows (sendErrorFor p env code msg).
Proof. unfold sendErrorFor. flow. Qed.
Lemma sendPing_flows p : moves flows (sendPing p).
Proof. unfold sendPing. flow. Qed.
Lemma replayAccepted_flows p acc : moves flows (replayAccepted p acc).
Proof. unfold replayAccepted. flow. Qed.
#[local] Hint Resolve sendErrorFor_flows replayAccepted_flows : flow.

(** A control message written past the queue. *)
Lemma control_flows {A} typ pl (f : Envelope → Envelope) t (k : M A) :
  job_scoped typ = false → (∀ e, env_Type (f e) = env_Type e ∧ env_EventSeq (f e) = env_EventSeq e) →
  moves flows k →
  moves flows (r ← new_envelope typ pl; x ← gets t;
               match r with Ok env => transport_send (s_transport x) (set_session (f env) (s_id x));; mret () | Err _ => mret () end;; k).
Proof.
  intros Ht Hf Hk. refine (moves_new_envelope _ _ _ _ fresh_flows _ _).
  - intros env Hty Hseq. repeat moves_step; [|done]. apply transport_send_flows. unfold event_like.
    change (env_Type (set_session (f env) (s_id a))) with (env_Type (f env)).
    change (env_EventSeq (set_session (f env) (s_id a))) with (env_EventSeq (f env)).
    destruct (Hf env) as [-> ->]. by rewrite Hty, Hseq, Ht.
  - intros e. by repeat moves_step.
Qed.

Lemma watchdog_flows p : moves flows (watchdog p).
Proof. unfold watchdog. flow_step; [flow|]. apply (control_flows _ _ (λ e, e)); [done|done|flow]. Qed.

Lemma handleClose_flows p env : moves flows (handleClose p env).
Proof. unfold handleClose. cbv zeta. flow_step; [flow|]. apply (control_flows _ _ (λ e, e)); [done|done|flow]. Qed.

Lemma log_trim_flows sid n : moves flows (log_trim sid n).
Proof. unfold log_trim. flow. Qed.
Lemma delete_resume_flows id : moves flows (delete_resume id).
Proof. unfold delete_resume. flow. Qed.
#[local] Hint Resolve log_trim_flows delete_resume_flows handleClose_flows : flow.

Lemma dropAlloc_flows id : moves flows (dropAlloc id).
Proof. unfold dropAlloc. flow. Qed.
#[local] Hint Resolve dropAlloc_flows : flow.

Lemma dropResume_flows id : moves flows (dropResume id).
Proof. unfold dropResume. flow. Qed.
#[local] Hint Resolve dropResume_flows : flow.

Lemma discard_flows j : moves flows (discard j).
Proof. unfold discard, stop_timers, cancel_ctx. flow. Qed.
#[local] Hint Resolve discard_flows : flow.

Lemma reject_job_flows j : moves flows (reject_job j).
Proof. unfold reject_job. flow. Qed.
#[local] Hint Resolve reject_job_flows : flow.

Lemma accept_job_flows p env req canonical j : moves flows (accept_job p env req canonical j).
Proof. unfold accept_job, accept_issued, attachCredentials. cbv zeta. flow. Qed.
#[local] Hint Resolve accept_job_flows : flow.

Lemma newJob_flows p canonical req fn tr : moves flows (newJob p canonical req fn tr).
Proof. unfold newJob. cbv zeta. flow. Qed.
Lemma registerJob_flows j : moves flows (registerJob j).
Proof. unfold registerJob. flow. Qed.
#[local] Hint Resolve newJob_flows registerJob_flows : flow.

Lemma handleJobSubmit_flows p env : moves flows (handleJobSubmit p env).
Proof. unfold handleJobSubmit. cbv zeta. flow. Qed.
Lemma handleJobCancel_flows p env : moves flows (handleJobCancel p env).
Proof. unfold handleJobCancel, cancelWithReason, cancel_ctx. flow. Qed.
Lemma handleJobSubscribe_flows p env : moves flows (handleJobSubscribe p env).
Proof. unfold handleJobSubscribe, newSubscription, addSubscriber. flow. Qed.
Lemma handleJobUnsubscribe_flows p env : moves flows (handleJobUnsubscribe p env).
Proof. unfold handleJobUnsubscribe, removeSubscriber, sub_close. flow. Qed.
Lemma handleListJobs_flows p env : moves flows (handleListJobs p env).
Proof. unfold handleListJobs. flow. Qed.
Lemma handleAck_flows p env : moves flows (handleAck p env).
Proof. unfold handleAck. cbv zeta. flow. Qed.
Lemma handlePing_flows p env : moves flows (handlePing p env).
Proof. unfold handlePing. flow. Qed.
#[local] Hint Resolve handleJobSubmit_flows handleJobCancel_flows handleJobSubscribe_flows handleJobUnsubscribe_flows
  handleListJobs_flows handleAck_flows handlePing_flows : flow.

Lemma read_turn_flows p env : moves flows (read_turn p env).
Proof. unfold read_turn, dispatch. cbv zeta. flow. Qed.

(** *** The lifecycle *)

Lemma run_replay_flows p : moves flows (run_replay p).
Proof. unfold run_replay, replayBuffered, set_pc. flow. Qed.

Lemma session_exit_flows p : moves flows (session_exit p).
Proof. unfold session_exit, clearCurrentSession, set_pc. flow. Qed.

Lemma Accept_tail_flows p : moves flows (Accept_tail p).
Proof. unfold Accept_tail, stashResume, unregisterSession, set_pc. cbv zeta. flow. Qed.

Lemma janitorTick_flows : moves flows janitorTick.
Proof. unfold janitorTick, sweepIdle, purgeExpiredResumes, scheduleJanitor. flow. Qed.

Lemma Close_begin_flows : moves flows Close_begin.
Proof. unfold Close_begin. flow. Qed.

(** The steps of a session that has not started its writer. *)
Lemma at_pc_spec s p pc : at_pc s p pc = true → ∃ x, hsess s !! p = Some x ∧ s_pc x = pc.
Proof.
  unfold at_pc. rewrite andb_true_iff, !bool_decide_eq_true. intros [[x Hx] Hpc]. exists x. split; [done|].
  by rewrite (sess_some _ _ _ Hx) in Hpc.
Qed.

Lemma start_session s p x f :
  Flow s → hsess s !! p = Some x → started (s_pc x) = false →
  s_transport (f x) = s_transport x → s_outbox (f x) = s_outbox x →
  (s_writing (f x) = true → s_writing x = true ∨ started (s_pc (f x)) = true) →
  Flow (s <| hsess := alter f p (hsess s) |>).
Proof.
  intros H Hx Hst E1 E2 E3. destruct (proj1 H p x Hx) as (w & lost & Hw & Hd & Hq & Hl & Hs).
  eapply (replace_session s _ p x (f x)); try done; [cbn; by apply alter_insert|].
  exists w, lost. rewrite E1, E2. split_and!; try done; [|intros _; by apply Hs].
  intros Hwr. split; [by apply Hs|]. destruct (E3 Hwr) as [Hx'|]; [|done]. destruct (Hl Hx') as [_ Hx'']. congruence.
Qed.

Lemma Accept_register_Flow s p : at_pc s p SHandshaken = true → Flow s → Flow (Accept_register p s).2.
Proof.
  intros (x & Hx & Hpc)%at_pc_spec H. unfold Accept_register, registerSession. run_reads.
  destruct (closed s); unfold set_pc, set_sess, transport_close, modify; run_reads; cbn [snd].
  - apply (set_sess_flows p (λ x, x <| s_pc := SDone |>)); [intros ?; by split_and!|]. exact H.
  - eapply (start_session (s <| sessions := {[p]} ∪ sessions s |>) p x); try done; [by rewrite Hpc|cbn; by left].
Qed.

Lemma run_current_Flow s p : at_pc s p SRegistered = true → Flow s → Flow (run_current p s).2.
Proof.
  intros (x & Hx & Hpc)%at_pc_spec H. unfold run_current, setCurrentSession, set_sess, modify. run_reads. cbn [snd].
  eapply (start_session _ p x); try done; [by rewrite Hpc|cbn; by right].
Qed.

(** *** A new session *)

(** The transport [t] of a connection in its handshake. *)
Definition opened (t : nat) (s : Server) : Prop :=
  Flow s ∧ (∃ w, wire s !! t = Some w ∧ Forall (λ e, event_like e = false) w) ∧
  (∀ p x, hsess s !! p = Some x → s_transport x ≠ t ∧ p < tick s) ∧
  (∀ p e, OEnqueue p e ∈ trace s → p < tick s).

Definition opens (t : nat) (s s' : Server) : Prop := opened t s → opened t s'.

#[local] Instance opens_preorder t : PreOrder (opens t).
Proof. split; [by intros s H|]. intros s1 s2 s3 H1 H2 H. by apply H2, H1. Qed.

Lemma modify_opens t f :
  (∀ s, hsess (f s) = hsess s ∧ wire (f s) = wire s ∧ trace (f s) = trace s ∧ tick s ≤ tick (f s)) → moves (opens t) (modify f).
Proof.
  intros Hf s (H1 & H2 & H3 & H4). destruct (Hf s) as (E1 & E2 & E3 & E4). split_and!; cbn [modify snd].
  - by apply (same_flows s).
  - by rewrite E2.
  - intros p x. rewrite E1. intros Hx. destruct (H3 p x Hx). split; [done|lia].
  - intros p e. rewrite E3. intros He. specialize (H4 p e He). lia.
Qed.

Lemma fresh_opens t : moves (opens t) fresh.
Proof. apply (modify_opens t (λ s, s <| tick := S (tick s) |>)). intros s. split_and!; try done. cbn. lia. Qed.

Lemma transport_send_opens t u env : event_like env = false → moves (opens t) (transport_send u env).
Proof.
  intros He s (H1 & (w & Hw & Hd) & H3 & H4). pose proof (transport_send_flows u env He s H1) as HF. revert HF.
  destruct (transport_send_cases u env s) as [(e & ->)| ->]; cbn [snd]; intros HF; (split_and!; [exact HF| | |]);
    try (intros p x Hx; destruct (H3 p x Hx); split; [done|cbn; lia]); try (intros p e' Hx; specialize (H4 p e' Hx); cbn; lia).
  - by exists w.
  - cbn. rewrite lookup_insert. case_decide as Hu; [|by exists w]. subst u. rewrite Hw. exists (w ++ [env]). split; [done|].
    apply Forall_app. split; [done|]. by apply Forall_singleton.
Qed.

Ltac open_step :=
  lazymatch goal with
  | |- moves _ (modify _) => apply modify_opens; intros ?; repeat case_match; by split_and!
  | |- moves _ fresh => apply fresh_opens
  | |- _ => first [moves_step | solve [auto with flow nocore]]
  end.

Lemma new_envelope_opens t typ pl : moves (opens t) (new_envelope typ pl).
Proof. unfold new_envelope. repeat moves_step. apply fresh_opens. Qed.

Lemma sendSessionError_opens t sid code msg : moves (opens t) (sendSessionError t sid code msg).
Proof.
  unfold sendSessionError. refine (moves_new_envelope _ _ _ _ (fresh_opens t) _ _); [|intros e; by repeat moves_step].
  intros env Hty Hseq. apply transport_send_opens. unfold event_like. cbn. by rewrite Hty, Hseq.
Qed.

Lemma transport_close_opens t u : moves (opens t) (transport_close u).
Proof. unfold transport_close. repeat open_step. Qed.

Lemma allocFor_opens t sid : moves (opens t) (allocFor sid).
Proof. unfold allocFor. repeat open_step. Qed.

Lemma setIfGreater_opens t a v : moves (opens t) (setIfGreater a v).
Proof. unfold setIfGreater. repeat open_step. Qed.

Lemma claimResume_opens t rr principal : moves (opens t) (claimResume rr principal).
Proof. unfold claimResume, delete_resume, log_trim. repeat open_step. Qed.
#[local] Hint Resolve sendSessionError_opens transport_close_opens allocFor_opens setIfGreater_opens claimResume_opens : flow.

(** Every run of the computation from an opened transport ends in [Flow]. *)
Definition leads {A} (t : nat) (m : M A) : Prop := ∀ s, opened t s → Flow (m s).2.

Lemma leads_moves {A} t (m : M A) : moves (opens t) m → leads t m.
Proof. intros Hm s H. by apply (Hm s H). Qed.

Lemma leads_bind {A B} t (m : M A) (k : A → M B) : moves (opens t) m → (∀ a, leads t (k a)) → leads t (m ≫= k).
Proof. intros Hm Hk s H. rewrite bind_eq. apply Hk. by apply Hm. Qed.

Lemma queued_on_elem tr p e : e ∈ queued_on tr p ↔ OEnqueue p e ∈ tr.
Proof.
  unfold queued_on. rewrite list_elem_of_omap. split.
  - intros (o & Ho & He). destruct o; try done. case_bool_decide; by simplify_eq.
  - intros H. exists (OEnqueue p e). by rewrite bool_decide_eq_true_2.
Qed.

Lemma not_queued tr p : (∀ e, OEnqueue p e ∉ tr) → queued_on tr p = [].
Proof.
  intros H. destruct (queued_on tr p) as [|e l] eqn:E; [done|]. destruct (H e). apply queued_on_elem. rewrite E. by left.
Qed.

Lemma not_from_queue (w : list Envelope) : from_queue ((λ e, (false, e)) <$> w) = [].
Proof. by induction w. Qed.

Lemma newSession_leads t id principal feats cap seq token isResume from :
  leads t (newSession id principal t feats cap seq token isResume from).
Proof.
  intros s ((H1 & H2) & (w & Hw & Hd) & H3 & H4). unfold newSession, modify. run_reads. cbn [snd]. split; cbn.
  - intros p x [[<- <-]|[Hne Hx]]%lookup_insert_Some; [|by apply H1].
    exists ((λ e, (false, e)) <$> w), []. split_and!; try done.
    + cbn. rewrite Hw. f_equal. clear. by induction w as [|e w IH]; [|cbn; rewrite <-IH].
    + apply Forall_fmap. eapply Forall_impl; [exact Hd|]. by intros e He _.
    + cbn. rewrite not_queued by (intros e He; specialize (H4 _ e He); lia). by rewrite not_from_queue.
  - intros p q x y [[<- <-]|[Hp Hx]]%lookup_insert_Some [[<- <-]|[Hq Hy]]%lookup_insert_Some; cbn; [done| | |by apply H2];
      intros He; exfalso; [by apply (H3 q y Hy)|by apply (H3 p x Hx)].
Qed.

Lemma buildWelcome_cases sid token feats s :
  ∃ r, buildWelcome sid token feats s = (r, s <| tick := S (tick s) |>) ∧ ∀ env, r = Ok env → event_like env = false.
Proof.
  unfold buildWelcome, new_envelope, mbind, M_bind, gets, fresh. cbn. unfold NewEnvelope, MarshalPayload. cbn.
  eexists. split; [reflexivity|]. by intros env [= <-].
Qed.

Lemma buildWelcome_leads {A} t sid token feats (k : res Envelope → M A) :
  (∀ env, event_like env = false → leads t (k (Ok env))) → (∀ e, leads t (k (Err e))) →
  leads t (buildWelcome sid token feats ≫= k).
Proof.
  intros Hok Herr s H. rewrite bind_eq. destruct (buildWelcome_cases sid token feats s) as (r & -> & Hr).
  pose proof (fresh_opens t s H) as H'. destruct r as [env|e]; [by apply Hok; [apply Hr|]|by apply Herr].
Qed.

Lemma welcome_session_leads t sid principal hello floor_ isResume from :
  leads t (welcome_session t sid principal hello floor_ isResume from).
Proof.
  unfold welcome_session. apply leads_bind; [by repeat moves_step|]. intros o. cbv zeta.
  apply leads_bind; [apply fresh_opens|]. intros n. apply buildWelcome_leads; [|intros e; by apply leads_moves; repeat moves_step].
  intros env He. apply leads_bind; [by apply transport_send_opens|]. intros [e|]; [by apply leads_moves; repeat moves_step|].
  do 2 (apply leads_bind; [by repeat open_step|intros ?]). intros s' H'. rewrite bind_eq. by apply newSession_leads.
Qed.

Lemma handshake_leads t recv : leads t (handshake t recv).
Proof.
  unfold handshake. destruct recv as [env|e]; [|by apply leads_moves; repeat moves_step].
  case_goal; [by apply leads_moves; repeat moves_step|]. destruct (decode_hello (env_Payload env)) as [hello|e];
    [|by apply leads_moves; repeat moves_step].
  do 2 (apply leads_bind; [by repeat open_step|intros ?]). destruct (authenticate _ _ hello) as [principal|e];
    [|apply leads_moves; by repeat open_step].
  destruct (sh_Resume hello) as [rr|]; [|apply leads_bind; [apply fresh_opens|intros m; apply welcome_session_leads]].
  apply leads_bind; [by repeat open_step|]. intros [entry|e]; [|apply leads_moves; by repeat open_step].
  apply leads_bind; [by repeat open_step|]. intros oldest. cbv zeta. destruct (_ && _); [apply leads_moves; by repeat open_step|].
  apply welcome_session_leads.
Qed.

Lemma Accept_Flow s t recv :
  Inv (view_of s) → wire s !! t = None → Flow s → Flow (exec_op (OpAccept t recv) s).2.
Proof.
  intros HI Hw H. cbn [exec_op]. rewrite !bind_eq. unfold Accept_handshake. rewrite bind_eq. cbn [snd fst].
  assert (opened t (modify (λ s, s <| wire := <[t := []]> (wire s) |>) s).2) as Ho.
  { assert (∀ p x, hsess s !! p = Some x → s_transport x ≠ t) as Hne.
    { intros p x Hx He. destruct (proj1 H p x Hx) as (w & lost & Hwx & _). by rewrite He, Hw in Hwx. }
    cbn. split_and!.
    - split; [|apply H]. cbn. intros p x Hx. destruct (proj1 H p x Hx) as (w & lost & Hwx & Hr). exists w, lost.
      split; [|exact Hr]. cbn. rewrite lookup_insert_ne; [done|]. intros He. by destruct (Hne p x Hx).
    - exists []. split; [|done]. cbn. apply lookup_insert_eq.
    - intros p x Hx. split; [by apply (Hne p)|]. destruct (sess_view s p x Hx) as [Hv _]. by apply (inv_sess_lt _ HI p _ Hv).
    - intros p e He. destruct (inv_enqueue _ HI p e He) as (x & Hx & _). by apply (inv_sess_lt _ HI p x Hx). }
  pose proof (handshake_leads t recv _ Ho) as HF. destruct (handshake t recv _) as [[p|e] s1]; cbn [fst snd] in HF |- *; [done|].
  rewrite bind_eq. by apply transport_close_flows.
Qed.

(** ** Every run *)

Lemma step_Flow s o : Inv (view_of s) → Flow s → Flow (step s o).
Proof.
  intros HI H. unfold step. destruct (negb (crashed s) && enabled s o) eqn:He; [|done]. apply andb_true_iff in He as [_ He].
  destruct o; cbn [enabled] in He; cbn [exec_op]; try (by apply (modify_flows _ (λ _, conj eq_refl (conj eq_refl eq_refl)))).
  1: { apply andb_true_iff in He as [Hw _]. apply bool_decide_eq_true in Hw. by apply Accept_Flow. }
  1: by apply Accept_register_Flow.
  1: by apply run_current_Flow.
  all: match goal with Hs : Flow ?s |- Flow (?m ?s).2 => enough (moves flows m) as Hm by exact (Hm s Hs) end.
  - apply run_replay_flows.
  - apply read_turn_flows.
  - apply writeLoop_turn_flows.
  - flow_step; [flow|apply sendPing_flows].
  - apply watchdog_flows.
  - flow.
  - apply session_exit_flows.
  - apply Accept_tail_flows.
  - apply janitorTick_flows.
  - apply Close_begin_flows.
  - unfold Close_end. flow.
  - apply run_start_flows.
  - apply exec_agent_flows.
  - apply run_finish_flows.
  - flow_step; [flow|apply expireLease_flows].
  - flow_step; [flow|apply timeout_flows].
Qed.

Lemma reachable_Flow o t s : reachable o t s → Flow s.
Proof.
  induction 1 as [|s x Hr IH]; [split; intros p x; cbn; by rewrite lookup_empty|].
  apply step_Flow; [by eapply reachable_Inv|done].
Qed.

(** What the transport of a session carries, and what was queued. *)
Definition wire_of (s : Server) (x : session) : list Envelope := default [] (wire s !! s_transport x).

Lemma filter_tagged (w : list (bool * Envelope)) :
  Forall (λ e, e.1 = false → event_like e.2 = false) w →
  filter (λ e, event_like e = true) w.*2 = filter (λ e, event_like e = true) (from_queue w).
Proof.
  induction 1 as [|[[] e] w He Hw IH]; [done| |]; cbn in He; unfold from_queue in *; cbn [fmap list_fmap snd].
  - rewrite (filter_cons_True _ (true, e)) by done. cbn [fmap list_fmap snd]. rewrite !filter_cons, IH. done.
  - rewrite (filter_cons_False _ (false, e)) by done. rewrite filter_cons_False; [done|]. by rewrite He.
Qed.

Lemma wire_split o t s p x :
  reachable o t s → hsess s !! p = Some x →
  ∃ lost, filter (λ e, event_like e = true) (queued_on (trace s) p) =
    filter (λ e, event_like e = true) (wire_of s x) ++ lost ++ filter (λ e, event_like e = true) (s_outbox x) ∧
    (s_writing x = true → lost = []).
Proof.
  intros Hr Hx. destruct (proj1 (reachable_Flow _ _ _ Hr) p x Hx) as (w & lost & Hw & Hd & Hq & Hl & _).
  exists (filter (λ e, event_like e = true) lost). unfold wire_of. rewrite Hw, Hq, !filter_app.
  change (default [] (Some w.*2)) with w.*2. rewrite filter_tagged by done. split; [done|]. intros Hwr. by destruct (Hl Hwr) as [-> _].
Qed.

(** The writer carries the queue.  In every run, the events on the transport
    of a session (job data and anything numbered) are a prefix of those queued
    on the session, in order, without gaps, duplicates or events of another
    session; while the writer runs, what is missing is exactly what waits in
    the outbox; and no other session writes to that transport. *)
Theorem wire_carries_queue (o : Options) (t : Time) (s : Server) (p : nat) (x : session) :
  reachable o t s → hsess s !! p = Some x →
  let events := filter (λ e, event_like e = true) in
  events (wire_of s x) `prefix_of` events (queued_on (trace s) p) ∧
  (s_writing x = true → events (queued_on (trace s) p) = events (wire_of s x) ++ events (s_outbox x)) ∧
  (∀ q y, hsess s !! q = Some y → s_transport y = s_transport x → q = p).
Proof.
  intros Hr Hx. cbv zeta. destruct (wire_split o t s p x Hr Hx) as (lost & Hq & Hl). split_and!.
  - rewrite Hq. by eexists.
  - intros Hw. by rewrite Hq, (Hl Hw).
  - intros q y Hy He. by apply (proj2 (reachable_Flow _ _ _ Hr) q p y x).
Qed.
End flow.

(** ** A concrete run: a job emits three events and the writer sends two *)

Definition wired_server : Server := demo_run 2 (demo_worked ++ [OpWrite 6; OpWrite 6; OpWrite 6]).
Definition wired_session : session := sess wired_server 6.

Lemma wire_carries_queue_witness :
  (λ e, (env_Type e, env_EventSeq e)) <$> wire_of wired_server wired_session =
    [(TypeSessionWelcome, 0%Z); (TypeJobAccepted, 0%Z); (TypeJobEvent, 1%Z); (TypeJobEvent, 2%Z)] ∧
  length (s_outbox wired_session) = 1 ∧
  filter (λ e, event_like e = true) (wire_of wired_server wired_session) `prefix_of`
    filter (λ e, event_like e = true) (queued_on (trace wired_server) 6).
Proof.
  split; [vm_compute; reflexivity|]. split; [vm_compute; reflexivity|].
  apply (wire_carries_queue (demo_opts 2) 1000 wired_server 6 wired_session); [apply demo_reachable|vm_compute; reflexivity].
Defined.
