(* ===== verification/Protocol.v ===== *)
(** * The handlers against their contracts

    Theorems about single handlers on an arbitrary state: the resume claim,
    the end of a session, cancellation, idempotent submission, and the order
    of revocation and terminal event. *)

From S2P Require Import Prelude GoStrings Errors Features Float64 Lease Canonical LeaseState Messages EventLog IdStore Agents ServerState Delivery Stream Job ListJobs Session Runtime Scenarios Invariant Preservation JobPreservation SessionPreservation HandlerPreservation Frames.
From Stdlib Require Import ZArith Lia.

Section protocol.
Context {RT : Runtime}.

(** ** Resume *)

Lemma expired_ids_spec s n id :
  id ∈ expired_ids s n ↔ ∃ e, resumes s !! id = Some e ∧ (re_expiresAt e < now s)%Z.
Proof.
  unfold expired_ids. rewrite list_elem_of_In, filter_In, <-list_elem_of_In, order_keys_perm, elem_of_elements, elem_of_dom.
  split.
  - intros [[e He] H]. rewrite He in H. exists e. split; [done|]. by apply Z.ltb_lt.
  - intros (e & He & H). rewrite He. split; [by eauto|]. by apply Z.ltb_lt.
Qed.

(** The lazy purge of [claimResume]. *)
Lemma lazy_purge_spec l s :
  let s' := (for_each l (λ id, delete_resume id;; log_trim id max_u64) s).2 in
  now s' = now s ∧ ∀ id, resumes s' !! id = if decide (id ∈ l) then None else resumes s !! id.
Proof.
  revert s. induction l as [|x l IH]; intros s; cbv zeta; [done|].
  cbn [for_each]. rewrite bind_eq. set (s1 := ((delete_resume x;; log_trim x max_u64) s).2).
  assert (now s1 = now s ∧ resumes s1 = delete x (resumes s)) as [Hn1 Hr1] by done.
  destruct (IH s1) as [Hn Hr]. split; [by rewrite Hn|]. intros id. rewrite Hr, Hr1, lookup_delete.
  destruct (decide (id ∈ l)); [by rewrite decide_True by (by right)|].
  destruct (decide (x = id)); [subst; by rewrite decide_True by (by left)|].
  rewrite decide_False; [done|]. by intros [->|?]%elem_of_cons.
Qed.

(** What [claimResume] returns and leaves under the id. *)
Definition claim_outcome (t : Time) (req : ResumeRequest) (principal : string) (old : option resumeEntry)
    (r : res resumeEntry) (new : option resumeEntry) : Prop :=
  match old with
  | None => is_ok r = false ∧ new = None
  | Some e =>
      if entry_expired t e then is_ok r = false ∧ new = None
      else if bool_decide (re_resumeToken e = rr_ResumeToken req ∧ re_principal e = principal) then r = Ok e ∧ new = None
      else is_ok r = false ∧ new = Some e
  end.

Lemma claimResume_outcome s req principal :
  claim_outcome (now s) req principal (resumes s !! rr_SessionID req) (claimResume req principal s).1
    (resumes (claimResume req principal s).2 !! rr_SessionID req).
Proof.
  unfold claimResume. run_reads. set (s1 := s <| tick := S (tick s) |>).
  pose proof (lazy_purge_spec (expired_ids s1 (tick s)) s1) as [Hn Hr]. cbv zeta in Hn, Hr.
  destruct (for_each _ _ s1) as [u s2] eqn:Hs2. cbn [snd] in Hn, Hr |- *. run_reads.
  specialize (Hr (rr_SessionID req)). pose proof (expired_ids_spec s1 (tick s) (rr_SessionID req)) as Hex.
  change (resumes s1) with (resumes s) in Hr, Hex. change (now s1) with (now s) in Hex. unfold claim_outcome.
  destruct (resumes s !! rr_SessionID req) as [e|] eqn:He.
  2:{ rewrite Hr. by destruct (decide _). }
  assert (rr_SessionID req ∈ expired_ids s1 (tick s) ↔ (re_expiresAt e < now s)%Z) as Hlt.
  { rewrite Hex. split; [intros (e' & [= <-] & ?); done|by exists e]. }
  unfold entry_expired, After. destruct (Z.ltb_spec (re_expiresAt e) (now s)) as [H|H].
  { rewrite decide_True in Hr by by apply Hlt. by rewrite Hr. }
  rewrite decide_False in Hr by (rewrite Hlt; lia). rewrite Hr.
  assert (entry_expired (now s) e = false) as Hne by by apply Z.ltb_ge. unfold entry_expired, After in Hne. rewrite Hne.
  destruct (decide (re_resumeToken e = rr_ResumeToken req)) as [Ht|Ht].
  2:{ rewrite (bool_decide_eq_false_2 (re_resumeToken e = _)) by done. rewrite bool_decide_eq_false_2 by tauto. done. }
  rewrite (bool_decide_eq_true_2 (re_resumeToken e = _)) by done.
  destruct (decide (re_principal e = principal)) as [Hp|Hp].
  - rewrite (bool_decide_eq_true_2 (re_principal e = _)) by done. rewrite bool_decide_eq_true_2 by tauto.
    split; [done|]. apply lookup_delete_eq.
  - rewrite (bool_decide_eq_false_2 (re_principal e = _)) by done. by rewrite bool_decide_eq_false_2 by tauto.
Qed.

(** C19: A resume is granted exactly when the session id has an entry that has
    not expired and both the token and the principal match; it is granted
    once (the entry is consumed), and an attempt that is refused leaves an
    unexpired entry of the id in place. *)
Theorem claimResume_spec (s : Server) (req : ResumeRequest) (principal : string) :
  let r := (claimResume req principal s).1 in
  let s' := (claimResume req principal s).2 in
  let id := rr_SessionID req in
  (∀ e, r = Ok e ↔ resumes s !! id = Some e ∧ (now s <= re_expiresAt e)%Z ∧
                   re_resumeToken e = rr_ResumeToken req ∧ re_principal e = principal) ∧
  (is_ok r = true → resumes s' !! id = None) ∧
  (∀ e, is_ok r = false → resumes s !! id = Some e → (now s <= re_expiresAt e)%Z → resumes s' !! id = Some e).
Proof.
  cbv zeta. pose proof (claimResume_outcome s req principal) as H. unfold claim_outcome, entry_expired, After in H.
  destruct (resumes s !! rr_SessionID req) as [x|].
  2:{ destruct H as [H ->]. split_and!; [|done|done]. intros e. split; [intros He; by rewrite He in H|by intros [? _]]. }
  destruct (Z.ltb_spec (re_expiresAt x) (now s)) as [Hx|Hx].
  { destruct H as [H ->]. split_and!; [|done|intros e _ [= <-]; lia]. intros e.
    split; [intros He; by rewrite He in H|intros ([= <-] & ? & _); lia]. }
  case_bool_decide as Hm; destruct H as [H ->].
  - rewrite H. split_and!; [|done|done]. intros e. split; [intros [= <-]; tauto|by intros ([= <-] & _)].
  - split_and!; [|intros Hok; congruence|by intros e _ [= <-] _]. intros e.
    split; [intros He; by rewrite He in H|intros ([= <-] & _ & ?); tauto].
Qed.

(** A session that ends without a [session.close] can be resumed: for the
    whole resume window the entry left by [Accept] is granted to the holder of
    the token under the same principal, with the sequence counter it had. *)
Theorem resume_after_drop (s : Server) (p : nat) (x : session) (d : Duration) (lastSeq : Z) :
  hsess s !! p = Some x → s_gracefulBye x = false → s_resumeToken x ≠ "" → closed s = false →
  (d <= o_ResumeWindow (opts s))%Z →
  let s1 := (Accept_tail p s).2 in
  ∃ e, (claimResume (mkResumeRequest (s_id x) (s_resumeToken x) lastSeq) (s_principal x) (s1 <| now := (now s1 + d)%Z |>)).1 = Ok e ∧
       re_sessionID e = s_id x ∧ re_seq e = currentSeq s p.
Proof.
  intros Hx Hg Ht Hc Hd. cbv zeta. set (s1 := (Accept_tail p s).2).
  assert (sess s p = x) as Hsx by (unfold sess; by rewrite Hx).
  set (e := mkResumeEntry (s_id x) (s_principal x) (s_features x) (s_clientCap x) (currentSeq s p) (s_resumeToken x)
              (now s + o_ResumeWindow (opts s))%Z).
  assert (now s1 = now s ∧ resumes s1 !! s_id x = Some e) as [Hn Hr].
  { unfold s1, Accept_tail. run_reads. rewrite Hsx, Hg, Hc, bool_decide_eq_false_2 by done. cbn. split; [done|].
    rewrite Hsx. apply lookup_insert_eq. }
  pose proof (claimResume_outcome (s1 <| now := (now s1 + d)%Z |>) (mkResumeRequest (s_id x) (s_resumeToken x) lastSeq) (s_principal x)) as H.
  change (resumes (s1 <| now := (now s1 + d)%Z |>)) with (resumes s1) in H. cbn [rr_SessionID] in H. rewrite Hr in H.
  unfold claim_outcome in H. change (now (s1 <| now := (now s1 + d)%Z |>)) with (now s1 + d)%Z in H.
  assert (entry_expired (now s1 + d) e = false) as Hexp by (apply Z.ltb_ge; cbn; lia).
  rewrite Hexp, bool_decide_eq_true_2 in H by done. destruct H as [H _]. by exists e.
Qed.

(** ** Terminal transitions *)

Definition is_revoke (o : obs) : bool := match o with ORevoke _ => true | _ => false end.

(** Nothing moves but the provisioner calls. *)
Definition revokes (s s' : Server) : Prop :=
  core s' = core s ∧ hsess s' = hsess s ∧ ∃ l, trace s' = trace s ++ l ∧ forallb is_revoke l = true.

#[local] Instance revokes_preorder : PreOrder revokes.
Proof.
  split.
  - intros s. split_and!; [done|done|]. exists []. by rewrite app_nil_r.
  - intros s1 s2 s3 (Hc & Hs & l & Hl & Fl) (Hc' & Hs' & k & Hk & Fk). split_and!; [congruence|congruence|].
    exists (l ++ k). rewrite Hk, Hl, app_assoc. split; [done|]. by rewrite forallb_app, Fl, Fk.
Qed.

Lemma retryRevoke_revokes n id call : moves revokes (retryRevoke n (ORevoke id) call).
Proof.
  assert (moves revokes fresh) as Hf by (intros s; split_and!; [done|done|exists []; by rewrite app_nil_r]).
  induction n as [|n IH]; simpl; repeat moves_step; try done.
  intros s. split_and!; [done|done|]. by exists [ORevoke id].
Qed.

Lemma retryRevoke_calls n id call s :
  ∃ l, trace (retryRevoke (S n) (ORevoke id) call s).2 = trace s ++ ORevoke id :: l ∧ forallb is_revoke l = true.
Proof.
  simpl. rewrite bind_eq. set (s1 := (observe (ORevoke id) s).2).
  match goal with |- context [(?m : M _) s1] => assert (moves revokes m) as Hm end.
  { assert (moves revokes fresh) as Hf by (intros s'; split_and!; [done|done|exists []; by rewrite app_nil_r]).
    repeat moves_step; try done. apply retryRevoke_revokes. }
  destruct (Hm s1) as (_ & _ & l & Hl & Fl). exists l. split; [|done]. rewrite Hl. cbn. by rewrite <-app_assoc.
Qed.

(** One pass over the credentials calls the provisioner for each of them. *)
Lemma revoke_loop pv (creds : list Credential) s :
  ∃ l, trace (for_each creds (λ c, revokeCredential pv (cr_ID c)) s).2 = trace s ++ l ∧
       forallb is_revoke l = true ∧ ∀ c, c ∈ creds → ORevoke (cr_ID c) ∈ l.
Proof.
  revert s. induction creds as [|c creds IH]; intros s.
  { exists []. split_and!; [by rewrite app_nil_r|done|]. intros c Hc. by apply not_elem_of_nil in Hc. }
  cbn [for_each]. rewrite bind_eq. set (s1 := (revokeCredential pv (cr_ID c) s).2).
  destruct (IH s1) as (k & Hk & Fk & Hall).
  destruct (retryRevoke_calls 3 (cr_ID c) (λ n, pv_Revoke pv n (cr_ID c)) s) as (l & Hl & Fl).
  exists (ORevoke (cr_ID c) :: l ++ k). split_and!.
  - rewrite Hk. unfold s1, revokeCredential. rewrite Hl. by rewrite <-app_assoc.
  - simpl. by rewrite forallb_app, Fl, Fk.
  - intros d [->|Hd]%elem_of_cons; [by left|]. right. apply elem_of_app. right. by apply Hall.
Qed.

Lemma revokeAll_trace j y pv s :
  hjob s !! j = Some y → j_revoked y = false → o_Provisioner (opts s) = Some pv →
  let s' := (revokeAll j s).2 in
  hsess s' = hsess s ∧ hjob s' !! j = Some (y <| j_revoked := true |>) ∧
  ∃ l, trace s' = trace s ++ l ∧ forallb is_revoke l = true ∧ ∀ c, c ∈ j_creds y → ORevoke (cr_ID c) ∈ l.
Proof.
  intros Hy Hrev Hpv. cbv zeta. unfold revokeAll. run_reads. rewrite Hpv. run_reads.
  assert (job s j = y) as Hsy by (unfold job; by rewrite Hy). rewrite Hsy, Hrev. run_reads.
  set (s1 := (set_job_ j (λ x, x <| j_revoked := true |>) s).2).
  assert (hjob s1 !! j = Some (y <| j_revoked := true |>)) as Hy1 by (unfold s1; cbn; by rewrite lookup_insert_eq, Hsy).
  assert (j_creds (job s1 j) = j_creds y) as -> by (unfold job; by rewrite Hy1).
  assert (moves revokes (for_each (j_creds y) (λ c, revokeCredential pv (cr_ID c)))) as Hm.
  { refine (moves_for_each _ _ _ _). intros c. apply retryRevoke_revokes. }
  destruct (Hm s1) as (Hc & Hs & _). destruct (revoke_loop pv (j_creds y) s1) as (l & Hl & Fl & Hall).
  assert (hjob (for_each (j_creds y) (λ c, revokeCredential pv (cr_ID c)) s1).2 = hjob s1) as ->.
  { unfold core in Hc. by simplify_eq. }
  split_and!; [by rewrite Hs|done|]. by exists l.
Qed.

Lemma emit_envelope_trace j y env s :
  hjob s !! j = Some y →
  ∃ e l, trace (emit_envelope j env s).2 = trace s ++ OSend (j_session y) e :: l ∧ forallb is_delivery l = true ∧
         env_Type e = env_Type env ∧ env_Payload e = env_Payload env ∧ env_JobID e = j_id y.
Proof.
  intros Hy. unfold emit_envelope. run_reads.
  assert (job s j = y) as -> by (unfold job; by rewrite Hy).
  set (s1 := (nextSeq (j_session y) s).2). set (n := (nextSeq (j_session y) s).1).
  set (s2 := (recordSeq j n s1).2). set (env' := set_seq (set_trace (set_job env (j_id y)) (j_traceID y)) n).
  destruct (send_trace (j_session y) env' s2) as (l & Hl & Fl). set (s3 := (send (j_session y) env' s2).2) in *.
  destruct (fanoutEvent_delivers (j_id y) env' s3) as (_ & _ & k & Hk & Fk).
  exists (set_session env' (s_id (sess s2 (j_session y)))), (l ++ k). split_and!; try done.
  - rewrite Hk, Hl. assert (trace s2 = trace s) as -> by done. by rewrite <-app_assoc.
  - by rewrite forallb_app, Fl, Fk.
Qed.

Lemma markTerminal_wins j y final s :
  hjob s !! j = Some y → j_terminal y = false →
  markTerminal j final s = (true, s <| hjob := <[j := y <| j_terminal := true |> <| j_statusV := final |>]> (hjob s) |>).
Proof.
  intros Hy Ht. assert (job s j = y) as Hsy by (unfold job; by rewrite Hy).
  unfold markTerminal. rewrite bind_eq. cbn [gets fst snd]. rewrite Hsy, Ht. unfold set_job_, mbind, M_bind, modify, mret, M_ret.
  by rewrite Hsy.
Qed.

Lemma emitTerminal_trace j y typ pl s :
  hjob s !! j = Some y → (∀ id, ∃ env, NewEnvelope id typ pl = Ok env) →
  ∃ e l, trace (emitTerminal j typ pl s).2 = trace s ++ OSend (j_session y) e :: l ∧ forallb is_delivery l = true ∧
         env_Type e = typ ∧ env_Payload e = pl ∧ env_JobID e = j_id y.
Proof.
  intros Hy Hok. unfold emitTerminal, new_envelope. run_reads. destruct (Hok (NewEnvelopeID (tick s))) as [env Henv].
  rewrite Henv. apply NewEnvelope_Ok in Henv as [-> _].
  set (s1 := s <| tick := S (tick s) |>).
  destruct (emit_envelope_trace j y (mkEnvelope ProtocolVersion (NewEnvelopeID (tick s)) typ "" "" "" 0 pl) s1 Hy)
    as (e & l & Hl & Fl & H1 & H2 & H3).
  exists e, l. split_and!; [exact Hl|done..].
Qed.

(** The winner of a terminal transition revokes, then emits. *)
Definition revokes_then_emits (s s' : Server) (y : Job) : Prop :=
  ∃ l1 env l2, trace s' = trace s ++ l1 ++ OSend (j_session y) env :: l2 ∧
    forallb is_revoke l1 = true ∧ (∀ c, c ∈ j_creds y → ORevoke (cr_ID c) ∈ l1) ∧
    env_JobID env = j_id y ∧ (env_Type env = TypeJobResult ∨ env_Type env = TypeJobError) ∧ forallb is_delivery l2 = true.

Lemma terminate_trace j y pv final typ pl s :
  hjob s !! j = Some y → j_terminal y = false → j_revoked y = false → o_Provisioner (opts s) = Some pv →
  typ = TypeJobResult ∨ typ = TypeJobError → (∀ id, ∃ env, NewEnvelope id typ pl = Ok env) →
  (markTerminal j final s).1 = true ∧
  revokes_then_emits s ((revokeAll j;; emitTerminal j typ pl) (markTerminal j final s).2).2 y.
Proof.
  intros Hy Ht Hr Hpv Htyp Hok. rewrite (markTerminal_wins j y final s Hy Ht). cbn [fst snd]. split; [done|].
  set (y1 := y <| j_terminal := true |> <| j_statusV := final |>). set (s1 := s <| hjob := <[j := y1]> (hjob s) |>).
  assert (hjob s1 !! j = Some y1) as Hy1 by (unfold s1; cbn; by rewrite lookup_insert_eq).
  rewrite bind_eq. destruct (revokeAll_trace j y1 pv s1) as (Hs2 & Hy2 & l1 & Hl1 & Fl1 & Hall); [done|done|done|].
  set (s2 := (revokeAll j s1).2) in *.
  destruct (emitTerminal_trace j _ typ pl s2 Hy2 Hok) as (e & l2 & Hl2 & Fl2 & H1 & H2 & H3).
  exists l1, e, l2. split_and!; [|done|done|done|by rewrite H1|done].
  rewrite Hl2, Hl1. by rewrite <-app_assoc.
Qed.

(** C12: Credentials are revoked before the terminal event: whichever of the
    three ends a live job (the agent returning, the lease expiring, the
    runtime limit), the provisioner is asked to revoke every credential of
    the job, and only then is the terminal event handed to [send]. *)
Theorem revoked_before_terminal_event (s : Server) (j : nat) (y : Job) (pv : Provisioner) (m : M ()) :
  hjob s !! j = Some y → j_terminal y = false → j_revoked y = false → o_Provisioner (opts s) = Some pv →
  m = expireLease j ∨ m = timeout j ∨ (∃ o, m = run_body_result j o) →
  revokes_then_emits s (m s).2 y.
Proof.
  intros Hy Ht Hr Hpv Hm.
  assert (∀ final code msg, revokes_then_emits s
    ((b ← markTerminal j final; if negb b then mret () else revokeAll j;; emitTerminalError j code msg;; cancel_ctx j) s).2 y) as Htimer.
  { intros final code msg. unfold emitTerminalError. rewrite bind_eq.
    match goal with |- context [emitTerminal j ?typ ?pl] =>
      destruct (terminate_trace j y pv final typ pl s) as [Hb Hs]; [done|done|done|done|by right|by eexists|] end.
    rewrite Hb. cbn [negb]. rewrite bind_eq in Hs |- *. rewrite bind_eq. exact Hs. }
  destruct Hm as [->|[->|[o ->]]]; [apply Htimer|apply Htimer|].
  assert (∀ final typ pl, typ = TypeJobResult ∨ typ = TypeJobError → (∀ id, ∃ env, NewEnvelope id typ pl = Ok env) →
    revokes_then_emits s (finish j final typ pl s).2 y) as Hfin.
  { intros final typ pl Htyp Hok. unfold finish. rewrite bind_eq.
    destruct (terminate_trace j y pv final typ pl s) as [Hb Hs]; [done..|]. by rewrite Hb. }
  unfold run_body_result. run_reads. cbv zeta.
  repeat case_goal; apply Hfin; (try by left); (try by right); intros id; by eexists.
Qed.

(** ** Cancellation *)

(** A session.error reply is handed to [send] with the code and message. *)
Definition replied_error (s s' : Server) (p : nat) (code : ErrorCode) (msg : string) : Prop :=
  ∃ env e l, trace s' = trace s ++ OSend p env :: l ∧ forallb is_delivery l = true ∧
    env_Type env = TypeSessionError ∧ env_Payload env = PSessionError e ∧ se_Code e = code ∧ se_Message e = msg.

Lemma sendErrorFor_replied p env code msg s : replied_error s (sendErrorFor p env code msg s).2 p code msg.
Proof.
  unfold sendErrorFor, new_envelope. run_reads. cbn [NewEnvelope MarshalPayload json_ok]. run_reads.
  set (s1 := s <| tick := S (tick s) |>).
  match goal with |- context [send p ?e s1] => destruct (send_trace p e s1) as (l & Hl & Fl); set (e0 := e) in * end.
  eexists _, _, l. split; [exact Hl|]. by split_and!.
Qed.

(** C20: Only the session that submitted a job can cancel it: a cancel from
    any other session id or principal changes no job and answers
    PERMISSION_DENIED; a cancel from the submitting session acknowledges with
    job.cancelled and cancels the job's context with the given reason,
    changing no other job. *)
Theorem cancel_only_by_submitter (s : Server) (p : nat) (env : Envelope) (reason : string) (j : nat) (y : Job) :
  decode_cancel (env_Payload env) = Ok reason → jobs s !! env_JobID env = Some j → hjob s !! j = Some y →
  let s' := (handleJobCancel p env s).2 in
  if bool_decide (s_id (sess s (j_session y)) = s_id (sess s p) ∧ j_principal y = s_principal (sess s p))
  then hjob s' = <[j := y <| j_cancelRe := reason |> <| j_ctxDone := true |>]> (hjob s) ∧
       ∃ ack l, trace s' = trace s ++ OSend p ack :: l ∧ env_Payload ack = PCancelled (j_id y) reason
  else hjob s' = hjob s ∧
       replied_error s s' p CodePermissionDenied "only the submitting session can cancel".
Proof.
  intros Hdec Hj Hy. cbv zeta. unfold handleJobCancel. rewrite Hdec. run_reads. rewrite Hj. run_reads.
  assert (job s j = y) as Hsy by (unfold job; by rewrite Hy). rewrite Hsy.
  assert (negb (bool_decide (s_id (sess s (j_session y)) = s_id (sess s p))) || negb (bool_decide (j_principal y = s_principal (sess s p)))
    = negb (bool_decide (s_id (sess s (j_session y)) = s_id (sess s p) ∧ j_principal y = s_principal (sess s p)))) as ->.
  { rewrite bool_decide_and. by rewrite negb_andb. }
  case_bool_decide as Hauth; cbn [negb].
  2:{ split; [|apply sendErrorFor_replied].
      destruct (sendErrorFor_delivers p env CodePermissionDenied "only the submitting session can cancel" s) as (Hc & _).
      unfold core in Hc. by simplify_eq. }
  unfold new_envelope. run_reads. cbn [NewEnvelope MarshalPayload json_ok]. run_reads.
  set (s1 := s <| tick := S (tick s) |>). set (s2 := (nextSeq p s1).2). set (n := (nextSeq p s1).1).
  match goal with |- context [send p ?e s2] => destruct (send_trace p e s2) as (l & Hl & _);
    destruct (send_delivers p e s2) as (Hc & _); set (s3 := (send p e s2).2) in * end.
  assert (hjob s3 = hjob s) as Hh3 by (unfold core in Hc; by simplify_eq).
  unfold cancelWithReason, cancel_ctx, set_job_. run_reads. cbn [modify snd]. split.
  - cbn. rewrite Hh3. unfold job. cbn. rewrite lookup_insert_eq. rewrite Hh3, Hy. cbn. by rewrite insert_insert_eq.
  - eexists _, l. split; [exact Hl|]. done.
Qed.

(** ** Idempotent submission *)

Definition replied_accepted (s s' : Server) (p : nat) (acc : JobAccepted) : Prop :=
  ∃ env l, trace s' = trace s ++ OSend p env :: l ∧ forallb is_delivery l = true ∧
    env_Type env = TypeJobAccepted ∧ env_Payload env = PAccepted acc ∧ env_JobID env = ja_JobID acc.

Lemma replayAccepted_replied p acc s :
  json_ok (PAccepted acc) = true → replied_accepted s (replayAccepted p acc s).2 p acc.
Proof.
  intros Hok. unfold replayAccepted, new_envelope. run_reads.
  assert (NewEnvelope (NewEnvelopeID (tick s)) TypeJobAccepted (PAccepted acc) =
    Ok (mkEnvelope ProtocolVersion (NewEnvelopeID (tick s)) TypeJobAccepted "" "" "" 0 (PAccepted acc))) as ->.
  { unfold NewEnvelope, MarshalPayload. by rewrite Hok. }
  run_reads. set (s1 := s <| tick := S (tick s) |>).
  match goal with |- context [send p ?e s1] => destruct (send_trace p e s1) as (l & Hl & Fl) end.
  eexists _, l. split; [exact Hl|]. by split_and!.
Qed.

(** [newJob] allocates one cell. *)
Lemma newJob_eq p canonical req fn tr s :
  ∃ y, j_id y = NewJobID (tick s) ∧ j_principal y = s_principal (sess s p) ∧ j_terminal y = false ∧ j_pc y = JCreated ∧
    newJob p canonical req fn tr s =
      (tick s, s <| tick := S (S (tick s)) |> <| hjob := <[tick s := y]> (hjob s) |>).
Proof. unfold newJob. run_reads. cbv zeta. eexists. split_and!; [| | | |reflexivity]; done. Qed.

(** The steps of a rejected submission undo the registration. *)
Lemma reject_job_eq s j y :
  hjob s !! j = Some y → j_terminal y = false →
  let s' := (reject_job j s).2 in
  jobs s' = delete (j_id y) (jobs s) ∧ idStore s' = idStore s ∧ hsess s' = hsess s ∧ trace s' = trace s ∧
  ∃ y', hjob s' = <[j := y']> (hjob s) ∧ j_terminal y' = true ∧ j_pc y' = j_pc y.
Proof.
  intros Hy Ht. cbv zeta. unfold reject_job, discard. rewrite bind_eq. cbn [gets fst snd].
  assert (job s j = y) as Hsy by (unfold job; by rewrite Hy). rewrite Hsy.
  rewrite !bind_eq. set (s1 := (unregisterJob (j_id y) s).2).
  rewrite (markTerminal_wins j y StatusError s1 Hy Ht). cbn [fst snd].
  split_and!; [done|done|done|done|].
  unfold stop_timers, cancel_ctx, set_job_. run_reads. cbn [modify snd]. cbn. unfold job. cbn.
  rewrite !lookup_insert_eq. cbn. rewrite !insert_insert_eq. eexists. split; [reflexivity|]. by cbn.
Qed.

(** The address and the id of the next job are free. *)
Lemma next_job_free s :
  Inv (view_of s) → hjob s !! S (tick s) = None ∧ jobs s !! NewJobID (S (tick s)) = None.
Proof.
  intros HI. split.
  - destruct (hjob s !! S (tick s)) as [y|] eqn:Hy; [|done].
    destruct (inv_job _ HI (S (tick s)) (jcore_of y)) as [Hlt _]; [cbn; by rewrite lookup_fmap, Hy|]. cbn in Hlt. lia.
  - destruct (jobs s !! NewJobID (S (tick s))) as [j|] eqn:Hj; [|done].
    destruct (inv_jobs _ HI _ _ Hj) as (c & Hc & Hid). destruct (inv_job _ HI j c Hc) as (Hlt & Hid' & _).
    assert (S (tick s) = j) as <- by (apply NewJobID_inj; congruence). cbn in Hlt. lia.
Qed.

(** The reply to a submission whose key is taken by the entry [e]. *)
Definition duplicate_reply (p : nat) (env : Envelope) (req : JobSubmit) (e : IdStore.Entry) : M (option error) :=
  if negb (bool_decide (IdStore.ie_ParamsHash e = submitParamsHash req)) then
    sendErrorFor p env CodeDuplicateKey "idempotency key reused with different parameters"
  else match IdStore.ie_Accepted e with
       | None => sendErrorFor p env CodeInternalError "idempotent submit still in progress"
       | Some acc => replayAccepted p acc
       end.

(** Such a submission creates a job, undoes it, and replies. *)
Lemma submit_duplicate s p env req fn canonical e :
  hjob s !! S (tick s) = None → jobs s !! NewJobID (S (tick s)) = None →
  decode_submit (env_Payload env) = Ok req → js_IdempotencyKey req ≠ "" →
  submit_checks s (tick s) req = Ok (fn, canonical) → s_ctxDone (sess s p) = false →
  IdStore.Get (idStore s) None (s_principal (sess s p)) (js_IdempotencyKey req) = Ok (Some e) →
  ∃ s4 y', handleJobSubmit p env s = duplicate_reply p env req e s4 ∧
    jobs s4 = jobs s ∧ idStore s4 = idStore s ∧ trace s4 = trace s ∧
    hjob s4 = <[S (tick s) := y']> (hjob s) ∧ j_terminal y' = true ∧ j_pc y' = JCreated.
Proof.
  intros Hfree Hnew Hdec Hkey Hchk Hctx Hget.
  unfold handleJobSubmit. rewrite Hdec. rewrite bind_eq. cbn [fresh fst snd]. set (s0 := s <| tick := S (tick s) |>).
  rewrite bind_eq. cbn [gets fst snd]. change (submit_checks s0 (tick s) req) with (submit_checks s (tick s) req).
  rewrite Hchk. rewrite bind_eq.
  destruct (newJob_eq p canonical req fn (env_TraceID env) s0) as (y & Hyid & Hypr & Hyt & Hypc & ->). cbn [fst snd].
  change (tick s0) with (S (tick s)) in *. set (j := S (tick s)) in *.
  rewrite bind_eq. match goal with |- context [registerJob j ?x] => set (s1 := x) end.
  assert (hjob s1 !! j = Some y) as Hy1 by apply lookup_insert_eq.
  assert (job s1 j = y) as Hjy by (unfold job; by rewrite Hy1).
  assert (registerJob j s1 = (true, s1 <| jobs := <[NewJobID j := j]> (jobs s1) |>)) as ->.
  { unfold registerJob. run_reads. change (jobs s1) with (jobs s). rewrite Hjy, Hyid, Hnew. reflexivity. }
  cbn [fst snd negb]. rewrite (bool_decide_eq_false_2 (js_IdempotencyKey req = _)) by done.
  set (s2 := s1 <| jobs := <[NewJobID j := j]> (jobs s1) |>). run_reads.
  change (job s2 j) with (job s1 j). rewrite Hjy. change (sess s2 p) with (sess s p).
  assert (session_ctx_err (sess s p) = None) as -> by (unfold session_ctx_err; by rewrite Hctx).
  assert (∀ x, IdStore.ie_Principal x = s_principal (sess s p) → IdStore.ie_Key x = js_IdempotencyKey req →
    IdStore.PutIfAbsent (idStore s2) None (now s2) x = (Ok (e, false), idStore s)) as Hput.
  { intros x H1 H2. unfold IdStore.PutIfAbsent. rewrite H1, H2. change (idStore s2) with (idStore s).
    unfold IdStore.Get in Hget. injection Hget as ->. done. }
  rewrite Hput by done. cbn [modify fst snd]. set (s3 := s2 <| idStore := idStore s |>). run_reads.
  destruct (reject_job_eq s3 j y) as (Hj4 & Hi4 & _ & Ht4 & y' & Hh4 & Hy't & Hy'pc); [done|done|].
  exists (reject_job j s3).2, y'. split_and!; [done| |done|done| |done|congruence].
  - rewrite Hj4, Hyid. change (jobs s3) with (<[NewJobID j := j]> (jobs s)). by rewrite delete_insert_id.
  - rewrite Hh4. change (hjob s3) with (<[j := y]> (hjob s)). by rewrite insert_insert_eq.
Qed.


(** ** The end of a run *)

(** The job keeps its id and, once terminal, stays so. *)
Definition keeps_job (j : nat) (s s' : Server) : Prop :=
  ∀ y, hjob s !! j = Some y → ∃ y', hjob s' !! j = Some y' ∧ j_id y' = j_id y ∧ (j_terminal y = true → j_terminal y' = true).

#[local] Instance keeps_job_preorder j : PreOrder (keeps_job j).
Proof.
  split; [intros s y Hy; by exists y|]. intros s1 s2 s3 H12 H23 y Hy.
  destruct (H12 y Hy) as (y2 & Hy2 & ? & ?). destruct (H23 y2 Hy2) as (y3 & ? & ? & ?). exists y3. split_and!; [done|congruence|auto].
Qed.

Lemma same_jobs_keeps {A} j (m : M A) : (∀ s, hjob (m s).2 = hjob s) → moves (keeps_job j) m.
Proof. intros Hm s y Hy. exists y. by rewrite Hm. Qed.

Lemma delivers_keeps {A} j (m : M A) : moves delivers m → moves (keeps_job j) m.
Proof. intros Hm. apply same_jobs_keeps. intros s. destruct (Hm s) as (Hc & _). unfold core in Hc. by simplify_eq. Qed.

Lemma set_job_keeps j k f : (∀ y, j_id (f y) = j_id y ∧ (j_terminal y = true → j_terminal (f y) = true)) → moves (keeps_job j) (set_job_ k f).
Proof.
  intros Hf s y Hy. unfold set_job_, modify. cbn. rewrite lookup_insert. case_decide as Hk; [|by exists y].
  subst k. eexists. split; [done|]. unfold job. rewrite Hy. apply Hf.
Qed.

Lemma revokeAll_keeps j k : moves (keeps_job j) (revokeAll k).
Proof.
  unfold revokeAll. repeat moves_step; [by apply set_job_keeps|]. apply same_jobs_keeps. intros s.
  destruct (retryRevoke_revokes 4 (cr_ID x) (λ n, pv_Revoke p n (cr_ID x)) s) as (Hc & _). unfold core in Hc. unfold revokeCredential.
  by simplify_eq.
Qed.

Lemma emitTerminal_keeps j k typ pl : moves (keeps_job j) (emitTerminal k typ pl).
Proof.
  unfold emitTerminal, emit_envelope. repeat moves_step.
  - apply delivers_keeps, new_envelope_delivers.
  - apply delivers_keeps, nextSeq_delivers.
  - apply set_job_keeps. intros y. by case_goal.
  - apply delivers_keeps, send_delivers.
  - apply delivers_keeps, fanoutEvent_delivers.
Qed.

(** After [finish] the job is terminal, whoever won. *)
Lemma finish_terminal j y final typ pl s :
  hjob s !! j = Some y →
  ∃ y', hjob (finish j final typ pl s).2 !! j = Some y' ∧ j_id y' = j_id y ∧ j_terminal y' = true.
Proof.
  intros Hy. unfold finish. rewrite bind_eq. destruct (j_terminal y) eqn:Ht.
  - assert (markTerminal j final s = (false, s)) as ->.
    { unfold markTerminal. run_reads. unfold job. rewrite Hy. cbn. by rewrite Ht. }
    by exists y.
  - rewrite (markTerminal_wins j y final s Hy Ht). cbn [fst snd].
    set (y1 := y <| j_terminal := true |> <| j_statusV := final |>). set (s1 := s <| hjob := <[j := y1]> (hjob s) |>).
    assert (moves (keeps_job j) (revokeAll j;; emitTerminal j typ pl)) as Hm.
    { moves_step; [apply revokeAll_keeps|apply emitTerminal_keeps]. }
    destruct (Hm s1 y1) as (y2 & Hy2 & Hid & Ht2); [apply lookup_insert_eq|]. exists y2. split_and!; [done|done|by apply Ht2].
Qed.

(** A run always settles: however the agent body ends (a result, an
    error, a panic, a cancellation) and whatever timers fired before, after
    [run] returns the job is terminal, has left the registry and the
    subscription table, and no timer of it is armed. *)
Theorem run_settles (s : Server) (j : nat) (y : Job) (o : agent_outcome) :
  hjob s !! j = Some y →
  let s' := (run_finish j o s).2 in
  jobs s' !! j_id y = None ∧ subs s' !! j_id y = None ∧
  ∃ y', hjob s' !! j = Some y' ∧ j_terminal y' = true ∧ j_pc y' = JReturned ∧
        j_expiryTimer y' = None ∧ j_runtimeTimer y' = None.
Proof.
  intros Hy. cbv zeta. unfold run_finish. rewrite bind_eq.
  assert (∃ y', hjob (run_body_result j o s).2 !! j = Some y' ∧ j_id y' = j_id y ∧ j_terminal y' = true) as (y1 & Hy1 & Hid & Ht).
  { unfold run_body_result. run_reads. cbv zeta. repeat case_goal; by apply finish_terminal. }
  set (s1 := (run_body_result j o s).2) in *. unfold run_exit, stop_timers, unregisterJob, set_job_.
  run_reads. cbn [modify fst snd]. cbn. unfold job. cbn. rewrite !lookup_insert_eq. cbn. rewrite Hy1. cbn. rewrite Hid, !lookup_delete_eq.
  split_and!; [done|done|]. eexists. split; [done|]. by cbn.
Qed.

End protocol.
(** ** Witnesses *)

Definition demo_dropped : Server := demo_run 0 (demo_worked ++ [OpExit 6]).

Definition demo_ended : Server := (Accept_tail 6 demo_dropped).2.

Lemma resume_after_drop_witness :
  ∃ x e, hsess demo_dropped !! 6 = Some x ∧
    (claimResume (mkResumeRequest (s_id x) (s_resumeToken x) 1) (s_principal x) (demo_ended <| now := (now demo_ended + 5)%Z |>)).1 = Ok e ∧
    re_seq e = currentSeq demo_dropped 6.
Proof.
  destruct (hsess demo_dropped !! 6) as [x|] eqn:Hx; [|exfalso; vm_compute in Hx; discriminate].
  assert (s_gracefulBye <$> hsess demo_dropped !! 6 = Some false) as H1 by (vm_compute; reflexivity).
  assert ((λ y, bool_decide (s_resumeToken y = "")) <$> hsess demo_dropped !! 6 = Some false) as H2 by (vm_compute; reflexivity).
  rewrite Hx in H1, H2. injection H1 as H1. injection H2 as H2. apply bool_decide_eq_false in H2.
  destruct (resume_after_drop demo_dropped 6 x 5 1) as (e & He & _ & Hseq);
    [exact Hx|exact H1|exact H2|vm_compute; reflexivity|vm_compute; discriminate|].
  exists x, e. split; [reflexivity|]. split; [exact He|exact Hseq].
Defined.

Definition demo_pv_run : Server := run demo_submitted (New demo_opts_pv 1000).

Lemma revoked_before_terminal_event_witness :
  ∃ y, hjob demo_pv_run !! 8 = Some y ∧ length (j_creds y) = 1 ∧
       revokes_then_emits demo_pv_run (timeout 8 demo_pv_run).2 y.
Proof.
  destruct (hjob demo_pv_run !! 8) as [y|] eqn:Hy; [|exfalso; vm_compute in Hy; discriminate].
  assert (j_terminal <$> hjob demo_pv_run !! 8 = Some false) as H1 by (vm_compute; reflexivity).
  assert (j_revoked <$> hjob demo_pv_run !! 8 = Some false) as H2 by (vm_compute; reflexivity).
  assert (length ∘ j_creds <$> hjob demo_pv_run !! 8 = Some 1) as H3 by (vm_compute; reflexivity).
  rewrite Hy in H1, H2, H3. injection H1 as H1. injection H2 as H2. injection H3 as H3.
  exists y. split; [reflexivity|]. split; [exact H3|].
  apply (revoked_before_terminal_event demo_pv_run 8 y demo_provisioner);
    [exact Hy|exact H1|exact H2|vm_compute; reflexivity|right; left; reflexivity].
Defined.

Definition demo_two : Server := demo_run 0 (demo_submitted ++ connect 2 18 "mallory" None).

Lemma cancel_only_by_submitter_witness :
  s_principal (sess demo_two 18) = "mallory" ∧
  hjob (handleJobCancel 18 (cancel_env demo_jid "stop") demo_two).2 = hjob demo_two.
Proof.
  split; [vm_compute; reflexivity|].
  destruct (hjob demo_two !! 8) as [y|] eqn:Hy; [|exfalso; vm_compute in Hy; discriminate].
  assert (j_principal <$> hjob demo_two !! 8 = Some "alice") as H1 by (vm_compute; reflexivity).
  rewrite Hy in H1. injection H1 as H1.
  pose proof (cancel_only_by_submitter demo_two 18 (cancel_env demo_jid "stop") "stop" 8 y) as H.
  cbv zeta in H. rewrite bool_decide_eq_false_2 in H.
  - destruct H as [H _]; [reflexivity|vm_compute; reflexivity|exact Hy|exact H].
  - rewrite H1. intros [_ H2]. vm_compute in H2. discriminate.
Defined.

(** A submission under a key, the session reading it twice. *)
Definition demo_keyed : Server :=
  demo_run 0 ([OpRegisterAgent "echo" (Some 0)] ++ connect 1 6 "alice" None ++ [OpRead 6 (submit_env "echo" "k" ∅)]).


Lemma run_settles_witness :
  jobs (run_finish 8 APanic demo_two).2 !! demo_jid = None.
Proof.
  destruct (hjob demo_two !! 8) as [y|] eqn:Hy; [|exfalso; vm_compute in Hy; discriminate].
  assert (j_id <$> hjob demo_two !! 8 = Some demo_jid) as H1 by (vm_compute; reflexivity).
  rewrite Hy in H1. injection H1 as H1. rewrite <-H1.
  apply (run_settles demo_two 8 y APanic). exact Hy.
Defined.
