(* ===== verification/Programs.v ===== *)
(** * Agent bodies as programs

    An agent body is Go code that calls its [JobContext], sleeps, waits on
    its context and returns.  Here it is an interaction tree over the calls it
    can make ([jobE]); a [world] is a server with one such program per running
    job.  A turn of a program performs its next call on the server.  The
    theorems say that a world is a run of the runtime of the file Runtime in
    which the agent steps of each job are the calls of its body, that a body
    that checks its lease before its tool calls only makes calls its grant
    covers, and that a body with a bound on its calls returns. *)

From S2P Require Import Prelude GoStrings Errors Features Float64 Lease Canonical LeaseState Messages EventLog IdStore Agents ServerState Delivery Stream Job ListJobs Session Runtime Scenarios Invariant Preservation JobPreservation SessionPreservation HandlerPreservation Frames JobLife Safety Protocol.
From ITree Require ITree.
From Stdlib Require Import ZArith Lia.
Import ITreeDefinition (itree(..), itreeF(..)).

(** ** Calls *)

(** What a body can do: a [JobContext] method with a result, one without
    ([EDo]), [time.Sleep], a [select] of [ctx.Done()] against [time.After], a
    new ticker, and a [select] of [ctx.Done()] against the ticker's channel.
    The answer of a select is [ctx.Err()], or nil for the timer. *)
Inductive jobE : Type → Type :=
| EDo (a : agent_op) : jobE ()
| EValidate (cap : Capability) (target : string) : jobE (option error)
| EReserve (cap : Capability) (target : string) (debit : BudgetAmount) : jobE (f64 * option error)
| EToolCall (tool : string) (args : res string) : jobE string
| ERotate (id newValue : string) : jobE (option error)
| EStream (encoding : string) : jobE (option error)
| EWrite (p : string) : jobE (res Z)
| ESleep (d : Duration) : jobE ()
| EAfter (d : Duration) : jobE (option error)
| ENewTicker (d : Duration) : jobE ()
| ETick : jobE (option error).

Definition program (R : Type) : Type := itree jobE R.

#[export] Instance program_ret : MRet program := λ A a, ITreeDefinition.Ret a.
#[export] Instance program_bind : MBind program := λ A B k m, ITreeDefinition.ITree.bind m k.

Definition call {A} (e : jobE A) : program A := ITreeDefinition.ITree.trigger e.
Definition head {R} (t : program R) : itreeF jobE R (program R) := ITreeDefinition.observe t.

(** The body of an agent: its input, then the program. *)
Definition agent_body : Type := string → program agent_outcome.

(** ** Threads *)

(** The pending deadline of a sleep or select, and the ticker with its next
    tick. *)
Record timers := mkTimers { tm_wake : option Time; tm_tick : option (Duration * Time) }.

Definition no_timers : timers := mkTimers None None.

(** A call with its answer and the server at that moment. *)
Record answered_call := mkCall { c_at : Server; c_type : Type; c_event : jobE c_type; c_answer : c_type }.

(** The rest of a body, its timers and the calls it has made, oldest first. *)
Record thread := mkThread { th_rest : program agent_outcome; th_timers : timers; th_calls : list answered_call }.

(** A call blocks, perhaps with a new deadline, or is answered. *)
Inductive outcome (A : Type) := Blocked (tm : timers) | Answered (a : A) (tm : timers) (s : Server).
Arguments Blocked {A} tm.
Arguments Answered {A} a tm s.

(** The first tick after [now] of a ticker with period [d] that ticked at [t];
    ticks that nobody received are dropped. *)
Definition next_tick (d : Duration) (t now : Time) : Time := (t + d * ((now - t) / d + 1))%Z.

Section programs.
Context {RT : Runtime}.

Definition done_or {A} (j : nat) (tm : timers) (s : Server) (cs : bool) (deadline : Time) (fired : timers)
    (done_ fire : A) : outcome A :=
  if cs then if ctx_done s j then Answered done_ (mkTimers None (tm_tick tm)) s else Blocked tm
  else if (deadline <=? now s)%Z then Answered fire fired s else Blocked tm.

Definition answer {A} (tm : timers) (r : A * Server) : outcome A := Answered r.1 tm r.2.

(** The call [e] of the body of the job [j]; [cs] is the case that a [select]
    takes: [true] for [ctx.Done()], [false] for the timer. *)
Definition perform {A} (j : nat) (cs : bool) (e : jobE A) (tm : timers) (s : Server) : outcome A :=
  match e in jobE A return outcome A with
  | EDo a => answer tm (exec_agent j a s)
  | EValidate cap target => answer tm (ValidateLeaseOp j cap target s)
  | EReserve cap target debit => answer tm (ReserveBudget j cap target debit s)
  | EToolCall tool args => answer tm (ToolCall j tool args s)
  | ERotate id v => answer tm (RotateCredential j id v s)
  | EStream enc => answer tm (StreamResult j enc s)
  | EWrite p => answer tm (stream_Write j p s)
  | ESleep d =>
      match tm_wake tm with
      | None => Blocked (mkTimers (Some (now s + d)%Z) (tm_tick tm))
      | Some t => done_or j tm s false t (mkTimers None (tm_tick tm)) () ()
      end
  | EAfter d =>
      match tm_wake tm with
      | None => Blocked (mkTimers (Some (now s + d)%Z) (tm_tick tm))
      | Some t => done_or j tm s cs t (mkTimers None (tm_tick tm)) (Some ctx_Canceled) None
      end
  | ENewTicker d => Answered () (mkTimers (tm_wake tm) (Some (d, (now s + d)%Z))) s
  | ETick =>
      match tm_tick tm with
      | None => Blocked tm
      | Some (d, t) => done_or j tm s cs t (mkTimers (tm_wake tm) (Some (d, next_tick d t (now s)))) (Some ctx_Canceled) None
      end
  end.

(** The step of the runtime that a call is, if it is one. *)
Definition op_of {A} (e : jobE A) : option agent_op :=
  match e with
  | EDo a => Some a
  | EReserve cap target debit => Some (AReserve cap target debit)
  | EToolCall tool args => Some (AToolCall tool args)
  | ERotate id v => Some (ARotate id v)
  | EStream enc => Some (AStream enc)
  | EWrite p => Some (AWrite p)
  | EValidate _ _ | ESleep _ | EAfter _ | ENewTicker _ | ETick => None
  end.

(** ** Worlds *)

(** The bodies of the registered handlers. *)
Variable handlers : nat → agent_body.

Record world := mkWorld { w_srv : Server; w_threads : gmap nat thread }.

(** A step of the server that no body takes, the start of a job's run, a turn
    of a body. *)
Inductive world_op :=
| WServer (o : op)
| WStart (j : nat)
| WTurn (j : nat) (cs : bool).

Definition own_op (o : op) : bool :=
  match o with OpJobStart _ | OpAgent _ _ | OpJobReturn _ _ => false | _ => true end.

(** Calling a nil function panics. *)
Definition body_of (y : Job) : program agent_outcome :=
  match j_fn y with Some f => handlers f (j_input y) | None => mret APanic end.

Definition start (j : nat) (w : world) : world :=
  let s := step (w_srv w) (OpJobStart j) in
  if job_at (w_srv w) j JPending && job_at s j JAgent then
    mkWorld s (<[j := mkThread (body_of (job s j)) no_timers []]> (w_threads w))
  else mkWorld s (w_threads w).

Definition turn (j : nat) (cs : bool) (w : world) : world :=
  let s := w_srv w in
  match w_threads w !! j with
  | None => w
  | Some th =>
      if negb (crashed s) && job_at s j JAgent then
        match head (th_rest th) with
        | RetF out => mkWorld (step s (OpJobReturn j out)) (w_threads w)
        | TauF t => mkWorld s (<[j := mkThread t (th_timers th) (th_calls th)]> (w_threads w))
        | VisF e k =>
            match perform j cs e (th_timers th) s with
            | Blocked tm => mkWorld s (<[j := mkThread (th_rest th) tm (th_calls th)]> (w_threads w))
            | Answered a tm s' =>
                mkWorld s' (<[j := mkThread (k a) tm (th_calls th ++ [mkCall s _ e a])]> (w_threads w))
            end
        end
      else w
  end.

Definition world_step (w : world) (o : world_op) : world :=
  match o with
  | WServer o => if own_op o then mkWorld (step (w_srv w) o) (w_threads w) else w
  | WStart j => start j w
  | WTurn j cs => turn j cs w
  end.

Definition world_run (ops : list world_op) (w : world) : world := fold_left world_step ops w.

Inductive world_reach (o : Options) (t : Time) : world → Prop :=
| world_New : world_reach o t (mkWorld (New o t) ∅)
| world_reach_step w x : world_reach o t w → world_reach o t (world_step w x).

Lemma world_run_reach o t w ops : world_reach o t w → world_reach o t (world_run ops w).
Proof.
  revert w. induction ops as [|x ops IH]; intros w Hw; [done|]. simpl. apply IH. by constructor.
Qed.

(** ** A world is a run of the runtime *)

Lemma step_agent s j a : crashed s = false → job_at s j JAgent = true → step s (OpAgent j a) = (exec_agent j a s).2.
Proof. intros Hc Hj. unfold step. cbn [enabled]. by rewrite Hc, Hj. Qed.

(** A call that is answered is one step of the server, or none. *)
Lemma perform_step {A} j cs (e : jobE A) tm s a tm' s' :
  crashed s = false → job_at s j JAgent = true → perform j cs e tm s = Answered a tm' s' →
  s' = match op_of e with Some a => step s (OpAgent j a) | None => s end.
Proof.
  intros Hc Hj. destruct e; cbn [perform op_of]; unfold answer, done_or; rewrite ?step_agent by done;
    cbn [exec_agent]; rewrite ?bind_eq; repeat case_match; by intros [= _ _ <-].
Qed.

(** The calls of a program on the way from [t] to [u]. *)
Inductive path {R} : program R → list answered_call → program R → Prop :=
| path_nil t : path t [] t
| path_tau t u l v : path t l u → head u = TauF v → path t l v
| path_vis t u l A s (e : jobE A) a k : path t l u → head u = VisF e k → path t (l ++ [mkCall s A e a]) (k a).

(** The agent steps of the job [j] in a run, and those that its calls are. *)
Definition agent_steps (j : nat) (ops : list op) : list agent_op :=
  omap (λ o, match o with OpAgent k a => if bool_decide (k = j) then Some a else None | _ => None end) ops.

Definition call_steps (l : list answered_call) : list agent_op := omap (λ c, op_of (c_event c)) l.

Lemma agent_steps_app j ops ops' : agent_steps j (ops ++ ops') = agent_steps j ops ++ agent_steps j ops'.
Proof. apply omap_app. Qed.

(** A call was answered by a state of the run in which the body ran. *)
Definition answered (o : Options) (t : Time) (j : nat) (y : Job) (c : answered_call) : Prop :=
  reachable o t (c_at c) ∧ (∃ z, hjob (c_at c) !! j = Some z ∧ birth z = birth y) ∧
  ∃ cs tm tm' s', perform j cs (c_event c) tm (c_at c) = Answered (c_answer c) tm' s'.

Record thread_ok (o : Options) (t : Time) (s : Server) (j : nat) (th : thread) (y : Job) : Prop := {
  th_job : hjob s !! j = Some y;
  th_path : path (body_of y) (th_calls th) (th_rest th);
  th_answered : Forall (answered o t j y) (th_calls th)
}.

(** The invariant of worlds: the server is where a run of the runtime leads
    whose agent steps are the calls; every thread is a body on its way, and
    every job whose body runs has its thread. *)
Record world_ok (o : Options) (t : Time) (w : world) (ops : list op) : Prop := {
  wo_run : w_srv w = run ops (New o t);
  wo_thread : ∀ j th, w_threads w !! j = Some th → ∃ y, thread_ok o t (w_srv w) j th y ∧ 2 ≤ progress (j_pc y);
  wo_calls : ∀ j, agent_steps j ops = call_steps (from_option th_calls [] (w_threads w !! j));
  wo_running : ∀ j, job_at (w_srv w) j JAgent = true → is_Some (w_threads w !! j)
}.

Lemma run_snoc ops x s : run (ops ++ [x]) s = step (run ops s) x.
Proof. unfold run. by rewrite fold_left_app. Qed.

Lemma wo_reachable o t w ops : world_ok o t w ops → reachable o t (w_srv w).
Proof. intros H. rewrite (wo_run _ _ _ _ H). apply run_reachable. constructor. Qed.

Lemma body_of_birth y z : birth z = birth y → body_of z = body_of y.
Proof. unfold birth. intros E. injection E as ? ? ? ? Hf Hi ? ? ?. unfold body_of. by rewrite Hf, Hi. Qed.

Lemma answered_birth o t j y z c : birth z = birth y → answered o t j y c → answered o t j z c.
Proof. intros E (Hr & (x & Hx & Ex) & Hc). split_and!; [done| |done]. exists x. split; [done|congruence]. Qed.

(** A thread whose job has aged. *)
Lemma thread_ok_aged o t s s' j th y y' :
  thread_ok o t s j th y → hjob s' !! j = Some y' → birth y' = birth y → thread_ok o t s' j th y'.
Proof.
  intros [H1 H2 H3] Hy E. split; [done|by rewrite (body_of_birth _ _ E)|].
  eapply Forall_impl; [exact H3|]. intros c. by apply answered_birth.
Qed.

(** A step of the server keeps the threads. *)
Lemma threads_step o t w ops x j th :
  world_ok o t w ops → w_threads w !! j = Some th →
  ∃ y', thread_ok o t (step (w_srv w) x) j th y' ∧ 2 ≤ progress (j_pc y').
Proof.
  intros H Hth. destruct (wo_thread _ _ _ _ H j th Hth) as (y & Hok & Hp).
  destruct (step_life (w_srv w) x j y) as (y' & Hy' & Ha & Hp').
  - eapply job_taken; [by eapply wo_reachable|apply Hok].
  - apply Hok.
  - exists y'. split; [|lia]. eapply thread_ok_aged; [done|done|apply Ha].
Qed.

(** The body of no job begins to run but by the start of its run. *)
Lemma running_before s x j : job_at (step s x) j JAgent = true → j ∉ begun x → job_at s j JAgent = true.
Proof.
  rewrite !job_at_spec. intros (y & Hy & Hp) HY. destruct (step_ages s x) as (_ & _ & H & _). by apply (H j y).
Qed.

Lemma agent_steps_other ops j x : (∀ a, x ≠ OpAgent j a) → agent_steps j (ops ++ [x]) = agent_steps j ops.
Proof.
  intros Hx. rewrite agent_steps_app. rewrite <-(app_nil_r (agent_steps j ops)) at 2. f_equal. destruct x; try done.
  unfold agent_steps. cbn. case_bool_decide; [subst|done]. by destruct (Hx a).
Qed.

(** A step of the server that is not the call of a body. *)
Lemma server_step_ok o t w ops x :
  world_ok o t w ops → (∀ j a, x ≠ OpAgent j a) → (∀ j, job_at (step (w_srv w) x) j JAgent = true → j ∈ begun x → is_Some (w_threads w !! j)) →
  world_ok o t (mkWorld (step (w_srv w) x) (w_threads w)) (ops ++ [x]).
Proof.
  intros H Hx Hb. split; cbn.
  - by rewrite run_snoc, <-(wo_run _ _ _ _ H).
  - intros j th Hth. by eapply threads_step.
  - intros j. rewrite agent_steps_other by done. by apply (wo_calls _ _ _ _ H).
  - intros j Hj. destruct (decide (j ∈ begun x)) as [Hin|Hin]; [by apply Hb|].
    apply (wo_running _ _ _ _ H). by eapply running_before.
Qed.

(** The thread of one job is replaced and the server stays. *)
Lemma replace_thread_ok o t w ops j th y th' :
  world_ok o t w ops → w_threads w !! j = Some th → thread_ok o t (w_srv w) j th' y → 2 ≤ progress (j_pc y) →
  call_steps (th_calls th') = call_steps (th_calls th) →
  world_ok o t (mkWorld (w_srv w) (<[j := th']> (w_threads w))) ops.
Proof.
  intros H Hth Hok Hp Hc. split; cbn.
  - apply (wo_run _ _ _ _ H).
  - intros k z [[<- <-]|[_ Hz]]%lookup_insert_Some; [by exists y|by apply (wo_thread _ _ _ _ H)].
  - intros k. rewrite (wo_calls _ _ _ _ H k), lookup_insert. case_decide; [subst k|done]. by rewrite Hth.
  - intros k Hk. rewrite lookup_insert. case_decide; [done|]. by apply (wo_running _ _ _ _ H).
Qed.

(** A call of the body of [j]. *)
Lemma call_ok o t w ops j th y A (e : jobE A) k cs a tm s' :
  world_ok o t w ops → w_threads w !! j = Some th → thread_ok o t (w_srv w) j th y → 2 ≤ progress (j_pc y) →
  crashed (w_srv w) = false → job_at (w_srv w) j JAgent = true → head (th_rest th) = VisF e k →
  perform j cs e (th_timers th) (w_srv w) = Answered a tm s' →
  ∃ ops', world_ok o t (mkWorld s' (<[j := mkThread (k a) tm (th_calls th ++ [mkCall (w_srv w) A e a])]> (w_threads w))) ops'.
Proof.
  intros H Hth Hok Hp Hc Hj Hh He. pose proof (perform_step _ _ _ _ _ _ _ _ Hc Hj He) as Hs.
  assert (answered o t j y (mkCall (w_srv w) A e a)) as Ha.
  { split_and!; [by eapply wo_reachable| |by repeat eexists]. exists y. split; [apply Hok|done]. }
  assert (∀ s z, hjob s !! j = Some z → birth z = birth y →
    thread_ok o t s j (mkThread (k a) tm (th_calls th ++ [mkCall (w_srv w) A e a])) z) as Hth'.
  { intros s z Hz E. eapply (thread_ok_aged o t (w_srv w)); [|done|done]. split; cbn; [apply Hok| |].
    - eapply path_vis; [apply Hok|done].
    - apply Forall_app. split; [apply Hok|by apply Forall_singleton]. }
  destruct (op_of e) as [b|] eqn:Hop; subst s'.
  - exists (ops ++ [OpAgent j b]). split; cbn.
    + by rewrite run_snoc, <-(wo_run _ _ _ _ H).
    + intros i z [[<- <-]|[_ Hz]]%lookup_insert_Some; [|by eapply threads_step].
      destruct (threads_step o t w ops (OpAgent j b) j th H Hth) as (y' & Hok' & Hp').
      exists y'. split; [|done]. apply Hth'; [apply Hok'|].
      destruct (step_life (w_srv w) (OpAgent j b) j y) as (y2 & Hy2 & A2 & _);
        [eapply job_taken; [by eapply wo_reachable|apply Hok]|apply Hok|].
      destruct Hok' as [Hy' _ _]. rewrite Hy' in Hy2. simplify_eq. apply A2.
    + intros i. rewrite lookup_insert. case_decide as Hi; [subst i|].
      * rewrite agent_steps_app, (wo_calls _ _ _ _ H), Hth. cbn. unfold call_steps. rewrite omap_app. cbn. rewrite Hop.
        unfold agent_steps. cbn. by rewrite bool_decide_eq_true_2.
      * rewrite agent_steps_other by (intros ? [= ]; congruence). apply (wo_calls _ _ _ _ H).
    + intros i Hi. rewrite lookup_insert. case_decide; [done|]. apply (wo_running _ _ _ _ H). eapply running_before; [done|set_solver].
  - exists ops. eapply replace_thread_ok; [done|done|apply (Hth' _ y); [apply Hok|done]|done|].
    unfold call_steps. cbn. rewrite omap_app. cbn. by rewrite Hop, app_nil_r.
Qed.

Lemma start_ok o t w ops j : world_ok o t w ops → ∃ ops', world_ok o t (start j w) ops'.
Proof.
  intros H. exists (ops ++ [OpJobStart j]). unfold start. set (s := step (w_srv w) (OpJobStart j)).
  assert (∀ i, job_at s i JAgent = true → i ∈ begun (OpJobStart j) → job_at (w_srv w) i JPending = false → is_Some (w_threads w !! i)) as Hb.
  { intros i Hi Hin. cbn in Hin. apply elem_of_singleton in Hin. subst i. intros Hp. revert Hi. unfold s, step. cbn [enabled].
    rewrite Hp, andb_false_r. apply (wo_running _ _ _ _ H). }
  destruct (job_at (w_srv w) j JPending) eqn:Hp; cbn [andb].
  2: { apply server_step_ok; [done|done|]. intros i Hi Hin. apply Hb; [done|done|]. cbn in Hin. by apply elem_of_singleton in Hin as ->. }
  destruct (job_at s j JAgent) eqn:Hj.
  2: { apply server_step_ok; [done|done|]. intros i Hi Hin. cbn in Hin. apply elem_of_singleton in Hin as ->. unfold s in Hj. congruence. }
  assert (w_threads w !! j = None) as Hnone.
  { destruct (w_threads w !! j) as [th|] eqn:Hth; [|done]. destruct (wo_thread _ _ _ _ H j th Hth) as (y & Hok & Hpr).
    apply job_at_spec in Hp as (z & Hz & Hpc). destruct Hok as [Hy _ _]. rewrite Hy in Hz. simplify_eq. rewrite Hpc in Hpr. cbn in Hpr. lia. }
  split; cbn.
  - by rewrite run_snoc, <-(wo_run _ _ _ _ H).
  - intros i th [[<- <-]|[_ Hth]]%lookup_insert_Some; [|by eapply threads_step].
    apply job_at_spec in Hj as (y & Hy & Hpc). exists y. rewrite Hpc. split; [|cbn; lia]. split; cbn; [done| |done].
    rewrite (job_some _ _ _ Hy). constructor.
  - intros i. rewrite agent_steps_other, (wo_calls _ _ _ _ H), lookup_insert by done. case_decide; [subst i|done]. by rewrite Hnone.
  - intros i Hi. rewrite lookup_insert. case_decide; [done|]. apply (wo_running _ _ _ _ H). eapply running_before; [done|set_solver].
Qed.

Lemma turn_ok o t w ops j cs : world_ok o t w ops → ∃ ops', world_ok o t (turn j cs w) ops'.
Proof.
  intros H. unfold turn. destruct (w_threads w !! j) as [th|] eqn:Hth; [|by exists ops].
  destruct (negb (crashed (w_srv w)) && job_at (w_srv w) j JAgent) eqn:Hg; [|by exists ops].
  apply andb_true_iff in Hg as [Hc%negb_true_iff Hj]. destruct (wo_thread _ _ _ _ H j th Hth) as (y & Hok & Hp).
  destruct (head (th_rest th)) as [out|u|A e k] eqn:Hh.
  - exists (ops ++ [OpJobReturn j out]). by apply server_step_ok; [|done|set_solver].
  - exists ops. eapply replace_thread_ok; [done|done| |done|done]. split; cbn; [apply Hok| |apply Hok]. eapply path_tau; [apply Hok|done].
  - destruct (perform j cs e (th_timers th) (w_srv w)) as [tm|a tm s'] eqn:He.
    + exists ops. eapply replace_thread_ok; [done|done| |done|done]. split; cbn; apply Hok.
    + by eapply call_ok.
Qed.

Lemma world_reach_ok o t w : world_reach o t w → ∃ ops, world_ok o t w ops.
Proof.
  induction 1 as [|w x _ [ops IH]].
  - exists []. split; cbn; [done|intros j th; by rewrite lookup_empty|intros j; by rewrite lookup_empty|].
    intros j. rewrite job_at_spec. intros (y & Hy & _). cbn in Hy. by rewrite lookup_empty in Hy.
  - destruct x as [x|j|j cs]; cbn [world_step]; [|by eapply start_ok|by eapply turn_ok].
    destruct (own_op x) eqn:Hx; [|by exists ops]. exists (ops ++ [x]). apply server_step_ok; [done|by destruct x|].
    intros j _ Hin. by destruct x.
Qed.

Definition calls_of (w : world) (j : nat) : list answered_call := from_option th_calls [] (w_threads w !! j).


(** ** A logic for bodies *)

(** A policy: a state that the calls and their answers move, and the calls it
    allows. *)
Record policy := mkPolicy {
  po_state : Type;
  allows : po_state → ∀ A, jobE A → Prop;
  moved_by : po_state → ∀ A, jobE A → A → po_state
}.
#[global] Arguments allows _ _ {A} _ : assert.
#[global] Arguments moved_by _ _ {A} _ _ : assert.

(** From the state [st] the program makes only calls the policy allows,
    whatever the answers, takes fewer than [n] steps and returns a value with
    [Q]. *)
Fixpoint obeys {R} (P : policy) (n : nat) (st : po_state P) (t : program R) (Q : po_state P → R → Prop) : Prop :=
  match n with
  | 0 => False
  | S n =>
      match head t with
      | RetF r => Q st r
      | TauF u => obeys P n st u Q
      | VisF e k => allows P st e ∧ ∀ a, obeys P n (moved_by P st e a) (k a) Q
      end
  end.

Section logic.
Context (P : policy).

Lemma obeys_mono {R} n m st (t : program R) (Q Q' : po_state P → R → Prop) :
  obeys P n st t Q → n ≤ m → (∀ st r, Q st r → Q' st r) → obeys P m st t Q'.
Proof.
  revert m st t. induction n as [|n IH]; intros [|m] st t Ht Hm HQ; try done; [lia|]. cbn in *.
  destruct (head t) as [r|u|A e k]; [by apply HQ|apply IH; [done|lia|done]|].
  destruct Ht as [He Hk]. split; [done|]. intros a. by apply IH; [|lia|].
Qed.

Lemma obeys_ret {R} n st (r : R) (Q : po_state P → R → Prop) : Q st r → 0 < n → obeys P n st (mret r) Q.
Proof. intros HQ Hn. by destruct n; [lia|]. Qed.

Lemma obeys_call {A} n st (e : jobE A) (Q : po_state P → A → Prop) :
  allows P st e → (∀ a, Q (moved_by P st e a) a) → 1 < n → obeys P n st (call e) Q.
Proof. intros He HQ Hn. destruct n as [|[|n]]; [lia|lia|]. split; [done|exact HQ]. Qed.

(** The head of a sequence. *)
Lemma head_bind {A B} (t : program A) (k : A → program B) :
  head (t ≫= k) = match head t with
                  | RetF a => head (k a)
                  | TauF u => TauF (u ≫= k)
                  | VisF e f => VisF e (λ x, f x ≫= k)
                  end.
Proof.
  cbv [head mbind program_bind ITreeDefinition.ITree.bind ITreeDefinition.ITree.subst ITreeDefinition.observe].
  destruct (ITreeDefinition._observe t); reflexivity.
Qed.

Lemma obeys_bind {A B} n m st (t : program A) (k : A → program B) (Q : po_state P → B → Prop) :
  obeys P n st t (λ st a, obeys P m st (k a) Q) → obeys P (n + m) st (t ≫= k) Q.
Proof.
  revert st t. induction n as [|n IH]; intros st t Ht; [done|]. cbn in Ht. cbn [plus obeys]. rewrite head_bind.
  destruct (head t) as [a|u|C e f]; [|by apply IH|destruct Ht as [He Hf]; split; [done|intros a; by apply IH]].
  change (obeys P (S (n + m)) st (k a) Q). eapply obeys_mono; [exact Ht|lia|]. by intros.
Qed.

Lemma head_loop {S' R} (body : S' → program (S' + R)) s :
  head (ITreeDefinition.ITree.iter body s) =
  head (body s ≫= λ r, match r with inl s => ITreeDefinition.Tau (ITreeDefinition.ITree.iter body s) | inr r => mret r end).
Proof. reflexivity. Qed.

(** A loop whose rounds take at most [c] steps and decrease a count. *)
Lemma obeys_loop {S' R} (body : S' → program (S' + R)) c (I : nat → S' → po_state P → Prop) (Q : po_state P → R → Prop) :
  (∀ k s st, I k s st →
     obeys P c st (body s) (λ st r, match r with inl s => ∃ k', k' < k ∧ I k' s st | inr r => Q st r end)) →
  ∀ k s st, I k s st → obeys P ((c + 2) * S k) st (ITreeDefinition.ITree.iter body s) Q.
Proof.
  intros Hbody k. induction (lt_wf k) as [k _ IH]. intros s st HI.
  assert (obeys P (c + (1 + S ((c + 2) * k))) st
    (body s ≫= λ r, match r with inl s => ITreeDefinition.Tau (ITreeDefinition.ITree.iter body s) | inr r => mret r end) Q) as H.
  { apply obeys_bind. eapply obeys_mono; [by apply (Hbody k)|done|]. intros st' [s'|r]; [|intros HQ; by apply obeys_ret; [|lia]].
    intros (k' & Hk' & HI'). change (obeys P (S ((c + 2) * k)) st' (ITreeDefinition.ITree.iter body s') Q).
    eapply obeys_mono; [by apply (IH k')|nia|done]. }
  apply (obeys_mono _ ((c + 2) * S k) _ _ _ Q) in H; [|nia|done]. revert H.
  destruct ((c + 2) * S k) as [|n]; [done|]. cbn. by rewrite head_loop.
Qed.

(** The state of the policy after some calls. *)
Definition state_after (st : po_state P) (l : list answered_call) : po_state P :=
  fold_left (λ st c, moved_by P st (c_event c) (c_answer c)) l st.

(** What a path through a program that obeys the policy has called. *)
Lemma obeys_path {R} n st (t u : program R) l Q :
  path t l u → obeys P n st t Q →
  (∃ m, m + length l ≤ n ∧ obeys P m (state_after st l) u Q) ∧
  ∀ i c, l !! i = Some c → allows P (state_after st (take i l)) (c_event c).
Proof.
  intros Hp Ht. induction Hp as [t|t u l v Hp IH Hv|t u l A s e a k Hp IH Hv].
  - split; [exists n; split; [cbn; lia|done]|]. intros i c Hi. by rewrite lookup_nil in Hi.
  - destruct (IH Ht) as [([|m] & Hm & Hu) Hl]; [done|]. split; [|done]. cbn in Hu. rewrite Hv in Hu. exists m. split; [lia|done].
  - destruct (IH Ht) as [([|m] & Hm & Hu) Hl]; [done|]. cbn in Hu. rewrite Hv in Hu. destruct Hu as [He Hk]. split.
    + exists m. rewrite length_app. cbn. split; [lia|]. unfold state_after. rewrite fold_left_app. apply Hk.
    + intros i c [[Hi Hc]|[Hi Hc]]%lookup_snoc_Some.
      * rewrite take_app_le by lia. by apply Hl.
      * subst i c. by rewrite take_app_length.
Qed.
End logic.

(** ** Bodies that check their lease *)

(** The tool of a call that announces one, and the tool that a call has just
    checked against the lease. *)
Definition tool_of {A} (e : jobE A) : option string :=
  match e with
  | EToolCall tool _ | EDo (AToolCall tool _) => Some tool
  | _ => None
  end.

Definition checks {A} (e : jobE A) : A → option string :=
  match e in jobE A return A → option string with
  | EValidate cap target => λ r, if bool_decide (cap = CapToolCall) && bool_decide (r = None) then Some target else None
  | _ => λ _, None
  end.

Definition checked (c : answered_call) : option string := checks (c_event c) (c_answer c).

(** A tool call is allowed right after a check of that tool that passed; the
    state is the tool just checked. *)
Definition supervision : policy :=
  mkPolicy (option string) (λ st A e, match tool_of e with Some tool => st = Some tool | None => True end) (λ _ A e a, checks e a).

Definition supervised {R} (n : nat) (t : program R) : Prop := obeys supervision n None t (λ _ _, True).

Lemma supervision_state l st : l ≠ [] → state_after supervision st l = last l ≫= checked.
Proof.
  destruct l as [|c l _] using rev_ind; [done|]. intros _. unfold state_after. rewrite fold_left_app, last_snoc. done.
Qed.

Lemma supervised_path {R} n (t u : program R) l i c tool :
  path t l u → supervised n t → l !! i = Some c → tool_of (c_event c) = Some tool →
  ∃ c', 0 < i ∧ l !! pred i = Some c' ∧ checked c' = Some tool.
Proof.
  intros Hp Hs Hc Ht. destruct (obeys_path supervision n None t u l _ Hp Hs) as [_ Hall].
  specialize (Hall i c Hc). cbn in Hall. rewrite Ht in Hall. destruct i as [|i]; [done|].
  assert (i < length l) as Hi by (apply lookup_lt_Some in Hc; lia).
  destruct (lookup_lt_is_Some_2 l i Hi) as [c' Hc']. exists c'. split_and!; [lia|done|].
  rewrite (take_S_r _ _ _ Hc') in Hall. rewrite supervision_state, last_snoc in Hall by (by destruct (take i l)). exact Hall.
Qed.

(** A check that passed found the target covered, the lease in force and the
    budget not exhausted. *)
Lemma checked_valid o t j y c tool :
  answered o t j y c → checked c = Some tool →
  lease_matches (st_lease (j_lease y)) CapToolCall tool = true ∧ expired (j_lease y) (now (c_at c)) = false ∧
  exhausted (j_lease (job (c_at c) j)) = None.
Proof.
  intros (_ & (z & Hz & Hb) & cs & tm & tm' & s' & Hperf) Hc. unfold checked, checks in Hc. destruct c as [s A e a].
  cbn [c_at c_type c_event c_answer] in *. destruct e; try done. destruct (bool_decide (cap = CapToolCall) && bool_decide (a = None)) eqn:Hd; [|done].
  apply andb_true_iff in Hd as [->%bool_decide_eq_true ->%bool_decide_eq_true]. injection Hc as <-.
  cbn [perform] in Hperf. unfold answer in Hperf. injection Hperf as Hv _ _. unfold birth in Hb. injection Hb as _ _ _ _ _ _ _ _ H1 H2 H3.
  unfold ValidateLeaseOp, gets in Hv. cbn [fst] in Hv. rewrite (job_some _ _ _ Hz) in Hv |- *. revert Hv.
  assert (expired (j_lease y) (now s) = expired (j_lease z) (now s)) as -> by (unfold expired; by rewrite H2).
  rewrite <-H1. unfold ValidateOp, matches. destruct (expired (j_lease z) (now s)); [done|].
  destruct (lease_matches _ _ _); [|done]. cbn [negb]. by destruct (exhausted (j_lease z)).
Qed.

(** C15: A body that checks its lease right before each tool call announces only
    tools its job was granted.  In every world of agent programs, for a job
    whose body is supervised, every tool call the body has made is of a tool
    that the tool.call patterns of the accepted lease cover, and the call right
    before it was the check, at which the lease had not expired and no budget
    of it was exhausted. *)
Theorem supervised_calls_granted (o : Options) (t : Time) (w : world) (j : nat) (y : Job) (th : thread)
    (n i : nat) (c : answered_call) (tool : string) :
  world_reach o t w → hjob (w_srv w) !! j = Some y → w_threads w !! j = Some th → supervised n (body_of y) →
  th_calls th !! i = Some c → tool_of (c_event c) = Some tool →
  lease_matches (st_lease (j_lease y)) CapToolCall tool = true ∧
  ∃ c', 0 < i ∧ th_calls th !! pred i = Some c' ∧ expired (j_lease y) (now (c_at c')) = false ∧
        exhausted (j_lease (job (c_at c') j)) = None.
Proof.
  intros Hw Hy Hth Hs Hc Ht. destruct (world_reach_ok o t w Hw) as [ops Hok].
  destruct (wo_thread _ _ _ _ Hok j th Hth) as (z & [Hz Hp Ha] & _). rewrite Hy in Hz. injection Hz as <-.
  destruct (supervised_path n _ _ _ i c tool Hp Hs Hc Ht) as (c' & Hi & Hc' & Hck).
  rewrite Forall_lookup in Ha. destruct (checked_valid o t j y c' tool (Ha _ _ Hc') Hck) as (? & ? & ?).
  split; [done|]. by exists c'.
Qed.

(** ** Bodies that end *)

(** No call of a body ends the process. *)
Definition as_alive (s s' : Server) : Prop := crashed s' = crashed s.

#[local] Instance as_alive_preorder : PreOrder as_alive.
Proof. split; [by intros s|]. unfold as_alive. intros s1 s2 s3. congruence. Qed.

Lemma nextSeq_alive p : moves as_alive (nextSeq p).
Proof. by intros s. Qed.
Lemma persistOutbound_alive p env : moves as_alive (persistOutbound p env).
Proof. unfold persistOutbound. repeat first [moves_step | by intros ?]. Qed.
Lemma push_alive p env : moves as_alive (push p env).
Proof. by intros s. Qed.
Lemma writeLoop_turn_alive p : moves as_alive (writeLoop_turn p).
Proof. unfold writeLoop_turn, transport_send. repeat first [moves_step | by intros ?]. Qed.
Lemma new_envelope_alive typ pl : moves as_alive (new_envelope typ pl).
Proof. by intros s. Qed.

Lemma enqueue_alive p env : moves as_alive (enqueue p env).
Proof.
  unfold enqueue, maybeEmitBackPressure.
  repeat first [moves_step | apply writeLoop_turn_alive | apply push_alive | apply persistOutbound_alive
    | apply new_envelope_alive | apply nextSeq_alive | by intros ?].
Qed.

Lemma send_alive p env : moves as_alive (send p env).
Proof. unfold send. repeat first [moves_step | apply persistOutbound_alive | apply enqueue_alive | by intros ?]. Qed.

Lemma sendEphemeral_alive p env : moves as_alive (sendEphemeral p env).
Proof. unfold sendEphemeral. repeat first [moves_step | apply enqueue_alive | by intros ?]. Qed.

Lemma emitEvent_alive j kind body : moves as_alive (emitEvent j kind body).
Proof.
  unfold emitEvent, emit_envelope, fanoutEvent, publish.
  repeat first [moves_step | apply send_alive | apply new_envelope_alive | apply nextSeq_alive | by intros ?].
Qed.

Lemma retryRevoke_alive n o call : moves as_alive (retryRevoke n o call).
Proof. induction n as [|n IH]; simpl; repeat first [moves_step | exact IH | by intros ?]. Qed.

Lemma exec_agent_alive j a : moves as_alive (exec_agent j a).
Proof.
  destruct a; cbn [exec_agent];
    unfold Log, Thought, ToolCall, ToolResult, ToolError_, Status, ArtifactRef, Progress, Metric, maybeEmitRemaining, ReserveBudget,
      RotateCredential, revokePriorCredentialValue, StreamResult, stream_Write, stream_Close, emit_chunk;
    repeat first [moves_step | apply emitEvent_alive | apply sendEphemeral_alive | apply new_envelope_alive
      | apply nextSeq_alive | apply retryRevoke_alive | by intros ?].
Qed.

(** Every call but the wait for a ticker, which may have been stopped. *)
Definition untimed : policy := mkPolicy () (λ _ A e, match e with ETick => False | _ => True end) (λ _ A _ _, ()).

(** The program takes fewer than [n] steps, whatever the answers, and waits on
    no ticker. *)
Definition bounded {R} (n : nat) (t : program R) : Prop := obeys untimed n () t (λ _ _, True).

(** The turns of the body of [j] and the passing of time. *)
Inductive own_turn (j : nat) : world_op → Prop :=
| own_call : own_turn j (WTurn j false)
| own_wait d : own_turn j (WServer (OpAdvance d)).

(** A call is answered at once, or after some time. *)
Lemma perform_unblocks {A} j (e : jobE A) tm s :
  match e with ETick => False | _ => True end →
  (∃ a tm' s', perform j false e tm s = Answered a tm' s') ∨
  ∃ tm' d, perform j false e tm s = Blocked tm' ∧ (0 <= d)%Z ∧
    ∀ s2, now s2 = (now s + d)%Z → ∃ a tm2, perform j false e tm' s2 = Answered a tm2 s2.
Proof.
  intros He. destruct e; try (by destruct He); cbn [perform]; try (left; by repeat eexists); unfold done_or.
  all: destruct (tm_wake tm) as [t|] eqn:Hw.
  all: try (destruct (t <=? now s)%Z eqn:Ht; [left; by repeat eexists|]; right; exists tm, (t - now s)%Z; rewrite Hw).
  all: try (right; exists (mkTimers (Some (now s + d)%Z) (tm_tick tm)), (Z.max 0 d); cbn [tm_wake]).
  all: split_and!; [done|lia|]; intros s2 Hs2.
  all: match goal with |- context [if ?b then _ else _] => replace b with true by lia end; by repeat eexists.
Qed.

Lemma after_call {A} o t j cs (e : jobE A) tm s a tm' s' :
  reachable o t s → crashed s = false → job_at s j JAgent = true → perform j cs e tm s = Answered a tm' s' →
  crashed s' = false ∧ job_at s' j JAgent = true.
Proof.
  intros Hr Hc Hj He. pose proof (perform_step _ _ _ _ _ _ _ _ Hc Hj He) as ->. destruct (op_of e) as [b|]; [|done]. split.
  - rewrite step_agent by done. by rewrite (exec_agent_alive j b s).
  - apply job_at_spec in Hj as (y & Hy & Hpc). destruct (step_ages s (OpAgent j b)) as (_ & H & _).
    destruct (H j y) as (y' & Hy' & _ & Hp); [by eapply job_taken|done|]. apply job_at_spec. exists y'. split; [done|].
    rewrite Hp; [done|set_solver].
Qed.

(** A world in which the body of [j] runs, at [rest]. *)
Definition running_at (o : Options) (t : Time) (j : nat) (rest : program agent_outcome) (w : world) : Prop :=
  world_reach o t w ∧ crashed (w_srv w) = false ∧ job_at (w_srv w) j JAgent = true ∧
  ∃ th, w_threads w !! j = Some th ∧ th_rest th = rest.

Lemma running_reachable o t j rest w : running_at o t j rest w → reachable o t (w_srv w).
Proof. intros [Hw _]. destruct (world_reach_ok o t w Hw) as [ops Hok]. by eapply wo_reachable. Qed.

Lemma turn_answered o t j w th A (e : jobE A) k a tm s' :
  running_at o t j (th_rest th) w → w_threads w !! j = Some th → head (th_rest th) = VisF e k →
  perform j false e (th_timers th) (w_srv w) = Answered a tm s' → running_at o t j (k a) (world_step w (WTurn j false)).
Proof.
  intros Hr Hth Hh He. pose proof (running_reachable _ _ _ _ _ Hr) as Hs. destruct Hr as (Hw & Hc & Hj & _).
  destruct (after_call o t j false e _ _ _ _ _ Hs Hc Hj He) as [Hc' Hj']. unfold running_at. split; [by constructor|].
  cbn. unfold turn. rewrite Hth, Hc, Hj. cbn. rewrite Hh, He. cbn. split_and!; [done|done|].
  eexists. split; [apply lookup_insert_eq|done].
Qed.

Lemma turn_blocked o t j w th A (e : jobE A) k tm :
  running_at o t j (th_rest th) w → w_threads w !! j = Some th → head (th_rest th) = VisF e k →
  perform j false e (th_timers th) (w_srv w) = Blocked tm →
  world_step w (WTurn j false) = mkWorld (w_srv w) (<[j := mkThread (th_rest th) tm (th_calls th)]> (w_threads w)).
Proof. intros (_ & Hc & Hj & _) Hth Hh He. cbn. unfold turn. by rewrite Hth, Hc, Hj, Hh, He. Qed.

(** The next call of a body that waits on no ticker is answered. *)
Lemma call_answered o t j w rest A (e : jobE A) k :
  running_at o t j rest w → head rest = VisF e k → match e with ETick => False | _ => True end →
  ∃ ops a, Forall (own_turn j) ops ∧ running_at o t j (k a) (world_run ops w).
Proof.
  intros Hr Hh He. destruct Hr as (Hw & Hc & Hj & th & Hth & <-).
  assert (running_at o t j (th_rest th) w) as Hr by (split_and!; [done|done|done|by exists th]).
  destruct (perform_unblocks j e (th_timers th) (w_srv w) He) as [(a & tm & s' & Hp)|(tm & d & Hp & Hd & Hlater)].
  - exists [WTurn j false], a. split; [repeat constructor|]. by eapply turn_answered.
  - set (w1 := world_step w (WTurn j false)). set (w2 := world_step w1 (WServer (OpAdvance d))).
    pose proof (turn_blocked o t j w th A e k tm Hr Hth Hh Hp) as Hw1. fold w1 in Hw1.
    assert (w2 = mkWorld (w_srv w <| now := (now (w_srv w) + d)%Z |>) (w_threads w1)) as Hw2.
    { unfold w2. cbn [world_step own_op]. rewrite Hw1. cbn [w_srv w_threads]. unfold step. cbn [enabled]. rewrite Hc. cbn [negb andb]. by replace (0 <=? d)%Z with true by lia. }
    destruct (Hlater (w_srv w2)) as (a & tm2 & Hp2); [by rewrite Hw2|].
    exists [WTurn j false; WServer (OpAdvance d); WTurn j false], a. split; [repeat constructor|].
    change (running_at o t j (k a) (world_step w2 (WTurn j false))).
    eapply (turn_answered o t j w2 (mkThread (th_rest th) tm (th_calls th))); [|by rewrite Hw2, Hw1; apply lookup_insert_eq|done|done].
    split; [by do 2 constructor|]. rewrite Hw2, Hw1. cbn. split_and!; [done|done|]. eexists. split; [apply lookup_insert_eq|done].
Qed.

Definition returned (w : world) (j : nat) : Prop :=
  ∃ y, hjob (w_srv w) !! j = Some y ∧ j_pc y = JReturned ∧ j_terminal y = true.

(** A run that has returned has settled its job. *)
Lemma run_finish_settled s j y out :
  hjob s !! j = Some y → ∃ y', hjob (run_finish j out s).2 !! j = Some y' ∧ j_pc y' = JReturned ∧ j_terminal y' = true.
Proof.
  intros Hy. unfold run_finish. rewrite bind_eq.
  assert (∃ y', hjob (run_body_result j out s).2 !! j = Some y' ∧ j_id y' = j_id y ∧ j_terminal y' = true) as (y1 & Hy1 & _ & Ht).
  { unfold run_body_result. run_reads. cbv zeta. repeat case_goal; by apply finish_terminal. }
  unfold run_exit, stop_timers, unregisterJob, set_job_. run_reads. cbn. unfold job. cbn. rewrite !lookup_insert_eq. cbn.
  rewrite Hy1. eexists. split; [done|]. by cbn.
Qed.

Lemma bounded_returns o t j m : ∀ w rest,
  running_at o t j rest w → bounded m rest → ∃ ops, Forall (own_turn j) ops ∧ returned (world_run ops w) j.
Proof.
  induction m as [|m IH]; intros w rest Hr Hb; [done|]. unfold bounded in Hb. cbn in Hb.
  destruct (head rest) as [out|u|A e k] eqn:Hh.
  - exists [WTurn j false]. split; [repeat constructor|]. destruct Hr as (Hw & Hc & Hj & th & Hth & <-). cbn. unfold turn.
    rewrite Hth, Hc, Hj. cbn. rewrite Hh. unfold returned, step. cbn. rewrite Hc, Hj. cbn.
    apply job_at_spec in Hj as (y & Hy & _). by eapply run_finish_settled.
  - destruct (IH (world_step w (WTurn j false)) u) as (ops & Ho & Hret); [|done|].
    + destruct Hr as (Hw & Hc & Hj & th & Hth & <-). split; [by constructor|]. cbn. unfold turn. rewrite Hth, Hc, Hj. cbn.
      rewrite Hh. cbn. split_and!; [done|done|]. eexists. split; [apply lookup_insert_eq|done].
    + exists (WTurn j false :: ops). split; [by constructor; [constructor|]|done].
  - destruct Hb as [He Hk]. destruct (call_answered o t j w rest A e k Hr Hh He) as (ops1 & a & Ho1 & Hr1).
    destruct (IH _ _ Hr1 (Hk a)) as (ops2 & Ho2 & Hret). exists (ops1 ++ ops2). split; [by apply Forall_app|].
    unfold world_run in *. by rewrite fold_left_app.
Qed.

(** A body with a bound returns: if the body of a running job takes fewer than
    [n] steps whatever the answers and waits on no ticker, then it has made
    fewer than [n] calls, and turns of the body and the passing of time alone
    lead to a state in which its run has returned and the job is terminal. *)
Lemma bounded_running (o : Options) (t : Time) (w : world) (j : nat) (y : Job) (n : nat) :
  world_reach o t w → crashed (w_srv w) = false → hjob (w_srv w) !! j = Some y → j_pc y = JAgent →
  bounded n (body_of y) →
  length (calls_of w j) < n ∧ ∃ ops, Forall (own_turn j) ops ∧ returned (world_run ops w) j.
Proof.
  intros Hw Hc Hy Hpc Hb. assert (job_at (w_srv w) j JAgent = true) as Hj by (apply job_at_spec; by exists y).
  destruct (world_reach_ok o t w Hw) as [ops Hok]. destruct (wo_running _ _ _ _ Hok j Hj) as [th Hth].
  destruct (wo_thread _ _ _ _ Hok j th Hth) as (z & [Hz Hp _] & _). rewrite Hy in Hz. injection Hz as <-.
  destruct (obeys_path untimed n () _ _ _ _ Hp Hb) as [(m & Hm & Hbm) _]. unfold calls_of. rewrite Hth. cbn. split.
  - destruct m; [done|lia].
  - apply (bounded_returns o t j m w (th_rest th)); [split_and!; [done|done|done|by exists th]|].
    by destruct (state_after untimed () (th_calls th)).
Qed.
End programs.
