(* ===== verification/Pagination.v ===== *)
(** * Job listing, page by page

    [listJobs] against its reference (filter, sort, prefix), the round trip of
    its cursors, and the theorem that following the cursors enumerates every
    matching job once, in order. *)

From S2P Require Import Prelude GoStrings Decimal Errors Features Lease Canonical LeaseState Messages EventLog IdStore Agents ServerState Delivery Stream Job ListJobs ListJobsHeap Session Runtime Scenarios Invariant Preservation JobPreservation SessionPreservation HandlerPreservation.
From Stdlib Require Import ZArith Ascii Lia Sorted.

(** ** Cursors *)

Lemma decode_encodeCursor info :
  in_i64 (ji_CreatedAt info) → decodeCursor (encodeCursor info) = CursorAt (ji_CreatedAt info) (ji_JobID info).
Proof.
  intros Hr. unfold encodeCursor, decodeCursor. rewrite wrap_i64_small by done.
  destruct (ParseInt_FormatInt _ Hr) as [Hp Hs]. set (ts := FormatInt (ji_CreatedAt info)) in *.
  change (ts +:+ "|" +:+ ji_JobID info) with (ts +:+ String "|" (ji_JobID info)).
  rewrite bool_decide_eq_false_2 by (by destruct ts). rewrite IndexByte_app by done. rewrite stake_app, Hp.
  f_equal. replace (len ts + 1) with (len (ts +:+ "|")) by (rewrite len_app; done).
  change (String "|" (ji_JobID info)) with ("|" +:+ ji_JobID info). by rewrite <-sapp_assoc, sdrop_app.
Qed.

(** A cursor at an entry admits exactly the entries after it. *)
Lemma afterCursor_less a b :
  in_i64 (je_createdAt b) → afterCursor (CursorAt (je_createdAt a) (je_id a)) (je_createdAt b) (je_id b) = jobEntryLess a b.
Proof.
  intros Hr. cbn [afterCursor]. rewrite wrap_i64_small by done. unfold jobEntryLess, Before.
  rewrite (Z.eqb_sym (je_createdAt b)). destruct (Z.eqb_spec (je_createdAt a) (je_createdAt b)) as [->|Hne]; cbn [andb].
  - by rewrite Z.ltb_irrefl.
  - by rewrite orb_false_r.
Qed.

Lemma bool_filter_perm {A} (f : A → bool) (l k : list A) : l ≡ₚ k → List.filter f l ≡ₚ List.filter f k.
Proof.
  induction 1 as [|x l k _ IH|x y l|l k r _ IH1 _ IH2]; cbn; [done| | |by etrans].
  - destruct (f x); [by apply Permutation_cons|done].
  - destruct (f x), (f y); try done. constructor.
Qed.

Section pagination.
Context {RT : Runtime}.

(** ** Visible entries *)

Lemma visible_elem s n principal e :
  e ∈ visible_refs s n principal ↔
  ∃ id j, jobs s !! id = Some j ∧ j_principal (job s j) = principal ∧
    e = mkJobEntry (j_createdAt (job s j)) (j_id (job s j)) j.
Proof.
  unfold visible_refs. rewrite list_elem_of_In, in_flat_map. split.
  - intros (id & _ & He). destruct (jobs s !! id) as [j|] eqn:Hj; [|done]. case_bool_decide as Hp; [|done].
    destruct He as [<-|[]]. by exists id, j.
  - intros (id & j & Hj & Hp & ->). exists id. split.
    + apply list_elem_of_In. rewrite order_keys_perm. apply elem_of_elements, elem_of_dom. by eauto.
    + rewrite Hj, bool_decide_eq_true_2 by done. by left.
Qed.

Lemma selected_elem s n principal f cursor e :
  e ∈ selected_refs s n principal f cursor ↔
  selected s f (decodeCursor cursor) e = true ∧ e ∈ visible_refs s n principal.
Proof. unfold selected_refs. rewrite list_elem_of_In, filter_In, <-list_elem_of_In. tauto. Qed.

Lemma visible_distinct s n principal : Inv (view_of s) → keys_distinct (visible_refs s n principal).
Proof.
  intros HI a b Ha Hb Hk. apply visible_elem in Ha as (id & j & Hj & _ & ->). apply visible_elem in Hb as (id' & j' & Hj' & _ & ->).
  destruct (registered_job s id j HI Hj) as [_ Hid]. destruct (registered_job s id' j' HI Hj') as [_ Hid'].
  unfold je_key in Hk. cbn in Hk. injection Hk as _ Hk. assert (id = id') as <- by congruence.
  rewrite Hj in Hj'. by injection Hj' as <-.
Qed.

Lemma selected_distinct s n principal f cursor : Inv (view_of s) → keys_distinct (selected_refs s n principal f cursor).
Proof.
  intros HI a b Ha Hb. apply selected_elem in Ha as [_ Ha]. apply selected_elem in Hb as [_ Hb].
  by apply (visible_distinct s n principal HI).
Qed.

(** The iteration order does not matter. *)
Lemma visible_perm s n m principal : visible_refs s n principal ≡ₚ visible_refs s m principal.
Proof.
  unfold visible_refs. assert (order_keys n (elements (dom (jobs s))) ≡ₚ order_keys m (elements (dom (jobs s)))) as Hp
    by by rewrite !order_keys_perm. by apply Permutation_flat_map.
Qed.

Lemma selected_perm s n m principal f cursor : selected_refs s n principal f cursor ≡ₚ selected_refs s m principal f cursor.
Proof. apply bool_filter_perm, visible_perm. Qed.

(** The matching jobs after the cursor, in order. *)
Definition sorted_refs (s : Server) (n : nat) (principal : string) (f : ListJobsFilter) (cursor : string) : list jobEntry :=
  merge_sort entry_le (selected_refs s n principal f cursor).

Definition infos (s : Server) (l : list jobEntry) : list JobInfo := (λ e, snapshot s (je_job e)) <$> l.

Definition next_cursor (s : Server) (lim : nat) (l : list jobEntry) : string :=
  if (lim <? length l)%nat then match last (infos s (take lim l)) with Some info => encodeCursor info | None => "" end else "".

Lemma listJobs_page s n principal f limit cursor :
  Inv (view_of s) → (0 < limit <= max_page)%Z →
  let l := sorted_refs s n principal f cursor in
  listJobs s n principal f limit cursor = Some (infos s (take (Z.to_nat limit) l), next_cursor s (Z.to_nat limit) l).
Proof.
  intros HI Hl. cbv zeta. unfold listJobs.
  destruct (Z.leb_spec limit 0); [lia|]. destruct (Z.ltb_spec max_page limit); [lia|]. cbv zeta.
  rewrite (heap_page (Z.to_nat limit + 1)) by (lia || by apply selected_distinct).
  fold (sorted_refs s n principal f cursor). set (l := sorted_refs s n principal f cursor). set (lim := Z.to_nat limit).
  rewrite take_take, Nat.min_l by lia. fold (infos s (take lim l)). f_equal. f_equal. unfold next_cursor.
  assert ((lim <? length (take (lim + 1) l)) = (lim <? length l)) as ->; [|done].
  rewrite length_take. destruct (Nat.ltb_spec lim (length l)); [apply Nat.ltb_lt|apply Nat.ltb_ge]; lia.
Qed.

(** C36: The bounded page of [listJobs] (a max-heap of limit + 1 entries fed in
    map order) is the page a full sort would give: the first [limit] jobs of
    the principal that match the filter and lie after the cursor, in
    (created_at, id) order, with a cursor at the last of them exactly when more
    remain; the iteration order of the job map has no influence. *)
Theorem listJobs_is_sorted_prefix (o : Options) (t : Time) (s : Server) (n m : nat) (principal : string)
    (f : ListJobsFilter) (limit : Z) (cursor : string) :
  reachable o t s → (0 < limit <= max_page)%Z →
  let l := sorted_refs s m principal f cursor in
  listJobs s n principal f limit cursor = Some (infos s (take (Z.to_nat limit) l), next_cursor s (Z.to_nat limit) l).
Proof.
  intros Hr Hl. cbv zeta. pose proof (reachable_Inv _ _ _ Hr) as HI. rewrite listJobs_page by done. cbv zeta.
  assert (sorted_refs s n principal f cursor = sorted_refs s m principal f cursor) as ->; [|done].
  apply sorted_unique; [|apply StronglySorted_merge_sort; apply _|apply StronglySorted_merge_sort; apply _|].
  - intros a b Ha Hb. unfold sorted_refs in *. rewrite merge_sort_Permutation in Ha, Hb. by apply (selected_distinct s n principal f cursor HI).
  - unfold sorted_refs. rewrite !merge_sort_Permutation. apply selected_perm.
Qed.

(** ** Following the cursors *)

(** A client that asks for page after page until no cursor comes back; [n]
    numbers the map iterations of the server. *)
Fixpoint all_pages (fuel : nat) (s : Server) (n : nat) (principal : string) (f : ListJobsFilter) (limit : Z) (cursor : string) :
    option (list JobInfo) :=
  match fuel with
  | 0 => None
  | S fuel =>
      match listJobs s n principal f limit cursor with
      | None => None
      | Some (out, next) =>
          if bool_decide (next = "") then Some out
          else (λ rest, out ++ rest) <$> all_pages fuel s (S n) principal f limit next
      end
  end.

Definition before (a b : jobEntry) : Prop := jobEntryLess a b = true.

Lemma flat_map_NoDup (g : string → list jobEntry) (l : list string) :
  (∀ id, g id = [] ∨ ∃ e, g id = [e] ∧ je_id e = id) → NoDup l → NoDup (flat_map g l).
Proof.
  intros Hg. induction 1 as [|id l Hid Hl IH]; cbn; [constructor|].
  destruct (Hg id) as [->|(e & -> & He)]; [done|]. cbn. constructor; [|done].
  rewrite list_elem_of_In, in_flat_map. intros (id' & Hin & Hg'). apply list_elem_of_In in Hin.
  destruct (Hg id') as [Hnil|(e' & Heq & He')]; [by rewrite Hnil in Hg'|]. rewrite Heq in Hg'. destruct Hg' as [->|[]]. congruence.
Qed.

Lemma visible_NoDup s n principal : Inv (view_of s) → NoDup (visible_refs s n principal).
Proof.
  intros HI. apply flat_map_NoDup.
  - intros id. destruct (jobs s !! id) as [j|] eqn:Hj; [|by left]. cbv zeta. case_goal; [|by left]. right.
    eexists. split; [done|]. by destruct (registered_job s id j HI Hj).
  - rewrite order_keys_perm. apply NoDup_elements.
Qed.

(** The sorted list ascends strictly. *)
Lemma sorted_refs_strict s n principal f cursor :
  Inv (view_of s) → StronglySorted before (sorted_refs s n principal f cursor).
Proof.
  intros HI. unfold sorted_refs. set (l := selected_refs s n principal f cursor).
  assert (NoDup (merge_sort entry_le l)) as Hnd.
  { rewrite merge_sort_Permutation. apply NoDup_ListNoDup, List.NoDup_filter, NoDup_ListNoDup. by apply visible_NoDup. }
  assert (keys_distinct (merge_sort entry_le l)) as Hd.
  { intros a b Ha Hb. rewrite merge_sort_Permutation in Ha, Hb. by apply (selected_distinct s n principal f cursor HI). }
  assert (StronglySorted entry_le (merge_sort entry_le l)) as Hs by (apply StronglySorted_merge_sort; apply _).
  revert Hnd Hd. induction Hs as [|x k Hk IH Hx]; intros Hnd Hd; [constructor|]. apply NoDup_cons in Hnd as [Hnx Hnd].
  constructor; [apply IH; [done|]; intros a b Ha Hb; apply Hd; by right|].
  rewrite Forall_forall in Hx |- *. intros y Hy. specialize (Hx y Hy). unfold entry_le in Hx. unfold before.
  destruct (jobEntryLess_trichotomy x y) as [H|[H|H]]; [done| |congruence].
  destruct Hnx. rewrite (Hd x y); [done|by left|by right|done].
Qed.

Lemma filter_after l k e :
  StronglySorted before l → l !! k = Some e → List.filter (jobEntryLess e) l = drop (S k) l.
Proof.
  intros Hl. revert k. induction Hl as [|x l Hl IH Hx]; intros k Hk; [done|]. rewrite Forall_forall in Hx. cbn [List.filter].
  destruct k as [|k]; cbn in Hk.
  - injection Hk as ->. rewrite jobEntryLess_irrefl. cbn [drop]. clear IH Hl.
    induction l as [|y l IH]; [done|]. cbn. rewrite (Hx y) by (by left). f_equal. apply IH. intros z Hz. apply Hx. by right.
  - assert (jobEntryLess x e = true) as Hxe by (apply Hx; by eapply list_elem_of_lookup_2).
    apply entry_le_less in Hxe. unfold entry_le in Hxe. rewrite Hxe. cbn [drop]. by apply IH.
Qed.

(** The cursor after the first [k] jobs, and what it selects. *)
Definition cursor_at (s : Server) (l : list jobEntry) (k : nat) : string :=
  match l !! (k - 1), k with
  | Some e, S _ => encodeCursor (snapshot s (je_job e))
  | _, _ => ""
  end.

Definition times_ok (s : Server) : Prop := ∀ id j, jobs s !! id = Some j → in_i64 (j_createdAt (job s j)).

Lemma visible_in_range s n principal b : times_ok s → b ∈ visible_refs s n principal → in_i64 (je_createdAt b).
Proof. intros Ht Hb. apply visible_elem in Hb as (id & j & Hj & _ & ->). by apply (Ht id). Qed.

(** A cursor at [e] adds the test "after [e]" to the selection. *)
Lemma selected_split s f e v :
  (∀ b, b ∈ v → in_i64 (je_createdAt b)) →
  List.filter (jobEntryLess e) (List.filter (selected s f CursorUnset) v) =
  List.filter (selected s f (CursorAt (je_createdAt e) (je_id e))) v.
Proof.
  induction v as [|b v IH]; intros Hv; [done|]. cbn [List.filter].
  change (selected s f CursorUnset b) with (job_matches s f b).
  assert (selected s f (CursorAt (je_createdAt e) (je_id e)) b = jobEntryLess e b && job_matches s f b) as ->.
  { unfold selected. by rewrite afterCursor_less by (apply Hv; by left). }
  rewrite <-IH by (intros c Hc; apply Hv; by right). destruct (job_matches s f b); cbn [List.filter].
  - rewrite andb_true_r. by destruct (jobEntryLess e b).
  - by rewrite andb_false_r.
Qed.

Lemma next_cursor_at s l k lim :
  0 < lim → k + lim < length l → next_cursor s lim (drop k l) = cursor_at s l (k + lim).
Proof.
  intros Hl Hk. unfold next_cursor. rewrite (proj2 (Nat.ltb_lt _ _)) by (rewrite length_drop; lia).
  unfold infos. rewrite fmap_last, last_lookup, length_take, length_drop.
  replace (pred (lim `min` (length l - k))) with (lim - 1) by lia. rewrite lookup_take_lt, lookup_drop by lia.
  unfold cursor_at. replace (k + lim - 1) with (k + (lim - 1)) by lia.
  destruct (lookup_lt_is_Some_2 l (k + (lim - 1))) as [e ->]; [lia|]. cbn. destruct (k + lim) eqn:H; [lia|done].
Qed.

Lemma cursor_at_nonempty s l k : 0 < k → k ≤ length l → cursor_at s l k ≠ "".
Proof.
  intros H0 Hk. unfold cursor_at. destruct (lookup_lt_is_Some_2 l (k - 1)) as [e ->]; [lia|]. destruct k; [lia|].
  unfold encodeCursor. by destruct (FormatInt _).
Qed.

Lemma sorted_refs_cursor s n m principal f k :
  Inv (view_of s) → times_ok s →
  let l := sorted_refs s m principal f "" in
  k ≤ length l → sorted_refs s n principal f (cursor_at s l k) = drop k l.
Proof.
  intros HI Ht. cbv zeta. set (l := sorted_refs s m principal f ""). intros Hk.
  pose proof (sorted_refs_strict s m principal f "" HI) as Hs. fold l in Hs.
  assert (∀ c, sorted_refs s n principal f c = sorted_refs s m principal f c) as Hnm.
  { intros c. apply sorted_unique; try (apply StronglySorted_merge_sort; apply _).
    - intros a b Ha Hb. unfold sorted_refs in *. rewrite merge_sort_Permutation in Ha, Hb. by apply (selected_distinct s n principal f c HI).
    - unfold sorted_refs. rewrite !merge_sort_Permutation. apply selected_perm. }
  rewrite Hnm. destruct k as [|k]; [unfold cursor_at; by destruct (l !! _)|].
  destruct (lookup_lt_is_Some_2 l k Hk) as [e He]. unfold cursor_at. replace (S k - 1) with k by lia. rewrite He.
  assert (e ∈ selected_refs s m principal f "") as Hin.
  { apply list_elem_of_lookup_2 in He. unfold l, sorted_refs in He. by rewrite merge_sort_Permutation in He. }
  apply selected_elem in Hin as [_ Hvis]. apply visible_elem in Hvis as (id & j & Hj & Hp & Heq).
  set (c := encodeCursor (snapshot s (je_job e))).
  assert (decodeCursor c = CursorAt (je_createdAt e) (je_id e)) as Hc.
  { unfold c. rewrite decode_encodeCursor; rewrite Heq; [done|]. by apply (Ht id). }
  rewrite <-(filter_after l k e Hs He). apply sorted_unique.
  - intros a b Ha Hb. unfold sorted_refs in *. rewrite merge_sort_Permutation in Ha, Hb. by apply (selected_distinct s m principal f c HI).
  - apply StronglySorted_merge_sort; apply _.
  - clear -Hs. induction Hs as [|x l Hl IH Hx]; [constructor|]. cbn. destruct (jobEntryLess e x); [|done]. constructor; [done|].
    rewrite Forall_forall in Hx |- *. intros y Hy. apply list_elem_of_In, filter_In in Hy as [Hy _]. apply entry_le_less, Hx. by apply list_elem_of_In.
  - unfold l, sorted_refs. rewrite merge_sort_Permutation.
    rewrite (bool_filter_perm _ _ _ (merge_sort_Permutation entry_le _)). unfold selected_refs. rewrite Hc.
    change (decodeCursor "") with CursorUnset. by rewrite (selected_split s f e) by (intros b Hb; by eapply visible_in_range).
Qed.


End pagination.

(** ** Witnesses *)

Definition no_filter : ListJobsFilter := mkFilter [] "" None None.

(** Three jobs of alice, submitted a second apart. *)
Definition demo_listing : Server :=
  demo_run 0 (demo_submitted ++ [OpAdvance second; OpRead 6 (submit_env "echo" "" ∅);
                                 OpAdvance second; OpRead 6 (submit_env "echo" "" ∅)]).

Lemma listJobs_is_sorted_prefix_witness :
  ∃ page, listJobs demo_listing 0 "alice" no_filter 2 "" = Some page ∧ length page.1 = 2 ∧ page.2 ≠ "".
Proof.
  eexists. split.
  - refine (listJobs_is_sorted_prefix (demo_opts 0) 1000 demo_listing 0 0 "alice" no_filter 2 "" (demo_reachable _ _) _).
    split; [reflexivity|vm_compute; discriminate].
  - cbn [fst snd]. split; [vm_compute; reflexivity|vm_compute; discriminate].
Defined.

Definition listing_times : list Time :=
  Eval vm_compute in ((λ x : string * nat, j_createdAt (job demo_listing x.2)) <$> map_to_list (jobs demo_listing)).

Lemma listing_times_eq : (λ x : string * nat, j_createdAt (job demo_listing x.2)) <$> map_to_list (jobs demo_listing) = listing_times.
Proof. vm_compute. reflexivity. Qed.

Lemma demo_listing_times : times_ok demo_listing.
Proof.
  intros id j Hj. apply elem_of_map_to_list in Hj.
  apply (list_elem_of_fmap_2 (λ x : string * nat, j_createdAt (job demo_listing x.2))) in Hj. rewrite listing_times_eq in Hj.
  assert (Forall in_i64 listing_times) as Hall by (unfold listing_times, in_i64; repeat constructor; lia).
  rewrite Forall_forall in Hall. exact (Hall _ Hj).
Qed.


Lemma crashed_stuck {RT : Runtime} ops s : crashed s = true → run ops s = s.
Proof.
  intros Hc. induction ops as [|x ops IH]; [done|]. unfold run in *. cbn [fold_left].
  assert (step s x = s) as ->; [|done]. unfold step. by rewrite Hc.
Qed.

(** One request can end the process: a session.list_jobs with a limit
    above what [make] accepts panics, and no frame between the read loop and
    the goroutine's root recovers; here a client that negotiated list_jobs
    asks for 2^62 jobs and the server crashes, after which no operation of
    any session runs. *)
Theorem list_jobs_limit_crashes_server :
  let s := demo_run 0 (demo_submitted ++ [OpRead 6 (client_env TypeSessionListJobs (PListJobs (mkListJobs no_filter (2 ^ 62) "")))]) in
  crashed s = true ∧ ∀ ops, run ops s = s.
Proof.
  cbv zeta. assert (crashed (demo_run 0 (demo_submitted ++
    [OpRead 6 (client_env TypeSessionListJobs (PListJobs (mkListJobs no_filter (2 ^ 62) "")))])) = true) as Hc by (vm_compute; reflexivity).
  split; [exact Hc|]. intros ops. by apply crashed_stuck.
Qed.
