(* ===== verification/Findings.v ===== *)
(** * Runs that show defects

    Concrete runs of the runtime, evaluated, in which the code does not do
    what its comments and documents say. *)

From S2P Require Import Prelude GoStrings Errors Features Float64 Lease Canonical LeaseState Messages EventLog IdStore Agents ServerState Delivery Stream Job ListJobs Session Runtime Scenarios.
From Stdlib Require Import ZArith Lia.

(** What a session has queued, as (type, sequence number). *)
Definition queued (s : Server) (p : nat) : list (string * Z) :=
  omap (λ o, match o with
             | OEnqueue q e => if bool_decide (q = p) then Some (env_Type e, env_EventSeq e) else None
             | _ => None
             end) (trace s).

Definition persisted (s : Server) (sid : string) : list Z :=
  omap (λ o, match o with
             | OPersist e => if bool_decide (en_SessionID e = sid) then Some (en_EventSeq e) else None
             | _ => None
             end) (trace s).

Definition provisioner_calls (s : Server) : list bool :=
  omap (λ o, match o with OIssue _ => Some true | ORevoke _ => Some false | _ => None end) (trace s).

(** Alice submits under a key with an infinite budget, twice. *)
Definition inf_lease : Lease := <["cost.budget" := ["USD:Inf"]]> ∅.
Definition poisoned : Server :=
  run ([OpRegisterAgent "echo" (Some 0)] ++ connect 1 6 "alice" None ++
       [OpRead 6 (submit_env "echo" "k" inf_lease); OpRead 6 (submit_env "echo" "k" inf_lease)]) (New demo_opts_pv 1000).

(** A submission whose job.accepted cannot be marshalled (the budget parser
    accepts Inf, which JSON does not) is dropped without any reply, its issued
    credential is never revoked, and its idempotency key stays taken: the
    retry is told that the submit is still in progress. *)
Theorem unmarshallable_accept_poisons_key :
  provisioner_calls poisoned = [true] ∧ jobs poisoned = ∅ ∧
  queued poisoned 6 = [(TypeSessionError, 0%Z)] ∧
  match trace poisoned with
  | [OIssue _; OSend _ e; OEnqueue _ _] =>
      match env_Payload e with
      | PSessionError m => se_Code m = CodeInternalError ∧ se_Message m = "idempotent submit still in progress"
      | _ => False
      end
  | _ => False
  end.
Proof. vm_compute. split_and!; reflexivity. Qed.

(** The session drops after three events of which the log kept two, and the
    client resumes with last_event_seq 0. *)
Definition demo_token : string := s_resumeToken (sess (demo_run 2 demo_worked) 6).
Definition truncated : Server :=
  demo_run 2 (demo_worked ++ drop_session 6 ++ connect 2 23 "alice" (Some (mkResumeRequest demo_sid demo_token 0))).

(** The gap check is skipped when last_event_seq is 0: the resume is
    accepted although the log no longer covers the first event, and the replay
    starts at the second. *)
Theorem resume_from_zero_skips_gap_check :
  persisted truncated demo_sid = [1; 2; 3]%Z ∧ s_pc (sess truncated 23) = SReading ∧
  queued truncated 23 = [(TypeJobEvent, 2%Z); (TypeJobEvent, 3%Z)].
Proof. vm_compute. split_and!; reflexivity. Qed.

(** The job emits once more between [setCurrentSession] and
    [replayBuffered] of the resumed session. *)
Definition doubled : Server :=
  demo_run 0 (demo_worked ++ drop_session 6 ++
    [OpAccept 2 (Ok (hello_env "alice" (Some (mkResumeRequest demo_sid demo_token 2)))); OpRegister 23; OpCurrent 23;
     demo_log "d"; OpReplay 23]).

(** An event emitted while a resumed session is already the live session of
    its id but has not replayed yet is delivered twice, once before and once
    after the older events. *)
Theorem replay_races_with_live_events :
  queued doubled 23 = [(TypeJobEvent, 4%Z); (TypeJobEvent, 3%Z); (TypeJobEvent, 4%Z)].
Proof. vm_compute. reflexivity. Qed.

(** A nil logger becomes one that discards, not the default logger of slog. *)
Theorem nil_logger_discards :
  o_Logger (demo_opts 2) = None ∧ o_Logger (opts (New (demo_opts 2) 1000)) = Some SlogDiscard.
Proof. vm_compute. split; reflexivity. Qed.
