(* ===== verification/Client.v ===== *)
(** * The client

    Models the package client: the connection handshake, the read loop with
    its gap detection, the dispatcher and its error routing, job handles,
    subscriptions, the inventory request, automatic acknowledgement and
    [Close].

    The client runs several goroutines.  A state [Client] holds the shared
    struct, the handles, subscriptions and pending inventory calls as cells of
    a heap (a pointer is a number), the buffered channels as bounded queues,
    and where the read loop, the ack ticker and [Close] stand.  An operation
    of [client_op] is one step of one goroutine: a call up to its [select], the
    case the [select] takes, one envelope of the read loop, the send of one
    event to one consumer, a read of a consumer.  [client_step] is [None] where
    the step is blocked.  The fields [jh_read], [jh_since], [su_read] and
    [c_recv] record what was observed; no code reads them.

    What the environment decides is an argument of the step: the identifiers
    drawn, the outcome of a transport write, the case a [select] takes among
    the ready ones, the map iteration, the error of a caller's context.
    [c_recv] holds the envelopes the read loop passed to the dispatcher. *)

From S2P Require Import Prelude GoStrings Errors Features Lease Messages.
From Stdlib Require Import ZArith Lia.

(** ** Options (client/options.go) *)

Definition SDKVersion : string := "1.1.0".

Record ClientOptions := mkClientOptions {
  co_ClientName : string;
  co_ClientVersion : string;
  co_Token : string;
  co_Features : list string;
  co_AutoAckWindow : Z;
  co_MaxAssembledBytes : Z;
  co_AutoAckInterval : Duration;
  co_Resume : option ResumeRequest;
  co_DetectSeqGaps : bool;
  co_EventDeliveryTimeout : Duration
}.

#[export] Instance eta_ClientOptions : Eta ClientOptions := λ o,
  mkClientOptions (co_ClientName o) (co_ClientVersion o) (co_Token o) (co_Features o) (co_AutoAckWindow o)
    (co_MaxAssembledBytes o) (co_AutoAckInterval o) (co_Resume o) (co_DetectSeqGaps o)
    (co_EventDeliveryTimeout o).

(** The default of the logger is outside the model. *)
Definition client_withDefaults (o : ClientOptions) : ClientOptions :=
  let o := if bool_decide (co_ClientName o = "") then o <| co_ClientName := "arcp-go-client" |> else o in
  let o := if bool_decide (co_ClientVersion o = "") then o <| co_ClientVersion := SDKVersion |> else o in
  let o := if (length (co_Features o) =? 0)%nat then o <| co_Features := Features |> else o in
  let o := if (co_AutoAckInterval o =? 0)%Z then o <| co_AutoAckInterval := (250 * millisecond)%Z |> else o in
  if (co_MaxAssembledBytes o =? 0)%Z then o <| co_MaxAssembledBytes := (64 * 2 ^ 20)%Z |> else o.

(** ** Handles, subscriptions and inventory calls *)

(** [jh_acceptedCh] is the one-place channel [Submit] waits on; [jh_events] and
    [jh_chunks] are the buffers of [eventsCh] and [chunksCh], closed together
    ([jh_closed]); [jh_done] says that [doneCh] is closed.  [jh_panic] is set
    where the code would send on, or close, a closed channel. *)
Record JobHandle := mkHandle {
  jh_id : string;
  jh_agent : string;
  jh_submitID : string;
  jh_accepted : option JobAccepted;
  jh_acceptedCh : option JobAccepted;
  jh_result : option JobResult;
  jh_err : option error;
  jh_done : bool;
  jh_events : list JobEvent;
  jh_chunks : list ResultChunkBody;
  jh_closed : bool;
  jh_deliverWG : nat;
  jh_returned : option (option error);
  jh_read : list JobEvent;
  jh_chunksRead : list ResultChunkBody;
  jh_since : nat;
  jh_panic : bool
}.

#[export] Instance eta_JobHandle : Eta JobHandle := λ h,
  mkHandle (jh_id h) (jh_agent h) (jh_submitID h) (jh_accepted h) (jh_acceptedCh h) (jh_result h) (jh_err h)
    (jh_done h) (jh_events h) (jh_chunks h) (jh_closed h) (jh_deliverWG h) (jh_returned h) (jh_read h)
    (jh_chunksRead h) (jh_since h) (jh_panic h).

Definition new_handle (agent submitID : string) : JobHandle :=
  mkHandle "" agent submitID None None None None false [] [] false 0 None [] [] 0 false.

(** The accessors of a handle. *)
Definition JobHandle_ID (h : JobHandle) : string := jh_id h.
Definition JobHandle_Agent (h : JobHandle) : string := jh_agent h.
Definition JobHandle_Accepted (h : JobHandle) : option JobAccepted := jh_accepted h.
Definition JobHandle_Err (h : JobHandle) : option error := jh_err h.
Definition JobHandle_Result (h : JobHandle) : option JobResult := jh_result h.
Definition JobHandle_isDone (h : JobHandle) : bool := jh_done h.

Record Subscription := mkSubscription {
  su_jobID : string;
  su_key : string;
  su_subscribeID : string;
  su_events : list JobEvent;
  su_done : bool;
  su_closed : bool;
  su_err : option error;
  su_ack : option JobSubscribed;
  su_ackCh : option JobSubscribed;
  su_closeOnce : bool;
  su_pushWG : nat;
  su_returned : option (option error);
  su_read : list JobEvent;
  su_panic : bool
}.

#[export] Instance eta_Subscription : Eta Subscription := λ s,
  mkSubscription (su_jobID s) (su_key s) (su_subscribeID s) (su_events s) (su_done s) (su_closed s) (su_err s)
    (su_ack s) (su_ackCh s) (su_closeOnce s) (su_pushWG s) (su_returned s) (su_read s) (su_panic s).

Definition new_sub (jobID key id : string) : Subscription :=
  mkSubscription jobID key id [] false false None None None false 0 None [] false.

(** The accessors of a subscription; those of the acknowledgement give the zero
    value before it. *)
Definition sub_Err (s : Subscription) : option error := su_err s.
Definition sub_isClosed (s : Subscription) : bool := su_done s.
Definition CurrentStatus (s : Subscription) : string := from_option sd_CurrentStatus "" (su_ack s).
Definition sub_Agent (s : Subscription) : string := from_option sd_Agent "" (su_ack s).
Definition sub_Lease (s : Subscription) : Lease := from_option sd_Lease ∅ (su_ack s).
Definition sub_ParentJobID (s : Subscription) : string := from_option sd_ParentJobID "" (su_ack s).
Definition sub_TraceID (s : Subscription) : string := from_option sd_TraceID "" (su_ack s).
Definition SubscribedFrom (s : Subscription) : Z := from_option sd_SubscribedFrom 0%Z (su_ack s).
Definition Replayed (s : Subscription) : bool := from_option sd_Replayed false (su_ack s).

(** [listResult]: the response or the error. *)
Abbreviation listResult := (res SessionJobs).

Record JobList := mkJobList { jl_Jobs : list JobInfo; jl_NextCursor : string }.

(** A call of [ListJobs]: the id of its request, its one-place channel and
    what it returned. *)
Record ListCall := mkListCall {
  li_id : string;
  li_ch : option listResult;
  li_returned : option (res JobList)
}.

#[export] Instance eta_ListCall : Eta ListCall := λ l, mkListCall (li_id l) (li_ch l) (li_returned l).

(** ** The client *)

(** Where the read loop stands: in [Recv]; in the [select] of [deliver], of
    [deliverChunk] or of [Subscription.push], with the subscriptions the event
    still has to go to; in the [Wait] of a [close] called by [push]; before the
    compare-and-swap of [maybeAck]; returned. *)
Inductive readLoop_pc :=
| RRecv
| RDeliver (h : nat) (ev : JobEvent) (subs : list nat)
| RChunk (h : nat) (body : ResultChunkBody) (ev : JobEvent) (subs : list nat)
| RPush (s : nat) (ev : JobEvent) (subs : list nat)
| RCloseWait (s : nat) (ev : JobEvent) (subs : list nat)
| RAck (current last : Z)
| RExited.

Inductive ticker_pc := TOff | TIdle | TLoaded (current last : Z).
Inductive close_pc := CloseNot | CloseWaiting | CloseDone.

Record Client := mkClient {
  c_opts : ClientOptions;
  c_sessionID : string;
  c_welcome : SessionWelcome;
  c_features : list string;
  c_ctxDone : bool;
  c_submitMu : option nat;
  c_handles : gmap string nat;
  c_pending : list nat;
  c_pendingByID : gmap string nat;
  c_subscribers : gmap string nat;
  c_listReqs : gmap string nat;
  c_highSeq : Z;
  c_lastAck : Z;
  c_jobs : gmap nat JobHandle;
  c_subs : gmap nat Subscription;
  c_lists : gmap nat ListCall;
  c_rl : readLoop_pc;
  c_tick : ticker_pc;
  c_tickStop : bool;
  c_ackInflight : list Z;
  c_failing : list (nat * error);
  c_close : close_pc;
  c_transportClosed : bool;
  c_sent : list Envelope;
  c_recv : list Envelope
}.

#[export] Instance eta_Client : Eta Client := λ c,
  mkClient (c_opts c) (c_sessionID c) (c_welcome c) (c_features c) (c_ctxDone c) (c_submitMu c) (c_handles c)
    (c_pending c) (c_pendingByID c) (c_subscribers c) (c_listReqs c) (c_highSeq c) (c_lastAck c) (c_jobs c)
    (c_subs c) (c_lists c) (c_rl c) (c_tick c) (c_tickStop c) (c_ackInflight c) (c_failing c)
    (c_close c) (c_transportClosed c) (c_sent c) (c_recv c).

(** What a failed decode leaves in the zero value it was given, by the bytes:
    nothing for a syntax error, some fields for a type mismatch. *)
Class RawDecode := {
  raw_session_error : string → SessionErrorMsg;
  raw_ping : string → string;
  raw_job_result : string → JobResult;
  raw_job_error : string → JobErrorMsg
}.

Definition zero_session_error : SessionErrorMsg := mkSessionError "" "" false ∅ "" "".
Definition zero_accepted : JobAccepted := mkAccepted "" ∅ None ∅ [] zero_time "" "" "".
Definition zero_result : JobResult := mkResult "" "" "" 0 "".
Definition zero_job_error : JobErrorMsg := mkJobError "" "" "" false ∅.

(** [DecodePayload] at the types the client receives; the first four are the
    calls that drop the error. *)
Section decode.
Context {RD : RawDecode}.

Definition get_session_error (p : payload) : SessionErrorMsg :=
  match p with PSessionError e => e | PRaw b => raw_session_error b | _ => zero_session_error end.
Definition get_ping (p : payload) : string :=
  match p with PPing n _ => n | PRaw b => raw_ping b | _ => "" end.
Definition get_job_result (p : payload) : JobResult :=
  match p with PResult r => r | PRaw b => raw_job_result b | _ => zero_result end.
Definition get_job_error (p : payload) : JobErrorMsg :=
  match p with PJobError e => e | PRaw b => raw_job_error b | _ => zero_job_error end.

End decode.

Definition decode_jobs (p : payload) : res SessionJobs :=
  match p with PNil => Ok (mkJobs "" [] "") | PJobs j => Ok j | _ => Err err_decode end.
Definition decode_accepted (p : payload) : res JobAccepted :=
  match p with PNil => Ok zero_accepted | PAccepted a => Ok a | _ => Err err_decode end.
Definition decode_subscribed (p : payload) : res JobSubscribed :=
  match p with PNil => Ok (mkSubscribed "" "" "" ∅ "" "" 0 false) | PSubscribed s => Ok s | _ => Err err_decode end.
Definition decode_welcome (p : payload) : res SessionWelcome :=
  match p with PNil => Ok (mkWelcome "" "" "" 0 0 [] [] []) | PWelcome w => Ok w | _ => Err err_decode end.

(** ** State access *)

(** The pointer of a new cell. *)
Definition new_ref {A} (m : gmap nat A) : nat := fresh (dom m).

Lemma new_ref_None {A} (m : gmap nat A) : m !! new_ref m = None.
Proof. apply not_elem_of_dom, is_fresh. Qed.

Definition upd_handle (h : nat) (f : JobHandle → JobHandle) (c : Client) : Client :=
  c <| c_jobs := alter f h (c_jobs c) |>.
Definition upd_sub (s : nat) (f : Subscription → Subscription) (c : Client) : Client :=
  c <| c_subs := alter f s (c_subs c) |>.
Definition upd_list (l : nat) (f : ListCall → ListCall) (c : Client) : Client :=
  c <| c_lists := alter f l (c_lists c) |>.

Definition client_HasFeature (c : Client) (name : string) : bool := HasFeature (c_features c) name.

(** A write on the transport, and its outcome. *)
Definition transport_send (env : Envelope) (serr : option error) (c : Client) : Client :=
  match serr with None => c <| c_sent := c_sent c ++ [env] |> | Some _ => c end.

(** An envelope of the session; the payloads the client sends marshal. *)
Definition session_env (c : Client) (id typ : string) (p : payload) : Envelope :=
  mkEnvelope ProtocolVersion id typ (c_sessionID c) "" "" 0 p.

(** ** Job handles (client/handle.go) *)

Definition close_values (h : JobHandle) : JobHandle :=
  if jh_closed h then h <| jh_panic := true |> else h <| jh_closed := true |>.

(** [finish] up to its [deliverWG.Wait]: where a send is in flight the value
    channels are closed by the step [OHandleWake]. *)
Definition finish_handle (r : option JobResult) (err : option error) (h : JobHandle) : JobHandle :=
  if bool_decide (is_Some (jh_result h)) || bool_decide (is_Some (jh_err h)) then h
  else
    let h := h <| jh_result := r |> <| jh_err := err |> in
    let h := if jh_done h then h <| jh_panic := true |> else h <| jh_done := true |> in
    if (jh_deliverWG h =? 0)%nat then close_values h else h.

Definition fail_handle (err : error) : JobHandle → JobHandle := finish_handle None (Some err).

Definition accept_handle (acc : JobAccepted) (h : JobHandle) : JobHandle :=
  let h := match jh_accepted h with None => h <| jh_accepted := Some acc |> | Some _ => h end in
  match jh_acceptedCh h with None => h <| jh_acceptedCh := Some acc |> | Some _ => h end.

(** [JobHandle.Wait] once [doneCh] is closed. *)
Definition Wait (h : JobHandle) : option (option JobResult * option error) :=
  if jh_done h then Some (jh_result h, jh_err h) else None.

(** [JobHandle.Cancel]: the envelope it writes. *)
Definition Cancel (c : Client) (h : JobHandle) (reason id : string) : res Envelope :=
  if bool_decide (jh_id h = "") then
    Err (arcp_err ErrInvalidRequest "cancel before job.accepted: handle has no job id")
  else Ok (set_job (session_env c id TypeJobCancel (PCancel reason)) (jh_id h)).

Definition eventsCap : nat := 64.
Definition chunksCap : nat := 64.
Definition subEventsCap : nat := 128.

(** ** Subscriptions (client/subscription.go) *)

Definition close_events (s : Subscription) : Subscription :=
  if su_closed s then s <| su_panic := true |> else s <| su_closed := true |>.

(** [Subscription.close] up to its [pushWG.Wait]; the step [OSubWake] closes
    the channel where a push is in flight. *)
Definition close_sub (err : option error) (s : Subscription) : Subscription :=
  if bool_decide (is_Some (su_err s)) || su_done s then s
  else
    let s := s <| su_err := err |> <| su_done := true |> in
    if (su_pushWG s =? 0)%nat then close_events s else s.

Definition acknowledged (p : JobSubscribed) (s : Subscription) : Subscription :=
  match su_ackCh s with None => s <| su_ackCh := Some p |> | Some _ => s end.

Definition client_removeSubscriber (key : string) (c : Client) : Client :=
  if bool_decide (key = "") then c else c <| c_subscribers := delete key (c_subscribers c) |>.

(** ** Auto-ack *)

Definition maybeAck_due (c : Client) : bool :=
  client_HasFeature c "ack" && negb (co_AutoAckWindow (c_opts c) =? 0)%Z &&
  negb (wrap_u64 (c_highSeq c - c_lastAck c) <? co_AutoAckWindow (c_opts c))%Z.

(** [maybeAck] up to its compare-and-swap, and the return to [Recv]. *)
Definition end_dispatch (c : Client) : Client :=
  if maybeAck_due c then c <| c_rl := RAck (c_highSeq c) (c_lastAck c) |>
  else c <| c_rl := RRecv |>.

(** The compare-and-swap of [maybeAck]; the ack is sent by a goroutine. *)
Definition maybeAck_cas (current last : Z) (c : Client) : Client :=
  let c := c <| c_rl := RRecv |> in
  if (c_lastAck c =? last)%Z then
    c <| c_lastAck := current |> <| c_ackInflight := c_ackInflight c ++ [current] |>
  else c.

Definition sendAck (seq : Z) (id : string) (serr : option error) (c : Client) : Client :=
  transport_send (session_env c id TypeSessionAck (PAck (Z.to_N seq))) serr c.

(** ** Failure of the session, error routing *)

Definition fail_all (err : error) (l : list nat) (c : Client) : Client :=
  foldr (λ h, upd_handle h (fail_handle err)) c l.
Definition close_all (err : option error) (l : list nat) (c : Client) : Client :=
  foldr (λ s, upd_sub s (close_sub err)) c l.

(** A non-blocking send on the one-place channel of a list call. *)
Definition put_list (r : listResult) (l : ListCall) : ListCall :=
  match li_ch l with None => l <| li_ch := Some r |> | Some _ => l end.

(** Each cell is touched on its own: the order of the map iterations does not
    matter. *)
Definition failAll (err : error) (c : Client) : Client :=
  let c := fail_all err (map_to_list (c_handles c)).*2 c in
  let c := fail_all err (c_pending c) c in
  let c := c <| c_pending := [] |> <| c_pendingByID := ∅ |> in
  let c := close_all (Some err) (map_to_list (c_subscribers c)).*2 c in
  let c := foldr (λ l, upd_list l (put_list (Err err))) c (map_to_list (c_listReqs c)).*2 in
  c <| c_listReqs := ∅ |>.

(** Removal of the first occurrence from the pending queue. *)
Fixpoint remove_handle (h : nat) (l : list nat) : list nat :=
  match l with
  | [] => []
  | x :: l => if (x =? h)%nat then l else x :: remove_handle h l
  end.

Definition removePending (h : nat) (c : Client) : Client :=
  let c := c <| c_pending := remove_handle h (c_pending c) |> in
  match c_jobs c !! h with
  | Some x =>
      if bool_decide (jh_submitID x = "") then c
      else c <| c_pendingByID := delete (jh_submitID x) (c_pendingByID c) |>
  | None => c
  end.

Section order.
Context {MO : MapOrder}.

(** The keys of [c.subscribers] in the order of the [n]-th iteration, with
    their subscriptions. *)
Definition range_subscribers (n : nat) (c : Client) : list (string * nat * Subscription) :=
  omap (λ k, s ← c_subscribers c !! k; x ← c_subs c !! s; Some (k, s, x))
       (order_keys n (elements (dom (c_subscribers c)))).

Definition subscribersFor (n : nat) (c : Client) (jobID : string) : list nat :=
  omap (λ '(_, s, x), if bool_decide (su_jobID x = jobID) then Some s else None) (range_subscribers n c).

Definition find_subscribeID (n : nat) (c : Client) (requestID : string) : option (string * nat) :=
  head (omap (λ '(k, s, x), if bool_decide (su_subscribeID x = requestID) then Some (k, s) else None)
             (range_subscribers n c)).

(** The fallback of [routeError] to the handle of the job. *)
Definition route_job (jobID : string) (e : error) (c : Client) : bool * Client :=
  if bool_decide (jobID = "") then (false, c)
  else match c_handles c !! jobID with
       | Some h => (true, upd_handle h (fail_handle e) c)
       | None => (false, c)
       end.

Definition routeError (n : nat) (requestID jobID : string) (e : error) (c : Client) : bool * Client :=
  if bool_decide (requestID = "") then route_job jobID e c
  else match c_pendingByID c !! requestID with
  | Some h =>
      (true, upd_handle h (fail_handle e)
               (c <| c_pendingByID := delete requestID (c_pendingByID c) |>
                  <| c_pending := remove_handle h (c_pending c) |>))
  | None =>
  match c_listReqs c !! requestID with
  | Some l => (true, upd_list l (put_list (Err e)) (c <| c_listReqs := delete requestID (c_listReqs c) |>))
  | None =>
  match find_subscribeID n c requestID with
  | Some (key, s) =>
      (true, upd_sub s (close_sub (Some e)) (c <| c_subscribers := delete key (c_subscribers c) |>))
  | None => route_job jobID e c
  end end end.

Definition isSessionFatal (code : ErrorCode) : bool :=
  bool_decide (code = CodeUnauthenticated) || bool_decide (code = CodeHeartbeatLost).

End order.

(** ** The dispatcher (client/client.go) *)

Section dispatch.
Context {MO : MapOrder} {RD : RawDecode}.

Definition arcp_of_session_error (e : SessionErrorMsg) : error :=
  EArcp (mkError (se_Code e) (se_Message e) (se_Retryable e) (se_Details e) None).
Definition arcp_of_job_error (e : JobErrorMsg) : error :=
  EArcp (mkError (je_Code e) (je_Message e) (je_Retryable e) (je_Details e) None).

Definition client_handlePing (env : Envelope) (id : string) (serr : option error) (c : Client) : Client :=
  transport_send (session_env c id TypeSessionPong (PPong (get_ping (env_Payload env)) zero_time)) serr c.

Definition handleSessionError (n : nat) (env : Envelope) (c : Client) : Client :=
  let serr := get_session_error (env_Payload env) in
  let e := arcp_of_session_error serr in
  let jobID := if bool_decide (se_JobID serr = "") then env_JobID env else se_JobID serr in
  match routeError n (se_RequestID serr) jobID e c with
  | (true, c) => c
  | (false, c) => if isSessionFatal (se_Code serr) then failAll e c else c
  end.

Definition handleSessionJobs (env : Envelope) (c : Client) : Client :=
  match decode_jobs (env_Payload env) with
  | Err _ => c
  | Ok jobs =>
      match c_listReqs c !! sj_RequestID jobs with
      | Some l =>
          upd_list l (put_list (Ok jobs)) (c <| c_listReqs := delete (sj_RequestID jobs) (c_listReqs c) |>)
      | None => c
      end
  end.

(** The submit id of a handle is dropped from [pendingByID] when non-empty. *)
Definition drop_submitID (h : nat) (c : Client) : Client :=
  match c_jobs c !! h with
  | Some x =>
      if bool_decide (jh_submitID x = "") then c
      else c <| c_pendingByID := delete (jh_submitID x) (c_pendingByID c) |>
  | None => c
  end.

Definition handleJobAccepted (env : Envelope) (c : Client) : Client :=
  match decode_accepted (env_Payload env) with
  | Err _ => c
  | Ok acc =>
      if bool_decide (ja_JobID acc = "") then
        match c_pending c with
        | h :: rest =>
            upd_handle h (fail_handle (arcp_err ErrInvalidRequest "job.accepted carried an empty job_id"))
              (drop_submitID h (c <| c_pending := rest |>))
        | [] => c
        end
      else match c_handles c !! ja_JobID acc with
      | Some h => upd_handle h (accept_handle acc) c
      | None =>
          match c_pending c with
          | h :: rest =>
              upd_handle h (λ x, accept_handle acc (x <| jh_since := length (c_recv c) |>))
                (drop_submitID h
                   (c <| c_pending := rest |> <| c_handles := <[ja_JobID acc := h]> (c_handles c) |>))
          | [] => c
          end
      end
  end.

(** The remaining pushes of an event.  [push] registers with the barrier and
    returns at once on a closed subscription. *)
Fixpoint push_next (ev : JobEvent) (subs : list nat) (c : Client) : Client :=
  match subs with
  | [] => end_dispatch c
  | s :: subs =>
      match c_subs c !! s with
      | Some x =>
          if su_done x then push_next ev subs c
          else (upd_sub s (λ x, x <| su_pushWG := S (su_pushWG x) |>) c) <| c_rl := RPush s ev subs |>
      | None => push_next ev subs c
      end
  end.

Definition handleJobEvent (n : nat) (env : Envelope) (c : Client) : Client :=
  match decode_event (env_Payload env) with
  | Err _ => end_dispatch c
  | Ok ev =>
      let subs := subscribersFor n c (env_JobID env) in
      match c_handles c !! env_JobID env with
      | Some h =>
          match c_jobs c !! h with
          | Some x =>
              if jh_done x then push_next ev subs c
              else (upd_handle h (λ x, x <| jh_deliverWG := S (jh_deliverWG x) |>) c)
                     <| c_rl := RDeliver h ev subs |>
          | None => push_next ev subs c
          end
      | None => push_next ev subs c
      end
  end.

Definition handleJobTerminal (n : nat) (env : Envelope) (c : Client) : Client :=
  let subs := subscribersFor n c (env_JobID env) in
  let '(r, e) :=
    if bool_decide (env_Type env = TypeJobResult) then (Some (get_job_result (env_Payload env)), None)
    else (None, Some (arcp_of_job_error (get_job_error (env_Payload env)))) in
  let c := match c_handles c !! env_JobID env with
           | Some h => upd_handle h (finish_handle r e) c
           | None => c
           end in
  close_all e subs c.

Definition handleJobSubscribed (n : nat) (env : Envelope) (c : Client) : Client :=
  match decode_subscribed (env_Payload env) with
  | Err _ => c
  | Ok sub => foldr (λ s, upd_sub s (acknowledged sub)) c (subscribersFor n c (sd_JobID sub))
  end.

Definition client_dispatch (n : nat) (env : Envelope) (id : string) (serr : option error) (c : Client) : Client :=
  let t := env_Type env in
  if bool_decide (t = TypeSessionPing) then end_dispatch (client_handlePing env id serr c)
  else if bool_decide (t = TypeSessionError) then end_dispatch (handleSessionError n env c)
  else if bool_decide (t = TypeSessionJobs) then end_dispatch (handleSessionJobs env c)
  else if bool_decide (t = TypeJobAccepted) then end_dispatch (handleJobAccepted env c)
  else if bool_decide (t = TypeJobEvent) then handleJobEvent n env c
  else if bool_decide (t = TypeJobResult) || bool_decide (t = TypeJobError) then
    end_dispatch (handleJobTerminal n env c)
  else if bool_decide (t = TypeJobSubscribed) then end_dispatch (handleJobSubscribed n env c)
  else end_dispatch c.

Definition err_gap : error :=
  arcp_err ErrInternalError "event_seq gap detected; session should be resumed".

(** The opt-in gap check: a forward jump past the high-water mark. *)
Definition gap_detected (seq : Z) (c : Client) : bool :=
  co_DetectSeqGaps (c_opts c) && ((0 <? c_highSeq c)%Z && (wrap_u64 (c_highSeq c + 1) <? seq)%Z).

(** One turn of [readLoop], from the outcome of [Recv].  Only the read loop
    writes [highSeq], so its compare-and-swap loop is one assignment. *)
Definition readLoop_turn (r : res Envelope) (n : nat) (id : string) (serr : option error) (c : Client) : Client :=
  match r with
  | Err e =>
      if errors_Is e ctx_Canceled || errors_Is e ctx_DeadlineExceeded then c <| c_rl := RExited |>
      else (failAll e c) <| c_rl := RExited |>
  | Ok env =>
      let seq := env_EventSeq env in
      if (0 <? seq)%Z && gap_detected seq c then
        (failAll err_gap c) <| c_ctxDone := true |> <| c_transportClosed := true |> <| c_rl := RExited |>
      else
        let c := c <| c_recv := c_recv c ++ [env] |> in
        let c := if (0 <? seq)%Z && negb (seq <=? c_highSeq c)%Z then c <| c_highSeq := seq |> else c in
        client_dispatch n env id serr c
  end.

End dispatch.

(** ** Delivery to the consumers *)

(** The cases of the [select] statements: the channel operation, the closing of
    [doneCh], the caller's context, the context of the client, the timer. *)
Inductive select_case := CaseChan | CaseDone | CaseCtx | CaseClient | CaseTimer.

Definition err_handle_overflow : error :=
  arcp_err ErrInternalError "job handle overflow: consumer did not drain within EventDeliveryTimeout".
Definition err_sub_overflow : error :=
  arcp_err ErrInternalError "subscription overflow: consumer did not drain within EventDeliveryTimeout".

Definition has_timer (c : Client) : bool := (0 <? co_EventDeliveryTimeout (c_opts c))%Z.

(** The deferred [deliverWG.Done] of [pushEvent], and on to the subscriptions. *)
Definition leave_deliver (h : nat) (ev : JobEvent) (subs : list nat) (c : Client) : Client :=
  push_next ev subs (upd_handle h (λ x, x <| jh_deliverWG := pred (jh_deliverWG x) |>) c).

Definition leave_push (s : nat) (ev : JobEvent) (subs : list nat) (c : Client) : Client :=
  push_next ev subs (upd_sub s (λ x, x <| su_pushWG := pred (su_pushWG x) |>) c).

(** [json.Unmarshal] of the body of a result_chunk event. *)
Definition chunk_of (ev : JobEvent) : option ResultChunkBody :=
  if bool_decide (ev_Kind ev = KindResultChunk) then
    match ev_Body ev with BResultChunk b => Some b | _ => None end
  else None.

Definition after_event (h : nat) (ev : JobEvent) (subs : list nat) (c : Client) : Client :=
  match chunk_of ev with
  | Some b => c <| c_rl := RChunk h b ev subs |>
  | None => leave_deliver h ev subs c
  end.

(** [deliver]: the case its [select] takes; [None] where the case is not
    ready. *)
Definition deliver (h : nat) (ev : JobEvent) (subs : list nat) (k : select_case) (c : Client) : option Client :=
  x ← c_jobs c !! h;
  match k with
  | CaseChan =>
      if jh_closed x then Some (upd_handle h (λ x, x <| jh_panic := true |>) c)
      else if (length (jh_events x) <? eventsCap)%nat then
        Some (after_event h ev subs (upd_handle h (λ x, x <| jh_events := jh_events x ++ [ev] |>) c))
      else None
  | CaseDone => if jh_done x then Some (leave_deliver h ev subs c) else None
  | CaseClient => if c_ctxDone c then Some (leave_deliver h ev subs c) else None
  | CaseTimer =>
      if has_timer c then
        Some (leave_deliver h ev subs (c <| c_failing := c_failing c ++ [(h, err_handle_overflow)] |>))
      else None
  | CaseCtx => None
  end.

Definition deliverChunk (h : nat) (b : ResultChunkBody) (ev : JobEvent) (subs : list nat) (k : select_case)
    (c : Client) : option Client :=
  x ← c_jobs c !! h;
  match k with
  | CaseChan =>
      if jh_closed x then Some (upd_handle h (λ x, x <| jh_panic := true |>) c)
      else if (length (jh_chunks x) <? chunksCap)%nat then
        Some (leave_deliver h ev subs (upd_handle h (λ x, x <| jh_chunks := jh_chunks x ++ [b] |>) c))
      else None
  | CaseDone => if jh_done x then Some (leave_deliver h ev subs c) else None
  | CaseClient => if c_ctxDone c then Some (leave_deliver h ev subs c) else None
  | CaseTimer =>
      if has_timer c then
        Some (leave_deliver h ev subs (c <| c_failing := c_failing c ++ [(h, err_handle_overflow)] |>))
      else None
  | CaseCtx => None
  end.

(** [Subscription.push]: on the timer it calls [close] while it is still
    registered with the barrier [close] waits for. *)
Definition Subscription_push (s : nat) (ev : JobEvent) (subs : list nat) (k : select_case) (c : Client) : option Client :=
  x ← c_subs c !! s;
  match k with
  | CaseChan =>
      if su_closed x then Some (upd_sub s (λ x, x <| su_panic := true |>) c)
      else if (length (su_events x) <? subEventsCap)%nat then
        Some (leave_push s ev subs (upd_sub s (λ x, x <| su_events := su_events x ++ [ev] |>) c))
      else None
  | CaseDone => if su_done x then Some (leave_push s ev subs c) else None
  | CaseClient => if c_ctxDone c then Some (leave_push s ev subs c) else None
  | CaseTimer =>
      if has_timer c then
        if bool_decide (is_Some (su_err x)) || su_done x then
          Some (leave_push s ev subs (client_removeSubscriber (su_key x) c))
        else Some ((upd_sub s (close_sub (Some err_sub_overflow)) c) <| c_rl := RCloseWait s ev subs |>)
      else None
  | CaseCtx => None
  end.

(** The rest of that [close], once the barrier lets it through. *)
Definition push_close_resume (s : nat) (ev : JobEvent) (subs : list nat) (c : Client) : option Client :=
  x ← c_subs c !! s;
  if (su_pushWG x =? 0)%nat then
    Some (leave_push s ev subs (client_removeSubscriber (su_key x) (upd_sub s close_events c)))
  else None.

(** ** The calls of the user *)

Record SubmitRequest := mkSubmitRequest {
  sq_Agent : string;
  sq_LeaseRequest : Lease;
  sq_LeaseConstraints : option LeaseConstraints;
  sq_IdempotencyKey : string;
  sq_MaxRuntimeSec : Z;
  sq_TraceID : string
}.

Definition submit_env (c : Client) (q : SubmitRequest) (input id : string) : Envelope :=
  set_trace (session_env c id TypeJobSubmit
    (PSubmit (mkSubmit (sq_Agent q) input (sq_LeaseRequest q) (sq_LeaseConstraints q) (sq_IdempotencyKey q)
                       (sq_MaxRuntimeSec q)))) (sq_TraceID q).

(** [Submit] up to its [select]; [input] is the marshalled input.  Blocked while
    another call holds [submitMu]. *)
Definition Submit (input : res string) (q : SubmitRequest) (id : string) (serr : option error) (c : Client) :
    option Client :=
  match input with
  | Err _ => Some c
  | Ok input =>
      match c_submitMu c with
      | Some _ => None
      | None =>
          let h := new_ref (c_jobs c) in
          let c := c <| c_jobs := <[h := new_handle (sq_Agent q) id]> (c_jobs c) |>
                     <| c_pending := c_pending c ++ [h] |>
                     <| c_pendingByID := <[id := h]> (c_pendingByID c) |> in
          let c := transport_send (submit_env c q input id) serr c in
          Some match serr with
               | Some e => upd_handle h (λ x, x <| jh_returned := Some (Some e) |>) (removePending h c)
               | None => c <| c_submitMu := Some h |>
               end
      end
  end.

Definition err_closed_before_accept : error :=
  arcp_err ErrInternalError "client closed before job.accepted arrived".
Definition err_client_closed : error := arcp_err ErrInternalError "client closed".

(** The error exits of the [select] of [Submit]. *)
Definition submit_exit (h : nat) (e : option error) (c : Client) : Client :=
  upd_handle h (λ x, x <| jh_returned := Some e |>) ((removePending h c) <| c_submitMu := None |>).

Definition Submit_select (k : select_case) (ctxErr : error) (c : Client) : option Client :=
  h ← c_submitMu c;
  x ← c_jobs c !! h;
  match k with
  | CaseChan =>
      acc ← jh_acceptedCh x;
      Some (upd_handle h (λ x, x <| jh_acceptedCh := None |> <| jh_id := ja_JobID acc |> <| jh_returned := Some None |>)
              (c <| c_submitMu := None |>))
  | CaseDone => if jh_done x then Some (submit_exit h (jh_err x) c) else None
  | CaseCtx => Some (submit_exit h (Some ctxErr) c)
  | CaseClient => if c_ctxDone c then Some (submit_exit h (Some err_closed_before_accept) c) else None
  | CaseTimer => None
  end.

(** [Subscribe] up to its [select]; [ulid] is the suffix of its key. *)
Definition Subscribe (jobID : string) (from : Z) (history : bool) (id ulid : string) (serr : option error)
    (c : Client) : res Client :=
  if negb (client_HasFeature c "subscribe") then
    Err (arcp_err ErrInvalidRequest "subscribe feature not negotiated")
  else
    let env := set_job (session_env c id TypeJobSubscribe (PSubscribe (mkSubscribe jobID from history))) jobID in
    let key := jobID +:+ ":" +:+ ulid in
    let s := new_ref (c_subs c) in
    let c := c <| c_subs := <[s := new_sub jobID key id]> (c_subs c) |>
               <| c_subscribers := <[key := s]> (c_subscribers c) |> in
    let c := transport_send env serr c in
    Ok match serr with
       | Some e => upd_sub s (λ x, x <| su_returned := Some (Some e) |>) (client_removeSubscriber key c)
       | None => c
       end.

Definition subscribe_exit (s : nat) (x : Subscription) (e : error) (c : Client) : Client :=
  upd_sub s (λ x, x <| su_returned := Some (Some e) |>) (client_removeSubscriber (su_key x) c).

Definition Subscribe_select (s : nat) (k : select_case) (ctxErr : error) (c : Client) : option Client :=
  x ← c_subs c !! s;
  match su_returned x with
  | Some _ => None
  | None =>
      match k with
      | CaseChan =>
          ack ← su_ackCh x;
          Some (upd_sub s (λ x, x <| su_ackCh := None |> <| su_ack := Some ack |> <| su_returned := Some None |>) c)
      | CaseDone =>
          if su_done x then
            Some (subscribe_exit s x (default (arcp_err ErrInternalError "subscription rejected") (su_err x)) c)
          else None
      | CaseCtx => Some (subscribe_exit s x ctxErr c)
      | CaseClient => if c_ctxDone c then Some (subscribe_exit s x err_client_closed c) else None
      | CaseTimer => None
      end
  end.

(** [Subscription.Close]: once, it writes job.unsubscribe, unregisters and
    closes. *)
Definition Subscription_Close (s : nat) (id : string) (serr : option error) (c : Client) : option Client :=
  x ← c_subs c !! s;
  if su_closeOnce x then Some c
  else
    let env := set_job (session_env c id TypeJobUnsubscribe (PUnsubscribe (su_jobID x))) (su_jobID x) in
    let c := upd_sub s (λ x, x <| su_closeOnce := true |>) (transport_send env serr c) in
    Some (upd_sub s (close_sub None) (client_removeSubscriber (su_key x) c)).

(** [ListJobs] up to its [select]. *)
Definition ListJobs (q : SessionListJobs) (id : string) (serr : option error) (c : Client) : res Client :=
  if negb (client_HasFeature c "list_jobs") then
    Err (arcp_err ErrInvalidRequest "list_jobs feature not negotiated")
  else
    let env := session_env c id TypeSessionListJobs (PListJobs q) in
    let l := new_ref (c_lists c) in
    let c := c <| c_lists := <[l := mkListCall id None None]> (c_lists c) |>
               <| c_listReqs := <[id := l]> (c_listReqs c) |> in
    let c := transport_send env serr c in
    Ok match serr with
       | Some e => upd_list l (λ x, x <| li_returned := Some (Err e) |>) (c <| c_listReqs := delete id (c_listReqs c) |>)
       | None => c
       end.

(** The return of [ListJobs] with its deferred delete. *)
Definition list_exit (l : nat) (x : ListCall) (r : res JobList) (c : Client) : Client :=
  upd_list l (λ x, x <| li_ch := None |> <| li_returned := Some r |>)
    (c <| c_listReqs := delete (li_id x) (c_listReqs c) |>).

Definition ListJobs_select (l : nat) (k : select_case) (ctxErr : error) (c : Client) : option Client :=
  x ← c_lists c !! l;
  match li_returned x with
  | Some _ => None
  | None =>
      match k with
      | CaseChan =>
          r ← li_ch x;
          Some (list_exit l x match r with
                              | Err e => Err e
                              | Ok jobs => Ok (mkJobList (sj_Jobs jobs) (sj_NextCursor jobs))
                              end c)
      | CaseCtx => Some (list_exit l x (Err ctxErr) c)
      | CaseClient => if c_ctxDone c then Some (list_exit l x (Err err_client_closed) c) else None
      | CaseDone | CaseTimer => None
      end
  end.

(** [Client.Ack]. *)
Definition client_Ack (seq : Z) (id : string) (serr : option error) (c : Client) : res Client :=
  if negb (client_HasFeature c "ack") then Err (arcp_err ErrInvalidRequest "ack feature not negotiated")
  else match serr with
       | Some e => Err e
       | None => Ok (transport_send (session_env c id TypeSessionAck (PAck (Z.to_N seq))) None c)
       end.

(** [Client.Close] up to its [wg.Wait]: the close message, the cancellation, the
    end of the ticker, the transport. *)
Definition client_Close (id : string) (serr : option error) (c : Client) : Client :=
  match c_close c with
  | CloseNot =>
      (transport_send (session_env c id TypeSessionClose (PClose "client close")) serr c)
        <| c_ctxDone := true |> <| c_tickStop := true |> <| c_transportClosed := true |>
        <| c_close := CloseWaiting |>
  | _ => c
  end.

(** The goroutines [wg] counts have returned. *)
Definition wg_zero (c : Client) : bool :=
  match c_rl c, c_tick c, c_ackInflight c with RExited, TOff, [] => true | _, _, _ => false end.

Definition client_Close_end (c : Client) : option Client :=
  match c_close c with
  | CloseWaiting =>
      if wg_zero c then
        let c := fail_all err_client_closed (map_to_list (c_handles c)).*2 c in
        let c := close_all (Some err_client_closed) (map_to_list (c_subscribers c)).*2 c in
        Some (c <| c_close := CloseDone |>)
      else None
  | _ => None
  end.

(** ** The connection *)

Definition hello_of (o : ClientOptions) : SessionHello :=
  mkHello (co_ClientName o) (co_ClientVersion o) "bearer" (co_Token o)
    (mkHelloCaps ["json"] (co_Features o)) (co_Resume o).

(** [startAutoAckTicker] starts the ticker. *)
Definition ticker_on (o : ClientOptions) (features : list string) : bool :=
  negb (co_AutoAckWindow o =? 0)%Z && HasFeature features "ack" && negb (co_AutoAckInterval o <=? 0)%Z.

Section connect.
Context {RD : RawDecode}.

(** [Connect], given the outcome of the write and of the first [Recv]. *)
Definition Connect (opts : ClientOptions) (id : string) (serr : option error) (resp : res Envelope) : res Client :=
  let o := client_withDefaults opts in
  let env := mkEnvelope ProtocolVersion id TypeSessionHello "" "" "" 0 (PHello (hello_of o)) in
  match serr with
  | Some e => Err (EWrap "send hello" e)
  | None =>
  match resp with
  | Err e => Err (EWrap "await welcome" e)
  | Ok r =>
      if bool_decide (env_Type r = TypeSessionWelcome) then
        match decode_welcome (env_Payload r) with
        | Err e => Err e
        | Ok w =>
            let fs := IntersectFeatures (co_Features o) (sw_Features w) in
            Ok (mkClient o (env_SessionID r) w fs false None ∅ [] ∅ ∅ ∅ 0 0 ∅ ∅ ∅ RRecv
                  (if ticker_on o fs then TIdle else TOff) false [] [] CloseNot false [env] [])
        end
      else if bool_decide (env_Type r = TypeSessionError) then
        Err (arcp_of_session_error (get_session_error (env_Payload r)))
      else Err (arcp_err ErrInvalidRequest ("expected session.welcome, got " +:+ env_Type r))
  end end.

End connect.

(** ** The transition system *)

Inductive client_op :=
| OSubmit (input : res string) (q : SubmitRequest) (id : string) (serr : option error)
| OSubmitSelect (k : select_case) (ctxErr : error)
| OSubscribe (jobID : string) (from : Z) (history : bool) (id ulid : string) (serr : option error)
| OSubscribeSelect (s : nat) (k : select_case) (ctxErr : error)
| OSubClose (s : nat) (id : string) (serr : option error)
| OListJobs (q : SessionListJobs) (id : string) (serr : option error)
| OListSelect (l : nat) (k : select_case) (ctxErr : error)
| OCancel (h : nat) (reason id : string) (serr : option error)
| OAck (seq : Z) (id : string) (serr : option error)
| OReadEvent (h : nat)
| OReadChunk (h : nat)
| OReadSub (s : nat)
| ORecv (r : res Envelope) (n : nat) (id : string) (serr : option error)
| ORlSelect (k : select_case)
| ORlWake
| ORlAck
| OHandleWake (h : nat)
| OSubWake (s : nat)
| OFail (i : nat)
| OTickLoad
| OTickCAS (id : string) (serr : option error)
| OTickStop
| OAckSend (i : nat) (id : string) (serr : option error)
| OClose (id : string) (serr : option error)
| OCloseEnd.

Section step.
Context {MO : MapOrder} {RD : RawDecode}.

(** The sends of the read loop. *)
Definition rl_select (k : select_case) (c : Client) : option Client :=
  match c_rl c with
  | RDeliver h ev subs => deliver h ev subs k c
  | RChunk h b ev subs => deliverChunk h b ev subs k c
  | RPush s ev subs => Subscription_push s ev subs k c
  | _ => None
  end.

(** One iteration of the ticker goroutine, in two parts. *)
Definition ticker_load (c : Client) : option Client :=
  match c_tick c with TIdle => Some (c <| c_tick := TLoaded (c_highSeq c) (c_lastAck c) |>) | _ => None end.

Definition ticker_cas (id : string) (serr : option error) (c : Client) : option Client :=
  match c_tick c with
  | TLoaded current last =>
      let c := c <| c_tick := TIdle |> in
      Some (if (last <? current)%Z && (c_lastAck c =? last)%Z then
              sendAck current id serr (c <| c_lastAck := current |>)
            else c)
  | _ => None
  end.

Definition client_step (c : Client) (o : client_op) : option Client :=
  match o with
  | OSubmit input q id serr => Submit input q id serr c
  | OSubmitSelect k e => Submit_select k e c
  | OSubscribe j from history id ulid serr => from_result (Subscribe j from history id ulid serr c)
  | OSubscribeSelect s k e => Subscribe_select s k e c
  | OSubClose s id serr => Subscription_Close s id serr c
  | OListJobs q id serr => from_result (ListJobs q id serr c)
  | OListSelect l k e => ListJobs_select l k e c
  | OCancel h reason id serr =>
      x ← c_jobs c !! h; env ← from_result (Cancel c x reason id); Some (transport_send env serr c)
  | OAck seq id serr => from_result (client_Ack seq id serr c)
  | OReadEvent h =>
      x ← c_jobs c !! h;
      match jh_events x with
      | ev :: evs => Some (upd_handle h (λ x, x <| jh_events := evs |> <| jh_read := jh_read x ++ [ev] |>) c)
      | [] => None
      end
  | OReadChunk h =>
      x ← c_jobs c !! h;
      match jh_chunks x with
      | b :: bs => Some (upd_handle h (λ x, x <| jh_chunks := bs |> <| jh_chunksRead := jh_chunksRead x ++ [b] |>) c)
      | [] => None
      end
  | OReadSub s =>
      x ← c_subs c !! s;
      match su_events x with
      | ev :: evs => Some (upd_sub s (λ x, x <| su_events := evs |> <| su_read := su_read x ++ [ev] |>) c)
      | [] => None
      end
  | ORecv r n id serr => match c_rl c with RRecv => Some (readLoop_turn r n id serr c) | _ => None end
  | ORlSelect k => rl_select k c
  | ORlWake => match c_rl c with RCloseWait s ev subs => push_close_resume s ev subs c | _ => None end
  | ORlAck => match c_rl c with RAck cur last => Some (maybeAck_cas cur last c) | _ => None end
  | OHandleWake h =>
      x ← c_jobs c !! h;
      if jh_done x && negb (jh_closed x) && (jh_deliverWG x =? 0)%nat then Some (upd_handle h close_values c) else None
  | OSubWake s =>
      x ← c_subs c !! s;
      if su_done x && negb (su_closed x) && (su_pushWG x =? 0)%nat then Some (upd_sub s close_events c) else None
  | OFail i =>
      '(h, e) ← c_failing c !! i;
      Some (upd_handle h (fail_handle e) (c <| c_failing := delete i (c_failing c) |>))
  | OTickLoad => ticker_load c
  | OTickCAS id serr => ticker_cas id serr c
  | OTickStop => match c_tick c with
                 | TIdle => if c_tickStop c || c_ctxDone c then Some (c <| c_tick := TOff |>) else None
                 | _ => None
                 end
  | OAckSend i id serr =>
      seq ← c_ackInflight c !! i;
      Some (sendAck seq id serr (c <| c_ackInflight := delete i (c_ackInflight c) |>))
  | OClose id serr => Some (client_Close id serr c)
  | OCloseEnd => client_Close_end c
  end.

Fixpoint client_run (c : Client) (ops : list client_op) : option Client :=
  match ops with
  | [] => Some c
  | o :: ops => c ← client_step c o; client_run c ops
  end.

(** The types of the values an operation brings in: sequence numbers are
    [uint64], and the identifiers of [NewEnvelope] are not empty. *)
Definition op_typed (o : client_op) : Prop :=
  match o with
  | ORecv (Ok env) _ _ _ => in_u64 (env_EventSeq env)
  | OSubmit _ _ id _ => id ≠ ""
  | _ => True
  end.

(** The states of the runs of a client [Connect] returned. *)
Inductive client_reachable : Client → Prop :=
| client_init opts id resp c :
    in_u64 (co_AutoAckWindow opts) → Connect opts id None resp = Ok c → client_reachable c
| client_next c o c' : client_reachable c → op_typed o → client_step c o = Some c' → client_reachable c'.

End step.
