(* ===== verification/ClientInv.v ===== *)
(** * Invariants of the client: channels and barriers

    The cells of the client's heap: how the [done] and value channels of a
    handle or a subscription relate to its outcome and to the barrier
    ([deliverWG], [pushWG]) that counts the sends of the read loop.  Every
    operation preserves the invariant, so no run sends on, or closes, a closed
    channel. *)

From S2P Require Import Prelude GoStrings Errors Features Lease Messages Client.
From Stdlib Require Import ZArith Lia.

(** ** The invariant *)

(** The handle, or the subscription, the read loop is sending to. *)
Definition rl_handle (rl : readLoop_pc) : option nat :=
  match rl with RDeliver h _ _ => Some h | RChunk h _ _ _ => Some h | _ => None end.
Definition rl_sub (rl : readLoop_pc) : option nat :=
  match rl with RPush s _ _ => Some s | RCloseWait s _ _ => Some s | _ => None end.
Definition rl_waits (rl : readLoop_pc) : option nat :=
  match rl with RCloseWait s _ _ => Some s | _ => None end.

(** A handle; [on] says that the read loop is sending to it. *)
Record handle_ok (on : bool) (x : JobHandle) : Prop := {
  ho_done : jh_done x = true ↔ is_Some (jh_result x) ∨ is_Some (jh_err x);
  ho_one : jh_result x = None ∨ jh_err x = None;
  ho_closed : jh_closed x = true → jh_done x = true ∧ jh_deliverWG x = 0;
  ho_wg : jh_deliverWG x = if on then 1 else 0;
  ho_panic : jh_panic x = false;
  ho_events : length (jh_events x) ≤ eventsCap;
  ho_chunks : length (jh_chunks x) ≤ chunksCap
}.

Record sub_ok (on waits : bool) (x : Subscription) : Prop := {
  so_err : is_Some (su_err x) → su_done x = true;
  so_waits : waits = true → su_done x = true;
  so_closed : su_closed x = true → su_done x = true ∧ su_pushWG x = 0;
  so_wg : su_pushWG x = if on then 1 else 0;
  so_panic : su_panic x = false;
  so_events : length (su_events x) ≤ subEventsCap
}.

Definition cells_ok (rl : readLoop_pc) (c : Client) : Prop :=
  map_Forall (λ h x, handle_ok (bool_decide (rl_handle rl = Some h)) x) (c_jobs c) ∧
  map_Forall (λ s x, sub_ok (bool_decide (rl_sub rl = Some s)) (bool_decide (rl_waits rl = Some s)) x) (c_subs c).

(** The cells the read loop refers to exist. *)
Definition rl_ok (rl : readLoop_pc) (c : Client) : Prop :=
  (∀ h, rl_handle rl = Some h → is_Some (c_jobs c !! h)) ∧
  (∀ s, rl_sub rl = Some s → is_Some (c_subs c !! s)).

Definition CellInv (c : Client) : Prop := cells_ok (c_rl c) c ∧ rl_ok (c_rl c) c.

(** The read loop is not sending. *)
Definition rl_free (rl : readLoop_pc) : Prop := rl_handle rl = None ∧ rl_sub rl = None ∧ rl_waits rl = None.

(** ** Updates of cells *)

Lemma map_Forall_alter {K A} `{Countable K} (P : K → A → Prop) (f : A → A) (k : K) (m : gmap K A) :
  map_Forall P m → (∀ x, m !! k = Some x → P k x → P k (f x)) → map_Forall P (alter f k m).
Proof.
  intros Hm Hf i x Hi. destruct (decide (i = k)) as [->|Hn].
  - rewrite lookup_alter_eq in Hi. destruct (m !! k) as [y|] eqn:Hy; simplify_eq/=. eauto.
  - rewrite lookup_alter_ne in Hi by done. by apply Hm.
Qed.

Lemma is_Some_alter {K A} `{Countable K} (f : A → A) (k i : K) (m : gmap K A) :
  is_Some (alter f k m !! i) ↔ is_Some (m !! i).
Proof.
  destruct (decide (i = k)) as [->|Hn]; [rewrite lookup_alter_eq|by rewrite lookup_alter_ne].
  by rewrite fmap_is_Some.
Qed.

(** Functions on cells that keep them well formed wherever the read loop is. *)
Definition keeps_handle (f : JobHandle → JobHandle) : Prop := ∀ on x, handle_ok on x → handle_ok on (f x).
Definition keeps_sub (f : Subscription → Subscription) : Prop := ∀ on w x, sub_ok on w x → sub_ok on w (f x).

Lemma cells_upd_handle rl h f c :
  cells_ok rl c → keeps_handle f → cells_ok rl (upd_handle h f c).
Proof. intros [H1 H2] Hf. split; [|done]. apply map_Forall_alter; [done|]. eauto. Qed.

Lemma cells_upd_sub rl s f c : cells_ok rl c → keeps_sub f → cells_ok rl (upd_sub s f c).
Proof. intros [H1 H2] Hf. split; [done|]. apply map_Forall_alter; [done|]. eauto. Qed.

Lemma rl_ok_upd_handle rl h f c : rl_ok rl c → rl_ok rl (upd_handle h f c).
Proof. intros [H1 H2]. split; [|done]. intros i Hi. apply is_Some_alter. eauto. Qed.

Lemma rl_ok_upd_sub rl s f c : rl_ok rl c → rl_ok rl (upd_sub s f c).
Proof. intros [H1 H2]. split; [done|]. intros i Hi. apply is_Some_alter. eauto. Qed.

Lemma rl_ok_free rl c : rl_free rl → rl_ok rl c.
Proof. intros (H1 & H2 & _). split; intros ? ?; congruence. Qed.

Lemma cells_free rl rl' c : rl_free rl → rl_free rl' → cells_ok rl c → cells_ok rl' c.
Proof.
  intros (Ha & Hb & Hw) (Ha' & Hb' & Hw'). unfold cells_ok. by rewrite Ha, Hb, Hw, Ha', Hb', Hw'.
Qed.

Ltac handle_simpl :=
  match goal with H : handle_ok _ _ |- _ => destruct H as [? ? ? ? ? ? ?] end; split; simpl in *.
Ltac sub_simpl :=
  match goal with H : sub_ok _ _ _ |- _ => destruct H as [? ? ? ? ? ?] end; split; simpl in *.

Lemma keeps_finish r e :
  (is_Some r ∧ e = None ∨ r = None ∧ is_Some e) → keeps_handle (finish_handle r e).
Proof.
  intros He on x Hx. unfold finish_handle.
  case_bool_decide; [done|]. case_bool_decide; [done|]. simpl.
  assert (jh_done x = false) as Hd.
  { destruct (jh_done x) eqn:E; [|done]. apply Hx in E as [?|?]; contradiction. }
  assert (jh_closed x = false) as Hc.
  { destruct (jh_closed x) eqn:E; [|done]. apply Hx in E as [? _]. congruence. }
  rewrite Hd. unfold close_values. simpl. rewrite Hc.
  destruct (jh_deliverWG x =? 0)%nat eqn:Hw; [apply Nat.eqb_eq in Hw|]; handle_simpl; try done; naive_solver.
Qed.

Lemma keeps_fail e : keeps_handle (fail_handle e).
Proof. apply keeps_finish. naive_solver. Qed.

Lemma keeps_accept acc : keeps_handle (accept_handle acc).
Proof. intros on x Hx. unfold accept_handle. by repeat case_goal; handle_simpl. Qed.

Lemma keeps_close e : keeps_sub (close_sub e).
Proof.
  intros on w x Hx. unfold close_sub. case_bool_decide; [done|]. simpl.
  destruct (su_done x) eqn:Hd; [done|].
  assert (su_closed x = false) as Hc.
  { destruct (su_closed x) eqn:E; [|done]. apply Hx in E as [? _]. congruence. }
  unfold close_events. simpl. rewrite Hc.
  destruct (su_pushWG x =? 0)%nat eqn:Hw; [apply Nat.eqb_eq in Hw|]; sub_simpl; try done; naive_solver.
Qed.

Lemma keeps_acknowledged p : keeps_sub (acknowledged p).
Proof. intros on w x Hx. unfold acknowledged. by case_goal; sub_simpl. Qed.

Create HintDb client discriminated.
#[export] Hint Resolve keeps_fail keeps_accept keeps_close keeps_acknowledged : client.

(** ** Steps that leave the read loop where it is *)

(** [calm c c']: the read loop stands where it was and no cell is broken. *)
Definition calm (c c' : Client) : Prop :=
  c_rl c' = c_rl c ∧
  ∀ rl, (cells_ok rl c → cells_ok rl c') ∧ (rl_ok rl c → rl_ok rl c').

#[export] Instance calm_preorder : PreOrder calm.
Proof.
  split; [by split|]. intros a b c [R1 H1] [R2 H2]. split; [by rewrite R2|].
  intros rl. destruct (H1 rl), (H2 rl). auto.
Qed.

Lemma calm_inv c c' : calm c c' → CellInv c → CellInv c'.
Proof. intros [R H] [H1 H2]. unfold CellInv. rewrite R. split; by apply H. Qed.

Lemma calm_same c c' :
  c_rl c' = c_rl c → c_jobs c' = c_jobs c → c_subs c' = c_subs c → calm c c'.
Proof. intros Hr Hj Hs. split; [done|]. intros rl. unfold cells_ok, rl_ok. by rewrite Hj, Hs. Qed.

Lemma calm_upd_handle h f c : keeps_handle f → calm c (upd_handle h f c).
Proof. intros Hf. split; [done|]. intros rl. split; [by intros ?; apply cells_upd_handle|apply rl_ok_upd_handle]. Qed.

Lemma calm_upd_sub s f c : keeps_sub f → calm c (upd_sub s f c).
Proof. intros Hf. split; [done|]. intros rl. split; [by intros ?; apply cells_upd_sub|apply rl_ok_upd_sub]. Qed.

(** The update of a list of cells, one by one. *)
Lemma calm_foldr {A} (f : A → Client → Client) (l : list A) c :
  (∀ x c, calm c (f x c)) → calm c (foldr f c l).
Proof. intros Hf. induction l as [|x l IH]; simpl; [done|]. by etransitivity. Qed.

Lemma calm_fail_all e l c : calm c (fail_all e l c).
Proof. apply calm_foldr. intros. apply calm_upd_handle. auto with client. Qed.

Lemma calm_close_all e l c : calm c (close_all e l c).
Proof. apply calm_foldr. intros. apply calm_upd_sub. auto with client. Qed.

Lemma calm_upd_list l f c : calm c (upd_list l f c).
Proof. by apply calm_same. Qed.

Lemma calm_transport env serr c : calm c (transport_send env serr c).
Proof. destruct serr; by apply calm_same. Qed.

(** [calm_step] discharges one update at the head of the state. *)
Ltac calm_step :=
  match goal with
  | |- calm ?c ?c => reflexivity
  | |- calm _ (upd_handle _ _ _) => etransitivity; [|apply calm_upd_handle; eauto with client]
  | |- calm _ (upd_sub _ _ _) => etransitivity; [|apply calm_upd_sub; eauto with client]
  | |- calm _ (upd_list _ _ _) => etransitivity; [|apply calm_upd_list]
  | |- calm _ (fail_all _ _ _) => etransitivity; [|apply calm_fail_all]
  | |- calm _ (close_all _ _ _) => etransitivity; [|apply calm_close_all]
  | |- calm _ (transport_send _ _ _) => etransitivity; [|apply calm_transport]
  | |- calm _ (set_field _ ?s) => transitivity s; [|by apply calm_same]
  end.

Lemma calm_failAll e c : calm c (failAll e c).
Proof.
  unfold failAll. cbv zeta. calm_step. etransitivity; [|apply calm_foldr; intros; apply calm_upd_list].
  by repeat calm_step.
Qed.

Lemma calm_removePending h c : calm c (removePending h c).
Proof. unfold removePending. by repeat case_goal; repeat calm_step. Qed.

Lemma calm_removeSubscriber k c : calm c (client_removeSubscriber k c).
Proof. unfold client_removeSubscriber. by case_goal; repeat calm_step. Qed.

Lemma calm_drop_submitID h c : calm c (drop_submitID h c).
Proof. unfold drop_submitID. by repeat case_goal; repeat calm_step. Qed.

#[export] Hint Resolve calm_failAll calm_removePending calm_removeSubscriber calm_drop_submitID : client.

Section handlers.
Context {MO : MapOrder} {RD : RawDecode}.

Lemma calm_routeError n req job e c : calm c (routeError n req job e c).2.
Proof. unfold routeError, route_job. by repeat case_goal; simpl; repeat calm_step. Qed.

Lemma calm_handleSessionError n env c : calm c (handleSessionError n env c).
Proof.
  unfold handleSessionError. cbv zeta.
  match goal with |- context [routeError n ?a ?b ?e c] => pose proof (calm_routeError n a b e c) as H end.
  destruct (routeError _ _ _ _ _) as [[] c']; simpl in H; [done|].
  case_goal; [|done]. etransitivity; [done|apply calm_failAll].
Qed.

Lemma calm_handleSessionJobs env c : calm c (handleSessionJobs env c).
Proof. unfold handleSessionJobs. by repeat case_goal; repeat calm_step. Qed.

Lemma keeps_register acc n : keeps_handle (λ x, accept_handle acc (x <| jh_since := n |>)).
Proof. intros on x Hx. apply keeps_accept. by handle_simpl. Qed.

Lemma calm_handleJobAccepted env c : calm c (handleJobAccepted env c).
Proof.
  unfold handleJobAccepted.
  repeat case_goal; repeat calm_step; try done; auto using keeps_register;
    (etransitivity; [|apply calm_drop_submitID]); by repeat calm_step.
Qed.

Lemma calm_handleJobTerminal n env c : calm c (handleJobTerminal n env c).
Proof.
  unfold handleJobTerminal. cbv zeta. case_bool_decide; calm_step; (case_goal; [|done]);
    (apply calm_upd_handle, keeps_finish; naive_solver).
Qed.

Lemma calm_handleJobSubscribed n env c : calm c (handleJobSubscribed n env c).
Proof.
  unfold handleJobSubscribed. case_goal; [|done]. apply calm_foldr. intros. apply calm_upd_sub. auto with client.
Qed.

End handlers.

(** ** Steps of the read loop *)

(** The cells when no send is in flight. *)
Abbreviation quiet := (cells_ok RRecv).

Lemma rl_free_RRecv : rl_free RRecv.
Proof. by repeat split. Qed.

Lemma quiet_free c : rl_free (c_rl c) → quiet c → CellInv c.
Proof. intros Hf H. split; [by apply (cells_free RRecv); [apply rl_free_RRecv|..]|by apply rl_ok_free]. Qed.

Lemma CellInv_quiet c : rl_free (c_rl c) → CellInv c → quiet c.
Proof. intros Hf [H _]. by apply (cells_free (c_rl c)); [|apply rl_free_RRecv|]. Qed.

Lemma end_dispatch_ok c : quiet c → CellInv (end_dispatch c).
Proof. intros H. unfold end_dispatch. case_goal; (apply quiet_free; [by repeat split|done]). Qed.

Lemma on_false (i j : nat) : i ≠ j → bool_decide (Some i = Some j) = bool_decide (None = Some j).
Proof. intros. by rewrite !bool_decide_eq_false_2 by congruence. Qed.

Lemma push_next_ok ev subs c : quiet c → CellInv (push_next ev subs c).
Proof.
  intros H. induction subs as [|s subs IH]; simpl; [by apply end_dispatch_ok|].
  destruct (c_subs c !! s) as [x|] eqn:Hs; [|done]. destruct (su_done x) eqn:Hd; [done|].
  destruct H as [H1 H2]. split; [split; [done|]|split; [done|]]; simpl.
  - intros i y Hi. destruct (decide (s = i)) as [<-|Hn].
    + rewrite lookup_alter_eq, Hs in Hi. simplify_eq/=. specialize (H2 _ _ Hs). simpl in H2.
      rewrite bool_decide_eq_true_2 by done. sub_simpl; try done; [|congruence].
      intros Hc. destruct (so_closed0 Hc). congruence.
    + rewrite lookup_alter_ne in Hi by done. rewrite on_false by done. exact (H2 _ _ Hi).
  - intros i [= <-]. apply is_Some_alter. by eauto.
Qed.

Lemma enter_deliver_ok h x ev subs c :
  quiet c → c_jobs c !! h = Some x → jh_done x = false →
  CellInv ((upd_handle h (λ x, x <| jh_deliverWG := S (jh_deliverWG x) |>) c) <| c_rl := RDeliver h ev subs |>).
Proof.
  intros [H1 H2] Hh Hd. split; [split; [|done]|split; [|done]]; simpl.
  - intros i y Hi. destruct (decide (h = i)) as [<-|Hn].
    + rewrite lookup_alter_eq, Hh in Hi. simplify_eq/=. specialize (H1 _ _ Hh). simpl in H1.
      rewrite bool_decide_eq_true_2 by done. handle_simpl; try done; [|congruence].
      intros Hc. destruct (ho_closed0 Hc). congruence.
    + rewrite lookup_alter_ne in Hi by done. rewrite on_false by done. exact (H1 _ _ Hi).
  - intros i [= <-]. apply is_Some_alter. by eauto.
Qed.

(** Leaving a send gives the barrier back. *)
Lemma leave_deliver_ok rl h ev subs c :
  cells_ok rl c → rl_handle rl = Some h → rl_sub rl = None → rl_waits rl = None →
  CellInv (leave_deliver h ev subs c).
Proof.
  intros [H1 H2] Hh Hs Hw. apply push_next_ok. rewrite Hh in H1. rewrite Hs, Hw in H2. split; [|done]. simpl.
  intros i y Hi. destruct (decide (h = i)) as [<-|Hn].
  - rewrite lookup_alter_eq in Hi. destruct (c_jobs c !! h) as [x|] eqn:Hx; simplify_eq/=.
    specialize (H1 _ _ Hx). simpl in H1. rewrite bool_decide_eq_true_2 in H1 by done.
    handle_simpl; try done; [|by rewrite ho_wg0].
    intros Hc. destruct (ho_closed0 Hc). split; [done|lia].
  - rewrite lookup_alter_ne in Hi by done. specialize (H1 _ _ Hi). simpl in H1.
    by rewrite on_false in H1 by done.
Qed.

Lemma leave_push_ok rl s ev subs c :
  cells_ok rl c → rl_sub rl = Some s → rl_handle rl = None → (rl_waits rl = None ∨ rl_waits rl = Some s) →
  CellInv (leave_push s ev subs c).
Proof.
  intros [H1 H2] Hs Hh Hw. apply push_next_ok. rewrite Hh in H1. rewrite Hs in H2. split; [done|]. simpl.
  intros i y Hi. destruct (decide (s = i)) as [<-|Hn].
  - rewrite lookup_alter_eq in Hi. destruct (c_subs c !! s) as [x|] eqn:Hx; simplify_eq/=.
    specialize (H2 _ _ Hx). simpl in H2. rewrite bool_decide_eq_true_2 in H2 by done.
    sub_simpl; try done; [|by rewrite so_wg0].
    intros Hc. destruct (so_closed0 Hc). split; [done|lia].
  - rewrite lookup_alter_ne in Hi by done. specialize (H2 _ _ Hi). simpl in H2.
    by destruct Hw as [Hw|Hw]; rewrite Hw, !on_false in H2 by done.
Qed.

(** A cell the read loop sends to is not closed. *)
Lemma sending_not_closed rl c h x :
  cells_ok rl c → rl_handle rl = Some h → c_jobs c !! h = Some x → jh_closed x = false.
Proof.
  intros [H1 _] Hh Hx. specialize (H1 _ _ Hx). simpl in H1. rewrite Hh, bool_decide_eq_true_2 in H1 by done.
  destruct (jh_closed x) eqn:E; [|done]. destruct (ho_closed _ _ H1 E) as [_ Hw].
  rewrite (ho_wg _ _ H1) in Hw. done.
Qed.

Lemma pushing_not_closed rl c s x :
  cells_ok rl c → rl_sub rl = Some s → c_subs c !! s = Some x → su_closed x = false ∧ su_pushWG x = 1.
Proof.
  intros [_ H2] Hh Hx. specialize (H2 _ _ Hx). simpl in H2. rewrite Hh, (bool_decide_eq_true_2 (Some s = Some s)) in H2 by done.
  split; [|apply (so_wg _ _ _ H2)].
  destruct (su_closed x) eqn:E; [|done]. destruct (so_closed _ _ _ H2 E) as [_ Hw].
  rewrite (so_wg _ _ _ H2) in Hw. done.
Qed.

(** An update of one cell that keeps that cell. *)
Lemma cells_upd_handle_at rl h x f c :
  cells_ok rl c → c_jobs c !! h = Some x → (∀ on, handle_ok on x → handle_ok on (f x)) →
  cells_ok rl (upd_handle h f c).
Proof.
  intros [H1 H2] Hx Hf. split; [|done]. apply map_Forall_alter; [done|]. intros y Hy. simplify_eq. apply Hf.
Qed.

Lemma cells_upd_sub_at rl s x f c :
  cells_ok rl c → c_subs c !! s = Some x → (∀ on w, sub_ok on w x → sub_ok on w (f x)) →
  cells_ok rl (upd_sub s f c).
Proof.
  intros [H1 H2] Hx Hf. split; [done|]. apply map_Forall_alter; [done|]. intros y Hy. simplify_eq. apply Hf.
Qed.

Lemma handle_keeps_events on (x : JobHandle) ev :
  length (jh_events x) < eventsCap → handle_ok on x → handle_ok on (x <| jh_events := jh_events x ++ [ev] |>).
Proof. intros Hl Hx. handle_simpl; try done. rewrite length_app. simpl. lia. Qed.

Lemma handle_keeps_chunks on (x : JobHandle) b :
  length (jh_chunks x) < chunksCap → handle_ok on x → handle_ok on (x <| jh_chunks := jh_chunks x ++ [b] |>).
Proof. intros Hl Hx. handle_simpl; try done. rewrite length_app. simpl. lia. Qed.

Lemma sub_keeps_events on w (x : Subscription) ev :
  length (su_events x) < subEventsCap → sub_ok on w x → sub_ok on w (x <| su_events := su_events x ++ [ev] |>).
Proof. intros Hl Hx. sub_simpl; try done. rewrite length_app. simpl. lia. Qed.

Lemma after_event_ok h ev subs c :
  cells_ok (RDeliver h ev subs) c → is_Some (c_jobs c !! h) → CellInv (after_event h ev subs c).
Proof.
  intros H Hh. unfold after_event. case_goal; [|by eapply leave_deliver_ok].
  split; [exact H|]. split; [by intros i [= <-]|done].
Qed.

Lemma deliver_ok h ev subs k c c' :
  c_rl c = RDeliver h ev subs → CellInv c → deliver h ev subs k c = Some c' → CellInv c'.
Proof.
  intros Hr [H _] Hd. rewrite Hr in H. unfold deliver in Hd.
  destruct (c_jobs c !! h) as [x|] eqn:Hx; [|done]. simpl in Hd.
  rewrite (sending_not_closed _ _ _ _ H eq_refl Hx) in Hd.
  destruct k; try case_in Hd; simplify_eq; try (by eapply leave_deliver_ok).
  apply after_event_ok; [|apply is_Some_alter; by eauto].
  eapply cells_upd_handle_at; [done..|]. intros on. apply handle_keeps_events. by apply Nat.ltb_lt.
Qed.

Lemma deliverChunk_ok h b ev subs k c c' :
  c_rl c = RChunk h b ev subs → CellInv c → deliverChunk h b ev subs k c = Some c' → CellInv c'.
Proof.
  intros Hr [H _] Hd. rewrite Hr in H. unfold deliverChunk in Hd.
  destruct (c_jobs c !! h) as [x|] eqn:Hx; [|done]. simpl in Hd.
  rewrite (sending_not_closed _ _ _ _ H eq_refl Hx) in Hd.
  destruct k; try case_in Hd; simplify_eq; try (by eapply leave_deliver_ok).
  apply (leave_deliver_ok (RChunk h b ev subs)); [|done..].
  eapply cells_upd_handle_at; [exact H|done|]. intros on. apply handle_keeps_chunks. by apply Nat.ltb_lt.
Qed.

Lemma push_timer_ok s ev subs x c :
  cells_ok (RPush s ev subs) c → c_subs c !! s = Some x →
  bool_decide (is_Some (su_err x)) || su_done x = false →
  CellInv ((upd_sub s (close_sub (Some err_sub_overflow)) c) <| c_rl := RCloseWait s ev subs |>).
Proof.
  intros [H1 H2] Hx Hg.
  split; [split; [done|]|split; [done|]]; simpl; [|intros i [= <-]; apply is_Some_alter; by eauto].
  destruct (pushing_not_closed (RPush s ev subs) c s x (conj H1 H2) eq_refl Hx) as [Hc Hw].
  intros i y Hi. destruct (decide (s = i)) as [<-|Hn].
  - rewrite lookup_alter_eq, Hx in Hi. simplify_eq/=. specialize (H2 _ _ Hx). simpl in H2.
    rewrite bool_decide_eq_true_2 in H2 |- * by done. unfold close_sub. rewrite Hg. simpl. rewrite Hw. simpl.
    sub_simpl; try done. congruence.
  - rewrite lookup_alter_ne in Hi by done. specialize (H2 _ _ Hi). simpl in H2.
    rewrite on_false in H2 by done. by rewrite !on_false by done.
Qed.

Lemma Subscription_push_ok s ev subs k c c' :
  c_rl c = RPush s ev subs → CellInv c → Subscription_push s ev subs k c = Some c' → CellInv c'.
Proof.
  intros Hr [H _] Hd. rewrite Hr in H. unfold Subscription_push in Hd.
  destruct (c_subs c !! s) as [x|] eqn:Hx; [|done]. simpl in Hd.
  destruct (pushing_not_closed _ _ _ _ H eq_refl Hx) as [Hc _]. rewrite Hc in Hd.
  destruct k; repeat case_in Hd; simplify_eq; try (by eapply push_timer_ok);
    (apply (leave_push_ok (RPush s ev subs)); [|done..|by left]); try done.
  - eapply cells_upd_sub_at; [done..|]. intros on w. apply sub_keeps_events. by apply Nat.ltb_lt.
  - destruct (calm_removeSubscriber (su_key x) c) as [_ Hcalm]. by apply Hcalm.
Qed.

(** The [close] called by [push] never gets past its barrier. *)
Lemma push_close_stuck s ev subs c :
  c_rl c = RCloseWait s ev subs → CellInv c → push_close_resume s ev subs c = None.
Proof.
  intros Hr [H _]. rewrite Hr in H. unfold push_close_resume.
  destruct (c_subs c !! s) as [x|] eqn:Hx; [|done]. simpl.
  destruct (pushing_not_closed _ _ _ _ H eq_refl Hx) as [_ Hw]. by rewrite Hw.
Qed.

Section steps.
Context {MO : MapOrder} {RD : RawDecode}.

Lemma client_calm_quiet c c' : calm c c' → quiet c → quiet c'.
Proof. intros [_ H]. apply H. Qed.

Lemma handleJobEvent_ok n env c : quiet c → CellInv (handleJobEvent n env c).
Proof.
  intros H. unfold handleJobEvent. repeat case_goal; auto using end_dispatch_ok, push_next_ok.
  by eapply enter_deliver_ok.
Qed.

Lemma client_dispatch_ok n env id serr c : quiet c → CellInv (client_dispatch n env id serr c).
Proof.
  intros H. unfold client_dispatch. cbv zeta.
  repeat (case_bool_decide; try (apply end_dispatch_ok; eapply client_calm_quiet; [|exact H]; apply calm_transport ||
    apply calm_handleSessionError || apply calm_handleSessionJobs || apply calm_handleJobAccepted ||
    apply calm_handleJobTerminal || apply calm_handleJobSubscribed)); simpl;
    auto using end_dispatch_ok, handleJobEvent_ok.
Qed.

Lemma readLoop_turn_ok r n id serr c : quiet c → CellInv (readLoop_turn r n id serr c).
Proof.
  intros H. unfold readLoop_turn.
  assert (∀ e, quiet (failAll e c)) as Hf by (intros; eapply client_calm_quiet; [apply calm_failAll|done]).
  repeat case_goal; try (apply quiet_free; [by repeat split|apply H || apply Hf]);
    (apply client_dispatch_ok; exact H).
Qed.

Lemma rl_select_ok k c c' : CellInv c → rl_select k c = Some c' → CellInv c'.
Proof.
  intros H Hs. unfold rl_select in Hs. destruct (c_rl c) eqn:Hr; try done;
    eauto using deliver_ok, deliverChunk_ok, Subscription_push_ok.
Qed.

End steps.

(** ** Calls of the user *)

Lemma calm_new_handle h x c :
  c_jobs c !! h = None → handle_ok false x → CellInv c → CellInv (c <| c_jobs := <[h := x]> (c_jobs c) |>).
Proof.
  intros Hn Hx [[H1 H2] [R1 R2]]. split; [split; [|done]|split; [|done]]; simpl.
  - apply map_Forall_insert_2; [|done]. rewrite bool_decide_eq_false_2; [done|].
    intros Hr. apply R1 in Hr as [? ?]. congruence.
  - intros i Hi. destruct (decide (h = i)) as [->|Hne]; [rewrite lookup_insert_eq; by eauto|].
    rewrite lookup_insert_ne by done. by apply R1.
Qed.

Lemma calm_new_sub s x c :
  c_subs c !! s = None → sub_ok false false x → CellInv c → CellInv (c <| c_subs := <[s := x]> (c_subs c) |>).
Proof.
  intros Hn Hx [[H1 H2] [R1 R2]]. split; [split; [done|]|split; [done|]]; simpl.
  - assert (rl_sub (c_rl c) ≠ Some s) as Hr by (intros Hr; apply R2 in Hr as [? ?]; congruence).
    apply map_Forall_insert_2; [|done]. rewrite (bool_decide_eq_false_2 (rl_sub _ = _)) by done.
    rewrite (bool_decide_eq_false_2 (rl_waits _ = _)); [done|]. destruct (c_rl c); simpl in *; congruence.
  - intros i Hi. destruct (decide (s = i)) as [->|Hne]; [rewrite lookup_insert_eq; by eauto|].
    rewrite lookup_insert_ne by done. by apply R2.
Qed.

Lemma new_handle_ok agent id : handle_ok false (new_handle agent id).
Proof. split; simpl; try done; try lia; try (by left). split; [done|]. by intros [[]|[]]. Qed.

Lemma new_sub_ok job key id : sub_ok false false (new_sub job key id).
Proof. split; simpl; try done; try lia. Qed.

(** An update of fields the invariant does not read. *)
Ltac keeps_record := let H := fresh in intros ? ? H; by handle_simpl.
Ltac keeps_sub_record := let H := fresh in intros ? ? ? H; by sub_simpl.

#[export] Hint Extern 2 (keeps_handle (λ x, set_field _ _)) => keeps_record : client.
#[export] Hint Extern 2 (keeps_sub (λ x, set_field _ _)) => keeps_sub_record : client.

Lemma Submit_ok input q id serr c c' : CellInv c → Submit input q id serr c = Some c' → CellInv c'.
Proof.
  intros H Hs. unfold Submit in Hs. destruct input; [|by simplify_eq].
  destruct (c_submitMu c); [done|]. cbv zeta in Hs. injection Hs as <-.
  pose proof (calm_new_handle _ _ _ (new_ref_None (c_jobs c)) (new_handle_ok (sq_Agent q) id) H) as Hn.
  set (h := new_ref (c_jobs c)) in *.
  eapply calm_inv; [|exact Hn]. destruct serr.
  - calm_step. etransitivity; [|apply calm_removePending]. by repeat calm_step.
  - by repeat calm_step.
Qed.

Lemma calm_submit_exit h e c : calm c (submit_exit h e c).
Proof. unfold submit_exit. repeat calm_step. apply calm_removePending. Qed.

Lemma Submit_select_ok k e c c' : CellInv c → Submit_select k e c = Some c' → CellInv c'.
Proof.
  intros H Hs. unfold Submit_select in Hs.
  destruct (c_submitMu c) as [h|]; [|done]. simpl in Hs. destruct (c_jobs c !! h) as [x|]; [|done]. simpl in Hs.
  eapply calm_inv; [|exact H].
  destruct k; repeat case_in Hs; simplify_eq; try apply calm_submit_exit.
  destruct (jh_acceptedCh x); [|done]. simplify_eq/=. by repeat calm_step.
Qed.

Lemma Subscribe_ok j from history id ulid serr c c' :
  CellInv c → Subscribe j from history id ulid serr c = Ok c' → CellInv c'.
Proof.
  intros H Hs. unfold Subscribe in Hs. case_in Hs; [done|]. cbv zeta in Hs. injection Hs as <-.
  pose proof (calm_new_sub _ _ _ (new_ref_None (c_subs c)) (new_sub_ok j (j +:+ ":" +:+ ulid) id) H) as Hn.
  set (s := new_ref (c_subs c)) in *.
  eapply calm_inv; [|exact Hn]. destruct serr.
  - calm_step. etransitivity; [|apply calm_removeSubscriber]. by repeat calm_step.
  - by repeat calm_step.
Qed.

Lemma calm_subscribe_exit s x e c : calm c (subscribe_exit s x e c).
Proof. unfold subscribe_exit. calm_step. apply calm_removeSubscriber. Qed.

Lemma Subscribe_select_ok s k e c c' : CellInv c → Subscribe_select s k e c = Some c' → CellInv c'.
Proof.
  intros H Hs. unfold Subscribe_select in Hs.
  destruct (c_subs c !! s) as [x|]; [|done]. simpl in Hs.
  eapply calm_inv; [|exact H].
  destruct (su_returned x); [done|].
  destruct k; repeat case_in Hs; simplify_eq; try apply calm_subscribe_exit.
  destruct (su_ackCh x); [|done]. simplify_eq/=. by repeat calm_step.
Qed.

Lemma Subscription_Close_ok s id serr c c' : CellInv c → Subscription_Close s id serr c = Some c' → CellInv c'.
Proof.
  intros H Hs. unfold Subscription_Close in Hs.
  destruct (c_subs c !! s) as [x|]; [|done]. simpl in Hs. case_in Hs; simplify_eq; [done|].
  eapply calm_inv; [|exact H]. calm_step. etransitivity; [|apply calm_removeSubscriber]. by repeat calm_step.
Qed.

Lemma ListJobs_ok q id serr c c' : CellInv c → ListJobs q id serr c = Ok c' → CellInv c'.
Proof.
  intros H Hs. unfold ListJobs in Hs. case_in Hs; [done|]. cbv zeta in Hs. injection Hs as <-.
  eapply calm_inv; [|exact H]. destruct serr; by repeat calm_step.
Qed.

Lemma ListJobs_select_ok l k e c c' : CellInv c → ListJobs_select l k e c = Some c' → CellInv c'.
Proof.
  intros H Hs. unfold ListJobs_select, list_exit in Hs.
  destruct (c_lists c !! l) as [x|]; [|done]. simpl in Hs.
  eapply calm_inv; [|exact H].
  destruct (li_returned x); [done|].
  destruct k; repeat case_in Hs; simplify_eq; try (by repeat calm_step).
  destruct (li_ch x); [|done]. simplify_eq/=. by repeat calm_step.
Qed.

Lemma close_values_ok rl h x c :
  cells_ok rl c → c_jobs c !! h = Some x →
  jh_done x && negb (jh_closed x) && (jh_deliverWG x =? 0)%nat = true →
  cells_ok rl (upd_handle h close_values c).
Proof.
  intros H Hx Hg. breflect. eapply cells_upd_handle_at; [done..|]. intros on Hok.
  unfold close_values. repeat match goal with E : jh_closed x = _ |- _ => rewrite E end.
  handle_simpl; try done. intros _. split; [done|]. by apply Nat.eqb_eq.
Qed.

Lemma close_events_ok rl s x c :
  cells_ok rl c → c_subs c !! s = Some x →
  su_done x && negb (su_closed x) && (su_pushWG x =? 0)%nat = true →
  cells_ok rl (upd_sub s close_events c).
Proof.
  intros H Hx Hg. breflect. eapply cells_upd_sub_at; [done..|]. intros on w Hok.
  unfold close_events. repeat match goal with E : su_closed x = _ |- _ => rewrite E end.
  sub_simpl; try done. intros _. split; [done|]. by apply Nat.eqb_eq.
Qed.

Lemma handle_keeps_read on (x : JobHandle) ev evs r :
  jh_events x = ev :: evs → handle_ok on x → handle_ok on (x <| jh_events := evs |> <| jh_read := r |>).
Proof. intros Hl Hx. handle_simpl; try done. rewrite Hl in *. simpl in *. lia. Qed.

Lemma handle_keeps_readChunk on (x : JobHandle) b bs r :
  jh_chunks x = b :: bs → handle_ok on x → handle_ok on (x <| jh_chunks := bs |> <| jh_chunksRead := r |>).
Proof. intros Hl Hx. handle_simpl; try done. rewrite Hl in *. simpl in *. lia. Qed.

Lemma sub_keeps_read on w (x : Subscription) ev evs r :
  su_events x = ev :: evs → sub_ok on w x → sub_ok on w (x <| su_events := evs |> <| su_read := r |>).
Proof. intros Hl Hx. sub_simpl; try done. rewrite Hl in *. simpl in *. lia. Qed.

Section preservation.
Context {MO : MapOrder} {RD : RawDecode}.

Lemma consumer_step_ok c o c' :
  CellInv c → client_step c o = Some c' →
  match o with
  | OReadEvent _ | OReadChunk _ | OReadSub _ | OHandleWake _ | OSubWake _ | OFail _ => CellInv c'
  | _ => True
  end.
Proof.
  intros H Hs. destruct o; try done; simpl in Hs; destruct H as [H R].
  - destruct (c_jobs c !! h) as [x|] eqn:Hx; [|done]. simpl in Hs. destruct (jh_events x) as [|ev evs] eqn:He; [done|].
    simplify_eq. split; [|by apply rl_ok_upd_handle]. eapply cells_upd_handle_at; [done..|].
    intros on. by eapply handle_keeps_read.
  - destruct (c_jobs c !! h) as [x|] eqn:Hx; [|done]. simpl in Hs. destruct (jh_chunks x) as [|b bs] eqn:He; [done|].
    simplify_eq. split; [|by apply rl_ok_upd_handle]. eapply cells_upd_handle_at; [done..|].
    intros on. by eapply handle_keeps_readChunk.
  - destruct (c_subs c !! s) as [x|] eqn:Hx; [|done]. simpl in Hs. destruct (su_events x) as [|ev evs] eqn:He; [done|].
    simplify_eq. split; [|by apply rl_ok_upd_sub]. eapply cells_upd_sub_at; [done..|].
    intros on w. by eapply sub_keeps_read.
  - destruct (c_jobs c !! h) as [x|] eqn:Hx; [|done]. simpl in Hs. case_in Hs; simplify_eq.
    split; [by eapply close_values_ok|by apply rl_ok_upd_handle].
  - destruct (c_subs c !! s) as [x|] eqn:Hx; [|done]. simpl in Hs. case_in Hs; simplify_eq.
    split; [by eapply close_events_ok|by apply rl_ok_upd_sub].
  - destruct (c_failing c !! i) as [[h e]|]; [|done]. simplify_eq/=.
    apply (calm_inv c); [|by split]. by repeat calm_step.
Qed.

Lemma client_Close_ok id serr c : CellInv c → CellInv (client_Close id serr c).
Proof.
  apply calm_inv. unfold client_Close. case_goal; by repeat calm_step.
Qed.

Lemma client_Close_end_ok c c' : CellInv c → client_Close_end c = Some c' → CellInv c'.
Proof.
  intros H Hs. unfold client_Close_end in Hs. destruct (c_close c); try done. case_in Hs; [|done]. simplify_eq.
  eapply calm_inv; [|exact H]. by repeat calm_step.
Qed.

Lemma ack_step_ok c o c' :
  CellInv c → client_step c o = Some c' →
  match o with
  | OTickLoad | OTickCAS _ _ | OTickStop | OAckSend _ _ _ | OAck _ _ _ | OCancel _ _ _ _ => CellInv c'
  | _ => True
  end.
Proof.
  intros H Hs. destruct o; try done; simpl in Hs; (eapply calm_inv; [|exact H]); clear H.
  - destruct (c_jobs c !! h) as [x|]; [|done]. simpl in Hs. unfold Cancel in Hs.
    case_in Hs; simplify_eq/=. apply calm_transport.
  - unfold client_Ack in Hs. repeat case_in Hs; simplify_eq/=. by apply calm_same.
  - unfold ticker_load in Hs. case_in Hs; simplify_eq. by repeat calm_step.
  - unfold ticker_cas, sendAck in Hs. repeat case_in Hs; simplify_eq; by repeat calm_step.
  - repeat case_in Hs; simplify_eq; by repeat calm_step.
  - destruct (c_ackInflight c !! i); simplify_eq/=. unfold sendAck. by repeat calm_step.
Qed.

Lemma client_step_CellInv c o c' : CellInv c → client_step c o = Some c' → CellInv c'.
Proof.
  intros H Hs. pose proof (consumer_step_ok c o c' H Hs) as H1. pose proof (ack_step_ok c o c' H Hs) as H2.
  destruct o; try done; simpl in Hs.
  - by eapply Submit_ok.
  - by eapply Submit_select_ok.
  - destruct (Subscribe _ _ _ _ _ _ _) eqn:E; simplify_eq/=. by eapply Subscribe_ok.
  - by eapply Subscribe_select_ok.
  - by eapply Subscription_Close_ok.
  - destruct (ListJobs _ _ _ _) eqn:E; simplify_eq/=. by eapply ListJobs_ok.
  - by eapply ListJobs_select_ok.
  - destruct (c_rl c) eqn:Hr; simplify_eq. apply readLoop_turn_ok. destruct H as [H _]. by rewrite Hr in H.
  - by eapply rl_select_ok.
  - destruct (c_rl c) eqn:Hr; try done. by rewrite (push_close_stuck _ _ _ _ Hr H) in Hs.
  - destruct (c_rl c) eqn:Hr; simplify_eq. unfold maybeAck_cas. cbv zeta.
    destruct H as [H _]. rewrite Hr in H.
    case_goal; (apply quiet_free; [by repeat split|exact H]).
  - simplify_eq. by apply client_Close_ok.
  - by eapply client_Close_end_ok.
Qed.

Lemma Connect_CellInv opts id serr resp c : Connect opts id serr resp = Ok c → CellInv c.
Proof.
  unfold Connect. intros H. repeat case_in H; simplify_eq/=.
  all: apply quiet_free; [by repeat split|]. all: split; intros ? ? Hl; simpl in Hl; by rewrite lookup_empty in Hl.
Qed.

Lemma reachable_CellInv c : client_reachable c → CellInv c.
Proof. induction 1; eauto using Connect_CellInv, client_step_CellInv. Qed.

End preservation.
