(* ===== verification/ClientRegistry.v ===== *)
(** * Invariants of the client: the registry of jobs

    How [pending], [pendingByID], [handles] and the lock of [Submit] fit
    together: at most one submission waits for its acceptance, a registered
    handle carries the acceptance of its job, and a submission that has left
    the queue can return. *)

From S2P Require Import Prelude GoStrings Errors Features Lease Messages Client ClientInv.
From Stdlib Require Import ZArith Lia.

(** ** The invariant *)

Record RegInv (c : Client) : Prop := {
  ri_cell : ∀ h, h ∈ c_pending c ∨ c_submitMu c = Some h → is_Some (c_jobs c !! h);
  ri_pending : c_pending c = [] ∨ ∃ h, c_pending c = [h] ∧ c_submitMu c = Some h;
  ri_unbound : ∀ h x, h ∈ c_pending c → c_jobs c !! h = Some x → jh_accepted x = None;
  ri_byid : ∀ id h, c_pendingByID c !! id = Some h →
    h ∈ c_pending c ∧ ∃ x, c_jobs c !! h = Some x ∧ jh_submitID x = id;
  ri_bound : ∀ j h, c_handles c !! j = Some h →
    ∃ x acc, c_jobs c !! h = Some x ∧ jh_accepted x = Some acc ∧ ja_JobID acc = j;
  ri_accepted : ∀ h x acc, c_jobs c !! h = Some x → jh_accepted x = Some acc → c_handles c !! ja_JobID acc = Some h;
  ri_chan : ∀ h x acc, c_jobs c !! h = Some x → jh_acceptedCh x = Some acc → c_handles c !! ja_JobID acc = Some h;
  ri_id : ∀ h x, c_jobs c !! h = Some x → jh_id x ≠ "" → c_handles c !! jh_id x = Some h;
  ri_submitID : ∀ h x, c_jobs c !! h = Some x → jh_submitID x ≠ "";
  ri_wakes : ∀ h x, c_submitMu c = Some h → c_jobs c !! h = Some x →
    h ∈ c_pending c ∨ is_Some (jh_acceptedCh x) ∨ jh_done x = true
}.

(** ** Steps that leave the registry and the queues of the cells alone *)

(** [c'] has the cells of [c], related by [R]. *)
Definition jobs_rel (R : relation JobHandle) (c c' : Client) : Prop :=
  ∀ h, option_Forall2 R (c_jobs c !! h) (c_jobs c' !! h).

#[export] Instance jobs_rel_preorder R : PreOrder R → PreOrder (jobs_rel R).
Proof.
  intros HR. split; [intros c h; reflexivity|].
  intros a b c H1 H2 h. by transitivity (c_jobs b !! h).
Qed.

Lemma jobs_rel_upd R `{!Reflexive R} h f c :
  (∀ x, c_jobs c !! h = Some x → R x (f x)) → jobs_rel R c (upd_handle h f c).
Proof.
  intros Hf i. unfold upd_handle. simpl. destruct (decide (h = i)) as [<-|Hn].
  - rewrite lookup_alter_eq. destruct (c_jobs c !! h) as [x|]; constructor. auto.
  - rewrite lookup_alter_ne by done. reflexivity.
Qed.

Lemma jobs_rel_fwd R c c' h x : jobs_rel R c c' → c_jobs c !! h = Some x → ∃ x', c_jobs c' !! h = Some x' ∧ R x x'.
Proof. intros H Hx. specialize (H h). rewrite Hx in H. inversion H; subst. by eauto. Qed.

Lemma jobs_rel_bwd R c c' h x' : jobs_rel R c c' → c_jobs c' !! h = Some x' → ∃ x, c_jobs c !! h = Some x ∧ R x x'.
Proof. intros H Hx. specialize (H h). rewrite Hx in H. inversion H; subst. by eauto. Qed.

(** What the registry and the consumers read of a handle. *)
Definition hreg (x : JobHandle) := (jh_accepted x, jh_acceptedCh x, jh_id x, jh_submitID x).
Definition hqueues (x : JobHandle) := (jh_events x, jh_chunks x, jh_read x, jh_chunksRead x, jh_since x).

(** A closed [doneCh] stays closed, and an outcome is final. *)
Definition hfinal (x x' : JobHandle) : Prop :=
  (jh_done x = true → jh_done x' = true) ∧
  (is_Some (jh_result x) ∨ is_Some (jh_err x) → jh_result x' = jh_result x ∧ jh_err x' = jh_err x).

#[export] Instance hfinal_preorder : PreOrder hfinal.
Proof.
  split; [by split|]. intros x y z [D1 F1] [D2 F2]. split; [auto|]. intros H.
  destruct (F1 H) as [Hr He]. rewrite <-Hr, <-He in H |- *. auto.
Qed.

Record hstill (x x' : JobHandle) : Prop := {
  hs_reg : hreg x' = hreg x;
  hs_queues : hqueues x' = hqueues x;
  hs_final : hfinal x x'
}.

#[export] Instance hstill_preorder : PreOrder hstill.
Proof.
  split; [by intros x; split|]. intros x y z [R1 Q1 F1] [R2 Q2 F2]. split; [congruence..|]. by transitivity y.
Qed.

(** The fields the sequence numbers and the deliveries depend on. *)
Definition scal (c : Client) :=
  (c_opts c, c_features c, c_ctxDone c, c_highSeq c, c_lastAck c, c_tick c, c_ackInflight c, c_failing c,
   c_recv c, c_rl c).
Definition reg (c : Client) := (c_handles c, c_pending c, c_pendingByID c, c_submitMu c).

Definition still (c c' : Client) : Prop := scal c' = scal c ∧ jobs_rel hstill c c'.

#[export] Instance still_preorder : PreOrder still.
Proof.
  split; [by intros c; split|]. intros a b c [S1 J1] [S2 J2]. split; [congruence|]. by transitivity b.
Qed.

Lemma still_same c c' : scal c' = scal c → c_jobs c' = c_jobs c → still c c'.
Proof. intros Hs Hj. split; [done|]. intros h. rewrite Hj. reflexivity. Qed.

Lemma still_upd h f c : (∀ x, hstill x (f x)) → still c (upd_handle h f c).
Proof. intros Hf. split; [done|]. apply jobs_rel_upd; eauto with typeclass_instances. Qed.

Lemma hstill_finish r e x : hstill x (finish_handle r e x).
Proof.
  unfold finish_handle, close_values. repeat case_goal; try (by split).
  all: split; [done..|split; [done|]]; intros Hx; breflect; simpl in *; naive_solver.
Qed.

Lemma hstill_fields x x' :
  hreg x' = hreg x → hqueues x' = hqueues x → jh_done x' = jh_done x → jh_result x' = jh_result x →
  jh_err x' = jh_err x → hstill x x'.
Proof. intros. split; [done..|]. split; [congruence|done]. Qed.

Lemma still_finish h r e c : still c (upd_handle h (finish_handle r e) c).
Proof. apply still_upd. intros. apply hstill_finish. Qed.

Lemma still_foldr {A} (f : A → Client → Client) (l : list A) c :
  (∀ x c, still c (f x c)) → still c (foldr f c l).
Proof. intros Hf. induction l as [|x l IH]; simpl; [done|]. by etransitivity. Qed.

Lemma still_fail_all e l c : still c (fail_all e l c).
Proof. apply still_foldr. intros. apply still_finish. Qed.

Lemma still_upd_sub s f c : still c (upd_sub s f c).
Proof. by apply still_same. Qed.

Lemma still_upd_list s f c : still c (upd_list s f c).
Proof. by apply still_same. Qed.

Lemma still_close_all e l c : still c (close_all e l c).
Proof. apply still_foldr. intros. apply still_upd_sub. Qed.

Lemma still_transport env serr c : still c (transport_send env serr c).
Proof. destruct serr; by apply still_same. Qed.

Ltac still_step :=
  match goal with
  | |- still ?c ?c => reflexivity
  | |- still _ (upd_handle _ (finish_handle _ _) _) => etransitivity; [|apply still_finish]
  | |- still _ (upd_handle _ (fail_handle _) _) => etransitivity; [|apply still_finish]
  | |- still _ (upd_handle _ _ _) => etransitivity; [|apply still_upd; intros; by apply hstill_fields]
  | |- still _ (upd_sub _ _ _) => etransitivity; [|apply still_upd_sub]
  | |- still _ (upd_list _ _ _) => etransitivity; [|apply still_upd_list]
  | |- still _ (fail_all _ _ _) => etransitivity; [|apply still_fail_all]
  | |- still _ (close_all _ _ _) => etransitivity; [|apply still_close_all]
  | |- still _ (transport_send _ _ _) => etransitivity; [|apply still_transport]
  | |- still _ (set_field _ ?s) => transitivity s; [|by apply still_same]
  end.

Lemma still_failAll e c : still c (failAll e c).
Proof.
  unfold failAll. cbv zeta. still_step. etransitivity; [|apply still_foldr; intros; apply still_upd_list].
  by repeat still_step.
Qed.

Lemma still_removePending h c : still c (removePending h c).
Proof. unfold removePending. by repeat case_goal; repeat still_step. Qed.

Lemma still_removeSubscriber k c : still c (client_removeSubscriber k c).
Proof. unfold client_removeSubscriber. by case_goal; repeat still_step. Qed.

Lemma still_drop_submitID h c : still c (drop_submitID h c).
Proof. unfold drop_submitID. by repeat case_goal; repeat still_step. Qed.

Lemma still_submit_exit h e c : still c (submit_exit h e c).
Proof. unfold submit_exit. repeat still_step. apply still_removePending. Qed.

Lemma still_subscribe_exit s x e c : still c (subscribe_exit s x e c).
Proof. unfold subscribe_exit. repeat still_step. apply still_removeSubscriber. Qed.

Section still.
Context {MO : MapOrder} {RD : RawDecode}.

Lemma still_routeError n req job e c : still c (routeError n req job e c).2.
Proof. unfold routeError, route_job. by repeat case_goal; simpl; repeat still_step. Qed.

Lemma still_handleSessionError n env c : still c (handleSessionError n env c).
Proof.
  unfold handleSessionError. cbv zeta.
  match goal with |- context [routeError n ?a ?b ?e c] => pose proof (still_routeError n a b e c) as H end.
  destruct (routeError _ _ _ _ _) as [[] c']; simpl in H; [done|].
  case_goal; [|done]. etransitivity; [done|apply still_failAll].
Qed.

Lemma still_handleSessionJobs env c : still c (handleSessionJobs env c).
Proof. unfold handleSessionJobs. by repeat case_goal; repeat still_step. Qed.

Lemma still_handleJobTerminal n env c : still c (handleJobTerminal n env c).
Proof.
  unfold handleJobTerminal. cbv zeta. case_bool_decide; still_step; (case_goal; [|done]); apply still_finish.
Qed.

Lemma still_handleJobSubscribed n env c : still c (handleJobSubscribed n env c).
Proof. unfold handleJobSubscribed. case_goal; [|done]. apply still_foldr. intros. apply still_upd_sub. Qed.

End still.

(** ** Preservation *)

Definition hregs (x x' : JobHandle) : Prop := hreg x' = hreg x ∧ (jh_done x = true → jh_done x' = true).

#[export] Instance hregs_preorder : PreOrder hregs.
Proof. split; [by split|]. intros x y z [R1 D1] [R2 D2]. split; [congruence|auto]. Qed.

Lemma jobs_rel_impl (R R' : relation JobHandle) c c' :
  (∀ x x', R x x' → R' x x') → jobs_rel R c c' → jobs_rel R' c c'.
Proof. intros HR H h. destruct (H h); constructor; auto. Qed.

Lemma still_regs c c' : still c c' → jobs_rel hregs c c'.
Proof. intros [_ H]. eapply jobs_rel_impl; [|done]. intros x x' [R Q F]. split; [done|apply F]. Qed.

(** The registry after a step that can only take handles out of the queue, each
    with its [doneCh] closed. *)
Lemma RegInv_shrink c c' :
  RegInv c → jobs_rel hregs c c' → c_handles c' = c_handles c → c_submitMu c' = c_submitMu c →
  (c_pending c' = c_pending c ∨ c_pending c' = []) →
  (∀ id h, c_pendingByID c' !! id = Some h → c_pendingByID c !! id = Some h ∧ h ∈ c_pending c') →
  (∀ h x, h ∈ c_pending c → h ∉ c_pending c' → c_jobs c' !! h = Some x → jh_done x = true) →
  RegInv c'.
Proof.
  intros I J Hh Hm Hp Hb Hd.
  assert (∀ h, h ∈ c_pending c' → h ∈ c_pending c) as Hsub by (intros h; destruct Hp as [-> | ->]; set_solver).
  assert (∀ h x', c_jobs c' !! h = Some x' → ∃ x, c_jobs c !! h = Some x ∧ hregs x x') as Hbk
    by (intros; by eapply jobs_rel_bwd).
  split; rewrite ?Hh, ?Hm.
  - intros h Hin. destruct (ri_cell c I h) as [x Hx]; [naive_solver|].
    destruct (jobs_rel_fwd _ _ _ _ _ J Hx) as (x' & -> & _). done.
  - destruct Hp as [-> | ->]; [apply I|by left].
  - intros h x' Hin Hx'. destruct (Hbk _ _ Hx') as (x & Hx & [R _]). injection R as -> _ _ _.
    by apply (ri_unbound c I h x); [apply Hsub|].
  - intros id h Hid. destruct (Hb _ _ Hid) as [Hid' Hin]. split; [done|].
    destruct (ri_byid c I _ _ Hid') as (_ & x & Hx & Hs). destruct (jobs_rel_fwd _ _ _ _ _ J Hx) as (x' & Hx' & [R _]).
    injection R as _ _ _ R. exists x'. split; [done|congruence].
  - intros j h Hj. destruct (ri_bound c I _ _ Hj) as (x & acc & Hx & Ha & Hid).
    destruct (jobs_rel_fwd _ _ _ _ _ J Hx) as (x' & Hx' & [R _]). injection R as R _ _ _.
    exists x', acc. split_and!; congruence.
  - intros h x' acc Hx' Ha. destruct (Hbk _ _ Hx') as (x & Hx & [R _]). injection R as R _ _ _.
    apply (ri_accepted c I h x acc Hx). congruence.
  - intros h x' acc Hx' Ha. destruct (Hbk _ _ Hx') as (x & Hx & [R _]). injection R as _ R _ _.
    apply (ri_chan c I h x acc Hx). congruence.
  - intros h x' Hx' Hn. destruct (Hbk _ _ Hx') as (x & Hx & [R _]). injection R as _ _ R _.
    rewrite R in Hn |- *. by apply (ri_id c I h x Hx).
  - intros h x' Hx'. destruct (Hbk _ _ Hx') as (x & Hx & [R _]). injection R as _ _ _ R.
    rewrite R. by apply (ri_submitID c I h x Hx).
  - intros h x' Hmu Hx'. destruct (Hbk _ _ Hx') as (x & Hx & [R D]). injection R as _ R _ _. rewrite R.
    destruct (ri_wakes c I h x Hmu Hx) as [Hin|[?|?]]; auto.
    destruct (decide (h ∈ c_pending c')) as [?|Hn]; [by left|]. right; right. by eapply Hd.
Qed.

Lemma RegInv_same c c' : RegInv c → jobs_rel hregs c c' → reg c' = reg c → RegInv c'.
Proof.
  intros I J R. injection R as Hh Hp Hb Hm. eapply RegInv_shrink; try done; [by left|..].
  - intros id h. rewrite Hb, Hp. intros Hid. split; [done|]. by apply (ri_byid c I _ _ Hid).
  - rewrite Hp. done.
Qed.

Lemma RegInv_still c c' : RegInv c → still c c' → reg c' = reg c → RegInv c'.
Proof. intros I S. apply RegInv_same; [done|by apply still_regs]. Qed.

(** [finish] closes [doneCh]. *)
Lemma finish_done on r e x : handle_ok on x → jh_done (finish_handle r e x) = true.
Proof.
  intros H. unfold finish_handle, close_values.
  destruct (bool_decide (is_Some (jh_result x)) || bool_decide (is_Some (jh_err x))) eqn:E.
  - apply (ho_done _ _ H). apply orb_true_iff in E as [E|E]; apply bool_decide_eq_true in E; auto.
  - by repeat case_goal.
Qed.

Lemma upd_finish_done rl h r e c x :
  cells_ok rl c → c_jobs (upd_handle h (finish_handle r e) c) !! h = Some x → jh_done x = true.
Proof.
  intros [H _]. unfold upd_handle. simpl. rewrite lookup_alter_eq. destruct (c_jobs c !! h) as [y|] eqn:Hy; [|done].
  intros [= <-]. eapply finish_done, (H _ _ Hy).
Qed.

Lemma fail_all_done rl e l c h x :
  cells_ok rl c → h ∈ l → c_jobs (fail_all e l c) !! h = Some x → jh_done x = true.
Proof.
  intros H Hin Hx. revert x Hx. induction l as [|i l IH]; [by apply elem_of_nil in Hin|]. intros x Hx.
  simpl in Hx. assert (cells_ok rl (fail_all e l c)) as Hc by (by apply (calm_fail_all e l c)).
  apply elem_of_cons in Hin as [<-|Hin]; [by apply (upd_finish_done rl h None (Some e) (fail_all e l c))|].
  destruct (jobs_rel_bwd hstill (fail_all e l c) _ h x (proj2 (still_finish i None (Some e) _)) Hx) as (y & Hy & S).
  apply S. by apply IH.
Qed.

Lemma failAll_jobs e c :
  c_jobs (failAll e c) = c_jobs (fail_all e (c_pending c) (fail_all e (map_to_list (c_handles c)).*2 c)).
Proof.
  unfold failAll. cbv zeta.
  assert (∀ l f c, c_jobs (foldr (λ l, upd_list l f) c l) = c_jobs c) as H1
    by (intros l f c0; induction l; simpl; [done|]; exact IHl).
  assert (∀ err l c, c_jobs (close_all err l c) = c_jobs c) as H2
    by (intros err l c0; induction l; simpl; [done|]; exact IHl).
  assert (c_pending (fail_all e (map_to_list (c_handles c)).*2 c) = c_pending c) as H3
    by (generalize (map_to_list (c_handles c)).*2; intros l; induction l; simpl; [done|]; exact IHl).
  change (c_jobs (?x <| c_listReqs := ∅ |>)) with (c_jobs x).
  simpl. rewrite H1, H2. simpl. by rewrite H3.
Qed.

Lemma failAll_reg e c : reg (failAll e c) = (c_handles c, [], ∅, c_submitMu c).
Proof.
  unfold failAll. cbv zeta.
  assert (∀ l f c, reg (foldr (λ l, upd_list l f) c l) = reg c) as H1
    by (intros l f c0; induction l; simpl; [done|]; exact IHl).
  assert (∀ err l c, reg (close_all err l c) = reg c) as H2
    by (intros err l c0; induction l; simpl; [done|]; exact IHl).
  assert (∀ l c, reg (fail_all e l c) = reg c) as H3
    by (intros l c0; induction l; simpl; [done|]; exact IHl).
  set (c1 := fail_all e _ c). set (c2 := fail_all e _ c1).
  match goal with |- reg (set_field _ (foldr _ ?x _)) = _ =>
    transitivity (reg x); [exact (H1 _ _ _)|]; unfold x || idtac end.
  rewrite H2. subst c2. unfold reg. simpl.
  pose proof (H3 (c_pending c1) c1) as E1. pose proof (H3 (map_to_list (c_handles c)).*2 c) as E2.
  unfold reg in E1, E2. fold c1 in E2. injection E1 as -> _ _ ->. by injection E2 as -> _ _ ->.
Qed.

Lemma reg_eq c a b d e :
  reg c = (a, b, d, e) → c_handles c = a ∧ c_pending c = b ∧ c_pendingByID c = d ∧ c_submitMu c = e.
Proof. by intros [= -> -> -> ->]. Qed.

Lemma failAll_RegInv rl e c : cells_ok rl c → RegInv c → RegInv (failAll e c).
Proof.
  intros Hc I. destruct (reg_eq _ _ _ _ _ (failAll_reg e c)) as (Hh & Hp & Hb & Hm).
  apply (RegInv_shrink c); try done.
  - apply still_regs, still_failAll.
  - by right.
  - intros id h. by rewrite Hb, lookup_empty.
  - intros h x Hin _ Hx. rewrite failAll_jobs in Hx.
    eapply (fail_all_done rl); [|exact Hin|exact Hx]. by apply (calm_fail_all e (map_to_list (c_handles c)).*2 c).
Qed.

Lemma remove_handle_single h : remove_handle h [h] = [].
Proof. simpl. by rewrite Nat.eqb_refl. Qed.

(** The queue is at most its one element. *)
Lemma pending_single c h : RegInv c → h ∈ c_pending c → c_pending c = [h] ∧ c_submitMu c = Some h.
Proof. intros I Hin. destruct (ri_pending c I) as [E|(h' & E & Hm)]; rewrite E in Hin; set_solver. Qed.

Lemma reg_upd_handle h f c : reg (upd_handle h f c) = reg c.
Proof. done. Qed.

(** Taking the head of the queue out and failing it. *)
Lemma take_and_fail_RegInv rl h e c c1 :
  RegInv c → h ∈ c_pending c → cells_ok rl c1 → c_jobs c1 = c_jobs c → c_handles c1 = c_handles c →
  c_submitMu c1 = c_submitMu c → c_pending c1 = [] → c_pendingByID c1 = ∅ →
  RegInv (upd_handle h (fail_handle e) c1).
Proof.
  intros I Hin Hc Hj Hh Hm Hp Hb. destruct (pending_single c h I Hin) as [Hs _].
  apply (RegInv_shrink c); try done.
  - transitivity c1; [|apply still_regs, still_finish]. intros i. rewrite Hj. reflexivity.
  - by right.
  - intros id h'. simpl. by rewrite Hb, lookup_empty.
  - intros h' x. rewrite Hs. intros ->%list_elem_of_singleton _ Hx.
    by eapply (upd_finish_done rl h None (Some e) c1).
Qed.

Lemma byID_single c h x :
  RegInv c → c_pending c = [h] → c_jobs c !! h = Some x → delete (jh_submitID x) (c_pendingByID c) = ∅.
Proof.
  intros I Hp Hx. apply map_empty. intros id. destruct (decide (jh_submitID x = id)) as [<-|Hn].
  - apply lookup_delete_eq.
  - rewrite lookup_delete_ne by done. destruct (c_pendingByID c !! id) as [h'|] eqn:E; [|done].
    destruct (ri_byid c I _ _ E) as (Hin & y & Hy & Hid). rewrite Hp in Hin.
    apply list_elem_of_singleton in Hin as ->. congruence.
Qed.

Lemma byID_empty c : RegInv c → c_pending c = [] → c_pendingByID c = ∅.
Proof.
  intros I Hp. apply map_empty. intros id. destruct (c_pendingByID c !! id) as [h|] eqn:E; [|done].
  destruct (ri_byid c I _ _ E) as [Hin _]. rewrite Hp in Hin. by apply elem_of_nil in Hin.
Qed.

Section registry.
Context {MO : MapOrder} {RD : RawDecode}.

Lemma route_job_RegInv j e c : RegInv c → RegInv (route_job j e c).2.
Proof.
  intros I. unfold route_job. repeat case_goal; try done. simpl.
  by apply (RegInv_still c); [|apply still_finish|].
Qed.

Lemma routeError_RegInv n req job e c : quiet c → RegInv c → RegInv (routeError n req job e c).2.
Proof.
  intros Hc I. unfold routeError. case_bool_decide; [by apply route_job_RegInv|].
  destruct (c_pendingByID c !! req) as [h|] eqn:Hreq.
  - destruct (ri_byid c I _ _ Hreq) as (Hin & x & Hx & Hid). destruct (pending_single c h I Hin) as [Hs _].
    simpl. set (c1 := c <| c_pendingByID := _ |> <| c_pending := _ |>).
    eapply (take_and_fail_RegInv RRecv h e c c1); try done; simpl.
    + rewrite Hs. apply remove_handle_single.
    + rewrite <-Hid. by apply (byID_single c h).
  - repeat case_goal; simpl; try (by apply route_job_RegInv); by apply (RegInv_still c); [|repeat still_step|].
Qed.

Lemma handleSessionError_RegInv n env c : quiet c → RegInv c → RegInv (handleSessionError n env c).
Proof.
  intros Hc I. unfold handleSessionError. cbv zeta.
  match goal with |- context [routeError n ?a ?b ?e c] =>
    pose proof (routeError_RegInv n a b e c Hc I) as H; pose proof (calm_routeError n a b e c) as Hq end.
  destruct (routeError _ _ _ _ _) as [[] c']; simpl in H, Hq; [done|].
  case_goal; [|done]. eapply failAll_RegInv; [|done]. by eapply client_calm_quiet.
Qed.

Lemma handleSessionJobs_RegInv env c : RegInv c → RegInv (handleSessionJobs env c).
Proof.
  intros I. apply (RegInv_still c); [done|apply still_handleSessionJobs|].
  unfold handleSessionJobs. by repeat case_goal.
Qed.

Lemma close_all_reg e l c : reg (close_all e l c) = reg c.
Proof. induction l; simpl; [done|]. exact IHl. Qed.

Lemma handleJobTerminal_RegInv n env c : RegInv c → RegInv (handleJobTerminal n env c).
Proof.
  intros I. apply (RegInv_still c); [done|apply still_handleJobTerminal|].
  unfold handleJobTerminal. cbv zeta. case_bool_decide; rewrite close_all_reg; by case_goal.
Qed.

Lemma handleJobSubscribed_RegInv n env c : RegInv c → RegInv (handleJobSubscribed n env c).
Proof.
  intros I. apply (RegInv_still c); [done|apply still_handleJobSubscribed|].
  unfold handleJobSubscribed. case_goal; [|done]. generalize (subscribersFor n c (sd_JobID a)).
  intros l. induction l; simpl; [done|]. exact IHl.
Qed.

End registry.

(** A cell of an updated heap. *)
Lemma upd_handle_lookup h f c i x :
  c_jobs (upd_handle h f c) !! i = Some x ↔
  (i = h ∧ ∃ y, c_jobs c !! h = Some y ∧ x = f y) ∨ (i ≠ h ∧ c_jobs c !! i = Some x).
Proof.
  unfold upd_handle. simpl. destruct (decide (i = h)) as [->|Hn].
  - rewrite lookup_alter_eq, fmap_Some. naive_solver.
  - rewrite lookup_alter_ne by done. naive_solver.
Qed.

(** A second acceptance for a registered job. *)
Lemma accept_again_RegInv h acc c :
  RegInv c → c_handles c !! ja_JobID acc = Some h → RegInv (upd_handle h (accept_handle acc) c).
Proof.
  intros I Hh. destruct (ri_bound c I _ _ Hh) as (x & acc0 & Hx & Ha & Hid).
  assert (h ∉ c_pending c) as Hn by (intros Hin; by rewrite (ri_unbound c I _ _ Hin Hx) in Ha).
  assert (∃ ch, accept_handle acc x = x <| jh_acceptedCh := Some ch |> ∧ c_handles c !! ja_JobID ch = Some h)
    as (ch & Hacc & Hch).
  { unfold accept_handle. rewrite Ha. destruct (jh_acceptedCh x) as [ch|] eqn:E; [|by exists acc].
    exists ch. split; [by destruct x; simplify_eq/=|]. by apply (ri_chan c I h x). }
  split; simpl.
  - intros i Hi. apply is_Some_alter. by apply I.
  - apply I.
  - intros i y Hin [(-> & _)|(Hne & Hy)]%upd_handle_lookup; [done|]. by apply (ri_unbound c I i).
  - intros id i Hi. destruct (ri_byid c I _ _ Hi) as (Hin & y & Hy & Hs). split; [done|]. exists y.
    split; [|done]. apply upd_handle_lookup. right. split; [|done]. by intros ->.
  - intros j i Hj. destruct (ri_bound c I _ _ Hj) as (y & a & Hy & Hya & Hj').
    destruct (decide (i = h)) as [->|Hne].
    + rewrite Hx in Hy. injection Hy as <-. exists (accept_handle acc x), acc0.
      split; [|rewrite Hacc; split; [done|simpl; congruence]].
      apply upd_handle_lookup. left. split; [done|]. by exists x.
    + exists y, a. split; [|done]. apply upd_handle_lookup. by right.
  - intros i y a [(-> & z & Hz & ->)|(Hne & Hy)]%upd_handle_lookup Hya; [|by eapply ri_accepted].
    rewrite Hx in Hz. injection Hz as <-. rewrite Hacc in Hya. simpl in Hya. by eapply ri_accepted.
  - intros i y a [(-> & z & Hz & ->)|(Hne & Hy)]%upd_handle_lookup Hya; [|by eapply ri_chan].
    rewrite Hx in Hz. injection Hz as <-. rewrite Hacc in Hya. by simplify_eq/=.
  - intros i y [(-> & z & Hz & ->)|(Hne & Hy)]%upd_handle_lookup Hya; [|by eapply ri_id].
    rewrite Hx in Hz. injection Hz as <-. rewrite Hacc in Hya |- *. by apply (ri_id c I h x).
  - intros i y [(-> & z & Hz & ->)|(Hne & Hy)]%upd_handle_lookup; [|by eapply ri_submitID].
    rewrite Hx in Hz. injection Hz as <-. rewrite Hacc. by apply (ri_submitID c I h x).
  - intros i y Hm [(-> & z & Hz & ->)|(Hne & Hy)]%upd_handle_lookup; [|by eapply ri_wakes].
    rewrite Hx in Hz. injection Hz as <-. rewrite Hacc. simpl. right. left. by eauto.
Qed.

(** The acceptance of the waiting submission. *)
Lemma register_RegInv h x x' acc c c' :
  RegInv c → c_pending c = [h] → c_jobs c !! h = Some x → c_handles c !! ja_JobID acc = None →
  reg c' = (<[ja_JobID acc := h]> (c_handles c), [], ∅, c_submitMu c) →
  c_jobs c' = <[h := x']> (c_jobs c) →
  jh_accepted x' = Some acc → jh_acceptedCh x' = Some acc → jh_id x' = jh_id x → jh_submitID x' = jh_submitID x →
  RegInv c'.
Proof.
  intros I Hp Hx Hnone R Hj Ha Hch Hi Hs. destruct (reg_eq _ _ _ _ _ R) as (Rh & Rp & Rb & Rm).
  assert (h ∈ c_pending c) as Hin by (rewrite Hp; set_solver).
  pose proof (ri_unbound c I h x Hin Hx) as Hacc.
  assert (∀ j, c_handles c !! j ≠ Some h) as Hunb.
  { intros j Hjh. destruct (ri_bound c I _ _ Hjh) as (y & a & ? & ? & _). congruence. }
  assert (∀ j i, c_handles c !! j = Some i → <[ja_JobID acc := h]> (c_handles c) !! j = Some i) as Hins.
  { intros j i Hji. rewrite lookup_insert_ne; [done|]. congruence. }
  assert (∀ i y, c_jobs c' !! i = Some y ↔ (i = h ∧ y = x') ∨ (i ≠ h ∧ c_jobs c !! i = Some y)) as L.
  { intros i y. rewrite Hj. rewrite lookup_insert_Some. naive_solver. }
  split; rewrite ?Rh, ?Rp, ?Rb, ?Rm.
  - intros i [Hi'|Hm]; [by apply elem_of_nil in Hi'|]. destruct (decide (i = h)) as [->|Hne].
    + exists x'. apply L. by left.
    + destruct (ri_cell c I i (or_intror Hm)) as [y Hy]. exists y. apply L. by right.
  - by left.
  - intros i y Hi'. by apply elem_of_nil in Hi'.
  - intros id i. by rewrite lookup_empty.
  - intros j i [(<- & <-)|(Hne & Hji)]%lookup_insert_Some.
    + exists x', acc. split; [|done]. apply L. by left.
    + destruct (ri_bound c I _ _ Hji) as (y & a & Hy & Hya & <-). exists y, a. split; [|done].
      apply L. right. split; [|done]. intros ->. by destruct (Hunb (ja_JobID a)).
  - intros i y a [[-> ->]|[Hne Hy]]%L Hya.
    + simplify_eq. apply lookup_insert_eq.
    + apply Hins. by eapply ri_accepted.
  - intros i y a [[-> ->]|[Hne Hy]]%L Hya.
    + simplify_eq. apply lookup_insert_eq.
    + apply Hins. by eapply ri_chan.
  - intros i y [[-> ->]|[Hne Hy]]%L Hya; apply Hins; [|by eapply ri_id].
    rewrite Hi in Hya |- *. by eapply ri_id.
  - intros i y [[-> ->]|[Hne Hy]]%L; [rewrite Hs|]; by eapply ri_submitID.
  - intros i y Hm [[-> ->]|[Hne Hy]]%L; [right; left; by eauto|].
    destruct (pending_single c h I Hin) as [_ Hm']. congruence.
Qed.

Section accepted.
Context {MO : MapOrder} {RD : RawDecode}.

Lemma drop_submitID_reg h x c c1 :
  RegInv c → c_pending c = [h] → c_jobs c !! h = Some x → c_jobs c1 = c_jobs c →
  c_pendingByID c1 = c_pendingByID c →
  reg (drop_submitID h c1) = (c_handles c1, c_pending c1, ∅, c_submitMu c1) ∧ c_jobs (drop_submitID h c1) = c_jobs c.
Proof.
  intros I Hp Hx Hj Hb. unfold drop_submitID. rewrite Hj, Hx, bool_decide_eq_false_2 by by eapply ri_submitID.
  split; [|done]. unfold reg. simpl. by rewrite Hb, (byID_single c h x).
Qed.

Lemma handleJobAccepted_RegInv env c : quiet c → RegInv c → RegInv (handleJobAccepted env c).
Proof.
  intros Hc I. unfold handleJobAccepted. destruct (decode_accepted _) as [acc|]; [|done].
  assert (∀ h rest, c_pending c = h :: rest → rest = [] ∧ ∃ x, c_jobs c !! h = Some x) as Hhead.
  { intros h rest E. destruct (pending_single c h I) as [E' _]; [rewrite E; by left|].
    rewrite E in E'. simplify_eq. split; [done|]. apply (ri_cell c I). left. rewrite E. by left. }
  case_bool_decide as Hempty.
  - destruct (c_pending c) as [|h rest] eqn:Hp; [done|]. destruct (Hhead _ _ eq_refl) as [-> [x Hx]].
    set (c1 := c <| c_pending := [] |>).
    destruct (drop_submitID_reg h x c c1 I Hp Hx eq_refl eq_refl) as [R Hj].
    destruct (reg_eq _ _ _ _ _ R) as (Rh & Rp & Rb & Rm).
    eapply (take_and_fail_RegInv RRecv h _ c); try done; [rewrite Hp; by left|].
    by eapply client_calm_quiet; [apply calm_drop_submitID|].
  - destruct (c_handles c !! ja_JobID acc) as [h|] eqn:Hh; [by apply accept_again_RegInv|].
    destruct (c_pending c) as [|h rest] eqn:Hp; [done|]. destruct (Hhead _ _ eq_refl) as [-> [x Hx]].
    set (c1 := c <| c_pending := [] |> <| c_handles := <[ja_JobID acc := h]> (c_handles c) |>).
    destruct (drop_submitID_reg h x c c1 I Hp Hx eq_refl eq_refl) as [R Hj].
    assert (jh_accepted x = None) as Ha by (apply (ri_unbound c I h); [rewrite Hp; by left|done]).
    assert (jh_acceptedCh x = None) as Hch.
    { destruct (jh_acceptedCh x) as [a|] eqn:E; [|done]. pose proof (ri_chan c I h x a Hx E) as B.
      destruct (ri_bound c I _ _ B) as (y & b & ? & ? & _). congruence. }
    eapply (register_RegInv h x (accept_handle acc (x <| jh_since := length (c_recv c) |>)) acc c); try done.
    + unfold upd_handle. simpl. rewrite Hj. by apply alter_insert_Some || (apply map_eq; intros i;
        destruct (decide (i = h)) as [->|?]; [by rewrite lookup_alter_eq, lookup_insert_eq, Hx|
        by rewrite lookup_alter_ne, lookup_insert_ne]).
    + unfold accept_handle. simpl. rewrite Ha. simpl. by rewrite Hch.
    + unfold accept_handle. simpl. rewrite Ha. simpl. by rewrite Hch.
    + unfold accept_handle. simpl. rewrite Ha. simpl. by rewrite Hch.
    + unfold accept_handle. simpl. rewrite Ha. simpl. by rewrite Hch.
Qed.

End accepted.

(** ** The read loop *)

Lemma end_dispatch_same c : c_jobs (end_dispatch c) = c_jobs c ∧ reg (end_dispatch c) = reg c.
Proof. unfold end_dispatch. by case_goal. Qed.

Lemma push_next_same ev subs c : c_jobs (push_next ev subs c) = c_jobs c ∧ reg (push_next ev subs c) = reg c.
Proof.
  induction subs as [|s subs IH]; simpl; [apply end_dispatch_same|]. by repeat case_goal.
Qed.

Lemma RegInv_jobs c c' : RegInv c → c_jobs c' = c_jobs c → reg c' = reg c → RegInv c'.
Proof. intros I Hj. apply RegInv_same; [done|]. intros h. rewrite Hj. reflexivity. Qed.

Lemma RegInv_upd h f c : RegInv c → (∀ x, c_jobs c !! h = Some x → hregs x (f x)) → RegInv (upd_handle h f c).
Proof.
  intros I Hf. apply (RegInv_same c); [done| |done]. apply jobs_rel_upd; eauto with typeclass_instances.
Qed.

Lemma RegInv_rl rl c : RegInv c → RegInv (c <| c_rl := rl |>).
Proof. intros I. by apply (RegInv_jobs c). Qed.

Lemma end_dispatch_RegInv c : RegInv c → RegInv (end_dispatch c).
Proof. intros I. destruct (end_dispatch_same c). by apply (RegInv_jobs c). Qed.

Lemma push_next_RegInv ev subs c : RegInv c → RegInv (push_next ev subs c).
Proof. intros I. destruct (push_next_same ev subs c). by apply (RegInv_jobs c). Qed.

Lemma leave_deliver_RegInv h ev subs c : RegInv c → RegInv (leave_deliver h ev subs c).
Proof. intros I. by apply push_next_RegInv, RegInv_upd. Qed.

Lemma leave_push_RegInv s ev subs c : RegInv c → RegInv (leave_push s ev subs c).
Proof. intros I. apply push_next_RegInv. by apply (RegInv_jobs c). Qed.

Lemma rl_select_RegInv k c c' : RegInv c → rl_select k c = Some c' → RegInv c'.
Proof.
  intros I Hs. unfold rl_select in Hs. destruct (c_rl c) as [|h ev subs|h b ev subs|s ev subs| | |]; try done.
  - unfold deliver in Hs. destruct (c_jobs c !! h) as [x|]; [|done]. simpl in Hs.
    destruct k; repeat case_in Hs; simplify_eq; try (by apply leave_deliver_RegInv);
      [by apply RegInv_upd| |apply leave_deliver_RegInv; by apply (RegInv_jobs c)].
    unfold after_event. case_goal; [by apply RegInv_rl, RegInv_upd|]. by apply leave_deliver_RegInv, RegInv_upd.
  - unfold deliverChunk in Hs. destruct (c_jobs c !! h) as [x|]; [|done]. simpl in Hs.
    destruct k; repeat case_in Hs; simplify_eq; try (by apply leave_deliver_RegInv);
      [by apply RegInv_upd| |apply leave_deliver_RegInv; by apply (RegInv_jobs c)].
    by apply leave_deliver_RegInv, RegInv_upd.
  - unfold Subscription_push in Hs. destruct (c_subs c !! s) as [x|]; [|done]. simpl in Hs.
    destruct k; repeat case_in Hs; simplify_eq; try (by apply leave_push_RegInv);
      try (by apply (RegInv_jobs c)); apply leave_push_RegInv; [by apply (RegInv_jobs c)|].
    unfold client_removeSubscriber. case_goal; by apply (RegInv_jobs c).
Qed.

(** ** Calls of the user *)

Lemma removePending_reg h x c c1 :
  RegInv c → c_pending c = [h] → c_jobs c !! h = Some x →
  c_jobs c1 = c_jobs c → c_pending c1 = c_pending c → c_pendingByID c1 = c_pendingByID c →
  reg (removePending h c1) = (c_handles c1, [], ∅, c_submitMu c1) ∧ c_jobs (removePending h c1) = c_jobs c.
Proof.
  intros I Hp Hx Hj Hpe Hb. unfold removePending. simpl. rewrite Hj, Hx, bool_decide_eq_false_2 by by eapply ri_submitID.
  split; [|done]. unfold reg. simpl. by rewrite Hpe, Hp, remove_handle_single, Hb, (byID_single c h x).
Qed.

(** [Submit] puts a new handle in the empty queue. *)
Lemma enqueue_RegInv agent id h c c' :
  RegInv c → id ≠ "" → c_submitMu c = None → c_jobs c !! h = None →
  reg c' = (c_handles c, [h], {[id := h]}, Some h) →
  c_jobs c' = <[h := new_handle agent id]> (c_jobs c) → RegInv c'.
Proof.
  intros I Hid Hm Hn R Hj. destruct (reg_eq _ _ _ _ _ R) as (Rh & Rp & Rb & Rm).
  assert (∀ i y, c_jobs c' !! i = Some y ↔ (i = h ∧ y = new_handle agent id) ∨ (i ≠ h ∧ c_jobs c !! i = Some y)) as L.
  { intros i y. rewrite Hj, lookup_insert_Some. naive_solver. }
  split; rewrite ?Rh, ?Rp, ?Rb, ?Rm.
  - intros i Hi. assert (i = h) as -> by set_solver. exists (new_handle agent id). apply L. by left.
  - right. by exists h.
  - intros i y ->%list_elem_of_singleton [[_ ->]|[? _]]%L; done.
  - intros id' i [<- <-]%lookup_singleton_Some. split; [by left|]. exists (new_handle agent id).
    split; [|done]. apply L. by left.
  - intros j i Hji. destruct (ri_bound c I _ _ Hji) as (y & a & Hy & Hya & Hje). exists y, a. split; [|done].
    apply L. right. split; [|done]. congruence.
  - intros i y a [[-> ->]|[Hne Hy]]%L Hya; [done|]. by eapply ri_accepted.
  - intros i y a [[-> ->]|[Hne Hy]]%L Hya; [done|]. by eapply ri_chan.
  - intros i y [[-> ->]|[Hne Hy]]%L Hya; [done|]. by eapply ri_id.
  - intros i y [[-> ->]|[Hne Hy]]%L; [done|]. by eapply ri_submitID.
  - intros i y [= <-] _. left. by left.
Qed.

(** [Submit] releases its lock when its handle has left the queue. *)
Lemma release_RegInv c c' :
  RegInv c → jobs_rel hregs c c' → reg c' = (c_handles c, [], ∅, None) → RegInv c'.
Proof.
  intros I J R. destruct (reg_eq _ _ _ _ _ R) as (Rh & Rp & Rb & Rm).
  assert (∀ h x', c_jobs c' !! h = Some x' → ∃ x, c_jobs c !! h = Some x ∧ hregs x x') as Hbk
    by (intros; by eapply jobs_rel_bwd).
  split; rewrite ?Rh, ?Rp, ?Rb, ?Rm; try done.
  - intros h [Hh|Hh]; [by apply elem_of_nil in Hh|done].
  - by left.
  - intros h x Hh. by apply elem_of_nil in Hh.
  - intros j h Hj. destruct (ri_bound c I _ _ Hj) as (x & acc & Hx & Ha & Hid).
    destruct (jobs_rel_fwd _ _ _ _ _ J Hx) as (x' & Hx' & [E _]). injection E as E _ _ _.
    exists x', acc. split_and!; congruence.
  - intros h x' acc Hx' Ha. destruct (Hbk _ _ Hx') as (x & Hx & [E _]). injection E as E _ _ _.
    apply (ri_accepted c I h x acc Hx). congruence.
  - intros h x' acc Hx' Ha. destruct (Hbk _ _ Hx') as (x & Hx & [E _]). injection E as _ E _ _.
    apply (ri_chan c I h x acc Hx). congruence.
  - intros h x' Hx' Hn. destruct (Hbk _ _ Hx') as (x & Hx & [E _]). injection E as _ _ E _.
    rewrite E in Hn |- *. by apply (ri_id c I h x Hx).
  - intros h x' Hx'. destruct (Hbk _ _ Hx') as (x & Hx & [E _]). injection E as _ _ _ E.
    rewrite E. by apply (ri_submitID c I h x Hx).
Qed.

Lemma Submit_RegInv input q id serr c c' :
  id ≠ "" → RegInv c → Submit input q id serr c = Some c' → RegInv c'.
Proof.
  intros Hid I Hs. unfold Submit in Hs. destruct input; [|by simplify_eq].
  destruct (c_submitMu c) eqn:Hm; [done|]. cbv zeta in Hs. injection Hs as <-.
  set (h := new_ref (c_jobs c)). set (c1 := c <| c_jobs := _ |> <| c_pending := _ |> <| c_pendingByID := _ |>).
  assert (c_pending c = []) as Hp by (destruct (ri_pending c I) as [?|(? & _ & ?)]; congruence).
  pose proof (byID_empty c I Hp) as Hb.
  set (c2 := c1 <| c_submitMu := Some h |>).
  assert (RegInv c2) as I2.
  { apply (enqueue_RegInv (sq_Agent q) id h c); try done; [apply new_ref_None|].
    unfold reg. simpl. by rewrite Hp, Hb. }
  destruct serr as [e|]; simpl.
  - assert (c_jobs c2 !! h = Some (new_handle (sq_Agent q) id)) as Hx by apply lookup_insert_eq.
    destruct (removePending_reg h (new_handle (sq_Agent q) id) c2 c1 I2) as [R Hj]; [simpl; by rewrite Hp|exact Hx|done..|].
    apply (release_RegInv c2); [done| |].
    + transitivity (removePending h c1); [intros i; rewrite Hj; reflexivity|].
      apply jobs_rel_upd; [apply _|]. done.
    + rewrite reg_upd_handle, R. unfold c1. simpl. by rewrite Hm.
  - by apply (RegInv_jobs c2).
Qed.

Lemma submit_exit_RegInv h e c : RegInv c → c_submitMu c = Some h → RegInv (submit_exit h e c).
Proof.
  intros I Hm. apply (release_RegInv c); [done|apply still_regs, still_submit_exit|].
  unfold submit_exit. rewrite reg_upd_handle.
  destruct (ri_pending c I) as [Hp|(h' & Hp & Hm')].
  - pose proof (byID_empty c I Hp) as Hb. unfold removePending. simpl.
    destruct (c_jobs c !! h) as [x|]; [case_goal|]; unfold reg; simpl; rewrite Hp, Hb; [done| |done].
    by rewrite delete_empty.
  - assert (h' = h) as -> by congruence. destruct (ri_cell c I h) as [x Hx]; [by right|].
    destruct (removePending_reg h x c c I Hp Hx eq_refl eq_refl eq_refl) as [R _].
    destruct (reg_eq _ _ _ _ _ R) as (Rh & Rp & Rb & Rm). unfold reg. simpl. by rewrite Rh, Rp, Rb.
Qed.

Lemma Submit_select_RegInv k e c c' : RegInv c → Submit_select k e c = Some c' → RegInv c'.
Proof.
  intros I Hs. unfold Submit_select in Hs.
  destruct (c_submitMu c) as [h|] eqn:Hm; [|done]. simpl in Hs. destruct (c_jobs c !! h) as [x|] eqn:Hx; [|done]. simpl in Hs.
  destruct k; repeat case_in Hs; simplify_eq; try (by apply submit_exit_RegInv).
  destruct (jh_acceptedCh x) as [acc|] eqn:Hch; [|done]. simplify_eq/=.
  pose proof (ri_chan c I h x acc Hx Hch) as Hh. destruct (ri_bound c I _ _ Hh) as (y & a & Hy & Hya & Hid).
  assert (c_pending c = []) as Hp.
  { destruct (ri_pending c I) as [?|(h' & Hp & Hm')]; [done|]. exfalso.
    assert (h' = h) as -> by congruence. rewrite (ri_unbound c I h y) in Hya; [done| |done]. rewrite Hp. by left. }
  pose proof (byID_empty c I Hp) as Hb.
  set (c0 := c <| c_submitMu := None |>). assert (RegInv c0) as I0.
  { apply (release_RegInv c); [done|intros i; reflexivity|]. unfold reg. simpl. by rewrite Hp, Hb. }
  set (f := λ z : JobHandle, _). split; simpl.
  - intros i [Hi|Hi]; [|done]. rewrite Hp in Hi. by apply elem_of_nil in Hi.
  - by left.
  - intros i z Hi. rewrite Hp in Hi. by apply elem_of_nil in Hi.
  - intros id i. by rewrite Hb, lookup_empty.
  - intros j i Hji. destruct (ri_bound c I _ _ Hji) as (z & b & Hz & Hzb & <-).
    destruct (decide (i = h)) as [->|Hne].
    + rewrite Hx in Hz. injection Hz as <-. exists (f x), b. split; [|done].
      apply (upd_handle_lookup h f c0). left. split; [done|]. by exists x.
    + exists z, b. split; [|done]. apply (upd_handle_lookup h f c0). by right.
  - intros i z b [(-> & w & Hw & ->)|(Hne & Hz)]%(upd_handle_lookup h f c0) Hzb; [|by eapply (ri_accepted c0)].
    by apply (ri_accepted c0 I0 h w).
  - intros i z b [(-> & w & Hw & ->)|(Hne & Hz)]%(upd_handle_lookup h f c0) Hzb; [done|by eapply (ri_chan c0)].
  - intros i z [(-> & w & Hw & ->)|(Hne & Hz)]%(upd_handle_lookup h f c0) Hzb; [|by eapply (ri_id c0)]. done.
  - intros i z [(-> & w & Hw & ->)|(Hne & Hz)]%(upd_handle_lookup h f c0); [|by eapply (ri_submitID c0)].
    by apply (ri_submitID c0 I0 h w).
  - done.
Qed.

(** ** Every step *)

Section steps.
Context {MO : MapOrder} {RD : RawDecode}.

Lemma handleJobEvent_RegInv n env c : RegInv c → RegInv (handleJobEvent n env c).
Proof.
  intros I. unfold handleJobEvent. repeat case_goal; auto using end_dispatch_RegInv, push_next_RegInv.
  by apply RegInv_rl, RegInv_upd.
Qed.

Lemma client_dispatch_RegInv n env id serr c : quiet c → RegInv c → RegInv (client_dispatch n env id serr c).
Proof.
  intros Hc I. unfold client_dispatch. cbv zeta.
  case_bool_decide; [apply end_dispatch_RegInv; destruct serr; by apply (RegInv_jobs c)|].
  case_bool_decide; [by apply end_dispatch_RegInv, handleSessionError_RegInv|].
  case_bool_decide; [by apply end_dispatch_RegInv, handleSessionJobs_RegInv|].
  case_bool_decide; [by apply end_dispatch_RegInv, handleJobAccepted_RegInv|].
  case_bool_decide; [by apply handleJobEvent_RegInv|].
  destruct (_ || _); [by apply end_dispatch_RegInv, handleJobTerminal_RegInv|].
  case_bool_decide; [by apply end_dispatch_RegInv, handleJobSubscribed_RegInv|by apply end_dispatch_RegInv].
Qed.

Lemma readLoop_turn_RegInv r n id serr c : quiet c → RegInv c → RegInv (readLoop_turn r n id serr c).
Proof.
  intros Hc I. unfold readLoop_turn. destruct r as [env|e].
  - case_goal; [apply (RegInv_jobs (failAll err_gap c)); [by eapply failAll_RegInv|done..]|].
    apply client_dispatch_RegInv; case_goal; try done; by apply (RegInv_jobs c).
  - case_goal; [by apply (RegInv_jobs c)|]. apply RegInv_rl. by eapply failAll_RegInv.
Qed.

Lemma fail_all_reg e l c : reg (fail_all e l c) = reg c.
Proof. induction l; simpl; [done|]. exact IHl. Qed.

(** The steps that only touch other fields, or the queues of a cell. *)
Lemma light_step_RegInv c o c' :
  RegInv c → client_step c o = Some c' →
  match o with
  | OSubmit _ _ _ _ | OSubmitSelect _ _ | ORecv _ _ _ _ | ORlSelect _ | ORlWake => True
  | _ => RegInv c'
  end.
Proof.
  intros I Hs. destruct o; try done; simpl in Hs.
  - unfold Subscribe in Hs. case_in Hs; [done|]. cbv zeta in Hs. injection Hs as <-.
    destruct serr; [|by apply (RegInv_jobs c)].
    unfold client_removeSubscriber. case_goal; by apply (RegInv_jobs c).
  - unfold Subscribe_select in Hs. destruct (c_subs c !! s) as [x|]; [|done]. simpl in Hs.
    destruct (su_returned x); [done|]. unfold subscribe_exit, client_removeSubscriber in Hs.
    destruct k; repeat case_in Hs; simplify_eq; try (by apply (RegInv_jobs c)).
    all: destruct (su_ackCh x); [|done]; simplify_eq/=; by apply (RegInv_jobs c).
  - unfold Subscription_Close in Hs. destruct (c_subs c !! s) as [x|]; [|done]. simpl in Hs.
    case_in Hs; simplify_eq; [done|]. unfold client_removeSubscriber.
    destruct serr; case_goal; by apply (RegInv_jobs c).
  - unfold ListJobs in Hs. case_in Hs; [done|]. cbv zeta in Hs. injection Hs as <-.
    destruct serr; by apply (RegInv_jobs c).
  - unfold ListJobs_select, list_exit in Hs. destruct (c_lists c !! l) as [x|]; [|done]. simpl in Hs.
    destruct (li_returned x); [done|].
    destruct k; repeat case_in Hs; simplify_eq; try (by apply (RegInv_jobs c)).
    destruct (li_ch x); [|done]. simplify_eq/=. by apply (RegInv_jobs c).
  - destruct (c_jobs c !! h) as [x|]; [|done]. simpl in Hs. unfold Cancel in Hs.
    case_in Hs; simplify_eq/=. destruct serr; by apply (RegInv_jobs c).
  - unfold client_Ack in Hs. repeat case_in Hs; simplify_eq/=. by apply (RegInv_jobs c).
  - destruct (c_jobs c !! h) as [x|]; [|done]. simpl in Hs. case_in Hs; simplify_eq. by apply RegInv_upd.
  - destruct (c_jobs c !! h) as [x|]; [|done]. simpl in Hs. case_in Hs; simplify_eq. by apply RegInv_upd.
  - destruct (c_subs c !! s) as [x|]; [|done]. simpl in Hs. case_in Hs; simplify_eq. by apply (RegInv_jobs c).
  - unfold maybeAck_cas in Hs. repeat case_in Hs; simplify_eq; by apply (RegInv_jobs c).
  - destruct (c_jobs c !! h) as [x|]; [|done]. simpl in Hs. case_in Hs; simplify_eq. apply RegInv_upd; [done|].
    intros y _. unfold close_values. by case_goal.
  - destruct (c_subs c !! s) as [x|]; [|done]. simpl in Hs. case_in Hs; simplify_eq. by apply (RegInv_jobs c).
  - destruct (c_failing c !! i) as [[h e]|]; [|done]. simplify_eq/=.
    apply RegInv_upd; [by apply (RegInv_jobs c)|]. intros y _.
    destruct (hstill_finish None (Some e) y) as [? _ [? _]]. by split.
  - unfold ticker_load in Hs. case_in Hs; simplify_eq. by apply (RegInv_jobs c).
  - unfold ticker_cas, sendAck in Hs. repeat case_in Hs; simplify_eq; try destruct serr; by apply (RegInv_jobs c).
  - repeat case_in Hs; simplify_eq; by apply (RegInv_jobs c).
  - destruct (c_ackInflight c !! i); simplify_eq/=. unfold sendAck. destruct serr; by apply (RegInv_jobs c).
  - simplify_eq. unfold client_Close. case_goal; [destruct serr|..]; by apply (RegInv_jobs c).
  - unfold client_Close_end in Hs. destruct (c_close c); try done. case_in Hs; [|done]. simplify_eq.
    apply (RegInv_still c); [done|by repeat still_step|].
    change (reg (close_all (Some err_client_closed) (map_to_list (c_subscribers (fail_all err_client_closed (map_to_list (c_handles c)).*2 c))).*2
      (fail_all err_client_closed (map_to_list (c_handles c)).*2 c)) = reg c).
    by rewrite close_all_reg, fail_all_reg.
Qed.

Lemma client_step_RegInv c o c' :
  CellInv c → RegInv c → op_typed o → client_step c o = Some c' → RegInv c'.
Proof.
  intros Hc I Ht Hs. pose proof (light_step_RegInv c o c' I Hs) as H. destruct o; try done; simpl in *.
  - by eapply Submit_RegInv.
  - by eapply Submit_select_RegInv.
  - destruct (c_rl c) eqn:Hr; simplify_eq. apply readLoop_turn_RegInv; [|done].
    destruct Hc as [Hc _]. by rewrite Hr in Hc.
  - by eapply rl_select_RegInv.
  - destruct (c_rl c) eqn:Hr; try done. by rewrite (push_close_stuck _ _ _ _ Hr Hc) in Hs.
Qed.

Lemma Connect_RegInv opts id serr resp c : Connect opts id serr resp = Ok c → RegInv c.
Proof.
  unfold Connect. intros H. repeat case_in H; simplify_eq/=.
  all: split; simpl; try done; try (by left); try (intros; by simplify_map_eq).
  all: intros h [Hh|Hh]; [by apply elem_of_nil in Hh|done].
Qed.

Lemma reachable_RegInv c : client_reachable c → RegInv c.
Proof.
  induction 1 as [|c o c' Hr IH Ht Hs]; [by eapply Connect_RegInv|].
  eapply client_step_RegInv; try done. by apply reachable_CellInv.
Qed.

End steps.
