(* ===== verification/ClientDelivery.v ===== *)
(** * Invariants of the client: sequence numbers and deliveries

    The high-water mark against the envelopes received, the automatic
    acknowledgements, the gap detection, and what a handle's consumer has seen
    against the events of its job. *)

From S2P Require Import Prelude GoStrings Errors Features Lease Messages Client ClientInv ClientRegistry.
From Stdlib Require Import ZArith Lia.

(** ** Sequence numbers *)

(** The event sequence numbers of a list of envelopes, and the largest. *)
Definition seqs (l : list Envelope) : list Z := filter (λ n, 0 < n)%Z (env_EventSeq <$> l).
Definition max_seq (l : list Envelope) : Z := foldr Z.max 0%Z (seqs l).

(** Every number from the first one seen up to the largest has been seen. *)
Definition gap_free (l : list Envelope) : Prop :=
  ∀ first n, head (seqs l) = Some first → (first <= n <= max_seq l)%Z → n ∈ seqs l.

Lemma seqs_snoc l env :
  seqs (l ++ [env]) = seqs l ++ (if decide (0 < env_EventSeq env)%Z then [env_EventSeq env] else []).
Proof. unfold seqs. rewrite fmap_app, filter_app. by rewrite (filter_cons _ (env_EventSeq env) []). Qed.

Lemma foldr_max_snoc (l : list Z) (z : Z) :
  (0 < z)%Z → foldr Z.max 0%Z (l ++ [z]) = Z.max (foldr Z.max 0%Z l) z.
Proof. intros Hz. induction l as [|x l IH]; simpl; [|rewrite IH]; lia. Qed.

Lemma max_seq_snoc l env :
  max_seq (l ++ [env]) = if (0 <? env_EventSeq env)%Z then Z.max (max_seq l) (env_EventSeq env) else max_seq l.
Proof.
  unfold max_seq. rewrite seqs_snoc. destruct (Z.ltb_spec 0 (env_EventSeq env)).
  - rewrite decide_True by done. by rewrite foldr_max_snoc.
  - rewrite decide_False by lia. by rewrite app_nil_r.
Qed.

Lemma max_seq_nonneg l : (0 <= max_seq l)%Z.
Proof. unfold max_seq. induction (seqs l); simpl; lia. Qed.

Lemma max_seq_bound l n : n ∈ seqs l → (n <= max_seq l)%Z.
Proof.
  unfold max_seq. induction (seqs l) as [|x k IH]; [by intros ?%elem_of_nil|].
  intros [->|Hn]%elem_of_cons; simpl; [lia|]. specialize (IH Hn). lia.
Qed.

(** A number at most one past the maximum keeps the sequence free of gaps. *)
Lemma gap_free_snoc l env :
  gap_free l → ((0 < env_EventSeq env)%Z → max_seq l = 0%Z ∨ (env_EventSeq env <= max_seq l + 1)%Z) →
  gap_free (l ++ [env]).
Proof.
  intros G Hs first n Hf Hn. rewrite max_seq_snoc in Hn. rewrite seqs_snoc in Hf |- *.
  destruct (Z.ltb_spec 0 (env_EventSeq env)) as [Hp|Hp].
  - rewrite decide_True in Hf |- * by done. specialize (Hs Hp). apply elem_of_app.
    destruct (decide (n = env_EventSeq env)) as [->|Hne]; [right; by left|]. left.
    destruct (seqs l) as [|f k] eqn:E.
    + simplify_eq/=. unfold max_seq in Hn. rewrite E in Hn. simpl in Hn. lia.
    + simplify_eq/=. rewrite <-E. apply (G first); [by rewrite E|].
      assert (first ∈ seqs l) as Hin by (rewrite E; by left).
      assert (0 < first)%Z as Hpos by (unfold seqs in Hin; apply list_elem_of_filter in Hin; lia).
      pose proof (max_seq_bound l first Hin). lia.
  - rewrite decide_False in Hf |- * by lia. rewrite app_nil_r in Hf |- *. by apply (G first).
Qed.

(** The fields the numbers live in. *)
Definition seqfields (c : Client) :=
  (c_opts c, c_highSeq c, c_lastAck c, c_tick c, c_ackInflight c, c_recv c).

Record SeqCore (c : Client) : Prop := {
  sq_high : c_highSeq c = max_seq (c_recv c);
  sq_u64 : in_u64 (c_highSeq c);
  sq_ack : (0 <= c_lastAck c <= c_highSeq c)%Z;
  sq_tick : ∀ cur last, c_tick c = TLoaded cur last → (cur <= c_highSeq c)%Z;
  sq_inflight : Forall (λ n, n <= c_lastAck c)%Z (c_ackInflight c);
  sq_gap : co_DetectSeqGaps (c_opts c) = true → gap_free (c_recv c)
}.

Definition SeqInv (c : Client) : Prop :=
  SeqCore c ∧ ∀ cur last, c_rl c = RAck cur last → cur = c_highSeq c.

Lemma SeqCore_same c c' : seqfields c' = seqfields c → SeqCore c → SeqCore c'.
Proof.
  intros E [H1 H2 H3 H4 H5 H6]. unfold seqfields in E.
  assert (c_opts c' = c_opts c ∧ c_highSeq c' = c_highSeq c ∧ c_lastAck c' = c_lastAck c ∧ c_tick c' = c_tick c ∧
          c_ackInflight c' = c_ackInflight c ∧ c_recv c' = c_recv c) as (E1 & E2 & E3 & E4 & E5 & E6)
    by (injection E; tauto).
  split; rewrite ?E1, ?E2, ?E3, ?E4, ?E5, ?E6; done.
Qed.

Lemma SeqInv_same c c' : seqfields c' = seqfields c → c_rl c' = c_rl c → SeqInv c → SeqInv c'.
Proof.
  intros E R [H1 H2]. split; [by eapply SeqCore_same|]. rewrite R. intros cur last Hr. rewrite (H2 _ _ Hr).
  by injection E.
Qed.

Lemma SeqInv_free c c' : seqfields c' = seqfields c → (∀ a b, c_rl c' ≠ RAck a b) → SeqCore c → SeqInv c'.
Proof. intros E R H. split; [by eapply SeqCore_same|]. intros a b Hr. by destruct (R a b). Qed.

Lemma scal_seqfields c c' : scal c' = scal c → seqfields c' = seqfields c ∧ c_rl c' = c_rl c.
Proof. unfold scal, seqfields. intros [=]. split; congruence. Qed.

Lemma SeqInv_still c c' : still c c' → SeqInv c → SeqInv c'.
Proof. intros [S _]. destruct (scal_seqfields c c' S). by apply SeqInv_same. Qed.

Lemma end_dispatch_SeqInv c : SeqCore c → SeqInv (end_dispatch c).
Proof.
  intros H. unfold end_dispatch. case_goal; (split; [by apply (SeqCore_same c)|]); simpl; congruence.
Qed.

Lemma push_next_SeqInv ev subs c : SeqCore c → SeqInv (push_next ev subs c).
Proof.
  intros H. induction subs as [|s subs IH]; simpl; [by apply end_dispatch_SeqInv|].
  repeat case_goal; try done. by apply (SeqInv_free c).
Qed.

Lemma leave_deliver_SeqInv h ev subs c : SeqCore c → SeqInv (leave_deliver h ev subs c).
Proof. intros H. apply push_next_SeqInv. by apply (SeqCore_same c). Qed.

Lemma leave_push_SeqInv s ev subs c : SeqCore c → SeqInv (leave_push s ev subs c).
Proof. intros H. apply push_next_SeqInv. by apply (SeqCore_same c). Qed.

Lemma rl_select_SeqInv k c c' : SeqInv c → rl_select k c = Some c' → SeqInv c'.
Proof.
  intros I Hs. pose proof (proj1 I) as H. unfold rl_select in Hs.
  destruct (c_rl c) as [|h ev subs|h b ev subs|s ev subs| | |] eqn:Hr; try done.
  - unfold deliver, after_event in Hs. destruct (c_jobs c !! h) as [x|]; [|done]. simpl in Hs.
    destruct k; repeat case_in Hs; simplify_eq; try (by apply leave_deliver_SeqInv, (SeqCore_same c));
      [by apply (SeqInv_same c)|by apply (SeqInv_free c)].
  - unfold deliverChunk in Hs. destruct (c_jobs c !! h) as [x|]; [|done]. simpl in Hs.
    destruct k; repeat case_in Hs; simplify_eq; try (by apply leave_deliver_SeqInv, (SeqCore_same c)).
    by apply (SeqInv_same c).
  - unfold Subscription_push, client_removeSubscriber in Hs. destruct (c_subs c !! s) as [x|]; [|done]. simpl in Hs.
    destruct k; repeat case_in Hs; simplify_eq; try (by apply leave_push_SeqInv, (SeqCore_same c));
      [by apply (SeqInv_same c)|by apply (SeqInv_free c)].
Qed.

Section seq.
Context {MO : MapOrder} {RD : RawDecode}.

(** The scalars of [handleJobAccepted]. *)
Lemma handleJobAccepted_scal env c : scal (handleJobAccepted env c) = scal c.
Proof. unfold handleJobAccepted, drop_submitID. by repeat case_goal. Qed.

Lemma client_dispatch_SeqInv n env id serr c : SeqCore c → SeqInv (client_dispatch n env id serr c).
Proof.
  intros H. assert (∀ c', scal c' = scal c → SeqInv (end_dispatch c')) as E.
  { intros c' S. apply end_dispatch_SeqInv. eapply SeqCore_same; [|done]. by apply scal_seqfields. }
  unfold client_dispatch. cbv zeta.
  case_bool_decide; [apply E, still_transport|].
  case_bool_decide; [apply E, still_handleSessionError|].
  case_bool_decide; [apply E, still_handleSessionJobs|].
  case_bool_decide; [apply E, handleJobAccepted_scal|].
  case_bool_decide.
  { unfold handleJobEvent. repeat case_goal; auto using end_dispatch_SeqInv, push_next_SeqInv.
    by apply (SeqInv_free c). }
  destruct (_ || _); [apply E, still_handleJobTerminal|].
  case_bool_decide; [apply E, still_handleJobSubscribed|by apply E].
Qed.

Lemma readLoop_turn_SeqInv r n id serr c :
  match r with Ok env => in_u64 (env_EventSeq env) | Err _ => True end →
  SeqCore c → SeqInv (readLoop_turn r n id serr c).
Proof.
  intros Ht H. unfold readLoop_turn.
  assert (∀ e, seqfields (failAll e c) = seqfields c) as Hf by (intros; apply scal_seqfields, still_failAll).
  destruct r as [env|e]; [|case_goal; [by apply (SeqInv_free c)|apply (SeqInv_free c); [by rewrite <-(Hf e)|done..]]].
  case_goal; [apply (SeqInv_free c); [by rewrite <-(Hf err_gap)|done..]|].
  apply client_dispatch_SeqInv. destruct H as [H1 H2 H3 H4 H5 H6]. unfold in_u64 in *. simpl.
  assert (co_DetectSeqGaps (c_opts c) = true → gap_free (c_recv c ++ [env])) as Hgap.
  { intros Hd. apply gap_free_snoc; [by apply H6|]. intros Hp. rewrite <-H1.
    destruct (Z.eq_dec (c_highSeq c) 0) as [|Hn]; [by left|right].
    unfold gap_detected in Heqb. rewrite Hd in Heqb. simpl in Heqb.
    assert (0 <? env_EventSeq env = true)%Z as E1 by by apply Z.ltb_lt.
    assert (0 <? c_highSeq c = true)%Z as E2 by (apply Z.ltb_lt; lia).
    rewrite E1, E2 in Heqb. simpl in Heqb. apply Z.ltb_ge in Heqb.
    unfold wrap_u64 in Heqb. destruct (Z.eq_dec (c_highSeq c + 1) two64) as [E|Hne].
    - rewrite E, Z.mod_same in Heqb by done. lia.
    - rewrite Z.mod_small in Heqb by lia. done. }
  destruct (Z.ltb_spec 0 (env_EventSeq env)) as [Hp|Hp], (Z.leb_spec (env_EventSeq env) (c_highSeq c)) as [Hle|Hle];
    simpl; split; simpl; rewrite ?max_seq_snoc, ?(proj2 (Z.ltb_lt _ _) Hp), ?(proj2 (Z.ltb_ge _ _) Hp), <-?H1;
    unfold in_u64; try done; try lia; intros cur last Hc; specialize (H4 _ _ Hc); lia.
Qed.

End seq.

(** ** Steps that do not move the read loop *)

(** What a consumer and the registry see of a handle. *)
Record hview (x x' : JobHandle) : Prop := {
  hv_accepted : jh_accepted x' = jh_accepted x;
  hv_events : jh_read x' ++ jh_events x' = jh_read x ++ jh_events x;
  hv_chunks : jh_chunksRead x' ++ jh_chunks x' = jh_chunksRead x ++ jh_chunks x;
  hv_since : jh_since x' = jh_since x;
  hv_final : hfinal x x'
}.

Lemma hstill_hview x x' : hstill x x' → hview x x'.
Proof. intros [R Q F]. unfold hreg, hqueues in *. split; try done; by simplify_eq; congruence. Qed.

Lemma hview_refl x : hview x x.
Proof. by split. Qed.

Lemma hview_fields x x' :
  jh_accepted x' = jh_accepted x → hqueues x' = hqueues x → jh_done x' = jh_done x → jh_result x' = jh_result x →
  jh_err x' = jh_err x → hview x x'.
Proof. intros ? Q ? ? ?. unfold hqueues in Q. split; try congruence. split; [congruence|done]. Qed.

Definition untouched (x : JobHandle) : Prop := jh_accepted x = None ∧ hqueues x = ([], [], [], [], 0).

Record light (c c' : Client) : Prop := {
  lt_fields : (c_opts c', c_recv c', c_rl c', c_handles c') = (c_opts c, c_recv c, c_rl c, c_handles c);
  lt_ctx : c_ctxDone c = true → c_ctxDone c' = true;
  lt_jobs : ∀ h x', c_jobs c' !! h = Some x' →
    (∃ x, c_jobs c !! h = Some x ∧ hview x x') ∨ c_jobs c !! h = None ∧ untouched x'
}.

Definition lfields (c : Client) := (c_opts c, c_recv c, c_rl c, c_handles c, c_ctxDone c).

Lemma light_same c c' : lfields c' = lfields c → c_jobs c' = c_jobs c → light c c'.
Proof.
  intros [= E1 E2 E3 E4 E5] Hj. split; [congruence..|]. rewrite Hj. intros h x Hx. left. exists x.
  split; [done|apply hview_refl].
Qed.

Lemma light_upd h f c c1 :
  (∀ x, c_jobs c !! h = Some x → hview x (f x)) → lfields c1 = lfields c → c_jobs c1 = c_jobs c →
  light c (upd_handle h f c1).
Proof.
  intros Hf [= E1 E2 E3 E4 E5] Hj. split; simpl; [congruence..|]. rewrite Hj. intros i y Hy. left.
  destruct (decide (i = h)) as [->|Hn].
  - rewrite lookup_alter_eq in Hy. destruct (c_jobs c !! h) as [x|] eqn:Hx; simplify_eq/=. by eauto.
  - rewrite lookup_alter_ne in Hy by done. exists y. split; [done|apply hview_refl].
Qed.

Lemma still_light c c' : still c c' → c_handles c' = c_handles c → light c c'.
Proof.
  unfold still, scal. intros [[= E1 E2 E3 E4 E5 E6 E7 E8 E9 E10] J] Hh. split; [congruence..|].
  intros h x' Hx'. left. destruct (jobs_rel_bwd _ _ _ _ _ J Hx') as (x & Hx & S). exists x.
  split; [done|by apply hstill_hview].
Qed.

Lemma removePending_jobs h c : c_jobs (removePending h c) = c_jobs c.
Proof. unfold removePending. by repeat case_goal. Qed.

Lemma removePending_fields h c :
  lfields (removePending h c) = lfields c ∧ seqfields (removePending h c) = seqfields c.
Proof. unfold removePending. by repeat case_goal. Qed.

Lemma removeSubscriber_fields k c :
  lfields (client_removeSubscriber k c) = lfields c ∧ seqfields (client_removeSubscriber k c) = seqfields c ∧
  c_jobs (client_removeSubscriber k c) = c_jobs c.
Proof. unfold client_removeSubscriber. by repeat case_goal. Qed.

Lemma Submit_light input q id serr c c' :
  Submit input q id serr c = Some c' → light c c' ∧ seqfields c' = seqfields c.
Proof.
  intros Hs. unfold Submit in Hs. destruct input; [|by simplify_eq; split; [apply light_same|]].
  destruct (c_submitMu c); [done|]. cbv zeta in Hs. injection Hs as <-.
  set (h := new_ref (c_jobs c)). pose proof (new_ref_None (c_jobs c)) as Hn. fold h in Hn.
  set (c1 := c <| c_jobs := _ |> <| c_pending := _ |> <| c_pendingByID := _ |>).
  destruct (removePending_fields h c1) as [L S]. destruct serr as [e|]; simpl.
  - split; [|exact S]. injection L as E1 E2 E3 E4 E5. split; simpl; [by rewrite E1, E2, E3, E4|by rewrite E5|].
    rewrite removePending_jobs. simpl. intros i y Hy. destruct (decide (i = h)) as [->|Hne].
    + right. rewrite lookup_alter_eq, lookup_insert_eq in Hy. by simplify_eq/=.
    + left. rewrite lookup_alter_ne, lookup_insert_ne in Hy by done. exists y. split; [done|apply hview_refl].
  - split; [|done]. split; [done..|]. simpl. intros i y [[<- <-]|[Hne Hy]]%lookup_insert_Some; [by right|].
    left. exists y. split; [done|apply hview_refl].
Qed.

Lemma Submit_select_light k e c c' :
  Submit_select k e c = Some c' → light c c' ∧ seqfields c' = seqfields c.
Proof.
  intros Hs. unfold Submit_select in Hs. destruct (c_submitMu c) as [h|]; [|done]. simpl in Hs.
  destruct (c_jobs c !! h) as [x|]; [|done]. simpl in Hs.
  assert (∀ e, light c (submit_exit h e c) ∧ seqfields (submit_exit h e c) = seqfields c) as Hex.
  { intros e'. destruct (removePending_fields h c) as [L S]. split; [|exact S].
    apply light_upd; [|exact L|apply removePending_jobs]. intros. by apply hview_fields. }
  destruct k; repeat case_in Hs; simplify_eq; try apply Hex.
  destruct (jh_acceptedCh x); [|done]. simplify_eq/=. split; [|done].
  apply light_upd; [|done..]. intros. by apply hview_fields.
Qed.

(** An update of other fields. *)
Lemma light_frame c c' :
  lfields c' = lfields c → c_jobs c' = c_jobs c → seqfields c' = seqfields c →
  light c c' ∧ seqfields c' = seqfields c.
Proof. intros. split; [by apply light_same|done]. Qed.

Ltac frame_done := by apply light_frame.

Lemma hview_close_values x : hview x (close_values x).
Proof. unfold close_values. case_goal; by apply hview_fields. Qed.

Lemma fail_all_handles e l c : c_handles (fail_all e l c) = c_handles c.
Proof. induction l; simpl; [done|]. exact IHl. Qed.

Lemma close_all_handles e l c : c_handles (close_all e l c) = c_handles c.
Proof. induction l; simpl; [done|]. exact IHl. Qed.

Lemma client_Close_end_light c c' : client_Close_end c = Some c' → light c c' ∧ seqfields c' = seqfields c.
Proof.
  intros Hs. unfold client_Close_end in Hs. destruct (c_close c); try done. case_in Hs; [|done]. simplify_eq.
  set (c1 := fail_all _ _ c). set (c2 := close_all _ _ c1).
  assert (still c c2) as S.
  { transitivity c1; [apply still_fail_all|apply still_close_all]. }
  assert (still c2 (c2 <| c_close := CloseDone |>)) as S' by by apply still_same.
  assert (c_handles c2 = c_handles c) as Hh.
  { unfold c2, c1. by rewrite close_all_handles, fail_all_handles. }
  split; [|apply scal_seqfields; apply (transitivity S S')]. apply still_light; [by transitivity c2|exact Hh].
Qed.

Section light.
Context {MO : MapOrder} {RD : RawDecode}.

(** Every step outside the read loop is light, and only the ticker and the ack
    goroutines touch the acknowledgement state. *)
Lemma light_step c o c' :
  client_step c o = Some c' →
  match o with
  | ORecv _ _ _ _ | ORlSelect _ | ORlWake | ORlAck => True
  | OTickLoad | OTickCAS _ _ | OTickStop | OAckSend _ _ _ => light c c'
  | _ => light c c' ∧ seqfields c' = seqfields c
  end.
Proof.
  intros Hs. destruct o; try done; simpl in Hs.
  - by eapply Submit_light.
  - by eapply Submit_select_light.
  - unfold Subscribe in Hs. case_in Hs; [done|]. cbv zeta in Hs. injection Hs as <-.
    destruct serr; [|frame_done]. unfold client_removeSubscriber. case_goal; frame_done.
  - unfold Subscribe_select, subscribe_exit, client_removeSubscriber in Hs.
    destruct (c_subs c !! s) as [x|]; [|done]. simpl in Hs. destruct (su_returned x); [done|].
    destruct k; repeat case_in Hs; simplify_eq; try frame_done.
    all: destruct (su_ackCh x); [|done]; simplify_eq/=; frame_done.
  - unfold Subscription_Close, client_removeSubscriber in Hs. destruct (c_subs c !! s) as [x|]; [|done]. simpl in Hs.
    case_in Hs; simplify_eq; [frame_done|]. destruct serr; case_goal; frame_done.
  - unfold ListJobs in Hs. case_in Hs; [done|]. cbv zeta in Hs. injection Hs as <-. destruct serr; frame_done.
  - unfold ListJobs_select, list_exit in Hs. destruct (c_lists c !! l) as [x|]; [|done]. simpl in Hs.
    destruct (li_returned x); [done|]. destruct k; repeat case_in Hs; simplify_eq; try frame_done.
    destruct (li_ch x); [|done]. simplify_eq/=. frame_done.
  - destruct (c_jobs c !! h) as [x|]; [|done]. simpl in Hs. unfold Cancel in Hs. case_in Hs; simplify_eq/=.
    destruct serr; frame_done.
  - unfold client_Ack in Hs. repeat case_in Hs; simplify_eq/=. frame_done.
  - destruct (c_jobs c !! h) as [x|] eqn:Hx; [|done]. simpl in Hs. destruct (jh_events x) as [|ev evs] eqn:E; simplify_eq.
    split; [|done]. apply light_upd; [|done..]. intros y Hy. simplify_eq. split; simpl; try done. by rewrite E, <-app_assoc.
  - destruct (c_jobs c !! h) as [x|] eqn:Hx; [|done]. simpl in Hs. destruct (jh_chunks x) as [|b bs] eqn:E; simplify_eq.
    split; [|done]. apply light_upd; [|done..]. intros y Hy. simplify_eq. split; simpl; try done. by rewrite E, <-app_assoc.
  - destruct (c_subs c !! s) as [x|]; [|done]. simpl in Hs. case_in Hs; simplify_eq. frame_done.
  - destruct (c_jobs c !! h) as [x|]; [|done]. simpl in Hs. case_in Hs; simplify_eq. split; [|done].
    apply light_upd; [|done..]. intros. apply hview_close_values.
  - destruct (c_subs c !! s) as [x|]; [|done]. simpl in Hs. case_in Hs; simplify_eq. frame_done.
  - destruct (c_failing c !! i) as [[h e]|]; [|done]. simplify_eq/=. split; [|done].
    apply light_upd; [|done..]. intros. apply hstill_hview, hstill_finish.
  - unfold ticker_load in Hs. case_in Hs; simplify_eq. by apply light_same.
  - unfold ticker_cas, sendAck in Hs. repeat case_in Hs; simplify_eq; try destruct serr; by apply light_same.
  - repeat case_in Hs; simplify_eq; by apply light_same.
  - destruct (c_ackInflight c !! i); simplify_eq/=. unfold sendAck. destruct serr; by apply light_same.
  - simplify_eq. unfold client_Close. case_goal; try frame_done. split; [|by destruct serr].
    destruct serr; (split; [done..|]); intros h x Hx; left; exists x; (split; [done|apply hview_refl]).
  - by eapply client_Close_end_light.
Qed.

Lemma ticker_SeqCore c o c' :
  SeqCore c → client_step c o = Some c' →
  match o with OTickLoad | OTickCAS _ _ | OTickStop | OAckSend _ _ _ => SeqCore c' | _ => True end.
Proof.
  intros H Hs. destruct o; try done; simpl in Hs.
  - unfold ticker_load in Hs. case_in Hs; simplify_eq. destruct H as [H1 H2 H3 H4 H5 H6]. split; simpl; try done.
    intros cur last [= <- <-]. lia.
  - unfold ticker_cas, sendAck in Hs. destruct (c_tick c) as [| |cur last] eqn:Ht; try done. cbv zeta in Hs.
    injection Hs as <-. destruct H as [H1 H2 H3 H4 H5 H6]. specialize (H4 _ _ Ht). case_goal.
    + breflect. simpl in *. destruct serr; split; simpl; try done; try lia;
        (eapply Forall_impl; [done|]); simpl; intros; lia.
    + by split; simpl.
  - repeat case_in Hs; simplify_eq; destruct H; by split; simpl.
  - destruct (c_ackInflight c !! i) as [seq|] eqn:E; simplify_eq/=. unfold sendAck.
    destruct H as [H1 H2 H3 H4 H5 H6]. destruct serr; (split; simpl; try done); by apply Forall_delete.
Qed.

Lemma client_step_SeqInv c o c' :
  CellInv c → SeqInv c → op_typed o → client_step c o = Some c' → SeqInv c'.
Proof.
  intros HC I Ht Hs. pose proof (light_step c o c' Hs) as L. pose proof (ticker_SeqCore c o c' (proj1 I) Hs) as T.
  assert (light c c' → seqfields c' = seqfields c → SeqInv c') as Hlight.
  { intros [Lf _ _] S. apply (SeqInv_same c); [done| |done]. by injection Lf. }
  assert (light c c' → c_highSeq c' = c_highSeq c → SeqCore c' → SeqInv c') as Htick.
  { intros [Lf _ _] S C. split; [done|]. injection Lf as _ _ R _. rewrite R, S. apply I. }
  destruct o; simpl in L, T; try (destruct L; by apply Hlight); simpl in Hs.
  - destruct (c_rl c) eqn:Hr; simplify_eq. apply readLoop_turn_SeqInv; [by destruct r|apply I].
  - by eapply rl_select_SeqInv.
  - destruct (c_rl c) eqn:Hr; try done. by rewrite (push_close_stuck _ _ _ _ Hr HC) in Hs.
  - destruct (c_rl c) as [| | | | |cur last|] eqn:Hr; simplify_eq. destruct I as [[H1 H2 H3 H4 H5 H6] Hcur].
    clear Hlight Htick. specialize (Hcur _ _ Hr) as ->. unfold maybeAck_cas. cbv zeta. split.
    + case_goal; split; simpl; try done; try lia. apply Forall_app. split; [|by repeat constructor].
      eapply Forall_impl; [done|]. simpl. intros. lia.
    + case_goal; simpl; done.
  - apply Htick; try done. unfold ticker_load in Hs. by case_in Hs; simplify_eq.
  - apply Htick; try done. unfold ticker_cas, sendAck in Hs. repeat case_in Hs; simplify_eq; by destruct serr.
  - apply Htick; try done. by repeat case_in Hs; simplify_eq.
  - apply Htick; try done. destruct (c_ackInflight c !! i); simplify_eq/=. unfold sendAck. by destruct serr.
Qed.

Lemma Connect_SeqInv opts id serr resp c : Connect opts id serr resp = Ok c → SeqInv c.
Proof.
  unfold Connect. intros H. repeat case_in H; simplify_eq/=.
  all: split; [|done]; split; simpl; unfold in_u64, two64; try done; try lia.
Qed.

Lemma reachable_SeqInv c : client_reachable c → SeqInv c.
Proof.
  induction 1 as [|c o c' Hr IH Ht Hs]; [by eapply Connect_SeqInv|].
  eapply client_step_SeqInv; try done. by apply reachable_CellInv.
Qed.

End light.
