(* ===== verification/ClientLossless.v ===== *)
(** * Invariants of the client: lossless delivery

    With no delivery timeout and while the client's context is alive, what the
    consumer of a handle has read and what is queued for it is the sequence of
    the events of its job, in order; the same for the chunks of a result. *)

From S2P Require Import Prelude GoStrings Errors Features Lease Messages Client ClientInv ClientRegistry ClientDelivery.
From Stdlib Require Import ZArith Lia.

(** ** The events of a job *)

Definition frame_event (j : string) (env : Envelope) : option JobEvent :=
  if bool_decide (env_Type env = TypeJobEvent) && bool_decide (env_JobID env = j) then
    from_result (decode_event (env_Payload env))
  else None.

Definition job_events (j : string) (l : list Envelope) : list JobEvent := omap (frame_event j) l.

(** The events of job [j] dispatched since its acceptance. *)
Definition events_since (j : string) (x : JobHandle) (recv : list Envelope) : list JobEvent :=
  job_events j (drop (jh_since x) recv).

(** What the read loop is about to send to the handle. *)
Definition flight_event (rl : readLoop_pc) (h : nat) : list JobEvent :=
  match rl with RDeliver h' ev _ => if decide (h' = h) then [ev] else [] | _ => [] end.
Definition flight_chunk (rl : readLoop_pc) (h : nat) : list ResultChunkBody :=
  match rl with
  | RDeliver h' ev _ => if decide (h' = h) then option_list (chunk_of ev) else []
  | RChunk h' b _ _ => if decide (h' = h) then [b] else []
  | _ => []
  end.

(** The handle [h] of job [j]: a prefix always, everything while it is live. *)
Record del_ok (recv : list Envelope) (rl : readLoop_pc) (h : nat) (j : string) (x : JobHandle) : Prop := {
  do_since : jh_since x ≤ length recv;
  do_events : jh_read x ++ jh_events x `prefix_of` events_since j x recv;
  do_chunks : jh_chunksRead x ++ jh_chunks x `prefix_of` omap chunk_of (events_since j x recv);
  do_live : jh_done x = false ∨ rl_handle rl = Some h →
    jh_read x ++ jh_events x ++ flight_event rl h = events_since j x recv ∧
    jh_chunksRead x ++ jh_chunks x ++ flight_chunk rl h = omap chunk_of (events_since j x recv)
}.

(** The read loop sends to registered handles only, and an unregistered handle
    has seen nothing. *)
Definition unreg_ok (rl : readLoop_pc) (h : nat) (x : JobHandle) : Prop :=
  jh_accepted x = None → hqueues x = ([], [], [], [], 0) ∧ rl_handle rl ≠ Some h.

Definition lossless_mode (c : Client) : Prop :=
  (co_EventDeliveryTimeout (c_opts c) <= 0)%Z ∧ c_ctxDone c = false.

Record DelInv (c : Client) : Prop := {
  dv_unreg : ∀ h x, c_jobs c !! h = Some x → unreg_ok (c_rl c) h x;
  dv_reg : lossless_mode c → ∀ j h x, c_handles c !! j = Some h → c_jobs c !! h = Some x →
    del_ok (c_recv c) (c_rl c) h j x
}.

(** ** Light steps *)

Lemma del_ok_hview recv rl h j x x' : hview x x' → del_ok recv rl h j x → del_ok recv rl h j x'.
Proof.
  intros [Va Ve Vc Vs [Vd _]] [D1 D2 D3 D4]. unfold events_since in *. split; unfold events_since; rewrite ?Vs.
  - done.
  - by rewrite Ve.
  - by rewrite Vc.
  - intros Hl. rewrite !app_assoc, Ve, Vc, <-!app_assoc. apply D4.
    destruct Hl as [Hl|Hl]; [left|by right]. destruct (jh_done x); [|done]. by rewrite Vd in Hl.
Qed.

Lemma DelInv_light c c' : CellInv c → RegInv c → light c c' → DelInv c → DelInv c'.
Proof.
  intros C I [Lf Lc Lj] [D1 D2]. injection Lf as Eo Er El Eh. split; rewrite El.
  - intros h x' Hx' Ha. destruct (Lj _ _ Hx') as [(x & Hx & [Va Ve Vc Vs Vd])|[Hn [_ Hq]]].
    + rewrite Va in Ha. destruct (D1 _ _ Hx Ha) as [Hq Hr]. split; [|done]. unfold hqueues in *.
      injection Hq as E1 E2 E3 E4 E5. rewrite E1, E3 in Ve. rewrite E2, E4 in Vc.
      apply app_eq_nil in Ve as [-> ->]. apply app_eq_nil in Vc as [-> ->]. by rewrite Vs, E5.
    + split; [done|]. intros Hr. destruct C as [_ [R1 _]]. apply R1 in Hr as [? ?]. congruence.
  - intros [Hm1 Hm2] j h x' Hj Hx'. rewrite Eo in Hm1. rewrite Er. rewrite Eh in Hj.
    assert (lossless_mode c) as Hm.
    { split; [done|]. destruct (c_ctxDone c) eqn:E; [|done]. by rewrite (Lc eq_refl) in Hm2. }
    destruct (Lj _ _ Hx') as [(x & Hx & V)|[Hn _]]; [by eapply del_ok_hview, D2|].
    destruct (ri_bound c I _ _ Hj) as (y & a & Hy & _). congruence.
Qed.

(** ** A new envelope *)

Lemma job_events_app j l1 l2 : job_events j (l1 ++ l2) = job_events j l1 ++ job_events j l2.
Proof. apply omap_app. Qed.

Lemma events_since_snoc j x recv env :
  jh_since x ≤ length recv →
  events_since j x (recv ++ [env]) = events_since j x recv ++ option_list (frame_event j env).
Proof.
  intros Hs. unfold events_since. rewrite drop_app_le by done. by rewrite job_events_app.
Qed.

(** The read loop is elsewhere. *)
Lemma flight_nil rl h : rl_handle rl ≠ Some h → flight_event rl h = [] ∧ flight_chunk rl h = [].
Proof. intros H. destruct rl; simpl in *; try done; rewrite !decide_False by congruence; done. Qed.

Lemma del_ok_other rl rl' recv h j x :
  rl_handle rl ≠ Some h → rl_handle rl' ≠ Some h → del_ok recv rl h j x → del_ok recv rl' h j x.
Proof.
  intros Hr Hr' [D1 D2 D3 D4]. split; [done..|]. intros [Hd|?]; [|done].
  destruct (D4 (or_introl Hd)) as [E1 E2].
  destruct (flight_nil rl h Hr) as [F1 F2]. destruct (flight_nil rl' h Hr') as [F1' F2'].
  by rewrite F1, F2 in *; rewrite F1', F2'.
Qed.

Lemma unreg_ok_free rl rl' h x : rl_handle rl' = None → unreg_ok rl h x → unreg_ok rl' h x.
Proof. intros Hr H Ha. destruct (H Ha). split; [done|congruence]. Qed.

(** An envelope that is no event of the job. *)
Lemma del_ok_skip rl recv env h j x :
  frame_event j env = None → del_ok recv rl h j x → del_ok (recv ++ [env]) rl h j x.
Proof.
  intros Hf [D1 D2 D3 D4]. rewrite <-(app_nil_r (events_since j x recv)) in *.
  assert (events_since j x (recv ++ [env]) = events_since j x recv ++ []) as E
    by (by rewrite events_since_snoc, Hf).
  split; rewrite ?E; try done. rewrite length_app. simpl. lia.
Qed.

(** An event for a handle that is done: the prefix stays. *)
Lemma del_ok_done rl recv env h j x :
  rl_handle rl = None → jh_done x = true → del_ok recv rl h j x → del_ok (recv ++ [env]) rl h j x.
Proof.
  intros Hr Hd [D1 D2 D3 D4]. split.
  - rewrite length_app. simpl. lia.
  - rewrite events_since_snoc by done. by apply prefix_app_r.
  - rewrite events_since_snoc, omap_app by done. by apply prefix_app_r.
  - intros [?|?]; congruence.
Qed.

(** An event for a live handle: it is in flight. *)
Lemma del_ok_enter rl recv env h j x ev subs n :
  rl_handle rl = None → jh_done x = false → frame_event j env = Some ev → del_ok recv rl h j x →
  del_ok (recv ++ [env]) (RDeliver h ev subs) h j (x <| jh_deliverWG := n |>).
Proof.
  intros Hr Hd Hf [D1 D2 D3 D4]. destruct (D4 (or_introl Hd)) as [E1 E2].
  destruct (flight_nil rl h) as [F1 F2]; [by rewrite Hr|].
  rewrite F1, app_nil_r in E1. rewrite F2, app_nil_r in E2.
  assert (events_since j (x <| jh_deliverWG := n |>) (recv ++ [env]) = events_since j x recv ++ [ev]) as E.
  { change (events_since j (x <| jh_deliverWG := n |>)) with (events_since j x).
    by rewrite events_since_snoc, Hf. }
  split; rewrite ?E, ?omap_app; simpl.
  - rewrite length_app. simpl. lia.
  - rewrite E1. by exists [ev].
  - rewrite E2. by eexists.
  - intros _. rewrite !decide_True by done. rewrite !app_assoc, E1, E2. split; [done|]. by destruct (chunk_of ev).
Qed.

(** ** The read loop *)

(** A state that differs in the position of the read loop, which is not at a
    handle, and in fields the invariant does not read. *)
Lemma DelInv_park c c' :
  DelInv c → rl_handle (c_rl c) = None → rl_handle (c_rl c') = None → c_jobs c' = c_jobs c →
  c_handles c' = c_handles c → c_recv c' = c_recv c → c_opts c' = c_opts c → c_ctxDone c' = c_ctxDone c → DelInv c'.
Proof.
  intros [D1 D2] R R' Hj Hh Hr Ho Hc. split; rewrite Hj.
  - intros h x Hx. eapply unreg_ok_free; [done|]. by apply D1.
  - unfold lossless_mode. rewrite Ho, Hc, Hh, Hr. intros Hm j h x Hjh Hx.
    eapply (del_ok_other (c_rl c)); [congruence|congruence|]. by apply D2.
Qed.

Lemma end_dispatch_park c :
  rl_handle (c_rl (end_dispatch c)) = None ∧ c_handles (end_dispatch c) = c_handles c ∧
  c_recv (end_dispatch c) = c_recv c ∧ c_opts (end_dispatch c) = c_opts c ∧
  c_ctxDone (end_dispatch c) = c_ctxDone c ∧ c_jobs (end_dispatch c) = c_jobs c.
Proof. unfold end_dispatch. by case_goal. Qed.

Lemma push_next_park ev subs c :
  rl_handle (c_rl (push_next ev subs c)) = None ∧ c_handles (push_next ev subs c) = c_handles c ∧
  c_recv (push_next ev subs c) = c_recv c ∧ c_opts (push_next ev subs c) = c_opts c ∧
  c_ctxDone (push_next ev subs c) = c_ctxDone c ∧ c_jobs (push_next ev subs c) = c_jobs c.
Proof. induction subs as [|s subs IH]; simpl; [apply end_dispatch_park|]. by repeat case_goal. Qed.

Lemma end_dispatch_DelInv c : DelInv c → rl_handle (c_rl c) = None → DelInv (end_dispatch c).
Proof. intros D R. destruct (end_dispatch_park c) as (? & ? & ? & ? & ? & ?). by apply (DelInv_park c). Qed.

Lemma push_next_DelInv ev subs c : DelInv c → rl_handle (c_rl c) = None → DelInv (push_next ev subs c).
Proof. intros D R. destruct (push_next_park ev subs c) as (? & ? & ? & ? & ? & ?). by apply (DelInv_park c). Qed.

(** A step of the read loop at handle [h]: it updates the cell with [f] and goes
    to a position that concerns no other handle. *)
Lemma DelInv_send h f c c' :
  DelInv c → rl_handle (c_rl c) = Some h → c_jobs c' = alter f h (c_jobs c) →
  c_handles c' = c_handles c → c_recv c' = c_recv c → c_opts c' = c_opts c → c_ctxDone c' = c_ctxDone c →
  (∀ i, i ≠ h → rl_handle (c_rl c') ≠ Some i) →
  (∀ x, c_jobs c !! h = Some x → jh_accepted (f x) = jh_accepted x ∧
     (lossless_mode c → ∀ j, del_ok (c_recv c) (c_rl c) h j x → del_ok (c_recv c) (c_rl c') h j (f x))) →
  DelInv c'.
Proof.
  intros [D1 D2] R Hj Hh Hr Ho Hc Hoth Hf. split; rewrite Hj.
  - intros i y Hy Ha. destruct (decide (i = h)) as [->|Hn].
    + rewrite lookup_alter_eq in Hy. destruct (c_jobs c !! h) as [x|] eqn:Hx; simplify_eq/=.
      destruct (Hf _ eq_refl) as [E _]. rewrite E in Ha. by destruct (D1 _ _ Hx Ha).
    + rewrite lookup_alter_ne in Hy by done. destruct (D1 _ _ Hy Ha). split; [done|by apply Hoth].
  - unfold lossless_mode. rewrite Ho, Hc, Hh, Hr. intros Hm j i y Hji Hy. destruct (decide (i = h)) as [->|Hn].
    + rewrite lookup_alter_eq in Hy. destruct (c_jobs c !! h) as [x|] eqn:Hx; simplify_eq/=.
      apply (Hf _ eq_refl); [done|]. by apply D2.
    + rewrite lookup_alter_ne in Hy by done.
      eapply (del_ok_other (c_rl c)); [rewrite R; congruence|by apply Hoth|]. by apply D2.
Qed.

Definition wg_done (x : JobHandle) : JobHandle := x <| jh_deliverWG := pred (jh_deliverWG x) |>.

(** Leaving the send after the update [f] of its cell. *)
Lemma leave_DelInv h ev subs f c c1 :
  DelInv c → rl_handle (c_rl c) = Some h → c_jobs c1 = alter f h (c_jobs c) →
  c_handles c1 = c_handles c → c_recv c1 = c_recv c → c_opts c1 = c_opts c → c_ctxDone c1 = c_ctxDone c →
  (∀ x, c_jobs c !! h = Some x → jh_accepted (f x) = jh_accepted x ∧
     (lossless_mode c → ∀ j, del_ok (c_recv c) (c_rl c) h j x → del_ok (c_recv c) RRecv h j (f x))) →
  DelInv (leave_deliver h ev subs c1).
Proof.
  intros D R Hj Hh Hr Ho Hc Hf. unfold leave_deliver.
  match goal with |- DelInv (push_next _ _ ?x) => destruct (push_next_park ev subs x) as (P1 & P2 & P3 & P4 & P5 & P6) end.
  apply (DelInv_send h (wg_done ∘ f) c); try done.
  - rewrite P6. simpl. rewrite Hj. apply alter_alter_eq.
  - by rewrite P2.
  - by rewrite P3.
  - by rewrite P4.
  - by rewrite P5.
  - by rewrite P1.
  - intros x Hx. destruct (Hf x Hx) as [Ha Hd]. split; [done|]. intros Hm j Hdel.
    apply (del_ok_other RRecv); [done|by rewrite P1|]. eapply del_ok_hview; [|by apply Hd]. by apply hview_fields.
Qed.

Lemma del_ok_leave_done recv rl h j x : jh_done x = true → del_ok recv rl h j x → del_ok recv RRecv h j x.
Proof. intros Hd [D1 D2 D3 D4]. split; [done..|]. intros [?|[=]]; congruence. Qed.

(** The event has been sent. *)
Lemma del_ok_sent recv h j x ev subs rl' :
  flight_event rl' h = [] → flight_chunk rl' h = option_list (chunk_of ev) →
  del_ok recv (RDeliver h ev subs) h j x →
  del_ok recv rl' h j (x <| jh_events := jh_events x ++ [ev] |>).
Proof.
  intros F1 F2 [D1 D2 D3 D4]. destruct D4 as [E1 E2]; [by right|]. simpl in E1, E2.
  rewrite decide_True in E1 by done. rewrite decide_True in E2 by done.
  split; simpl; change (events_since j (x <| jh_events := _ |>) recv) with (events_since j x recv).
  - done.
  - by rewrite E1.
  - done.
  - intros _. by rewrite F1, F2, app_nil_r, E1, E2.
Qed.

(** The chunk has been sent. *)
Lemma del_ok_chunk_sent recv h j x b ev subs :
  del_ok recv (RChunk h b ev subs) h j x →
  del_ok recv RRecv h j (x <| jh_chunks := jh_chunks x ++ [b] |>).
Proof.
  intros [D1 D2 D3 D4]. destruct D4 as [E1 E2]; [by right|]. simpl in E1, E2.
  rewrite !decide_True in E2 by done.
  split; simpl; change (events_since j (x <| jh_chunks := _ |>) recv) with (events_since j x recv); try done.
  - by rewrite E2.
  - intros _. by rewrite !app_nil_r in *.
Qed.

Lemma not_lossless_ctx c : c_ctxDone c = true → lossless_mode c → False.
Proof. intros H [_ H']. congruence. Qed.

Lemma not_lossless_timer c : has_timer c = true → lossless_mode c → False.
Proof. unfold has_timer. intros H [H' _]. apply Z.ltb_lt in H. lia. Qed.

Lemma alter_same {A} h (m : gmap nat A) : m = alter id h m.
Proof. symmetry. by apply alter_id. Qed.

Lemma deliver_DelInv h ev subs k c c' :
  c_rl c = RDeliver h ev subs → CellInv c → DelInv c → deliver h ev subs k c = Some c' → DelInv c'.
Proof.
  intros Hr [C _] D Hs. assert (rl_handle (c_rl c) = Some h) as R by by rewrite Hr.
  unfold deliver in Hs. destruct (c_jobs c !! h) as [x|] eqn:Hx; [|done]. simpl in Hs.
  rewrite (sending_not_closed _ _ _ _ C R Hx) in Hs.
  destruct k; try done; case_in Hs; simplify_eq.
  - unfold after_event. destruct (chunk_of ev) as [b|] eqn:Hb.
    + eapply (DelInv_send h); [exact D|exact R|reflexivity|try done..].
      * simpl. congruence.
      * intros y Hy. split; [done|]. intros _ j Hd. rewrite Hr in Hd. eapply del_ok_sent; [done| |exact Hd].
        simpl. by rewrite decide_True, Hb.
    + eapply leave_DelInv; [exact D|exact R|reflexivity|try done..].
      intros y Hy. split; [done|]. intros _ j Hd. rewrite Hr in Hd. eapply del_ok_sent; [done| |exact Hd]. by rewrite Hb.
  - eapply leave_DelInv; [exact D|exact R|apply alter_same|try done..].
    intros y Hy. split; [done|]. intros _ j Hd. eapply del_ok_leave_done; [|exact Hd]. simplify_eq. done.
  - eapply leave_DelInv; [exact D|exact R|apply alter_same|try done..].
    intros y Hy. split; [done|]. intros Hm. by destruct (not_lossless_ctx c).
  - eapply leave_DelInv; [exact D|exact R|apply alter_same|try done..].
    intros y Hy. split; [done|]. intros Hm. by destruct (not_lossless_timer c).
Qed.

Lemma deliverChunk_DelInv h b ev subs k c c' :
  c_rl c = RChunk h b ev subs → CellInv c → DelInv c → deliverChunk h b ev subs k c = Some c' → DelInv c'.
Proof.
  intros Hr [C _] D Hs. assert (rl_handle (c_rl c) = Some h) as R by by rewrite Hr.
  unfold deliverChunk in Hs. destruct (c_jobs c !! h) as [x|] eqn:Hx; [|done]. simpl in Hs.
  rewrite (sending_not_closed _ _ _ _ C R Hx) in Hs.
  destruct k; try done; case_in Hs; simplify_eq.
  - eapply leave_DelInv; [exact D|exact R|reflexivity|try done..].
    intros y Hy. split; [done|]. intros _ j Hd. rewrite Hr in Hd. by eapply del_ok_chunk_sent.
  - eapply leave_DelInv; [exact D|exact R|apply alter_same|try done..].
    intros y Hy. split; [done|]. intros _ j Hd. eapply del_ok_leave_done; [|exact Hd]. simplify_eq. done.
  - eapply leave_DelInv; [exact D|exact R|apply alter_same|try done..].
    intros y Hy. split; [done|]. intros Hm. by destruct (not_lossless_ctx c).
  - eapply leave_DelInv; [exact D|exact R|apply alter_same|try done..].
    intros y Hy. split; [done|]. intros Hm. by destruct (not_lossless_timer c).
Qed.

Section reading.
Context {MO : MapOrder} {RD : RawDecode}.

Lemma Subscription_push_DelInv s ev subs k c c' :
  c_rl c = RPush s ev subs → CellInv c → DelInv c → Subscription_push s ev subs k c = Some c' → DelInv c'.
Proof.
  intros Hr [C _] D Hs. assert (rl_handle (c_rl c) = None) as R by by rewrite Hr.
  unfold Subscription_push in Hs. destruct (c_subs c !! s) as [x|] eqn:Hx; [|done]. simpl in Hs.
  assert (rl_sub (c_rl c) = Some s) as Rs by by rewrite Hr.
  destruct (pushing_not_closed _ _ _ _ C Rs Hx) as [Hc _]. rewrite Hc in Hs.
  unfold leave_push, client_removeSubscriber in Hs.
  destruct k; repeat case_in Hs; simplify_eq; try (apply push_next_DelInv; [by apply (DelInv_park c)|done]).
  by apply (DelInv_park c).
Qed.

(** An envelope that is not an event. *)
Lemma recv_other_DelInv env c c1 :
  DelInv c → rl_handle (c_rl c) = None → (∀ j, frame_event j env = None) →
  c_recv c1 = c_recv c ++ [env] → c_jobs c1 = c_jobs c → c_handles c1 = c_handles c → c_opts c1 = c_opts c →
  c_ctxDone c1 = c_ctxDone c → c_rl c1 = c_rl c → DelInv c1.
Proof.
  intros [D1 D2] R Hf Hr Hj Hh Ho Hc Hl. split; rewrite Hj, Hl; [done|].
  unfold lossless_mode. rewrite Ho, Hc, Hh, Hr. intros Hm j h x Hjh Hx. apply del_ok_skip; [done|]. by apply D2.
Qed.

(** The registration of the accepted handle. *)
Lemma register_DelInv h x acc c c' :
  RegInv c → DelInv c → rl_handle (c_rl c) = None → c_rl c' = c_rl c → c_jobs c !! h = Some x → jh_accepted x = None →
  c_handles c' = <[ja_JobID acc := h]> (c_handles c) → c_recv c' = c_recv c → c_opts c' = c_opts c →
  c_ctxDone c' = c_ctxDone c →
  c_jobs c' = alter (λ x, accept_handle acc (x <| jh_since := length (c_recv c) |>)) h (c_jobs c) → DelInv c'.
Proof.
  intros I [D1 D2] R Hl Hx Ha Hh Hr Ho Hc Hj.
  set (f := λ x, accept_handle acc (x <| jh_since := length (c_recv c) |>)) in *.
  destruct (D1 _ _ Hx Ha) as [Hq _]. injection Hq as E1 E2 E3 E4 E5.
  assert (jh_accepted (f x) = Some acc ∧ hqueues (f x) = ([], [], [], [], length (c_recv c))) as [Fa Fq].
  { unfold f, accept_handle, hqueues. simpl. rewrite Ha. simpl. by case_goal; simpl; rewrite E1, E2, E3, E4. }
  split; rewrite Hj, Hl.
  - intros i y Hy. destruct (decide (i = h)) as [->|Hn].
    + rewrite lookup_alter_eq, Hx in Hy. injection Hy as <-. intros ?. congruence.
    + rewrite lookup_alter_ne in Hy by done. by apply D1.
  - unfold lossless_mode. rewrite Ho, Hc, Hh, Hr. intros Hm j i y Hji Hy. destruct (decide (i = h)) as [->|Hn].
    + rewrite lookup_alter_eq, Hx in Hy. injection Hy as <-. unfold hqueues in Fq. injection Fq as F1 F2 F3 F4 F5.
      assert (events_since j (f x) (c_recv c) = []) as Ev by (unfold events_since; by rewrite F5, drop_all).
      destruct (flight_nil (c_rl c) h) as [G1 G2]; [by rewrite R|].
      split; rewrite ?F5, ?Ev, ?F1, ?F2, ?F3, ?F4, ?G1, ?G2; done.
    + rewrite lookup_alter_ne in Hy by done. apply lookup_insert_Some in Hji as [[_ ?]|[_ Hji]]; [done|]. by apply D2.
Qed.

Lemma handleJobAccepted_DelInv env c :
  CellInv c → RegInv c → DelInv c → rl_handle (c_rl c) = None → DelInv (handleJobAccepted env c).
Proof.
  intros C I D R. unfold handleJobAccepted. destruct (decode_accepted _) as [acc|]; [|done].
  case_bool_decide.
  - destruct (c_pending c) as [|h rest]; [done|]. apply (DelInv_light c); try done.
    apply light_upd; unfold drop_submitID; [intros; apply hstill_hview, hstill_finish|by repeat case_goal..].
  - destruct (c_handles c !! ja_JobID acc) as [h|] eqn:Hh.
    + apply (DelInv_light c); try done. apply light_upd; [|done..]. intros x Hx.
      destruct (ri_bound c I _ _ Hh) as (y & a & Hy & Ha & _). simplify_eq.
      unfold accept_handle. rewrite Ha. case_goal; by apply hview_fields.
    + destruct (c_pending c) as [|h rest] eqn:Hp; [done|].
      assert (h ∈ c_pending c) as Hin by (rewrite Hp; by left).
      destruct (ri_cell c I h (or_introl Hin)) as [x Hx].
      apply (register_DelInv h x acc c); try done; unfold drop_submitID; try (by repeat case_goal).
      by apply (ri_unbound c I h).
Qed.

(** An event, from the state before it was received. *)
Lemma handleJobEvent_DelInv n env c c1 :
  RegInv c → DelInv c → rl_handle (c_rl c) = None → env_Type env = TypeJobEvent →
  c_recv c1 = c_recv c ++ [env] → c_jobs c1 = c_jobs c → c_handles c1 = c_handles c → c_opts c1 = c_opts c →
  c_ctxDone c1 = c_ctxDone c → c_rl c1 = c_rl c → DelInv (handleJobEvent n env c1).
Proof.
  intros I D R Ht Hr Hj Hh Ho Hc Hl. unfold handleJobEvent.
  assert (∀ j, frame_event j env =
    if bool_decide (env_JobID env = j) then from_result (decode_event (env_Payload env)) else None) as Hf.
  { intros j. unfold frame_event. by rewrite (bool_decide_eq_true_2 (env_Type env = _)). }
  destruct (decode_event (env_Payload env)) as [ev|] eqn:Hd; simpl in Hf.
  2:{ apply end_dispatch_DelInv; [|by rewrite Hl]. eapply (recv_other_DelInv env c); try done.
      intros j. rewrite Hf. by case_bool_decide. }
  destruct D as [D1 D2]. cbv zeta. set (subs := subscribersFor n c1 (env_JobID env)).
  assert ((∀ h x, c_handles c !! env_JobID env = Some h → c_jobs c !! h = Some x → jh_done x = true) → DelInv c1) as Hquiet.
  { intros Hdone. split; rewrite Hj, Hl; [done|]. unfold lossless_mode. rewrite Ho, Hc, Hh, Hr.
    intros Hm j h x Hjh Hx. destruct (decide (env_JobID env = j)) as [<-|Hne].
    - apply del_ok_done; [done|by eapply Hdone|by apply D2].
    - apply del_ok_skip; [by rewrite Hf, bool_decide_eq_false_2|by apply D2]. }
  rewrite Hh, Hj. destruct (c_handles c !! env_JobID env) as [h|] eqn:Hjob.
  2:{ apply push_next_DelInv; [|by rewrite Hl]. apply Hquiet. done. }
  destruct (c_jobs c !! h) as [x|] eqn:Hx.
  2:{ apply push_next_DelInv; [|by rewrite Hl]. apply Hquiet. intros. simplify_eq. }
  destruct (jh_done x) eqn:Hdx.
  { apply push_next_DelInv; [|by rewrite Hl]. apply Hquiet. intros. by simplify_eq. }
  destruct (ri_bound c I _ _ Hjob) as (y & a & Hy & Ha & Hid). rewrite Hx in Hy. injection Hy as <-.
  split; simpl; rewrite Hj.
  - intros i z Hz Hza. destruct (decide (i = h)) as [->|Hn].
    + rewrite lookup_alter_eq, Hx in Hz. injection Hz as <-. simpl in Hza. congruence.
    + rewrite lookup_alter_ne in Hz by done. destruct (D1 _ _ Hz Hza). split; [done|]. simpl. congruence.
  - unfold lossless_mode. simpl. rewrite Ho, Hc, Hh, Hr. intros Hm j i z Hji Hz.
    destruct (decide (i = h)) as [->|Hn].
    + rewrite lookup_alter_eq, Hx in Hz. injection Hz as <-.
      destruct (ri_bound c I _ _ Hji) as (w & b & Hw & Hb & Hjj). assert (j = env_JobID env) as -> by congruence.
      apply (del_ok_enter (c_rl c)); [done|done|by rewrite Hf, bool_decide_eq_true_2|by apply D2].
    + rewrite lookup_alter_ne in Hz by done.
      apply (del_ok_other (c_rl c)); [congruence|simpl; congruence|].
      apply del_ok_skip; [|by apply D2]. rewrite Hf, bool_decide_eq_false_2; [done|]. congruence.
Qed.

End reading.

(** ** Every step *)

Section every.
Context {MO : MapOrder} {RD : RawDecode}.

Lemma routeError_handles n req job e c : c_handles (routeError n req job e c).2 = c_handles c.
Proof. unfold routeError, route_job. by repeat case_goal. Qed.

Lemma handleSessionError_handles n env c : c_handles (handleSessionError n env c) = c_handles c.
Proof.
  unfold handleSessionError. cbv zeta.
  match goal with |- context [routeError n ?a ?b ?e c] => pose proof (routeError_handles n a b e c) as H end.
  destruct (routeError _ _ _ _ _) as [[] c']; simpl in H; [done|]. case_goal; [|done].
  rewrite <-H. apply (reg_eq _ _ _ _ _ (failAll_reg _ c')).
Qed.

Lemma handleJobTerminal_handles n env c : c_handles (handleJobTerminal n env c) = c_handles c.
Proof. unfold handleJobTerminal. cbv zeta. case_bool_decide; rewrite close_all_handles; by case_goal. Qed.

Lemma handleJobSubscribed_handles n env c : c_handles (handleJobSubscribed n env c) = c_handles c.
Proof.
  unfold handleJobSubscribed. case_goal; [|done]. generalize (subscribersFor n c (sd_JobID a)). intros l.
  induction l; simpl; [done|]. exact IHl.
Qed.

Lemma handleSessionJobs_handles env c : c_handles (handleSessionJobs env c) = c_handles c.
Proof. unfold handleSessionJobs. by repeat case_goal. Qed.

Lemma client_dispatch_DelInv n env id serr c c1 :
  quiet c → rl_free (c_rl c) → RegInv c → DelInv c →
  c_recv c1 = c_recv c ++ [env] → c_jobs c1 = c_jobs c → c_subs c1 = c_subs c → reg c1 = reg c → c_opts c1 = c_opts c →
  c_ctxDone c1 = c_ctxDone c → c_rl c1 = c_rl c → DelInv (client_dispatch n env id serr c1).
Proof.
  intros Q F I D Hr Hj Hs Hg Ho Hc Hl. pose proof (proj1 F) as R.
  assert (RegInv c1) as I1 by by apply (RegInv_jobs c).
  assert (CellInv c1) as C1.
  { apply (calm_inv c); [by apply calm_same|]. by apply quiet_free. }
  assert (c_handles c1 = c_handles c) as Hh by by injection Hg.
  assert (env_Type env ≠ TypeJobEvent → DelInv c1) as D1.
  { intros Ht. apply (recv_other_DelInv env c); try done. intros j. unfold frame_event.
    by rewrite bool_decide_eq_false_2. }
  assert (∀ c', env_Type env ≠ TypeJobEvent → still c1 c' → c_handles c' = c_handles c1 → DelInv (end_dispatch c')) as E.
  { intros c' Ht S Hh'. apply end_dispatch_DelInv.
    - apply (DelInv_light c1); [done..|by apply still_light|by apply D1].
    - destruct S as [S _]. destruct (scal_seqfields _ _ S) as [_ ->]. by rewrite Hl. }
  unfold client_dispatch. cbv zeta.
  case_bool_decide as E1; [apply E; [by rewrite E1|apply still_transport|by destruct serr]|].
  case_bool_decide as E2; [apply E; [by rewrite E2|apply still_handleSessionError|apply handleSessionError_handles]|].
  case_bool_decide as E3; [apply E; [by rewrite E3|apply still_handleSessionJobs|apply handleSessionJobs_handles]|].
  case_bool_decide as E4.
  { apply end_dispatch_DelInv.
    - apply handleJobAccepted_DelInv; [done..| |by rewrite Hl]. apply D1. by rewrite E4.
    - destruct (scal_seqfields _ _ (handleJobAccepted_scal env c1)) as [_ ->]. by rewrite Hl. }
  case_bool_decide as E5; [by apply (handleJobEvent_DelInv n env c)|].
  destruct (_ || _); [apply E; [done|apply still_handleJobTerminal|apply handleJobTerminal_handles]|].
  case_bool_decide; [apply E; [done|apply still_handleJobSubscribed|apply handleJobSubscribed_handles]|by apply E].
Qed.

Lemma failAll_DelInv e c : CellInv c → RegInv c → DelInv c → DelInv (failAll e c).
Proof.
  intros C I D. apply (DelInv_light c); try done. apply still_light; [apply still_failAll|].
  apply (reg_eq _ _ _ _ _ (failAll_reg e c)).
Qed.

Lemma readLoop_turn_DelInv r n id serr c :
  CellInv c → c_rl c = RRecv → RegInv c → DelInv c → DelInv (readLoop_turn r n id serr c).
Proof.
  intros C Hr I D. assert (rl_free (c_rl c)) as F by (rewrite Hr; apply rl_free_RRecv).
  assert (∀ e, c_rl (failAll e c) = RRecv) as Hf.
  { intros e. destruct (scal_seqfields _ _ (proj1 (still_failAll e c))) as [_ ->]. done. }
  unfold readLoop_turn. destruct r as [env|e].
  - case_goal.
    + split; simpl.
      * intros h x Hx Ha. eapply (unreg_ok_free (c_rl (failAll err_gap c))); [done| |done].
        by apply (dv_unreg _ (failAll_DelInv err_gap c C I D)).
      * intros [_ [=]].
    + apply (client_dispatch_DelInv n env id serr c); try done; try (by case_goal). by apply CellInv_quiet.
  - case_goal; [by apply (DelInv_park c); [|rewrite Hr|..]|].
    apply (DelInv_park (failAll e c)); try done; [by apply failAll_DelInv|by rewrite Hf].
Qed.

Lemma client_step_DelInv c o c' :
  CellInv c → RegInv c → DelInv c → client_step c o = Some c' → DelInv c'.
Proof.
  intros C I D Hs. pose proof (light_step c o c' Hs) as L.
  destruct o; simpl in L; try (destruct L; by apply (DelInv_light c)); try (by apply (DelInv_light c)); simpl in Hs.
  - destruct (c_rl c) eqn:Hr; simplify_eq. by apply readLoop_turn_DelInv.
  - unfold rl_select in Hs. destruct (c_rl c) eqn:Hr; try done.
    + by eapply deliver_DelInv.
    + by eapply deliverChunk_DelInv.
    + by eapply Subscription_push_DelInv.
  - destruct (c_rl c) eqn:Hr; try done. by rewrite (push_close_stuck _ _ _ _ Hr C) in Hs.
  - destruct (c_rl c) eqn:Hr; simplify_eq. unfold maybeAck_cas. cbv zeta.
    case_goal; (apply (DelInv_park c); try done; by rewrite Hr).
Qed.

Lemma Connect_DelInv opts id serr resp c : Connect opts id serr resp = Ok c → DelInv c.
Proof.
  unfold Connect. intros H. repeat case_in H; simplify_eq/=.
  all: split; simpl; intros; simplify_map_eq.
Qed.

Lemma reachable_DelInv c : client_reachable c → DelInv c.
Proof.
  induction 1 as [|c o c' Hr IH Ht Hs]; [by eapply Connect_DelInv|].
  eapply client_step_DelInv; try done; [by apply reachable_CellInv|by apply reachable_RegInv].
Qed.

End every.
