(* ===== verification/ClientLiveness.v ===== *)
(** * The client: waking and closing

    What ends the waits of the client: a failed transport resolves every waiter,
    [Close] returns from every state but one, and that one, a [push] that called
    [close] on its own subscription, never moves again. *)

From S2P Require Import Prelude GoStrings Errors Features Lease Messages Client ClientInv ClientRegistry ClientDelivery ClientLossless.
From Stdlib Require Import ZArith Lia.

Section liveness.
Context {MO : MapOrder} {RD : RawDecode}.

(** ** Steps the program takes on its own

    Once the context of the client is cancelled [Recv] returns its error, and
    nothing else is needed from outside. *)
Definition internal (o : client_op) : Prop :=
  match o with
  | ORecv r _ _ _ => r = Err ctx_Canceled
  | ORlSelect _ | ORlWake | ORlAck | OTickLoad | OTickCAS _ _ | OTickStop | OAckSend _ _ _ | OCloseEnd => True
  | _ => False
  end.

Definition internal_step (c c' : Client) : Prop := ∃ o, internal o ∧ client_step c o = Some c'.

(** [Close] is waiting for the goroutines. *)
Definition closing (c : Client) : Prop :=
  c_close c = CloseWaiting ∧ c_ctxDone c = true ∧ c_tickStop c = true.

(** What a step of the drain keeps. *)
Definition keeps_close (c c' : Client) : Prop :=
  (c_close c', c_ctxDone c', c_tickStop c', c_tick c') = (c_close c, c_ctxDone c, c_tickStop c, c_tick c).

Lemma keeps_closing c c' : keeps_close c c' → closing c → closing c'.
Proof. intros [= E1 E2 E3 _] (H1 & H2 & H3). split_and!; congruence. Qed.

Lemma end_dispatch_close c : keeps_close c (end_dispatch c).
Proof. unfold end_dispatch. by case_goal. Qed.

(** After a send the read loop is at a later subscription or done with the
    event. *)
Lemma push_next_progress ev subs c :
  keeps_close c (push_next ev subs c) ∧
  ((∃ s subs', c_rl (push_next ev subs c) = RPush s ev subs' ∧ length subs' < length subs) ∨
   c_rl (push_next ev subs c) = RRecv ∨ ∃ a b, c_rl (push_next ev subs c) = RAck a b).
Proof.
  induction subs as [|s subs IH]; simpl.
  - split; [apply end_dispatch_close|]. right. unfold end_dispatch. case_goal; simpl; eauto.
  - assert (keeps_close c (push_next ev subs c) ∧
      ((∃ s0 subs', c_rl (push_next ev subs c) = RPush s0 ev subs' ∧ length subs' < S (length subs)) ∨
       c_rl (push_next ev subs c) = RRecv ∨ ∃ a b, c_rl (push_next ev subs c) = RAck a b)) as IH'.
    { destruct IH as [K [(s0 & l & E & Hl)|R]]; (split; [done|]); [left; exists s0, l; split; [done|lia]|by right]. }
    repeat case_goal; try done. split; [done|]. left. exists s, subs. simpl. split; [done|lia].
Qed.

Lemma internal_CellInv c c' : internal_step c c' → CellInv c → CellInv c'.
Proof. intros (o & _ & H) C. by eapply client_step_CellInv. Qed.

Lemma rtc_CellInv c c' : rtc internal_step c c' → CellInv c → CellInv c'.
Proof. induction 1; eauto using internal_CellInv. Qed.

(** The read loop returns from [Recv], or from the compare-and-swap before. *)
Lemma drain_recv c :
  c_rl c = RRecv ∨ (∃ a b, c_rl c = RAck a b) →
  ∃ c', rtc internal_step c c' ∧ c_rl c' = RExited ∧ keeps_close c c'.
Proof.
  assert (∀ c, c_rl c = RRecv → internal_step c (c <| c_rl := RExited |>)) as Hexit.
  { intros c0 Hr. exists (ORecv (Err ctx_Canceled) 0 "" None). split; [done|]. simpl. by rewrite Hr. }
  intros [Hr|(a & b & Hr)].
  - exists (c <| c_rl := RExited |>). split; [by apply rtc_once, Hexit|done].
  - set (c1 := maybeAck_cas a b c).
    assert (internal_step c c1) as H1.
    { exists ORlAck. split; [done|]. simpl. by rewrite Hr. }
    assert (c_rl c1 = RRecv ∧ keeps_close c c1) as [Hr1 K1] by (unfold c1, maybeAck_cas; by case_goal).
    exists (c1 <| c_rl := RExited |>). split; [|done].
    eapply rtc_l; [exact H1|]. by apply rtc_once, Hexit.
Qed.

Lemma rtc_keeps c c1 :
  internal_step c c1 → keeps_close c c1 →
  (∃ c', rtc internal_step c1 c' ∧ c_rl c' = RExited ∧ keeps_close c1 c') →
  ∃ c', rtc internal_step c c' ∧ c_rl c' = RExited ∧ keeps_close c c'.
Proof.
  intros H K (c2 & Hs & He & K'). exists c2. split; [by eapply rtc_l|]. split; [done|].
  unfold keeps_close in *. congruence.
Qed.

(** The rest of the sends of an event, whichever case ended the first. *)
Lemma drain_push n : ∀ s ev subs c,
  length subs = n → CellInv c → c_ctxDone c = true → c_rl c = RPush s ev subs →
  ∃ c', rtc internal_step c c' ∧ c_rl c' = RExited ∧ keeps_close c c'.
Proof.
  induction n as [n IH] using lt_wf_ind. intros s ev subs c Hn C Hc Hr.
  assert (internal_step c (leave_push s ev subs c)) as H1.
  { exists (ORlSelect CaseClient). split; [done|]. simpl. unfold rl_select, Subscription_push.
    destruct (proj2 (proj2 C) s) as [x Hx]; [by rewrite Hr|]. rewrite Hr, Hx. simpl. by rewrite Hc. }
  pose proof (internal_CellInv _ _ H1 C) as C1.
  eapply rtc_keeps; [exact H1|..]; unfold leave_push in *;
    match goal with |- context [push_next _ _ ?x] => destruct (push_next_progress ev subs x) as [K P] end; [done|].
  destruct P as [(s' & l & E & Hl)|E]; [|by apply drain_recv].
  eapply (IH (length l)); [lia|done|done| |exact E]. injection K as _ E2 _ _. by rewrite E2.
Qed.

Lemma drain_next ev subs c :
  CellInv (push_next ev subs c) → c_ctxDone c = true →
  ∃ c', rtc internal_step (push_next ev subs c) c' ∧ c_rl c' = RExited ∧ keeps_close (push_next ev subs c) c'.
Proof.
  intros C Hc. destruct (push_next_progress ev subs c) as [K [(s' & l & E & Hl)|E]]; [|by apply drain_recv].
  eapply (drain_push (length l)); [done|done| |exact E]. injection K as _ E2 _ _. by rewrite E2.
Qed.

(** The read loop returns from everywhere but the [Wait] of a [close]. *)
Lemma drain_readLoop c :
  CellInv c → c_ctxDone c = true → (∀ s ev subs, c_rl c ≠ RCloseWait s ev subs) →
  ∃ c', rtc internal_step c c' ∧ c_rl c' = RExited ∧ keeps_close c c'.
Proof.
  intros C Hc Hw. destruct (c_rl c) as [|h ev subs|h b ev subs|s ev subs|s ev subs|a b|] eqn:Hr.
  - apply drain_recv. by left.
  - assert (internal_step c (leave_deliver h ev subs c)) as H1.
    { exists (ORlSelect CaseClient). split; [done|]. simpl. unfold rl_select, deliver.
      destruct (proj1 (proj2 C) h) as [x Hx]; [by rewrite Hr|]. rewrite Hr, Hx. simpl. by rewrite Hc. }
    pose proof (internal_CellInv _ _ H1 C) as C1. eapply rtc_keeps; [exact H1| |by apply drain_next].
    unfold leave_deliver.
    match goal with |- context [push_next _ _ ?x] => exact (proj1 (push_next_progress ev subs x)) end.
  - assert (internal_step c (leave_deliver h ev subs c)) as H1.
    { exists (ORlSelect CaseClient). split; [done|]. simpl. unfold rl_select, deliverChunk.
      destruct (proj1 (proj2 C) h) as [x Hx]; [by rewrite Hr|]. rewrite Hr, Hx. simpl. by rewrite Hc. }
    pose proof (internal_CellInv _ _ H1 C) as C1. eapply rtc_keeps; [exact H1| |by apply drain_next].
    unfold leave_deliver.
    match goal with |- context [push_next _ _ ?x] => exact (proj1 (push_next_progress ev subs x)) end.
  - by eapply drain_push.
  - by destruct (Hw s ev subs).
  - apply drain_recv. right. by eauto.
  - by exists c.
Qed.

(** The ticker stops. *)
Lemma drain_ticker c :
  c_tickStop c = true →
  ∃ c', rtc internal_step c c' ∧ c_tick c' = TOff ∧
    (c_close c', c_rl c', c_ackInflight c') = (c_close c, c_rl c, c_ackInflight c).
Proof.
  assert (∀ c, c_tickStop c = true → c_tick c = TIdle → internal_step c (c <| c_tick := TOff |>)) as Hstop.
  { intros c0 Hs Ht. exists OTickStop. split; [done|]. simpl. by rewrite Ht, Hs. }
  intros Hs. destruct (c_tick c) as [| |cur last] eqn:Ht.
  - by exists c.
  - exists (c <| c_tick := TOff |>). split; [by apply rtc_once, Hstop|done].
  - destruct (ticker_cas "" None c) as [c1|] eqn:E; [|unfold ticker_cas in E; by rewrite Ht in E].
    assert (internal_step c c1) as H1 by (exists (OTickCAS "" None); by split).
    unfold ticker_cas, sendAck in E. rewrite Ht in E. injection E as <-.
    eexists. split; [eapply rtc_l; [exact H1|]; apply rtc_once, Hstop|]; by case_goal.
Qed.

(** The goroutines of the pending acks return. *)
Lemma drain_acks n : ∀ c,
  length (c_ackInflight c) = n →
  ∃ c', rtc internal_step c c' ∧ c_ackInflight c' = [] ∧
    (c_close c', c_rl c', c_tick c') = (c_close c, c_rl c, c_tick c).
Proof.
  induction n as [|n IH]; intros c Hn.
  - exists c. split; [done|]. split; [by apply nil_length_inv|done].
  - destruct (c_ackInflight c) as [|seq l] eqn:E; [done|].
    set (c1 := sendAck seq "" None (c <| c_ackInflight := l |>)).
    assert (internal_step c c1) as H1.
    { exists (OAckSend 0 "" None). split; [done|]. simpl. by rewrite E. }
    destruct (IH c1) as (c' & Hs & Ha & K); [by injection Hn|].
    exists c'. split; [by eapply rtc_l|]. split; [done|]. by rewrite K.
Qed.

(** [wg.Wait] returns. *)
Lemma drain_all c :
  CellInv c → closing c → (∀ s ev subs, c_rl c ≠ RCloseWait s ev subs) →
  ∃ c', rtc internal_step c c' ∧ c_close c' = CloseWaiting ∧ wg_zero c' = true.
Proof.
  intros C (H1 & H2 & H3) Hw. destruct (drain_readLoop c C H2 Hw) as (a & Sa & Ra & Ka).
  injection Ka as Ka1 Ka2 Ka3 Ka4. destruct (drain_ticker a) as (b & Sb & Tb & Kb); [congruence|].
  injection Kb as Kb1 Kb2 Kb3. destruct (drain_acks _ b eq_refl) as (d & Sd & Ad & Kd). injection Kd as Kd1 Kd2 Kd3.
  exists d. split; [by etransitivity; [|etransitivity]|]. split; [congruence|].
  unfold wg_zero. by rewrite Kd2, Kb2, Ra, Kd3, Tb, Ad.
Qed.

End liveness.
