(* ===== verification/ClientScenarios.v ===== *)
(** * Concrete runs of the client

    A map order, a decoder of broken payloads, a connection and the envelopes
    of a small session: the inputs at which the properties of the client are
    evaluated. *)

From S2P Require Import Prelude GoStrings Errors Features Lease Messages Client.
From Stdlib Require Import ZArith Lia.

#[export] Instance key_order : MapOrder.
Proof. refine {| order_keys := λ _ l, l |}. done. Defined.

#[export] Instance zero_raw : RawDecode := {|
  raw_session_error _ := zero_session_error;
  raw_ping _ := "";
  raw_job_result _ := zero_result;
  raw_job_error _ := zero_job_error
|}.

(** The options: defaults but for the window, the gap check and the timeout. *)
Definition opts_with (window : Z) (gaps : bool) (timeout : Duration) : ClientOptions :=
  mkClientOptions "" "" "token" [] window 0 0 None gaps timeout.

Definition welcome_env : Envelope :=
  mkEnvelope ProtocolVersion "e0" TypeSessionWelcome "sess_1" "" "" 0
    (PWelcome (mkWelcome "rt" "1" "tok" 600 30 ["json"] Features [])).

Definition zero_client : Client :=
  mkClient (opts_with 0 false 0) "" (mkWelcome "" "" "" 0 0 [] [] []) [] false None ∅ [] ∅ ∅ ∅ 0 0 ∅ ∅ ∅ RRecv TOff
    false [] [] CloseNot false [] [].

Definition connected (o : ClientOptions) : Client :=
  default zero_client (from_result (Connect o "hello" None (Ok welcome_env))).

(** The state after a run, and that the run is not blocked. *)
Definition after (o : ClientOptions) (ops : list client_op) : Client :=
  default zero_client (client_run (connected o) ops).
Definition runs (o : ClientOptions) (ops : list client_op) : bool :=
  bool_decide (is_Some (client_run (connected o) ops)).

Definition submit_op (agent id : string) : client_op :=
  OSubmit (Ok "{}") (mkSubmitRequest agent ∅ None "" 0 "") id None.

Definition accepted_env (job agent : string) : Envelope :=
  mkEnvelope ProtocolVersion "e" TypeJobAccepted "sess_1" job "" 0
    (PAccepted (mkAccepted job ∅ None ∅ [] 0 "" "" agent)).

Definition log_event (msg : string) : JobEvent := mkEvent KindLog 0 (BLog "info" msg ∅).
Definition chunk_event (b : ResultChunkBody) : JobEvent := mkEvent KindResultChunk 0 (BResultChunk b).

Definition event_env (job : string) (seq : Z) (ev : JobEvent) : Envelope :=
  mkEnvelope ProtocolVersion "e" TypeJobEvent "sess_1" job "" seq (PEvent ev).

Definition recv (env : Envelope) : client_op := ORecv (Ok env) 0 "p" None.
Definition send_ok : client_op := ORlSelect CaseChan.

(** A submission accepted as job_1. *)
Definition accept_run : list client_op :=
  [submit_op "echo" "sub1"; recv (accepted_env "job_1" "echo"); OSubmitSelect CaseChan ctx_Canceled].

(** Runs and reachability. *)
Lemma connected_reachable o :
  in_u64 (co_AutoAckWindow o) → client_reachable (connected o).
Proof. intros H. by eapply (client_init o "hello" (Ok welcome_env)). Qed.

Lemma client_run_reachable c ops c' :
  client_reachable c → Forall op_typed ops → client_run c ops = Some c' → client_reachable c'.
Proof.
  intros Hr Ht. revert c Hr. induction Ht as [|o ops Ho _ IH]; simpl; intros c Hr Hs; [by simplify_eq|].
  destruct (client_step c o) as [c1|] eqn:E; [|done]. eapply IH; [|exact Hs]. by eapply client_next.
Qed.

Lemma after_reachable o ops :
  in_u64 (co_AutoAckWindow o) → Forall op_typed ops → runs o ops = true → client_reachable (after o ops).
Proof.
  intros Hw Ht Hr. apply bool_decide_eq_true in Hr as [c Hc]. unfold after. rewrite Hc. simpl.
  eapply client_run_reachable; [by apply connected_reachable|done|done].
Qed.

(** The typing of a concrete run, by evaluation. *)
Definition op_typedb (o : client_op) : bool :=
  match o with
  | ORecv (Ok env) _ _ _ => (0 <=? env_EventSeq env)%Z && (env_EventSeq env <? two64)%Z
  | OSubmit _ _ id _ => negb (bool_decide (id = ""))
  | _ => true
  end.

Lemma op_typedb_sound ops : forallb op_typedb ops = true → Forall op_typed ops.
Proof.
  intros H. apply Forall_forall. intros o Ho. apply list_elem_of_In in Ho. rewrite forallb_forall in H.
  specialize (H o Ho). destruct o; try done; simpl in *; [by breflect|]. destruct r; [|done]. by breflect.
Qed.

Lemma client_run_from_connect o ops :
  in_u64 (co_AutoAckWindow o) → forallb op_typedb ops && runs o ops = true → client_reachable (after o ops).
Proof.
  intros Hw H. apply andb_true_iff in H as [Ht Hr]. apply after_reachable; [done| |done]. by apply op_typedb_sound.
Qed.

(** A job with two log events and a chunk, the first event read. *)
Definition delivery_run : list client_op :=
  accept_run ++
  [recv (event_env "job_1" 1 (log_event "a")); send_ok;
   recv (event_env "job_1" 2 (chunk_event (mkChunk "res_1" 0 "aGk=" "base64" true))); send_ok; send_ok;
   OReadEvent 0;
   recv (event_env "job_1" 3 (chunk_event (mkChunk "res_1" 1 "" "base64" false))); send_ok; send_ok].
Definition delivery_state : Client := after (opts_with 0 true 0) delivery_run.

(** A subscription whose consumer does not drain, with a delivery timeout. *)
Definition subscribed_env (job : string) : Envelope :=
  mkEnvelope ProtocolVersion "e" TypeJobSubscribed "sess_1" job "" 0
    (PSubscribed (mkSubscribed job "running" "echo" ∅ "" "" 0 false)).
Definition overflow_run : list client_op :=
  [OSubscribe "job_1" 0 false "s1" "u1" None; recv (subscribed_env "job_1"); OSubscribeSelect 0 CaseChan ctx_Canceled] ++
  concat (replicate subEventsCap [recv (event_env "job_1" 0 (log_event "x")); send_ok]) ++
  [recv (event_env "job_1" 0 (log_event "last")); ORlSelect CaseTimer].
Definition overflow_state : Client := after (opts_with 0 false second) overflow_run.

(** A submission, a subscription and an inventory request that all wait. *)
Definition waiting_run : list client_op :=
  accept_run ++
  [submit_op "slow" "sub2"; OSubscribe "job_9" 0 false "s1" "u1" None;
   OListJobs (mkListJobs (mkFilter [] "" None None) 0 "") "l1" None].
Definition waiting_state : Client := after (opts_with 0 false 0) waiting_run.

Definition error_env (code request job : string) : Envelope :=
  mkEnvelope ProtocolVersion "e" TypeSessionError "sess_1" job "" 0
    (PSessionError (mkSessionError code "no" false ∅ request "")).
