(* ===== verification/ClientSafety.v ===== *)
(** * Properties of the client

    What holds in every state of every run of a connected client: its channels,
    its deliveries, its sequence numbers, its registry of jobs; and how errors,
    a failed transport and [Close] end the waits. *)

From S2P Require Import Prelude GoStrings Errors Features Lease Messages Client ClientInv ClientRegistry ClientDelivery ClientLossless ClientLiveness ClientScenarios.
From Stdlib Require Import ZArith Lia.

(** ** Waiters *)

(** A call or a handle that waits for the runtime. *)
Inductive waiter := WHandle (h : nat) | WList (l : nat) | WSub (s : nat).

Definition cell (c : Client) (w : waiter) : option (JobHandle + ListCall + Subscription) :=
  match w with
  | WHandle h => inl ∘ inl <$> c_jobs c !! h
  | WList l => inl ∘ inr <$> c_lists c !! l
  | WSub s => inr <$> c_subs c !! s
  end.

(** Who an error with this request id and job id is meant for. *)
Definition waits_for (c : Client) (requestID jobID : string) (w : waiter) : Prop :=
  match w with
  | WHandle h => requestID ≠ "" ∧ c_pendingByID c !! requestID = Some h ∨ jobID ≠ "" ∧ c_handles c !! jobID = Some h
  | WList l => requestID ≠ "" ∧ c_listReqs c !! requestID = Some l
  | WSub s => requestID ≠ "" ∧ ∃ k x, c_subscribers c !! k = Some s ∧ c_subs c !! s = Some x ∧ su_subscribeID x = requestID
  end.

(** The wait is over. *)
Definition woken (c : Client) (w : waiter) : Prop :=
  match w with
  | WHandle h => ∀ x, c_jobs c !! h = Some x → jh_done x = true
  | WList l => ∀ x, c_lists c !! l = Some x → is_Some (li_ch x)
  | WSub s => ∀ x, c_subs c !! s = Some x → su_done x = true
  end.

Lemma alter_other {A B} (f : A → A) (g : A → B) i j (m : gmap nat A) : i ≠ j → g <$> alter f i m !! j = g <$> m !! j.
Proof. intros H. by rewrite lookup_alter_ne. Qed.

Lemma put_list_woken r x : is_Some (li_ch (put_list r x)).
Proof. unfold put_list. destruct (li_ch x) as [v|] eqn:E; [rewrite E|]; by eauto. Qed.

Lemma close_sub_done on w e x : sub_ok on w x → su_done (close_sub e x) = true.
Proof.
  intros H. unfold close_sub, close_events. case_bool_decide as E; simpl; [by apply (so_err _ _ _ H)|].
  destruct (su_done x) eqn:Hd; [done|]. by repeat case_goal.
Qed.

(** Waking one waiter leaves the others alone. *)
Lemma wake_handle rl h e c c1 :
  cells_ok rl c → c_jobs c1 = c_jobs c → c_lists c1 = c_lists c → c_subs c1 = c_subs c →
  woken (upd_handle h (fail_handle e) c1) (WHandle h) ∧
  ∀ w, w ≠ WHandle h → cell (upd_handle h (fail_handle e) c1) w = cell c w.
Proof.
  intros [C _] Hj Hl Hs. split.
  - intros x. simpl. rewrite Hj, lookup_alter_eq. destruct (c_jobs c !! h) as [y|] eqn:Hy; [|done]. simpl.
    intros [= <-]. eapply finish_done, (C _ _ Hy).
  - intros [i|l|s] Hw; simpl; rewrite ?Hj, ?Hl, ?Hs; try done. apply alter_other. congruence.
Qed.

Lemma wake_list l r c c1 :
  c_jobs c1 = c_jobs c → c_lists c1 = c_lists c → c_subs c1 = c_subs c →
  woken (upd_list l (put_list r) c1) (WList l) ∧
  ∀ w, w ≠ WList l → cell (upd_list l (put_list r) c1) w = cell c w.
Proof.
  intros Hj Hl Hs. split.
  - intros x. simpl. rewrite Hl, lookup_alter_eq. destruct (c_lists c !! l) as [y|]; [|done]. simpl.
    intros [= <-]. apply put_list_woken.
  - intros [i|i|s] Hw; simpl; rewrite ?Hj, ?Hl, ?Hs; try done. apply alter_other. congruence.
Qed.

Lemma wake_sub rl s e c c1 :
  cells_ok rl c → c_jobs c1 = c_jobs c → c_lists c1 = c_lists c → c_subs c1 = c_subs c →
  woken (upd_sub s (close_sub e) c1) (WSub s) ∧
  ∀ w, w ≠ WSub s → cell (upd_sub s (close_sub e) c1) w = cell c w.
Proof.
  intros [_ C] Hj Hl Hs. split.
  - intros x. simpl. rewrite Hs, lookup_alter_eq. destruct (c_subs c !! s) as [y|] eqn:Hy; [|done]. simpl.
    intros [= <-]. eapply close_sub_done, (C _ _ Hy).
  - intros [i|i|i] Hw; simpl; rewrite ?Hj, ?Hl, ?Hs; try done. apply alter_other. congruence.
Qed.

Section waiters.
Context {MO : MapOrder} {RD : RawDecode}.

Lemma range_subscribers_spec n c k s x :
  (k, s, x) ∈ range_subscribers n c ↔ c_subscribers c !! k = Some s ∧ c_subs c !! s = Some x.
Proof.
  unfold range_subscribers. rewrite list_elem_of_omap. split.
  - intros (k' & _ & H). destruct (c_subscribers c !! k') as [s'|] eqn:E; simplify_option_eq. done.
  - intros [H1 H2]. exists k. split; [|by rewrite H1; simpl; rewrite H2].
    rewrite order_keys_perm. apply elem_of_elements, elem_of_dom. by eauto.
Qed.

Lemma find_subscribeID_Some n c req k s :
  find_subscribeID n c req = Some (k, s) →
  c_subscribers c !! k = Some s ∧ ∃ x, c_subs c !! s = Some x ∧ su_subscribeID x = req.
Proof.
  unfold find_subscribeID. intros H%head_Some_elem_of. apply list_elem_of_omap in H as ([[k' s'] x] & Hin & H).
  apply range_subscribers_spec in Hin as [H1 H2]. case_bool_decide; simplify_eq. by eauto.
Qed.

Lemma find_subscribeID_None n c req k s x :
  find_subscribeID n c req = None → c_subscribers c !! k = Some s → c_subs c !! s = Some x → su_subscribeID x ≠ req.
Proof.
  unfold find_subscribeID. intros H H1 H2 Hid. apply head_None in H.
  assert ((k, s) ∈ @nil (string * nat)) as Hin; [|by apply elem_of_nil in Hin].
  rewrite <-H. apply list_elem_of_omap. exists (k, s, x). split; [by apply range_subscribers_spec|].
  by rewrite bool_decide_eq_true_2.
Qed.

(** The two outcomes of [routeError]. *)
Definition routed (req job : string) (c : Client) (r : bool * Client) : Prop :=
  if r.1 then ∃ w, waits_for c req job w ∧ woken r.2 w ∧ ∀ w', w' ≠ w → cell r.2 w' = cell c w'
  else (∀ w, ¬ waits_for c req job w) ∧ r.2 = c.

Lemma route_job_routed rl req job e c :
  cells_ok rl c → (∀ w, ¬ waits_for c req "" w) → routed req job c (route_job job e c).
Proof.
  intros C Hreq. unfold route_job, routed. case_bool_decide as Hj; simpl.
  - subst. done.
  - destruct (c_handles c !! job) as [h|] eqn:Hh; simpl.
    + exists (WHandle h). split; [by right|]. by apply (wake_handle rl).
    + split; [|done]. intros [h|l|s]; simpl; [|apply (Hreq (WList l))|apply (Hreq (WSub s))].
      intros [?|[_ ?]]; [|congruence]. apply (Hreq (WHandle h)). by left.
Qed.

Lemma routeError_routed rl n req job e c : cells_ok rl c → routed req job c (routeError n req job e c).
Proof.
  intros C. unfold routeError. case_bool_decide as Hreq.
  - eapply route_job_routed; [done|]. subst. intros [h|l|s]; simpl; naive_solver.
  - destruct (c_pendingByID c !! req) as [h|] eqn:Hp.
    { exists (WHandle h). split; [by left|]. by apply (wake_handle rl). }
    destruct (c_listReqs c !! req) as [l|] eqn:Hl.
    { exists (WList l). split; [done|]. by apply wake_list. }
    destruct (find_subscribeID n c req) as [[k s]|] eqn:Hf.
    { exists (WSub s). destruct (find_subscribeID_Some _ _ _ _ _ Hf) as (Hk & x & Hx & Hid).
      split; [split; [done|]; by exists k, x|]. by apply (wake_sub rl). }
    eapply route_job_routed; [done|]. intros [h|l|s]; simpl; [naive_solver..|].
    intros (_ & k & x & Hk & Hx & Hid). by eapply find_subscribeID_None.
Qed.

End waiters.

(** ** A failure of the session *)

Lemma close_all_woken rl e l c s :
  cells_ok rl c → s ∈ l → woken (close_all e l c) (WSub s).
Proof.
  intros C Hin x. revert x. induction l as [|i l IH]; [by apply elem_of_nil in Hin|]. intros x. simpl.
  assert (cells_ok rl (close_all e l c)) as [_ C'] by (by apply (calm_close_all e l c)).
  destruct (decide (i = s)) as [->|Hn].
  - rewrite lookup_alter_eq. destruct (c_subs (close_all e l c) !! s) as [y|] eqn:Hy; [|done]. simpl.
    intros [= <-]. eapply close_sub_done, (C' _ _ Hy).
  - rewrite lookup_alter_ne by done. apply IH. set_solver.
Qed.

Lemma put_all_woken r l c i :
  i ∈ l → woken (foldr (λ l, upd_list l (put_list r)) c l) (WList i).
Proof.
  intros Hin x. revert x. induction l as [|j l IH]; [by apply elem_of_nil in Hin|]. intros x. simpl.
  destruct (decide (j = i)) as [->|Hn].
  - rewrite lookup_alter_eq. destruct (c_lists _ !! i) as [y|]; [|done]. simpl. intros [= <-]. apply put_list_woken.
  - rewrite lookup_alter_ne by done. apply IH. set_solver.
Qed.

Lemma elem_of_values {A} `{Countable K} (m : gmap K A) k v : m !! k = Some v → v ∈ (map_to_list m).*2.
Proof. intros Hk. apply list_elem_of_fmap. exists (k, v). split; [done|]. by apply elem_of_map_to_list. Qed.

(** The registered waiters of a state. *)
Definition registered (c : Client) (w : waiter) : Prop :=
  match w with
  | WHandle h => h ∈ c_pending c ∨ ∃ j, c_handles c !! j = Some h
  | WList l => ∃ id, c_listReqs c !! id = Some l
  | WSub s => ∃ k, c_subscribers c !! k = Some s
  end.

(** The fields [failAll] passes on to its later loops. *)
Lemma fail_all_tables e l c :
  c_subscribers (fail_all e l c) = c_subscribers c ∧ c_listReqs (fail_all e l c) = c_listReqs c ∧
  c_pending (fail_all e l c) = c_pending c.
Proof. induction l as [|h l IH]; simpl; [done|]. exact IH. Qed.

Lemma close_all_tables e l c : c_listReqs (close_all e l c) = c_listReqs c.
Proof. induction l as [|h l IH]; simpl; [done|]. exact IH. Qed.

Lemma put_all_subs r l c : c_subs (foldr (λ l, upd_list l (put_list r)) c l) = c_subs c.
Proof. induction l as [|h l IH]; simpl; [done|]. exact IH. Qed.

Lemma failAll_wakes rl e c w : cells_ok rl c → registered c w → woken (failAll e c) w.
Proof.
  intros C Hw. destruct w as [h|l|s].
  - intros x Hx. rewrite failAll_jobs in Hx. simpl in Hw.
    assert (cells_ok rl (fail_all e (map_to_list (c_handles c)).*2 c)) as C1
      by by apply (calm_fail_all e (map_to_list (c_handles c)).*2 c).
    destruct Hw as [Hin|[j Hj]]; [by eapply fail_all_done|].
    destruct (jobs_rel_bwd hstill _ _ h x (proj2 (still_fail_all e (c_pending c) _)) Hx) as (y & Hy & S).
    apply S. eapply (fail_all_done rl e _ c); [exact C| |exact Hy]. by eapply elem_of_values.
  - destruct Hw as [id Hl]. unfold failAll. cbv zeta. intros x Hx. simpl in Hx.
    revert Hx. apply put_all_woken. simpl.
    rewrite close_all_tables. simpl.
    destruct (fail_all_tables e (c_pending (fail_all e (map_to_list (c_handles c)).*2 c)) (fail_all e (map_to_list (c_handles c)).*2 c)) as (_ & E1 & _).
    destruct (fail_all_tables e (map_to_list (c_handles c)).*2 c) as (_ & E2 & _).
    rewrite E1, E2. by eapply elem_of_values.
  - destruct Hw as [k Hk]. unfold failAll. cbv zeta. intros x Hx. simpl in Hx. rewrite put_all_subs in Hx.
    revert x Hx. set (c1 := fail_all e _ c). set (c2 := fail_all e _ c1).
    change (woken (close_all (Some e) (map_to_list (c_subscribers c2)).*2 (c2 <| c_pending := [] |> <| c_pendingByID := ∅ |>)) (WSub s)).
    apply (close_all_woken rl).
    + assert (cells_ok rl c1) as H1 by by apply (calm_fail_all e (map_to_list (c_handles c)).*2 c).
      assert (cells_ok rl c2) as H2 by by apply (calm_fail_all e (c_pending c1) c1). exact H2.
    + destruct (fail_all_tables e (c_pending c1) c1) as (E1 & _). fold c2 in E1.
      destruct (fail_all_tables e (map_to_list (c_handles c)).*2 c) as (E2 & _). fold c1 in E2.
      rewrite E1, E2. by eapply elem_of_values.
Qed.

(** A submission whose handle is no longer queued can return. *)
Lemma submit_can_return c h :
  RegInv c → c_submitMu c = Some h → c_pending c = [] →
  ∃ k c', (k = CaseChan ∨ k = CaseDone) ∧ ∀ e, Submit_select k e c = Some (c' e).
Proof.
  intros I Hm Hp. destruct (ri_cell c I h (or_intror Hm)) as [x Hx]. unfold Submit_select.
  destruct (ri_wakes c I h x Hm Hx) as [Hin|[[acc Ha]|Hd]].
  - rewrite Hp in Hin. by apply elem_of_nil in Hin.
  - eexists CaseChan, _. split; [by left|]. intros e. rewrite Hm. simpl. rewrite Hx. simpl. by rewrite Ha.
  - eexists CaseDone, _. split; [by right|]. intros e. rewrite Hm. simpl. rewrite Hx. simpl. by rewrite Hd.
Qed.

(** ** Properties *)

Section properties.
Context {MO : MapOrder} {RD : RawDecode}.

(** C21: in every run of a client, no send and no close ever hits a closed
    channel: the barriers [deliverWG] and [pushWG] keep the value channels open
    while the read loop sends.  [doneCh] of a handle is closed exactly when the
    handle has a result or an error, never both, and the queues stay within
    their capacities. *)
Theorem client_channels_safe (c : Client) :
  client_reachable c →
  (∀ h x, c_jobs c !! h = Some x →
     jh_panic x = false ∧ (jh_done x = true ↔ is_Some (jh_result x) ∨ is_Some (jh_err x)) ∧
     (jh_result x = None ∨ jh_err x = None) ∧
     length (jh_events x) ≤ eventsCap ∧ length (jh_chunks x) ≤ chunksCap) ∧
  (∀ s x, c_subs c !! s = Some x → su_panic x = false ∧ length (su_events x) ≤ subEventsCap).
Proof.
  intros H. apply reachable_CellInv in H as [[H1 H2] _]. split.
  - intros h x Hx. destruct (H1 _ _ Hx). by split_and!.
  - intros s x Hx. destruct (H2 _ _ Hx). by split.
Qed.


(** C26: the client's sequence numbers.  [highSeq] is the largest event_seq
    received and never leaves 64 bits; [lastAck] never runs ahead of it, nor
    does an acknowledgement on its way; and with [DetectSeqGaps] every number
    between the first one seen and [highSeq] has been received. *)
Theorem client_seq_tracking (c : Client) :
  client_reachable c →
  c_highSeq c = max_seq (c_recv c) ∧ (0 <= c_lastAck c <= c_highSeq c)%Z ∧ (c_highSeq c < 2 ^ 64)%Z ∧
  Forall (λ n, n <= c_highSeq c)%Z (c_ackInflight c) ∧
  (co_DetectSeqGaps (c_opts c) = true → gap_free (c_recv c)).
Proof.
  intros Hr. destruct (reachable_SeqInv c Hr) as [[H1 H2 H3 H4 H5 H6] _]. split_and!; try done; try lia; [apply H2|].
  eapply Forall_impl; [done|]. simpl. intros. lia.
Qed.

(** C22: submissions and acceptances are paired.  At most one submission waits
    in the queue; two handles never carry the same job id; a handle with a job
    id is the one events of that job are routed to, and it holds the
    acceptance of that job. *)
Theorem submit_pairing (c : Client) :
  client_reachable c →
  length (c_pending c) ≤ 1 ∧
  (∀ h x, c_jobs c !! h = Some x → jh_id x ≠ "" →
     c_handles c !! jh_id x = Some h ∧ ∃ acc, jh_accepted x = Some acc ∧ ja_JobID acc = jh_id x) ∧
  (∀ h h' x x', c_jobs c !! h = Some x → c_jobs c !! h' = Some x' → jh_id x ≠ "" → jh_id x = jh_id x' → h = h').
Proof.
  intros Hr. pose proof (reachable_RegInv c Hr) as I. split_and!.
  - destruct (ri_pending c I) as [->|(h & -> & _)]; simpl; lia.
  - intros h x Hx Hid. pose proof (ri_id c I h x Hx Hid) as Hh. split; [done|].
    destruct (ri_bound c I _ _ Hh) as (y & acc & Hy & Ha & He). simplify_eq. by eauto.
  - intros h h' x x' Hx Hx' Hid E. pose proof (ri_id c I h x Hx Hid) as H1.
    rewrite E in Hid. pose proof (ri_id c I h' x' Hx' Hid) as H2. congruence.
Qed.

(** C23: a session.error reaches the one call it belongs to.  If some waiter is
    registered under the request id or the job id of the error, exactly one such
    waiter is woken and no other handle, subscription or inventory call
    changes; if none is, the error fails the whole session when its code is
    session-fatal and changes nothing otherwise. *)
Theorem session_error_routed (n : nat) (env : Envelope) (c : Client) :
  client_reachable c →
  let e := get_session_error (env_Payload env) in
  let job := if bool_decide (se_JobID e = "") then env_JobID env else se_JobID e in
  let c' := handleSessionError n env c in
  (∃ w, waits_for c (se_RequestID e) job w ∧ woken c' w ∧ ∀ w', w' ≠ w → cell c' w' = cell c w') ∨
  ((∀ w, ¬ waits_for c (se_RequestID e) job w) ∧
   c' = if isSessionFatal (se_Code e) then failAll (arcp_of_session_error e) c else c).
Proof.
  intros Hr e job c'. destruct (reachable_CellInv c Hr) as [C _].
  pose proof (routeError_routed (c_rl c) n (se_RequestID e) job (arcp_of_session_error e) c C) as R.
  unfold c', handleSessionError. fold e. cbv zeta. fold job.
  destruct (routeError n (se_RequestID e) job (arcp_of_session_error e) c) as [[] c1]; simpl in R.
  - by left.
  - right. destruct R as [Hn E]. simpl in E. by subst c1.
Qed.


(** C24: [Client.Close] returns.  From every reachable state in which no [push]
    has called [close], the goroutines that [Close] waits for can all return
    by steps of the program itself, after which [Close] completes with every
    registered handle finished and every registered subscription closed. *)
Theorem client_close_returns (c : Client) (id : string) (serr : option error) :
  client_reachable c → c_close c = CloseNot → (∀ s ev subs, c_rl c ≠ RCloseWait s ev subs) →
  ∃ c', rtc internal_step (client_Close id serr c) c' ∧ c_close c' = CloseDone ∧
    (∀ j h, c_handles c' !! j = Some h → woken c' (WHandle h)) ∧
    (∀ k s, c_subscribers c' !! k = Some s → woken c' (WSub s)).
Proof.
  intros Hr Hc Hw. pose proof (client_Close_ok id serr c (reachable_CellInv c Hr)) as C.
  assert (closing (client_Close id serr c) ∧ c_rl (client_Close id serr c) = c_rl c) as [Hcl Hrl].
  { unfold client_Close. rewrite Hc. by destruct serr. }
  destruct (drain_all _ C Hcl) as (d & Hs & Hd & Hz); [by rewrite Hrl|].
  pose proof (rtc_CellInv _ _ Hs C) as [Cd _].
  set (l := (map_to_list (c_handles d)).*2). set (d1 := fail_all err_client_closed l d).
  set (d2 := close_all (Some err_client_closed) (map_to_list (c_subscribers d1)).*2 d1).
  exists (d2 <| c_close := CloseDone |>). split_and!.
  - eapply rtc_r; [exact Hs|]. exists OCloseEnd. split; [done|]. simpl. unfold client_Close_end. by rewrite Hd, Hz.
  - done.
  - intros j h Hj x Hx. simpl in Hj, Hx. unfold d2 in Hj. rewrite close_all_handles in Hj. unfold d1 in Hj.
    rewrite fail_all_handles in Hj.
    destruct (jobs_rel_bwd hstill d1 d2 h x (proj2 (still_close_all _ _ d1)) Hx) as (y & Hy & S).
    apply S. eapply (fail_all_done (c_rl d) err_client_closed l d); [done| |exact Hy]. by eapply elem_of_values.
  - intros k s Hk x Hx. simpl in Hk, Hx. revert x Hx.
    assert (cells_ok (c_rl d) d1) as C1 by by apply (calm_fail_all err_client_closed l d).
    apply (close_all_woken (c_rl d)); [done|]. eapply elem_of_values. rewrite <-Hk. symmetry.
    unfold d2. generalize (map_to_list (c_subscribers d1)).*2. intros l'.
    induction l' as [|s' l' IH]; simpl; [done|]. exact IH.
Qed.

End properties.

(** ** Witnesses *)

Lemma delivery_reachable : client_reachable delivery_state.
Proof. apply client_run_from_connect; [done|]. vm_compute. reflexivity. Qed.

Lemma waiting_reachable : client_reachable waiting_state.
Proof. apply client_run_from_connect; [done|]. vm_compute. reflexivity. Qed.

Definition delivery_handle : JobHandle := default (new_handle "" "") (c_jobs delivery_state !! 0).

Lemma delivery_lookup : c_handles delivery_state !! "job_1" = Some 0 ∧ c_jobs delivery_state !! 0 = Some delivery_handle.
Proof. split; vm_compute; reflexivity. Qed.

Lemma client_channels_safe_witness :
  is_Some (c_jobs delivery_state !! 0) ∧
  (∀ h x, c_jobs delivery_state !! h = Some x →
     jh_panic x = false ∧ (jh_done x = true ↔ is_Some (jh_result x) ∨ is_Some (jh_err x)) ∧
     (jh_result x = None ∨ jh_err x = None) ∧
     length (jh_events x) ≤ eventsCap ∧ length (jh_chunks x) ≤ chunksCap) ∧
  (∀ s x, c_subs delivery_state !! s = Some x → su_panic x = false ∧ length (su_events x) ≤ subEventsCap).
Proof. split; [vm_compute; by eauto|]. apply (client_channels_safe delivery_state delivery_reachable). Defined.


Lemma client_seq_tracking_witness :
  c_highSeq delivery_state = 3%Z ∧
  (c_highSeq delivery_state = max_seq (c_recv delivery_state) ∧
   (0 <= c_lastAck delivery_state <= c_highSeq delivery_state)%Z ∧ (c_highSeq delivery_state < 2 ^ 64)%Z ∧
   Forall (λ n, n <= c_highSeq delivery_state)%Z (c_ackInflight delivery_state) ∧
   (co_DetectSeqGaps (c_opts delivery_state) = true → gap_free (c_recv delivery_state))).
Proof. split; [vm_compute; reflexivity|]. apply (client_seq_tracking delivery_state delivery_reachable). Defined.

Lemma submit_pairing_witness :
  jh_id delivery_handle = "job_1" ∧
  (length (c_pending delivery_state) ≤ 1 ∧
   (∀ h x, c_jobs delivery_state !! h = Some x → jh_id x ≠ "" →
      c_handles delivery_state !! jh_id x = Some h ∧ ∃ acc, jh_accepted x = Some acc ∧ ja_JobID acc = jh_id x) ∧
   (∀ h h' x x', c_jobs delivery_state !! h = Some x → c_jobs delivery_state !! h' = Some x' →
      jh_id x ≠ "" → jh_id x = jh_id x' → h = h')).
Proof. split; [vm_compute; reflexivity|]. apply (submit_pairing delivery_state delivery_reachable). Defined.

Definition denied_env : Envelope := error_env CodeAgentNotAvailable "sub2" "".

Lemma session_error_routed_witness :
  (∃ w, waits_for waiting_state "sub2" "" w ∧ woken (handleSessionError 0 denied_env waiting_state) w ∧
     ∀ w', w' ≠ w → cell (handleSessionError 0 denied_env waiting_state) w' = cell waiting_state w') ∨
  ((∀ w, ¬ waits_for waiting_state "sub2" "" w) ∧
   handleSessionError 0 denied_env waiting_state =
     if isSessionFatal CodeAgentNotAvailable then failAll (arcp_err ErrAgentNotAvailable "no") waiting_state else waiting_state).
Proof.
  destruct (session_error_routed 0 denied_env waiting_state waiting_reachable) as [H|[H1 H2]]; [left; exact H|].
  right. split; [exact H1|]. exact H2.
Defined.


Lemma client_close_returns_witness :
  ∃ c', rtc internal_step (client_Close "x" None delivery_state) c' ∧ c_close c' = CloseDone ∧
    (∀ j h, c_handles c' !! j = Some h → woken c' (WHandle h)) ∧
    (∀ k s, c_subscribers c' !! k = Some s → woken c' (WSub s)).
Proof.
  apply (client_close_returns delivery_state "x" None delivery_reachable).
  - vm_compute. reflexivity.
  - intros s ev subs. vm_compute. discriminate.
Defined.
