(* ===== verification/ClientStream.v ===== *)
(** * Result streams end to end

    The writer of the server (Stream), the dispatcher and the queues of the
    client (Client), and the assembler: the bytes an agent writes are the bytes
    [CollectChunks] returns. *)

From S2P Require Import Prelude GoStrings Errors Features Lease Messages Stream Client ClientDelivery ClientLossless ClientScenarios ClientSafety.
From Stdlib Require Import ZArith Lia.

(** The chunk channel of a live handle, once the read loop is back in [Recv]. *)
Lemma live_chunks `{MapOrder} `{RawDecode} c j h x :
  client_reachable c → lossless_mode c → c_handles c !! j = Some h → c_jobs c !! h = Some x → jh_done x = false →
  c_rl c = RRecv → jh_chunksRead x ++ jh_chunks x = omap chunk_of (events_since j x (c_recv c)).
Proof.
  intros Hr Hm Hh Hx Hd Hrl. destruct (dv_reg c (reachable_DelInv c Hr) Hm j h x Hh Hx) as [_ _ _ D].
  destruct (D (or_introl Hd)) as [_ E]. rewrite Hrl in E. simpl in E. by rewrite app_nil_r in E.
Qed.


