(* ===== verification/ClientFindings.v ===== *)
(** * Runs of the client in which the code departs from its comments

    The self-deadlock of an overflowing subscription, acceptances that reach the
    wrong submission or none, a delivery timeout that skips an event, and a
    [Done] channel that stays open after a transport failure. *)

From S2P Require Import Prelude GoStrings Errors Features Lease Messages Client ClientInv ClientRegistry ClientDelivery ClientLossless ClientLiveness ClientScenarios ClientSafety.
From Stdlib Require Import ZArith Lia.

Section stuck.
Context {MO : MapOrder} {RD : RawDecode}.

(** A step that is not one of the read loop's leaves [Close] where it was, or
    starts it, or ends it after the read loop has returned. *)
Lemma removePending_close h c : c_close (removePending h c) = c_close c.
Proof. unfold removePending. by repeat case_goal. Qed.

Lemma removeSubscriber_close k c : c_close (client_removeSubscriber k c) = c_close c.
Proof. unfold client_removeSubscriber. by case_goal. Qed.

Lemma close_of_step c o c' s ev subs :
  CellInv c → c_rl c = RCloseWait s ev subs → client_step c o = Some c' → c_close c ≠ CloseDone →
  c_close c' = c_close c ∨ c_close c' = CloseWaiting.
Proof.
  intros C Hr Hs Hc. assert (wg_zero c = false) as Hz by (unfold wg_zero; by rewrite Hr).
  destruct o; simpl in Hs; unfold rl_select in Hs; rewrite ?Hr in Hs; try done.
  - unfold Submit in Hs. destruct input; [|by simplify_eq; left]. destruct (c_submitMu c); [done|]. cbv zeta in Hs.
    injection Hs as <-. left. destruct serr; simpl; by rewrite ?removePending_close.
  - unfold Submit_select, submit_exit in Hs. destruct (c_submitMu c) as [h|]; [|done]. simpl in Hs.
    destruct (c_jobs c !! h) as [x|]; [|done]. simpl in Hs. left.
    destruct k; repeat case_in Hs; simplify_eq; simpl; try apply removePending_close.
    destruct (jh_acceptedCh x); by simplify_eq/=.
  - unfold Subscribe in Hs. case_in Hs; [done|]. cbv zeta in Hs. injection Hs as <-. left.
    destruct serr; simpl; by rewrite ?removeSubscriber_close.
  - unfold Subscribe_select, subscribe_exit in Hs. destruct (c_subs c !! s0) as [x|]; [|done]. simpl in Hs.
    destruct (su_returned x); [done|]. left.
    destruct k; repeat case_in Hs; simplify_eq; simpl; try apply removeSubscriber_close.
    destruct (su_ackCh x); by simplify_eq/=.
  - unfold Subscription_Close in Hs. destruct (c_subs c !! s0) as [x|]; [|done]. simpl in Hs. left.
    case_in Hs; simplify_eq; [done|]. simpl. rewrite removeSubscriber_close. by destruct serr.
  - unfold ListJobs in Hs. case_in Hs; [done|]. cbv zeta in Hs. injection Hs as <-. left. by destruct serr.
  - unfold ListJobs_select, list_exit in Hs. destruct (c_lists c !! l) as [x|]; [|done]. simpl in Hs.
    destruct (li_returned x); [done|]. left. destruct k; repeat case_in Hs; simplify_eq; try done.
    destruct (li_ch x); by simplify_eq/=.
  - destruct (c_jobs c !! h) as [x|]; [|done]. simpl in Hs. unfold Cancel in Hs. left.
    case_in Hs; simplify_eq/=. by destruct serr.
  - unfold client_Ack in Hs. left. by repeat case_in Hs; simplify_eq/=.
  - destruct (c_jobs c !! h) as [x|]; [|done]. simpl in Hs. left. by case_in Hs; simplify_eq.
  - destruct (c_jobs c !! h) as [x|]; [|done]. simpl in Hs. left. by case_in Hs; simplify_eq.
  - destruct (c_subs c !! s0) as [x|]; [|done]. simpl in Hs. left. by case_in Hs; simplify_eq.
  - by rewrite (push_close_stuck _ _ _ _ Hr C) in Hs.
  - destruct (c_jobs c !! h) as [x|]; [|done]. simpl in Hs. left. by case_in Hs; simplify_eq.
  - destruct (c_subs c !! s0) as [x|]; [|done]. simpl in Hs. left. by case_in Hs; simplify_eq.
  - destruct (c_failing c !! i) as [[h e]|]; [|done]. left. by simplify_eq/=.
  - unfold ticker_load in Hs. left. by case_in Hs; simplify_eq.
  - unfold ticker_cas, sendAck in Hs. left. repeat case_in Hs; simplify_eq; by destruct serr.
  - left. by repeat case_in Hs; simplify_eq.
  - destruct (c_ackInflight c !! i); simplify_eq/=. left. unfold sendAck. by destruct serr.
  - simplify_eq. unfold client_Close. case_goal; [right|left|left]; done.
  - unfold client_Close_end in Hs. destruct (c_close c); try done. by rewrite Hz in Hs.
Qed.

(** The read loop in the [close] of a [push] stays there. *)
Lemma stuck_step c o c' s ev subs :
  CellInv c → c_rl c = RCloseWait s ev subs → client_step c o = Some c' → c_rl c' = RCloseWait s ev subs.
Proof.
  intros C Hr Hs. pose proof (light_step c o c' Hs) as L. rewrite <-Hr.
  destruct o; simpl in L; try (destruct L as [[Lf _ _] _] || destruct L as [Lf _ _]; by injection Lf);
    simpl in Hs; unfold rl_select in Hs; rewrite Hr in Hs; try done.
  by rewrite (push_close_stuck _ _ _ _ Hr C) in Hs.
Qed.

(** A subscription that overflows stops the client for good.  [push] calls
    [close] when its timer fires, and [close] waits for the [push] that called
    it: whatever happens afterwards, the read loop never receives another
    envelope and [Close] never returns, although the timeout is documented as
    the way to keep a slow consumer from stalling the read loop. *)
Theorem push_overflow_deadlocks (c : Client) (s : nat) (ev : JobEvent) (subs : list nat) :
  client_reachable c → c_rl c = RCloseWait s ev subs → c_close c ≠ CloseDone →
  ∀ ops c', client_run c ops = Some c' → c_rl c' = RCloseWait s ev subs ∧ c_close c' ≠ CloseDone.
Proof.
  intros Hreach Hr Hc ops. pose proof (reachable_CellInv c Hreach) as C. clear Hreach.
  revert c C Hr Hc. induction ops as [|o ops IH]; simpl; intros c C Hr Hc c' Hs; [by simplify_eq|].
  destruct (client_step c o) as [c1|] eqn:E; [|done]. simpl in Hs. apply (IH c1); try done.
  - by eapply client_step_CellInv.
  - by eapply stuck_step.
  - destruct (close_of_step c o c1 s ev subs C Hr E Hc) as [E1|E1]; congruence.
Qed.

End stuck.

Lemma overflow_reachable : client_reachable overflow_state.
Proof. apply client_run_from_connect; [done|]. vm_compute. reflexivity. Qed.

Lemma push_overflow_deadlocks_witness :
  runs (opts_with 0 false second) overflow_run = true ∧
  (∀ ops c', client_run overflow_state ops = Some c' →
     c_rl c' = RCloseWait 0 (log_event "last") [] ∧ c_close c' ≠ CloseDone).
Proof.
  split; [vm_compute; reflexivity|].
  apply (push_overflow_deadlocks overflow_state 0 (log_event "last") [] overflow_reachable).
  - vm_compute. reflexivity.
  - vm_compute. discriminate.
Defined.

(** ** Acceptances *)

(** The caller gives up on agent a before its acceptance arrives, then submits
    to agent b; both acceptances arrive. *)
Definition stale_run : list client_op :=
  [submit_op "a" "sub1"; OSubmitSelect CaseCtx ctx_Canceled; submit_op "b" "sub2";
   recv (accepted_env "job_a" "a"); OSubmitSelect CaseChan ctx_Canceled; recv (accepted_env "job_b" "b")].
Definition stale_state : Client := after (opts_with 0 false 0) stale_run.

(** An abandoned submission hands its job to the next one.  The acceptance
    of the cancelled submission is taken by the following [Submit], which
    returns a handle for agent b that carries the job of agent a; the
    acceptance of b's own job is dropped and no handle follows that job. *)
Theorem stale_acceptance_misattributed :
  runs (opts_with 0 false 0) stale_run = true ∧
  (∃ x acc, c_jobs stale_state !! 1 = Some x ∧ jh_agent x = "b" ∧ jh_returned x = Some None ∧ jh_id x = "job_a" ∧
     jh_accepted x = Some acc ∧ ja_Agent acc = "a") ∧
  c_handles stale_state !! "job_b" = None.
Proof.
  split; [vm_compute; reflexivity|]. split; [|vm_compute; reflexivity].
  eexists _, _. split; [vm_compute; reflexivity|]. by vm_compute.
Qed.

(** Two submissions under one idempotency key: the runtime answers the second
    with the job.accepted of the first. *)
Definition retry_run : list client_op :=
  accept_run ++ [submit_op "echo" "sub2"; recv (accepted_env "job_1" "echo")].
Definition retry_state : Client := after (opts_with 0 false 0) retry_run.

(** An idempotent retry on the same client does not return.  The replayed
    acceptance goes to the first handle: the second [Submit] is still queued,
    neither of its channels is ready, and it holds the submit lock, so every
    later [Submit] blocks until its caller gives up. *)
Theorem idempotent_retry_blocks :
  runs (opts_with 0 false 0) retry_run = true ∧
  c_submitMu retry_state = Some 1 ∧ c_pending retry_state = [1] ∧ c_rl retry_state = RRecv ∧
  (∀ e, Submit_select CaseChan e retry_state = None ∧ Submit_select CaseDone e retry_state = None ∧
        Submit_select CaseClient e retry_state = None) ∧
  (∀ input q id serr, Submit (Ok input) q id serr retry_state = None).
Proof.
  split_and!; try (vm_compute; reflexivity). intros e. split_and!; vm_compute; reflexivity.
Qed.

(** ** Delivery *)

(** A full queue: the 65th event times out, the consumer reads one event, the
    66th is delivered before the failing goroutine runs. *)
Definition skip_run : list client_op :=
  accept_run ++ concat (replicate eventsCap [recv (event_env "job_1" 0 (log_event "x")); send_ok]) ++
  [recv (event_env "job_1" 0 (log_event "lost")); ORlSelect CaseTimer; OReadEvent 0;
   recv (event_env "job_1" 0 (log_event "later")); send_ok].
Definition skip_state : Client := after (opts_with 0 false second) skip_run.

Definition is_log (msg : string) (ev : JobEvent) : bool :=
  match ev_Body ev with BLog _ m _ => bool_decide (m = msg) | _ => false end.

(** a delivery timeout can skip an event: the handle is failed by another
    goroutine, and until that runs the stream goes on after the event that was
    dropped, so the consumer sees the later event and not the lost one. *)
Theorem delivery_timeout_skips_event :
  runs (opts_with 0 false second) skip_run = true ∧
  ∃ x, c_jobs skip_state !! 0 = Some x ∧ jh_done x = false ∧
    existsb (is_log "later") (jh_events x) = true ∧ existsb (is_log "lost") (jh_read x ++ jh_events x) = false ∧
    existsb (is_log "lost") (events_since "job_1" x (c_recv skip_state)) = true.
Proof.
  split; [vm_compute; reflexivity|]. eexists. split; [vm_compute; reflexivity|].
  split_and!; vm_compute; reflexivity.
Qed.

(** the channel of [Done] is documented to close on a transport failure; the
    read loop fails every waiter and returns, and leaves the context of the
    client alive. *)
Theorem transport_failure_leaves_done_open :
  ∃ c', client_step waiting_state (ORecv (Err (ENew "connection reset")) 0 "" None) = Some c' ∧
    c_rl c' = RExited ∧ c_ctxDone c' = false.
Proof. eexists. split; [vm_compute; reflexivity|]. split; vm_compute; reflexivity. Qed.
