(* ===== verification/Transport.v ===== *)
(** * Transports: the interface and the in-memory pair

    Models transport/transport.go and transport/memory.go.  The interface
    [Transport] is the class [FifoTransport]: a transition system of two
    endpoints which, in each direction, hands over a prefix of what it
    accepted.  The in-memory pair is its first instance: two channels with 64
    places, one shared [closed] channel, and the calls of [Send] that are past
    their first [select].

    A step of [memory_op] is one [select] of one goroutine.  [memory_step] is
    [None] where the goroutine is blocked.  [mp_accepted] and [mp_received]
    record what was put in and taken out; no code reads them. *)

From S2P Require Import Prelude GoStrings Errors Features Lease Messages.

(** The two endpoints of a connection. *)
Inductive side := SLeft | SRight.

#[export] Instance side_eq_dec : EqDecision side.
Proof. solve_decision. Defined.

Definition peer (s : side) : side := match s with SLeft => SRight | SRight => SLeft end.

Lemma peer_peer (s : side) : peer (peer s) = s.
Proof. by destruct s. Qed.

(** ** Runs *)

(** The states a machine reaches from [init]. *)
Inductive run {S O : Type} (step : S → O → option S) (init : S) : S → Prop :=
| run_init : run step init init
| run_next s o s' : run step init s → step s o = Some s' → run step init s'.

Lemma run_invariant {S O} (step : S → O → option S) (init : S) (P : S → Prop) :
  P init → (∀ s o s', P s → step s o = Some s' → P s') → ∀ s, run step init s → P s.
Proof. intros H0 HS s. induction 1; eauto. Qed.

(** A run is the evaluation of a list of operations. *)
Fixpoint exec {S O} (step : S → O → option S) (s : S) (l : list O) : option S :=
  match l with
  | [] => Some s
  | o :: l => match step s o with Some s' => exec step s' l | None => None end
  end.

Lemma exec_run {S O} (step : S → O → option S) (init s s' : S) (l : list O) :
  run step init s → exec step s l = Some s' → run step init s'.
Proof.
  revert s. induction l as [|o l IH]; simpl; intros s Hs H; [by injection H as <-|].
  destruct (step s o) as [s1|] eqn:E; [|done]. eapply IH; [|done]. by eapply run_next.
Qed.

Lemma exec_app {S O} (step : S → O → option S) (s : S) (l1 l2 : list O) :
  exec step s (l1 ++ l2) = match exec step s l1 with Some s' => exec step s' l2 | None => None end.
Proof. revert s. induction l1 as [|o l1 IH]; simpl; intros s; [done|]. by destruct (step s o). Qed.

(** ** The interface

    [t_accepted d s] are the envelopes whose [Send] on side [d] returned nil,
    [t_received d s] those [Recv] returned on side [d], in order.  [t_clean d]
    excludes runs in which a write on side [d] failed half way. *)
Class FifoTransport (S O : Type) := {
  t_init : S;
  t_step : S → O → option S;
  t_accepted : side → S → list Envelope;
  t_received : side → S → list Envelope;
  t_clean : side → S → Prop;
  t_fifo : ∀ d s, run t_step t_init s → t_clean d s →
             t_received (peer d) s `prefix_of` t_accepted d s
}.

(** ** The in-memory pair (transport/memory.go) *)

Definition memoryCap : nat := 64.

(** A call of [Send]: in its second [select], or returned. *)
Inductive send_call :=
| Sending (d : side) (env : Envelope)
| SendReturned (d : side) (err : option error).

(** [mp_out d] is the buffer of the channel that side [d] sends on: [a] for
    the left side, [b] for the right one. *)
Record memoryPair := mkMemoryPair {
  mp_a : list Envelope;
  mp_b : list Envelope;
  mp_closed : bool;
  mp_calls : gmap nat send_call;
  mp_accepted : list (side * nat * Envelope);
  mp_received : list (side * Envelope)
}.

#[export] Instance eta_memoryPair : Eta memoryPair := λ p,
  mkMemoryPair (mp_a p) (mp_b p) (mp_closed p) (mp_calls p) (mp_accepted p) (mp_received p).

Definition NewMemoryPair : memoryPair := mkMemoryPair [] [] false ∅ [] [].

(** The fields [out] and [in] of a [memoryTransport]. *)
Definition mp_out (d : side) (p : memoryPair) : list Envelope :=
  match d with SLeft => mp_a p | SRight => mp_b p end.
Definition mp_in (d : side) (p : memoryPair) : list Envelope := mp_out (peer d) p.
Definition set_out (d : side) (q : list Envelope) (p : memoryPair) : memoryPair :=
  match d with SLeft => p <| mp_a := q |> | SRight => p <| mp_b := q |> end.

(** The case a [select] takes, with the error of the context for the last. *)
Inductive select_case := CaseChan | CaseClosed | CaseCtx (err : error).

(** The first [select] of [Send], which does not block: the call returns, or
    goes on to the second. *)
Definition memory_Send (d : side) (t : nat) (env : Envelope) (p : memoryPair) : memoryPair :=
  if mp_closed p then p <| mp_calls := <[t := SendReturned d (Some ErrClosed)]> (mp_calls p) |>
  else p <| mp_calls := <[t := Sending d env]> (mp_calls p) |>.

(** The second [select] of [Send]. *)
Definition memory_Send_select (d : side) (t : nat) (env : Envelope) (c : select_case) (p : memoryPair)
    : option memoryPair :=
  let return_ err := <[t := SendReturned d err]> (mp_calls p) in
  match c with
  | CaseChan =>
      if (length (mp_out d p) <? memoryCap)%nat then
        Some (set_out d (mp_out d p ++ [env]) p <| mp_calls := return_ None |>
                <| mp_accepted := mp_accepted p ++ [(d, t, env)] |>)
      else None
  | CaseClosed => if mp_closed p then Some (p <| mp_calls := return_ (Some ErrClosed) |>) else None
  | CaseCtx err => Some (p <| mp_calls := return_ (Some err) |>)
  end.

(** [Recv] on side [d]: the value or error returned, and the state after. *)
Definition memory_Recv (d : side) (c : select_case) (p : memoryPair) : option (res Envelope * memoryPair) :=
  match c with
  | CaseChan =>
      match mp_in d p with
      | env :: q => Some (Ok env, set_out (peer d) q p <| mp_received := mp_received p ++ [(d, env)] |>)
      | [] => None
      end
  | CaseClosed => if mp_closed p then Some (Err ErrClosed, p) else None
  | CaseCtx err => Some (Err err, p)
  end.

(** [Close], on either side. *)
Definition memory_Close (p : memoryPair) : memoryPair := p <| mp_closed := true |>.

Inductive memory_op :=
| MSend (d : side) (t : nat) (env : Envelope)
| MSendSelect (t : nat) (c : select_case)
| MRecv (d : side) (c : select_case)
| MClose.

Definition memory_step (p : memoryPair) (o : memory_op) : option memoryPair :=
  match o with
  | MSend d t env => match mp_calls p !! t with None => Some (memory_Send d t env p) | Some _ => None end
  | MSendSelect t c =>
      match mp_calls p !! t with
      | Some (Sending d env) => memory_Send_select d t env c p
      | _ => None
      end
  | MRecv d c => snd <$> memory_Recv d c p
  | MClose => Some (memory_Close p)
  end.

Definition accepted_on (d : side) (p : memoryPair) : list Envelope :=
  omap (λ x, if bool_decide (x.1.1 = d) then Some x.2 else None) (mp_accepted p).
Definition received_on (d : side) (p : memoryPair) : list Envelope :=
  omap (λ x, if bool_decide (x.1 = d) then Some x.2 else None) (mp_received p).

(** ** The queue discipline of the pair *)

Record mem_inv (p : memoryPair) : Prop := {
  mi_fifo : ∀ d, accepted_on d p = received_on (peer d) p ++ mp_out d p;
  mi_cap : ∀ d, length (mp_out d p) ≤ memoryCap;
  mi_ret : ∀ d t, mp_calls p !! t = Some (SendReturned d None) ↔ ∃ env, (d, t, env) ∈ mp_accepted p;
  mi_once : NoDup (snd ∘ fst <$> mp_accepted p)
}.

Lemma mp_out_set (d d' : side) (q : list Envelope) (p : memoryPair) :
  mp_out d' (set_out d q p) = if decide (d' = d) then q else mp_out d' p.
Proof. by destruct d, d'. Qed.

Lemma accepted_on_snoc (d d' : side) (t : nat) (env : Envelope) (l : list (side * nat * Envelope)) (p : memoryPair) :
  mp_accepted p = l ++ [(d, t, env)] →
  accepted_on d' p = omap (λ x, if bool_decide (x.1.1 = d') then Some x.2 else None) l ++
                       (if decide (d' = d) then [env] else []).
Proof.
  unfold accepted_on. intros ->. rewrite omap_app. f_equal. simpl.
  destruct d, d'; done.
Qed.

Lemma received_on_snoc (d d' : side) (env : Envelope) (l : list (side * Envelope)) (p : memoryPair) :
  mp_received p = l ++ [(d, env)] →
  received_on d' p = omap (λ x, if bool_decide (x.1 = d') then Some x.2 else None) l ++
                       (if decide (d' = d) then [env] else []).
Proof.
  unfold received_on. intros ->. rewrite omap_app. f_equal. simpl.
  destruct d, d'; done.
Qed.

Lemma mem_inv_init : mem_inv NewMemoryPair.
Proof.
  split.
  - intros d. by destruct d.
  - intros d. destruct d; simpl; unfold memoryCap; lia.
  - intros d t. simpl. rewrite lookup_empty. split; [done|]. intros [env H]. by apply elem_of_nil in H.
  - constructor.
Qed.

(** A call that was not accepted returns an error, or moves to its second
    [select]; the queues do not change. *)
Lemma mem_inv_call (p : memoryPair) (t : nat) (x : send_call) :
  mem_inv p → (∀ d, x ≠ SendReturned d None) → (∀ d, mp_calls p !! t ≠ Some (SendReturned d None)) →
  mem_inv (p <| mp_calls := <[t := x]> (mp_calls p) |>).
Proof.
  intros [F C R O] Hx Ht. split; try done. intros d t'. rewrite <-R. simpl.
  destruct (decide (t = t')) as [<-|Hne]; [|by rewrite lookup_insert_ne].
  rewrite lookup_insert_eq. split; intros H; [injection H as ->; by destruct (Hx d)|by destruct (Ht d)].
Qed.

Lemma mem_inv_accept (p : memoryPair) (d : side) (t : nat) (env : Envelope) :
  mem_inv p → mp_calls p !! t = Some (Sending d env) → length (mp_out d p) < memoryCap →
  mem_inv (set_out d (mp_out d p ++ [env]) p <| mp_calls := <[t := SendReturned d None]> (mp_calls p) |>
             <| mp_accepted := mp_accepted p ++ [(d, t, env)] |>).
Proof.
  intros [F C R O] Ht Hl.
  assert (Hn : ∀ d' env', (d', t, env') ∉ mp_accepted p).
  { intros d' env' H. assert (mp_calls p !! t = Some (SendReturned d' None)) by (apply R; by exists env').
    congruence. }
  set (p' := set_out d (mp_out d p ++ [env]) p <| mp_calls := <[t := SendReturned d None]> (mp_calls p) |>
             <| mp_accepted := mp_accepted p ++ [(d, t, env)] |>).
  assert (Hr : ∀ d', received_on d' p' = received_on d' p) by (intros d'; by destruct d, d').
  assert (Ho : ∀ d', mp_out d' p' = if decide (d' = d) then mp_out d p ++ [env] else mp_out d' p)
    by (intros d'; by destruct d, d').
  split.
  - intros d'. rewrite (accepted_on_snoc d d' t env (mp_accepted p) p' eq_refl), Hr, Ho.
    fold (accepted_on d' p). rewrite (F d'). destruct (decide (d' = d)) as [->|Hd].
    + by rewrite app_assoc.
    + by rewrite app_nil_r.
  - intros d'. rewrite Ho. case_decide; [rewrite length_app; simpl; lia|apply C].
  - intros d' t'. unfold p'; simpl. destruct (decide (t = t')) as [<-|Hne].
    + rewrite lookup_insert_eq. split.
      * intros [= <-]. exists env. apply elem_of_app. right. by left.
      * intros [env' H]. apply elem_of_app in H as [H|H]; [by apply Hn in H|].
        apply list_elem_of_singleton in H. by injection H as -> _.
    + rewrite lookup_insert_ne by done. rewrite R. split; intros [env' H]; exists env'.
      * apply elem_of_app. by left.
      * apply elem_of_app in H as [H|H]; [done|]. apply list_elem_of_singleton in H. congruence.
  - unfold p'; simpl. rewrite fmap_app. apply NoDup_app. split; [done|]. split; [|repeat constructor; by intros H%elem_of_nil].
    intros t' H H'. apply list_elem_of_singleton in H' as ->.
    apply list_elem_of_fmap in H as [[[d' t'] env'] [Heq H]]. simpl in Heq. subst. by apply Hn in H.
Qed.

Lemma mem_inv_take (p : memoryPair) (d : side) (env : Envelope) (q : list Envelope) :
  mem_inv p → mp_in d p = env :: q →
  mem_inv (set_out (peer d) q p <| mp_received := mp_received p ++ [(d, env)] |>).
Proof.
  intros [F C R O] Hin. unfold mp_in in Hin.
  set (p' := set_out (peer d) q p <| mp_received := mp_received p ++ [(d, env)] |>).
  assert (Ha : ∀ d', accepted_on d' p' = accepted_on d' p) by (intros d'; by destruct d, d').
  assert (Ho : ∀ d', mp_out d' p' = if decide (d' = peer d) then q else mp_out d' p)
    by (intros d'; by destruct d, d').
  split; try (by destruct d).
  - intros d'. rewrite Ha, F, Ho, (received_on_snoc d (peer d') env (mp_received p) p' eq_refl).
    fold (received_on (peer d') p). rewrite <-app_assoc. f_equal.
    destruct (decide (d' = peer d)) as [->|Hd].
    + rewrite peer_peer, decide_True by done. by rewrite Hin.
    + rewrite decide_False; [done|]. intros <-. by rewrite peer_peer in Hd.
  - intros d'. rewrite Ho. case_decide; [|apply C]. specialize (C (peer d)). rewrite Hin in C. simpl in C. lia.
Qed.

Lemma mem_inv_step (p : memoryPair) (o : memory_op) (p' : memoryPair) :
  mem_inv p → memory_step p o = Some p' → mem_inv p'.
Proof.
  intros I H. destruct o as [d t env|t c|d c|]; simpl in H.
  - destruct (mp_calls p !! t) eqn:E; [done|]. injection H as <-. unfold memory_Send.
    destruct (mp_closed p); apply mem_inv_call; try done; intros; by rewrite ?E.
  - destruct (mp_calls p !! t) as [[d env|]|] eqn:E; try done. unfold memory_Send_select in H.
    destruct c as [| |err].
    + destruct (Nat.ltb_spec (length (mp_out d p)) memoryCap); [|done]. injection H as <-. by apply mem_inv_accept.
    + destruct (mp_closed p); [|done]. injection H as <-. apply mem_inv_call; try done; intros; by rewrite E.
    + injection H as <-. apply mem_inv_call; try done; intros; by rewrite E.
  - unfold memory_Recv in H. destruct c as [| |err].
    + destruct (mp_in d p) as [|env q] eqn:E; [done|]. injection H as <-. by apply mem_inv_take.
    + destruct (mp_closed p); [|done]. by injection H as <-.
    + by injection H as <-.
  - injection H as <-. by destruct I.
Qed.

Lemma memory_reachable_inv (p : memoryPair) : run memory_step NewMemoryPair p → mem_inv p.
Proof. apply run_invariant; [apply mem_inv_init|apply mem_inv_step]. Qed.

#[export] Program Instance memory_fifo : FifoTransport memoryPair memory_op := {
  t_init := NewMemoryPair; t_step := memory_step;
  t_accepted := accepted_on; t_received := received_on; t_clean := λ _ _, True
}.
Next Obligation.
  intros d p Hp _. exists (mp_out d p). apply (mi_fifo p), memory_reachable_inv, Hp.
Qed.

(** ** Claims *)

(** C30: the in-memory pair is a bounded reliable FIFO.  In every run, in each
    direction, the envelopes whose [Send] returned nil are the ones the peer's
    [Recv] returned followed by at most 64 that are still buffered, each call
    of [Send] that returned nil having put its envelope in exactly once and a
    call that returned an error never. *)
Theorem memory_pair_fifo (p : memoryPair) (d : side) :
  run memory_step NewMemoryPair p →
  accepted_on d p = received_on (peer d) p ++ mp_out d p ∧
  length (mp_out d p) ≤ memoryCap ∧
  (∀ t, mp_calls p !! t = Some (SendReturned d None) ↔ ∃ env, (d, t, env) ∈ mp_accepted p) ∧
  NoDup (snd ∘ fst <$> mp_accepted p).
Proof.
  intros H. destruct (memory_reachable_inv p H) as [F C R O]. split_and!; [apply F|apply C|intros t; apply R|done].
Qed.

Definition probe_env (n : Z) : Envelope := mkEnvelope "1.1" "m" "job.event" "s" "j" "" n PNil.

(** Two envelopes go left to right, one of them is read, the pair is closed. *)
Definition memory_run : list memory_op :=
  [MSend SLeft 0 (probe_env 1); MSend SLeft 1 (probe_env 2); MSendSelect 1 CaseChan;
   MSendSelect 0 CaseChan; MRecv SRight CaseChan; MClose; MSend SRight 2 (probe_env 3)].

Lemma memory_pair_fifo_witness :
  ∃ p, exec memory_step NewMemoryPair memory_run = Some p ∧
       accepted_on SLeft p = [probe_env 2; probe_env 1] ∧
       accepted_on SLeft p = received_on SRight p ++ mp_out SLeft p ∧
       mp_calls p !! 2 = Some (SendReturned SRight (Some ErrClosed)).
Proof.
  eexists. split; [reflexivity|]. split; [reflexivity|]. split; [|reflexivity].
  apply (memory_pair_fifo _ SLeft). apply (exec_run _ _ NewMemoryPair _ memory_run); [constructor|reflexivity].
Defined.

(** After [Close] a new [Send] returns [ErrClosed] without touching the
    queues, and every call in progress, on both sides, can return. *)
Lemma memory_close_spec (p : memoryPair) :
  mp_closed p = true →
  (∀ d t env p', memory_step p (MSend d t env) = Some p' →
     mp_calls p' !! t = Some (SendReturned d (Some ErrClosed)) ∧
     (∀ d', mp_out d' p' = mp_out d' p) ∧ mp_closed p' = true) ∧
  (∀ t d env, mp_calls p !! t = Some (Sending d env) →
     ∃ p', memory_step p (MSendSelect t CaseClosed) = Some p' ∧
           mp_calls p' !! t = Some (SendReturned d (Some ErrClosed))) ∧
  (∀ d, memory_Recv d CaseClosed p = Some (Err ErrClosed, p)).
Proof.
  intros Hc. split_and!.
  - intros d t env p' H. simpl in H. destruct (mp_calls p !! t); [done|]. injection H as <-.
    unfold memory_Send. rewrite Hc. simpl. rewrite lookup_insert_eq. by split_and!.
  - intros t d env H. simpl. rewrite H. unfold memory_Send_select. rewrite Hc. eexists. split; [done|].
    simpl. by rewrite lookup_insert_eq.
  - intros d. unfold memory_Recv. by rewrite Hc.
Qed.
