(* ===== verification/Outbox.v ===== *)
(** * The outbox of a session, step by step

    Models enqueue, maybeEmitBackPressure, closeOutbox and writeLoop of
    server/session.go below the granularity of the file Delivery, where an
    enqueue is one step: any number of goroutines send, one writer takes, and
    the deferred function of [run] closes the channel while they do.  A critical
    section of [sendMu] or [highMu] is one step, since what it guards is used
    nowhere else; the [select] of a sender, the read of the ack mark, the
    compare-and-swap of the armed flag, the allocation of the sequence number
    with the append to the log, the non-blocking send and the deferred
    [sendWG.Done] are steps of their own, and so are the cancellation, the
    flag, the wait with the close and the join of the exit.

    [ob_panic] records a send on the closed channel, a second close or a
    negative wait group.  The number 0 is the goroutine of the read loop, which
    runs the handlers and, once no handler runs, the exit. *)

From S2P Require Import Prelude GoStrings Errors Features Float64 Lease Canonical LeaseState Messages EventLog IdStore Agents ServerState Delivery Transport.
From Stdlib Require Import ZArith Lia.

(** ** State *)

(** A call of [enqueue] past [sendWG.Add]: at its [select]; about to read the
    ack mark; about to swap the armed flag; about to number and log the
    back-pressure event; about to send it; about to return. *)
Inductive enqueue_pc :=
| EnqSelect (env : Envelope)
| EnqHigh (env : Envelope)
| EnqSwap (env : Envelope) (high : Z)
| EnqPersist (env : Envelope) (high : Z)
| EnqOffer (bp : Envelope)
| EnqReturn.

(** [writeLoop]: at its [select], in [transport.Send], returned. *)
Inductive writer_pc := WrSelect | WrSend (env : Envelope) | WrDone.

(** The deferred function of [run]: not begun, past [s.cancel], past the flag of
    [closeOutbox], past the close of the channel, past the join of the
    writer. *)
Inductive exit_pc := ExNone | ExCancelled | ExWaiting | ExJoin | ExDone.
#[export] Instance exit_pc_eq_dec : EqDecision exit_pc.
Proof. solve_decision. Defined.

Record outbox := mkOutbox {
  ob_cap : nat;
  ob_threshold : Z;
  ob_ack : bool;
  ob_sid : string;
  ob_queue : list Envelope;
  ob_chClosed : bool;
  ob_closed : bool;
  ob_wg : Z;
  ob_ctxDone : bool;
  ob_seq : Z;
  ob_high : Z;
  ob_armed : bool;
  ob_rearm : option Z;
  ob_calls : gmap nat enqueue_pc;
  ob_writer : writer_pc;
  ob_exit : exit_pc;
  ob_log : list Envelope;
  ob_accepted : list Envelope;
  ob_taken : list Envelope;
  ob_fired : nat;
  ob_stores : nat;
  ob_panic : bool
}.

#[export] Instance eta_outbox : Eta outbox := λ b,
  mkOutbox (ob_cap b) (ob_threshold b) (ob_ack b) (ob_sid b) (ob_queue b) (ob_chClosed b) (ob_closed b) (ob_wg b) (ob_ctxDone b)
    (ob_seq b) (ob_high b) (ob_armed b) (ob_rearm b) (ob_calls b) (ob_writer b) (ob_exit b) (ob_log b) (ob_accepted b) (ob_taken b)
    (ob_fired b) (ob_stores b) (ob_panic b).

(** A new session: the options, whether ack was negotiated, the id and the
    number its allocator stands at. *)
Definition new_outbox (cap : nat) (threshold : Z) (ack : bool) (sid : string) (seq : Z) : outbox :=
  mkOutbox cap threshold ack sid [] false false 0 false seq 0 true None ∅ WrSelect ExNone [] [] [] 0 0 false.

(** ** Operations *)

Definition at_call (i : nat) (pc : enqueue_pc) (b : outbox) : outbox := b <| ob_calls := <[i := pc]> (ob_calls b) |>.

Definition has_room (b : outbox) : bool := (length (ob_queue b) <? ob_cap b)%nat.

(** A send on the channel that has room. *)
Definition put (env : Envelope) (b : outbox) : outbox :=
  b <| ob_queue := ob_queue b ++ [env] |> <| ob_accepted := ob_accepted b ++ [env] |>.

(** [backPressureArmed.Store(true)]. *)
Definition store_armed (b : outbox) : outbox := b <| ob_armed := true |> <| ob_stores := S (ob_stores b) |>.

(** The first critical section of [enqueue]. *)
Definition enqueue_begin (i : nat) (env : Envelope) (b : outbox) : outbox :=
  if ob_closed b then b
  else at_call i (EnqSelect env) (b <| ob_wg := (ob_wg b + 1)%Z |>).

(** The [select] of [enqueue]: the send, or the context. *)
Definition enqueue_send (i : nat) (env : Envelope) (b : outbox) : option outbox :=
  if ob_chClosed b then Some (b <| ob_panic := true |>)
  else if has_room b then Some (at_call i (EnqHigh env) (put env b))
  else None.

Definition enqueue_ctx (i : nat) (env : Envelope) (b : outbox) : option outbox :=
  if ob_ctxDone b then Some (at_call i (EnqHigh env) b) else None.

(** [maybeEmitBackPressure] up to the read of the mark. *)
Definition pressure_high (i : nat) (env : Envelope) (b : outbox) : outbox :=
  let seq := env_EventSeq env in
  let high := ob_high b in
  if (ob_threshold b =? 0)%Z || negb (ob_ack b) then at_call i EnqReturn b
  else if (seq <=? high)%Z || (seq - high <? ob_threshold b)%Z then at_call i EnqReturn b
  else at_call i (EnqSwap env high) b.

Definition pressure_swap (i : nat) (env : Envelope) (high : Z) (b : outbox) : outbox :=
  if ob_armed b then at_call i (EnqPersist env high) (b <| ob_armed := false |> <| ob_fired := S (ob_fired b) |>)
  else at_call i EnqReturn b.

Definition pressure_env (b : outbox) (env : Envelope) (high : Z) (id : string) (t : Time) (n : Z) : Envelope :=
  mkEnvelope ProtocolVersion id TypeJobEvent (ob_sid b) (env_JobID env) "" n
    (PEvent (mkEvent KindStatus t (bp_body (ob_threshold b) (env_EventSeq env) high))).

(** The number and the log; the body always marshals. *)
Definition pressure_persist (i : nat) (env : Envelope) (high : Z) (id : string) (t : Time) (b : outbox) : outbox :=
  let n := wrap_u64 (ob_seq b + 1) in
  let bp := pressure_env b env high id t n in
  at_call i (EnqOffer bp) (b <| ob_seq := n |> <| ob_log := ob_log b ++ if (n =? 0)%Z then [] else [bp] |>).

(** The non-blocking send under [sendMu]. *)
Definition pressure_offer (i : nat) (bp : Envelope) (b : outbox) : outbox :=
  at_call i EnqReturn
    (if ob_closed b then b
     else if ob_chClosed b then b <| ob_panic := true |>
     else if has_room b then put bp b
     else store_armed b).

(** The deferred [sendWG.Done]. *)
Definition enqueue_return (i : nat) (b : outbox) : outbox :=
  let n := (ob_wg b - 1)%Z in
  b <| ob_wg := n |> <| ob_calls := delete i (ob_calls b) |> <| ob_panic := ob_panic b || (n <? 0)%Z |>.

(** [handleAck]: the mark, then the flag. *)
Definition ack_mark (n : Z) (b : outbox) : outbox :=
  let high := if (ob_high b <? n)%Z then n else ob_high b in
  b <| ob_high := high |> <| ob_rearm := Some high |>.

Definition ack_rearm (high : Z) (b : outbox) : outbox :=
  let b := b <| ob_rearm := None |> in
  if (0 <? ob_threshold b)%Z && ((ob_seq b <=? high)%Z || (ob_seq b - high <? ob_threshold b)%Z) then store_armed b else b.

(** [writeLoop]. *)
Definition write_take (b : outbox) : option outbox :=
  match ob_queue b with
  | env :: q => Some (b <| ob_queue := q |> <| ob_taken := ob_taken b ++ [env] |> <| ob_writer := WrSend env |>)
  | [] => if ob_chClosed b then Some (b <| ob_writer := WrDone |>) else None
  end.

(** [closeOutbox]: the flag; the wait and the close. *)
Definition close_flag (b : outbox) : outbox :=
  if ob_closed b then b <| ob_exit := ExJoin |> else b <| ob_closed := true |> <| ob_exit := ExWaiting |>.

Definition close_channel (b : outbox) : option outbox :=
  if (ob_wg b =? 0)%Z
  then Some (b <| ob_chClosed := true |> <| ob_exit := ExJoin |> <| ob_panic := ob_panic b || ob_chClosed b |>)
  else None.

(** ** The machine *)

(** What the select of a sender or of the writer takes: the channel or the
    context. *)
Inductive outbox_op :=
| BEnqueue (i : nat) (env : Envelope)
| BCall (i : nat) (chan : bool) (id : string) (t : Time)
| BAck (n : Z)
| BRearm
| BNumber
| BCancel
| BWrite (chan : bool)
| BSent (ok : bool)
| BExit.

(** The next step of a call. *)
Definition call_step (i : nat) (chan : bool) (id : string) (t : Time) (b : outbox) : option outbox :=
  match ob_calls b !! i with
  | None => None
  | Some (EnqSelect env) => if chan then enqueue_send i env b else enqueue_ctx i env b
  | Some (EnqHigh env) => Some (pressure_high i env b)
  | Some (EnqSwap env high) => Some (pressure_swap i env high b)
  | Some (EnqPersist env high) => Some (pressure_persist i env high id t b)
  | Some (EnqOffer bp) => Some (pressure_offer i bp b)
  | Some EnqReturn => Some (enqueue_return i b)
  end.

(** The read loop is between two requests. *)
Definition reader_idle (b : outbox) : bool :=
  bool_decide (ob_calls b !! 0 = None) && bool_decide (ob_rearm b = None) && bool_decide (ob_exit b = ExNone).

(** The exit runs on the goroutine of the read loop. *)
Definition exit_step (b : outbox) : option outbox :=
  match ob_exit b with
  | ExNone => if reader_idle b then Some (b <| ob_ctxDone := true |> <| ob_exit := ExCancelled |>) else None
  | ExCancelled => Some (close_flag b)
  | ExWaiting => close_channel b
  | ExJoin => match ob_writer b with WrDone => Some (b <| ob_exit := ExDone |>) | _ => None end
  | ExDone => None
  end.

Definition outbox_step (b : outbox) (o : outbox_op) : option outbox :=
  match o with
  | BEnqueue i env =>
      match ob_calls b !! i with
      | Some _ => None
      | None => if bool_decide (i = 0) && negb (reader_idle b) then None else Some (enqueue_begin i env b)
      end
  | BCall i chan id t => call_step i chan id t b
  | BAck n => if reader_idle b then Some (ack_mark n b) else None
  | BRearm => high ← ob_rearm b; Some (ack_rearm high b)
  | BNumber => Some (b <| ob_seq := wrap_u64 (ob_seq b + 1) |>)
  | BCancel => Some (b <| ob_ctxDone := true |>)
  | BWrite chan =>
      match ob_writer b with
      | WrSelect => if chan then write_take b else if ob_ctxDone b then Some (b <| ob_writer := WrDone |>) else None
      | _ => None
      end
  | BSent ok =>
      match ob_writer b with
      | WrSend _ => Some (b <| ob_writer := if ok then WrSelect else WrDone |>)
      | _ => None
      end
  | BExit => exit_step b
  end.

(** ** The invariant *)

Definition exit_closed (x : exit_pc) : bool := match x with ExWaiting | ExJoin | ExDone => true | _ => false end.

Record outbox_inv (b : outbox) : Prop := {
  oi_panic : ob_panic b = false;
  oi_wg : ob_wg b = Z.of_nat (size (ob_calls b));
  oi_closed : ob_closed b = exit_closed (ob_exit b);
  oi_channel : ob_chClosed b = match ob_exit b with ExJoin | ExDone => true | _ => false end;
  oi_empty : ob_chClosed b = true → ob_calls b = ∅;
  oi_ctx : ob_exit b ≠ ExNone → ob_ctxDone b = true;
  oi_room : length (ob_queue b) ≤ ob_cap b;
  oi_fifo : ob_accepted b = ob_taken b ++ ob_queue b;
  oi_joined : ob_exit b = ExDone → ob_writer b = WrDone;
  oi_coalesced : ob_fired b + (if ob_armed b then 1 else 0) ≤ 1 + ob_stores b
}.

Lemma new_outbox_inv cap threshold ack sid seq : outbox_inv (new_outbox cap threshold ack sid seq).
Proof. split; cbn; try done; lia. Qed.

(** The place of a call that is in flight changes. *)
Lemma at_call_inv i pc pc' b : ob_calls b !! i = Some pc → outbox_inv b → outbox_inv (at_call i pc' b).
Proof.
  intros Hi []. split; cbn; try done.
  - rewrite map_size_insert_Some by (by eexists). done.
  - intros Hc. specialize (oi_empty0 Hc). rewrite oi_empty0 in Hi. by rewrite lookup_empty in Hi.
Qed.

(** While a call is in flight the channel is open. *)
Lemma in_flight_open i pc b : ob_calls b !! i = Some pc → outbox_inv b → ob_chClosed b = false.
Proof.
  intros Hi []. destruct (ob_chClosed b); [|done]. rewrite oi_empty0 in Hi by done. by rewrite lookup_empty in Hi.
Qed.

Lemma put_inv env b : has_room b = true → ob_chClosed b = false → outbox_inv b → outbox_inv (put env b).
Proof.
  intros Hr%Nat.ltb_lt Hc []. split; cbn; try done.
  - rewrite length_app. cbn. lia.
  - by rewrite oi_fifo0, app_assoc.
Qed.

Lemma store_armed_inv b : outbox_inv b → outbox_inv (store_armed b).
Proof. intros []. split; cbn; try done. destruct (ob_armed b); lia. Qed.

Lemma call_step_inv i chan id t b b' : outbox_inv b → call_step i chan id t b = Some b' → outbox_inv b'.
Proof.
  intros H. unfold call_step. destruct (ob_calls b !! i) as [pc|] eqn:Hi; [|done].
  pose proof (in_flight_open i pc b Hi H) as Hopen. destruct pc as [env|env|env high|env high|bp|].
  - destruct chan; [unfold enqueue_send|unfold enqueue_ctx].
    + rewrite Hopen. destruct (has_room b) eqn:Hr; [|done]. intros [= <-].
      eapply at_call_inv; [exact Hi|]. by apply put_inv.
    + destruct (ob_ctxDone b); [|done]. intros [= <-]. by eapply at_call_inv.
  - intros [= <-]. unfold pressure_high. cbv zeta. repeat case_match; by eapply at_call_inv.
  - intros [= <-]. unfold pressure_swap. destruct (ob_armed b) eqn:Ha; [|by eapply at_call_inv].
    eapply at_call_inv; [exact Hi|]. destruct H. split; cbn; try done. rewrite Ha in oi_coalesced0. lia.
  - intros [= <-]. eapply at_call_inv; [exact Hi|]. destruct H. by split.
  - intros [= <-]. eapply at_call_inv; [by repeat case_match; exact Hi|]. rewrite Hopen.
    destruct (ob_closed b); [done|]. destruct (has_room b) eqn:Hr; [by apply put_inv|by apply store_armed_inv].
  - intros [= <-]. assert (size (ob_calls b) ≠ 0) as Hs
      by (intros Hs%map_size_empty_inv; rewrite Hs in Hi; by rewrite lookup_empty in Hi).
    destruct H. unfold enqueue_return. split; cbn; try done.
    + rewrite oi_panic0. cbn. apply Z.ltb_ge. lia.
    + rewrite map_size_delete_Some by (by eexists). lia.
    + congruence.
Qed.

Lemma enqueue_begin_inv i env b : ob_calls b !! i = None → outbox_inv b → outbox_inv (enqueue_begin i env b).
Proof.
  intros Hi H. unfold enqueue_begin. destruct (ob_closed b) eqn:Hc; [done|]. destruct H. split; cbn; try done.
  - rewrite map_size_insert_None by done. lia.
  - intros Hch. rewrite Hch in oi_channel0. rewrite Hc in oi_closed0. by destruct (ob_exit b).
Qed.

Lemma exit_step_inv b b' : outbox_inv b → exit_step b = Some b' → outbox_inv b'.
Proof.
  intros []. unfold exit_step, close_flag, close_channel. destruct (ob_exit b) eqn:Hx; try done.
  - destruct (reader_idle b); [|done]. intros [= <-]. split; cbn; try done.
  - rewrite oi_closed0. cbn. intros [= <-]. split; cbn; try done. intros _. by apply oi_ctx0.
  - destruct (Z.eqb_spec (ob_wg b) 0) as [Hw|]; [|done]. intros [= <-]. split; cbn; try done.
    + by rewrite oi_panic0, oi_channel0.
    + intros _. apply map_size_empty_inv. lia.
    + intros _. by apply oi_ctx0.
  - destruct (ob_writer b) eqn:Hw; try done. intros [= <-]. split; cbn; try done. intros _. by apply oi_ctx0.
Qed.

Lemma write_inv b o b' : (∃ c, o = BWrite c) ∨ (∃ ok, o = BSent ok) → outbox_inv b → outbox_step b o = Some b' → outbox_inv b'.
Proof.
  intros Ho []. assert (ob_writer b ≠ WrDone → ob_exit b ≠ ExDone) as Hx by (intros Hw Hx; by destruct (Hw (oi_joined0 Hx))).
  destruct Ho as [[chan ->]|[ok ->]]; cbn; destruct (ob_writer b) as [|env|] eqn:Hw; try done.
  - destruct chan; [unfold write_take|].
    + destruct (ob_queue b) as [|env q] eqn:Hq; [destruct (ob_chClosed b) eqn:Hch; [|done]|]; intros [= <-]; split; cbn; rewrite ?Hch, ?Hq; try done.
      * cbn in oi_room0. lia.
      * by rewrite oi_fifo0, <-app_assoc.
      * intros H. by destruct Hx.
    + destruct (ob_ctxDone b) eqn:Hd; [|done]. intros [= <-]. split; cbn; rewrite ?Hd; done.
  - intros [= <-]. split; cbn; try done. intros H. by destruct Hx.
Qed.

Lemma outbox_step_inv b o b' : outbox_inv b → outbox_step b o = Some b' → outbox_inv b'.
Proof.
  intros H. destruct o as [i env|i chan id t|n| | | |chan|ok|].
  - cbn. destruct (ob_calls b !! i) eqn:Hi; [done|]. case_match; [done|]. intros [= <-]. by apply enqueue_begin_inv.
  - by apply call_step_inv.
  - cbn. case_match; [|done]. intros [= <-]. destruct H. by split.
  - cbn. destruct (ob_rearm b) as [high|]; [|done]. intros [= <-]. unfold ack_rearm. cbv zeta.
    assert (outbox_inv (b <| ob_rearm := None |>)) as H' by (destruct H; by split). case_match; [by apply store_armed_inv|done].
  - cbn. intros [= <-]. destruct H. by split.
  - cbn. intros [= <-]. destruct H. by split.
  - apply write_inv; [left; by eexists|done].
  - apply write_inv; [right; by eexists|done].
  - by apply exit_step_inv.
Qed.

Lemma outbox_reachable_inv init b : outbox_inv init → run outbox_step init b → outbox_inv b.
Proof. intros H0. apply run_invariant; [done|]. intros s o s'. apply outbox_step_inv. Qed.

(** ** The exit returns *)

(** The steps of what is under way: the calls in flight, the writer and the
    exit. *)
Definition own_step (o : outbox_op) : bool :=
  match o with BCall _ _ _ _ | BWrite _ | BSent _ | BExit | BRearm => true | _ => false end.

(** What is left to do; an envelope in the channel counts for the two steps of
    the writer. *)
Definition pc_weight (pc : enqueue_pc) : nat :=
  match pc with EnqSelect _ => 10 | EnqHigh _ => 7 | EnqSwap _ _ => 6 | EnqPersist _ _ => 5 | EnqOffer _ => 4 | EnqReturn => 1 end.
Definition writer_weight (w : writer_pc) : nat := match w with WrSelect => 1 | WrSend _ => 2 | WrDone => 0 end.
Definition exit_weight (x : exit_pc) : nat :=
  match x with ExNone => 4 | ExCancelled => 3 | ExWaiting => 2 | ExJoin => 1 | ExDone => 0 end.

Definition calls_weight (m : gmap nat enqueue_pc) : nat := sum_list_with (λ x, pc_weight x.2) (map_to_list m).

Definition weight (b : outbox) : nat :=
  calls_weight (ob_calls b) + 2 * length (ob_queue b) + writer_weight (ob_writer b) + exit_weight (ob_exit b) +
  match ob_rearm b with Some _ => 1 | None => 0 end.

Lemma calls_weight_delete i pc m : m !! i = Some pc → calls_weight m = pc_weight pc + calls_weight (delete i m).
Proof. intros Hi. unfold calls_weight. by rewrite <-(map_to_list_delete m i pc Hi). Qed.

Lemma calls_weight_insert i pc pc' m : m !! i = Some pc → calls_weight (<[i := pc']> m) + pc_weight pc = calls_weight m + pc_weight pc'.
Proof.
  intros Hi. rewrite (calls_weight_delete i pc m Hi), (calls_weight_delete i pc' (<[i := pc']> m)) by apply lookup_insert_eq.
  rewrite delete_insert_eq. lia.
Qed.

(** A call that moves on pays for what it puts in the channel. *)
Lemma call_step_weight i chan id t b b' : outbox_inv b → call_step i chan id t b = Some b' → weight b' < weight b.
Proof.
  intros H. unfold call_step. destruct (ob_calls b !! i) as [pc|] eqn:Hi; [|done].
  pose proof (in_flight_open i pc b Hi H) as Hopen. pose proof (λ pc', calls_weight_insert i pc pc' (ob_calls b) Hi) as Hw.
  destruct pc as [env|env|env high|env high|bp|]; cbn [pc_weight] in Hw.
  - unfold enqueue_send, enqueue_ctx. rewrite Hopen.
    destruct chan; [destruct (has_room b); [|done]|destruct (ob_ctxDone b); [|done]]; intros [= <-]; unfold weight; cbn;
      specialize (Hw (EnqHigh env)); cbn in Hw; rewrite ?length_app; cbn; lia.
  - intros [= <-]. unfold pressure_high. cbv zeta. specialize (Hw EnqReturn) as H1. specialize (Hw (EnqSwap env (ob_high b))) as H2.
    cbn in H1, H2. repeat case_match; unfold weight; cbn; lia.
  - intros [= <-]. unfold pressure_swap. specialize (Hw EnqReturn) as H1. specialize (Hw (EnqPersist env high)) as H2. cbn in H1, H2.
    destruct (ob_armed b); unfold weight; cbn; lia.
  - intros [= <-]. unfold pressure_persist, weight. cbn. specialize (Hw (EnqOffer (pressure_env b env high id t (wrap_u64 (ob_seq b + 1))))).
    cbn in Hw. lia.
  - intros [= <-]. unfold pressure_offer. rewrite Hopen. specialize (Hw EnqReturn). cbn in Hw.
    destruct (ob_closed b); [|destruct (has_room b)]; unfold weight; cbn; rewrite ?length_app; cbn; lia.
  - intros [= <-]. unfold weight, enqueue_return. cbn. rewrite (calls_weight_delete i EnqReturn (ob_calls b) Hi). cbn. lia.
Qed.

(** Every step of what is under way leaves less to do. *)
Lemma own_step_weight b o b' : outbox_inv b → own_step o = true → outbox_step b o = Some b' → weight b' < weight b.
Proof.
  intros H Ho. destruct o as [i env|i chan id t|n| | | |chan|ok|]; try done; cbn [outbox_step].
  - by apply call_step_weight.
  - destruct (ob_rearm b) as [high|] eqn:Hr; [|done]. intros [= <-]. unfold ack_rearm, weight. cbv zeta. rewrite Hr. case_match; cbn; lia.
  - destruct (ob_writer b) eqn:Hw; try done. destruct chan; [unfold write_take; destruct (ob_queue b) eqn:Hq; [destruct (ob_chClosed b); [|done]|]|destruct (ob_ctxDone b); [|done]];
      intros [= <-]; unfold weight; rewrite Hw, ?Hq; cbn; rewrite ?Hq; cbn; lia.
  - destruct (ob_writer b) eqn:Hw; try done. intros [= <-]. unfold weight. rewrite Hw. destruct ok; cbn; lia.
  - unfold exit_step, close_flag, close_channel. destruct (ob_exit b) eqn:Hx; try done.
    + destruct (reader_idle b); [|done]. intros [= <-]. unfold weight. rewrite Hx. cbn. lia.
    + case_match; intros [= <-]; unfold weight; rewrite Hx; cbn; lia.
    + destruct (Z.eqb_spec (ob_wg b) 0); [|done]. intros [= <-]. unfold weight. rewrite Hx. cbn. lia.
    + destruct (ob_writer b) eqn:Hw; try done. intros [= <-]. unfold weight. rewrite Hx. cbn. rewrite Hw. lia.
Qed.

(** Once the exit has begun, something can go on until it has returned: the
    context frees every parked sender and the writer. *)
Lemma exit_progress b : outbox_inv b → ob_exit b ≠ ExNone → ob_exit b ≠ ExDone → ∃ o, own_step o = true ∧ is_Some (outbox_step b o).
Proof.
  intros H Hn Hd. assert (ob_ctxDone b = true) as Hctx by by apply H. destruct (ob_exit b) eqn:Hx; try done.
  - exists BExit. cbn. unfold exit_step. by rewrite Hx.
  - destruct (map_choose_or_empty (ob_calls b)) as [(i & pc & Hi)|He].
    + exists (BCall i false "" 0%Z). cbn. unfold call_step. rewrite Hi. destruct pc; try done. unfold enqueue_ctx. by rewrite Hctx.
    + exists BExit. cbn. unfold exit_step, close_channel. rewrite Hx. rewrite (oi_wg b H), He, map_size_empty. done.
  - destruct (ob_writer b) eqn:Hw.
    + exists (BWrite false). cbn. by rewrite Hw, Hctx.
    + exists (BSent false). cbn. by rewrite Hw.
    + exists BExit. cbn. unfold exit_step. by rewrite Hx, Hw.
Qed.

(** The exit never goes back. *)
Lemma exit_begun b o b' : outbox_step b o = Some b' → ob_exit b ≠ ExNone → ob_exit b' ≠ ExNone.
Proof.
  intros Hs Hn.
  destruct o as [i env|i chan id t|n| | | |chan|ok|]; cbn in Hs; unfold call_step, exit_step in Hs.
  all: repeat case_match; simplify_option_eq; try done.
  all: unfold enqueue_begin, enqueue_send, enqueue_ctx, pressure_high, pressure_swap, pressure_offer, write_take, ack_rearm, close_flag, close_channel in *;
    cbv zeta in *; repeat case_match; simplify_eq; done.
Qed.

Lemma own_steps_bounded ops : ∀ b b',
  outbox_inv b → Forall (λ o, own_step o = true) ops → exec outbox_step b ops = Some b' →
  outbox_inv b' ∧ length ops + weight b' ≤ weight b ∧ (ob_exit b ≠ ExNone → ob_exit b' ≠ ExNone).
Proof.
  induction ops as [|o ops IH]; intros b b' H Ho He; cbn in He; [simplify_eq; by split_and!|].
  apply Forall_cons in Ho as [Ho Hops]. destruct (outbox_step b o) as [b1|] eqn:Hs; [|done].
  destruct (IH b1 b' (outbox_step_inv _ _ _ H Hs) Hops He) as (H1 & H2 & H3). split_and!; [done| |].
  - pose proof (own_step_weight _ _ _ H Ho Hs). cbn. lia.
  - intros Hn. apply H3. by eapply exit_begun.
Qed.

(** ** Claims *)

(** C7: The outbox is safe under concurrent senders.  In every run, whatever the
    interleaving of senders, acknowledgements, the writer, cancellations and the
    exit: no send hits the closed channel, it is closed once and the wait group
    counts exactly the calls in flight; when the channel is closed none is in
    flight and the context is done; the channel stays within its capacity; what
    the writer has taken followed by what waits is what was sent, in order and
    each once; and of the back-pressure breaches at most one more fired than
    the flag was re-armed. *)
Theorem outbox_protocol (cap : nat) (threshold : Z) (ack : bool) (sid : string) (seq : Z) (b : outbox) :
  run outbox_step (new_outbox cap threshold ack sid seq) b →
  ob_panic b = false ∧ ob_wg b = Z.of_nat (size (ob_calls b)) ∧
  (ob_chClosed b = true → ob_calls b = ∅ ∧ ob_ctxDone b = true) ∧
  length (ob_queue b) ≤ ob_cap b ∧ ob_accepted b = ob_taken b ++ ob_queue b ∧ ob_fired b ≤ 1 + ob_stores b.
Proof.
  intros Hr. destruct (outbox_reachable_inv _ _ (new_outbox_inv cap threshold ack sid seq) Hr). split_and!; try done.
  - intros Hc. split; [by apply oi_empty0|]. apply oi_ctx0. intros Hx. rewrite Hx in oi_channel0. congruence.
  - lia.
Qed.

(** Two senders at a channel of capacity one, back-pressure, the exit and the
    writer. *)
Definition note (n : Z) : Envelope := mkEnvelope ProtocolVersion "e" TypeJobEvent "s" "j" "" n (PEvent (mkEvent KindLog 0%Z (BLog "INFO" "x" ∅))).
Definition next_ (i : nat) (chan : bool) : outbox_op := BCall i chan "bp" 0%Z.
Definition busy_run : list outbox_op :=
  [BEnqueue 1 (note 5); next_ 1 true; BEnqueue 2 (note 6); next_ 1 true; next_ 1 true; next_ 1 true; next_ 1 true; BWrite true; BExit;
   next_ 2 false; next_ 2 true; next_ 2 true; next_ 1 true; BExit; next_ 2 true].
Definition small : outbox := new_outbox 1 2 true "s" 6.

Definition busy : outbox := default small (exec outbox_step small busy_run).

Lemma busy_reach : run outbox_step small busy.
Proof. apply (exec_run _ _ small _ busy_run); [constructor|vm_compute; reflexivity]. Qed.

Lemma outbox_protocol_witness :
  ob_exit busy = ExWaiting ∧ ob_fired busy = 2 ∧ ob_stores busy = 1 ∧ ob_panic busy = false ∧
  ob_accepted busy = ob_taken busy ++ ob_queue busy.
Proof.
  destruct (outbox_protocol 1 2 true "s" 6 busy busy_reach) as (Hp & _ & _ & _ & Hf & _).
  split; [vm_compute; reflexivity|]. split; [vm_compute; reflexivity|]. split; [vm_compute; reflexivity|]. split; [exact Hp|exact Hf].
Defined.

(** C8: The exit of a session returns.  From every reachable state in which the
    deferred function of [run] has begun, no schedule of the calls in flight,
    the writer and the exit takes more steps than [weight]; after any of them
    the exit has returned or one of these can go on; and once it has returned
    the channel is closed, no call is in flight and the writer has returned. *)
Theorem outbox_exit_returns (cap : nat) (threshold : Z) (ack : bool) (sid : string) (seq : Z) (b b' : outbox) (ops : list outbox_op) :
  run outbox_step (new_outbox cap threshold ack sid seq) b → ob_exit b ≠ ExNone →
  Forall (λ o, own_step o = true) ops → exec outbox_step b ops = Some b' →
  length ops ≤ weight b ∧
  (ob_exit b' = ExDone ∧ ob_chClosed b' = true ∧ ob_calls b' = ∅ ∧ ob_writer b' = WrDone ∨
   ob_exit b' ≠ ExDone ∧ ∃ o, own_step o = true ∧ is_Some (outbox_step b' o)).
Proof.
  intros Hr Hn Ho He. pose proof (outbox_reachable_inv _ _ (new_outbox_inv cap threshold ack sid seq) Hr) as H.
  destruct (own_steps_bounded ops b b' H Ho He) as (H' & Hw & Hx). split; [lia|].
  destruct (decide (ob_exit b' = ExDone)) as [Hd|Hd]; [left|right; split; [done|by apply exit_progress; auto]].
  assert (ob_chClosed b' = true) as Hc by (rewrite (oi_channel b' H'); by rewrite Hd).
  split_and!; [done|done|by apply H'|by apply H'].
Qed.

Definition rest_run : list outbox_op := [BSent false; next_ 2 true; next_ 2 true; BExit; BExit].
Definition left_ : outbox := default small (exec outbox_step busy rest_run).

Lemma outbox_exit_returns_witness : ob_exit left_ = ExDone ∧ ob_calls left_ = ∅ ∧ 5 ≤ weight busy.
Proof.
  destruct (outbox_exit_returns 1 2 true "s" 6 busy left_ rest_run busy_reach) as (Hw & [(_ & _ & Hc & _)|[Hd _]]).
  - vm_compute. discriminate.
  - repeat constructor.
  - vm_compute. reflexivity.
  - split; [vm_compute; reflexivity|]. split; [exact Hc|exact Hw].
  - destruct Hd. vm_compute. reflexivity.
Defined.

(** ** A defect *)

(** The read loop is parked at a full channel whose writer has returned. *)
Definition parked (env : Envelope) (b : outbox) : Prop :=
  ob_ctxDone b = false ∧ ob_writer b = WrDone ∧ ob_exit b = ExNone ∧ ob_chClosed b = false ∧ has_room b = false ∧
  ob_calls b !! 0 = Some (EnqSelect env).

Lemma parked_step env b o b' : parked env b → o ≠ BCancel → outbox_step b o = Some b' → parked env b'.
Proof.
  intros (Hc & Hw & Hx & Hch & Hr & H0) Ho. assert (reader_idle b = false) as Hi by (unfold reader_idle; by rewrite H0).
  destruct o as [i e|i chan id t|n| | | |chan|ok|]; cbn [outbox_step]; unfold exit_step; rewrite ?Hi, ?Hw, ?Hx; try done.
  - destruct (decide (i = 0)) as [->|Hne]; [by rewrite H0|]. rewrite (bool_decide_false (i = 0)) by done.
    destruct (ob_calls b !! i); [done|]. intros [= <-]. unfold enqueue_begin. destruct (ob_closed b); [done|].
    repeat split; try done. cbn. by rewrite lookup_insert_ne.
  - unfold call_step. destruct (decide (i = 0)) as [->|Hne].
    { rewrite H0. unfold enqueue_send, enqueue_ctx. rewrite Hch, Hr, Hc. by destruct chan. }
    destruct (ob_calls b !! i) as [pc|]; [|done].
    unfold enqueue_send, enqueue_ctx, pressure_high, pressure_swap, pressure_offer. rewrite Hch, Hr, Hc. cbv zeta.
    destruct pc; repeat case_match; intros [= <-]; repeat split; try done; cbn; by rewrite ?lookup_insert_ne, ?lookup_delete_ne.
  - destruct (ob_rearm b) as [high|]; [|done]. intros [= <-]. unfold ack_rearm. cbv zeta. case_match; by repeat split.
  - intros [= <-]. by repeat split.
Qed.

(** The writer returns when a write fails and does not cancel the context.  The
    read loop, which would notice the broken transport, can then be parked in
    the [enqueue] of a handler: until something else cancels the context it
    stays there and the exit never begins. *)
Theorem stopped_writer_parks_reader :
  ∃ b, run outbox_step (new_outbox 1 0 false "s" 0) b ∧
    ∀ ops b', BCancel ∉ ops → exec outbox_step b ops = Some b' → ob_calls b' !! 0 = Some (EnqSelect (note 3)) ∧ ob_exit b' = ExNone.
Proof.
  set (l := [BEnqueue 0 (note 1); next_ 0 true; next_ 0 true; next_ 0 true; BWrite true; BSent false;
             BEnqueue 0 (note 2); next_ 0 true; next_ 0 true; next_ 0 true; BEnqueue 0 (note 3)]).
  exists (default small (exec outbox_step (new_outbox 1 0 false "s" 0) l)).
  assert (parked (note 3) (default small (exec outbox_step (new_outbox 1 0 false "s" 0) l))) as Hp by (vm_compute; done).
  split; [apply (exec_run _ _ (new_outbox 1 0 false "s" 0) _ l); [constructor|vm_compute; reflexivity]|].
  revert Hp. generalize (default small (exec outbox_step (new_outbox 1 0 false "s" 0) l)). intros b Hp ops. revert b Hp.
  induction ops as [|o ops IH]; intros b Hp b' Hn He; cbn in He; [simplify_eq; split; apply Hp|].
  apply not_elem_of_cons in Hn as [Ho Hn]. destruct (outbox_step b o) as [b1|] eqn:Hs; [|done].
  apply (IH b1); [|done|done]. eapply parked_step; [exact Hp| |exact Hs]. congruence.
Qed.

(** A breach that finds the channel full arms the flag again at once, so the
    next event fires again, with a number and a log entry of its own, although
    nothing was acknowledged. *)
Theorem saturated_breach_refires :
  (∀ n, BAck n ∉ busy_run) ∧ ob_fired busy = 2 ∧ map env_EventSeq (ob_log busy) = [7; 8]%Z ∧ map env_EventSeq (ob_accepted busy) = [5]%Z.
Proof.
  split; [intros n Hn; repeat (apply elem_of_cons in Hn as [Hn|Hn]; [done|]); by apply elem_of_nil in Hn|].
  split; [vm_compute; reflexivity|]. split; vm_compute; reflexivity.
Qed.
