(* ===== verification/Stdio.v ===== *)
(** * The stdio transport

    Models transport/stdio.go: newline-delimited JSON over a reader and a
    writer, with a goroutine that owns the scanner and feeds a one-place
    channel.  The bytes of an envelope are those of [encoding/json], a
    parameter with the laws of [JSONCodec].

    An endpoint is a [stdioTransport]; a [stdioLink] is two of them, the
    writer of each connected to the reader of the other by a pipe.  A step of
    [stdio_op] is the first part of [Send] (the test of [closed] and the
    marshalling), the write under the mutex, one turn of [readerLoop] up to its
    next blocking point, a [Recv], a [Close], or the end of an endpoint's input.
    The fields [st_written], [st_torn], [st_put] and [st_taken] record what was
    observed; no code reads them. *)

From S2P Require Import Prelude GoStrings Errors Features Lease Messages Transport.
From Stdlib Require Import ZArith Ascii.

(** ** JSON *)

(** A byte of a JSON text without whitespace: no control character. *)
Definition not_control (c : ascii) : bool := (32 <=? byte_of c)%Z.

(** [json.Marshal] and [json.Unmarshal] at the type [Envelope].  [wire_ok] says
    that the strings of an envelope are valid UTF-8 and its raw parts valid
    JSON, which is what [encoding/json] preserves.  The encoding of a struct is
    compact and escapes control characters, and no proper prefix of an object
    is a JSON text. *)
Class JSONCodec := {
  Marshal : Envelope → res string;
  Unmarshal : string → result string Envelope;
  wire_ok : Envelope → Prop;
  marshal_text : ∀ e b, Marshal e = Ok b → sforallb not_control b = true;
  marshal_roundtrip : ∀ e b, wire_ok e → Marshal e = Ok b → Unmarshal b = Ok e;
  marshal_prefix : ∀ e b p q, Marshal e = Ok b → b = p +:+ q → q ≠ EmptyString →
                     ∃ msg, Unmarshal p = Err msg
}.

(** ** The scanner: [bufio.Scanner] with [ScanLines] and a maximum *)

Definition newline : ascii := "010"%char.
Definition carriage : ascii := "013"%char.

Definition defaultStdioMaxLine : Z := (2 ^ 20)%Z.
Definition bufio_ErrTooLong : error := ENew "bufio.Scanner: token too long".
Definition io_EOF : error := ENew "EOF".

(** [dropCR]: one trailing carriage return is not part of a line. *)
Fixpoint dropCR (s : string) : string :=
  match s with
  | EmptyString => EmptyString
  | String c EmptyString => if bool_decide (c = carriage) then EmptyString else s
  | String c s => String c (dropCR s)
  end.

Inductive scan_result :=
| ScanBlocked
| ScanToken (line rest : string)
| ScanStop (err : option error).

(** [Scan] on the bytes [input] that are available, [fin] saying whether the
    reader has ended and with which error (nil for EOF).  The buffer grows to
    the maximum and no further: a line must fit in it with its newline. *)
Definition Scan (input : string) (fin : option (option error)) : scan_result :=
  match IndexByte input newline with
  | Some i =>
      if (Z.of_nat i <? defaultStdioMaxLine)%Z
      then ScanToken (dropCR (stake i input)) (sdrop (S i) input)
      else ScanStop (Some bufio_ErrTooLong)
  | None =>
      if (defaultStdioMaxLine <=? Z.of_nat (len input))%Z then ScanStop (Some bufio_ErrTooLong)
      else match fin with
           | None => ScanBlocked
           | Some err => if bool_decide (input = EmptyString) then ScanStop err
                         else ScanToken (dropCR input) EmptyString
           end
  end.

Section stdio.
Context {codec : JSONCodec}.

(** ** An endpoint *)

(** Where [readerLoop] stands: in [Scan]; in the [select] that puts a result,
    the last one or not; returned, with its two deferred calls to run. *)
Inductive reader_pc :=
| RScan
| RPut (r : res Envelope) (last : bool)
| RReturn
| RRecvClosed
| RExited.

(** A call of [Send] that holds its encoded line, or returned. *)
Inductive stdio_call :=
| Writing (env : Envelope) (body : string)
| WriteReturned (err : option error).

Record stdioTransport := mkStdio {
  st_input : string;
  st_end : option (option error);
  st_reader : reader_pc;
  st_recvCh : list (res Envelope);
  st_recvClosed : bool;
  st_done : bool;
  st_closed : bool;
  st_calls : gmap nat stdio_call;
  st_written : list Envelope;
  st_torn : bool;
  st_put : list (res Envelope);
  st_taken : list (res Envelope)
}.

#[export] Instance eta_stdioTransport : Eta stdioTransport := λ t,
  mkStdio (st_input t) (st_end t) (st_reader t) (st_recvCh t) (st_recvClosed t) (st_done t) (st_closed t)
    (st_calls t) (st_written t) (st_torn t) (st_put t) (st_taken t).

Definition NewStdioTransport : stdioTransport :=
  mkStdio EmptyString None RScan [] false false false ∅ [] false [] [].

(** [Send] up to the mutex. *)
Definition stdio_Send (n : nat) (env : Envelope) (t : stdioTransport) : stdioTransport :=
  let return_ err := t <| st_calls := <[n := WriteReturned err]> (st_calls t) |> in
  if st_closed t then return_ (Some ErrClosed)
  else
    let env := if bool_decide (ARCP env = "")
               then mkEnvelope ProtocolVersion (env_ID env) (env_Type env) (env_SessionID env) (env_JobID env)
                      (env_TraceID env) (env_EventSeq env) (env_Payload env)
               else env in
    match Marshal env with
    | Err err => return_ (Some err)
    | Ok body => t <| st_calls := <[n := Writing env (body +:+ String newline EmptyString)]> (st_calls t) |>
    end.

(** The outcome of [out.Write]: everything was written, or an error after the
    first [k] bytes. *)
Inductive write_outcome :=
| WroteAll
| WroteSome (k : nat) (err : error).

(** [Send] under the mutex: the bytes written and the endpoint after. *)
Definition stdio_write (n : nat) (env : Envelope) (body : string) (w : write_outcome) (t : stdioTransport)
    : string * stdioTransport :=
  match w with
  | WroteAll => (body, t <| st_calls := <[n := WriteReturned None]> (st_calls t) |>
                         <| st_written := st_written t ++ [env] |>)
  | WroteSome k err =>
      (stake k body, t <| st_calls := <[n := WriteReturned (Some err)]> (st_calls t) |>
                       <| st_torn := st_torn t || (0 <? k)%nat |>)
  end.

(** [Recv]. *)
Definition stdio_Recv (c : select_case) (t : stdioTransport) : option (res Envelope * stdioTransport) :=
  match c with
  | CaseChan =>
      match st_recvCh t with
      | r :: q => Some (r, t <| st_recvCh := q |> <| st_taken := st_taken t ++ [r] |>)
      | [] => if st_recvClosed t then Some (Err ErrClosed, t) else None
      end
  | CaseClosed => if st_done t then Some (Err ErrClosed, t) else None
  | CaseCtx err => Some (Err err, t)
  end.

(** The error [readerLoop] reports when [Scan] stops. *)
Definition stop_error (err : option error) : error :=
  let err := match err with
             | Some e => if errors_Is e bufio_ErrTooLong
                         then Some (arcp_err ErrInvalidRequest "NDJSON line exceeds maximum size") else Some e
             | None => None
             end in
  match err with Some e => e | None => io_EOF end.

(** A line as the result of [Recv]. *)
Definition decode_line (line : string) : res Envelope :=
  match Unmarshal line with
  | Ok env => Ok env
  | Err msg => Err (arcp_err ErrInvalidRequest ("decode envelope: " +:+ msg))
  end.

(** One turn of [readerLoop]: [Scan], the put (with the case that waits for
    [done]), and the deferred calls. *)
Definition readerLoop (c : select_case) (t : stdioTransport) : option stdioTransport :=
  match st_reader t with
  | RScan =>
      match Scan (st_input t) (st_end t) with
      | ScanBlocked => None
      | ScanToken line rest => Some (t <| st_input := rest |> <| st_reader := RPut (decode_line line) false |>)
      | ScanStop err => Some (t <| st_reader := RPut (Err (stop_error err)) true |>)
      end
  | RPut r last =>
      match c with
      | CaseChan =>
          match st_recvCh t with
          | [] => Some (t <| st_recvCh := [r] |> <| st_put := st_put t ++ [r] |>
                          <| st_reader := if last then RReturn else RScan |>)
          | _ :: _ => None
          end
      | CaseClosed => if st_done t then Some (t <| st_reader := RReturn |>) else None
      | CaseCtx _ => None
      end
  | RReturn => Some (t <| st_recvClosed := true |> <| st_reader := RRecvClosed |>)
  | RRecvClosed => Some (t <| st_done := true |> <| st_reader := RExited |>)
  | RExited => None
  end.

(** What [Close] does to the files, as the results of their [Close] methods,
    [None] where a file has none; [same] says that reader and writer are one
    value. *)
Definition io_ErrClosedPipe : error := ENew "io: read/write on closed pipe".

Definition close_error (rd wr : option (option error)) (same : bool) : option error :=
  let firstErr : option error := match rd with Some err => err | None => None end in
  let firstErr : option error :=
    match wr with
    | Some err => if same then firstErr else match firstErr with None => err | Some _ => firstErr end
    | None => firstErr
    end in
  match firstErr with
  | Some e => if errors_Is e io_ErrClosedPipe then None else Some e
  | None => None
  end.

Definition stdio_Close (rd wr : option (option error)) (same : bool) (t : stdioTransport)
    : option error * stdioTransport :=
  if st_closed t then (None, t) else (close_error rd wr same, t <| st_closed := true |>).

(** ** Two endpoints and their pipes *)

Record stdioLink := mkLink { lk_left : stdioTransport; lk_right : stdioTransport }.

Definition ep (d : side) (k : stdioLink) : stdioTransport :=
  match d with SLeft => lk_left k | SRight => lk_right k end.
Definition set_ep (d : side) (t : stdioTransport) (k : stdioLink) : stdioLink :=
  match d with SLeft => mkLink t (lk_right k) | SRight => mkLink (lk_left k) t end.

Definition NewLink : stdioLink := mkLink NewStdioTransport NewStdioTransport.

(** Bytes on their way to an endpoint; a reader that has ended gets no more. *)
Definition feed (bytes : string) (t : stdioTransport) : stdioTransport :=
  match st_end t with
  | None => t <| st_input := st_input t +:+ bytes |>
  | Some _ => t
  end.

(** The end of an endpoint's input: EOF after all the bytes, or a read error
    (the file was closed) after the first [k] of those that are left. *)
Inductive input_end :=
| InputEOF
| InputError (k : nat) (err : error).

Definition end_input (e : input_end) (t : stdioTransport) : stdioTransport :=
  match e with
  | InputEOF => t <| st_end := Some None |>
  | InputError k err => t <| st_end := Some (Some err) |> <| st_input := stake k (st_input t) |>
  end.

Inductive stdio_op :=
| OSend (d : side) (n : nat) (env : Envelope)
| OWrite (d : side) (n : nat) (w : write_outcome)
| OReader (d : side) (c : select_case)
| ORecv (d : side) (c : select_case)
| OClose (d : side) (rd wr : option (option error)) (same : bool)
| OEnd (d : side) (e : input_end).

(** A write into a pipe whose reading end has ended does not succeed. *)
Definition stdio_step (k : stdioLink) (o : stdio_op) : option stdioLink :=
  match o with
  | OSend d n env =>
      match st_calls (ep d k) !! n with
      | None => Some (set_ep d (stdio_Send n env (ep d k)) k)
      | Some _ => None
      end
  | OWrite d n w =>
      match st_calls (ep d k) !! n, w, st_end (ep (peer d) k) with
      | Some (Writing _ _), WroteAll, Some _ => None
      | Some (Writing env body), _, _ =>
          let '(bytes, t) := stdio_write n env body w (ep d k) in
          Some (set_ep (peer d) (feed bytes (ep (peer d) k)) (set_ep d t k))
      | _, _, _ => None
      end
  | OReader d c => (λ t, set_ep d t k) <$> readerLoop c (ep d k)
  | ORecv d c => (λ rt, set_ep d rt.2 k) <$> stdio_Recv c (ep d k)
  | OClose d rd wr same => Some (set_ep d (stdio_Close rd wr same (ep d k)).2 k)
  | OEnd d e =>
      match st_end (ep d k), e with
      | Some _, _ => None
      | None, InputError _ err => if errors_Is err io_EOF then None else Some (set_ep d (end_input e (ep d k)) k)
      | None, InputEOF => Some (set_ep d (end_input e (ep d k)) k)
      end
  end.

(** ** Lines *)

(** The line of an envelope, and the bytes of several. *)
Definition line_of (e : Envelope) : string :=
  match Marshal e with Ok b => b +:+ String newline EmptyString | Err _ => EmptyString end.
Definition lines (l : list Envelope) : string := foldr (λ e s, line_of e +:+ s) EmptyString l.

Definition encodable (e : Envelope) : Prop := ∃ b, Marshal e = Ok b.

(** The envelopes among some results. *)
Definition oks (l : list (res Envelope)) : list Envelope := omap from_result l.

Lemma lines_app (l1 l2 : list Envelope) : lines (l1 ++ l2) = lines l1 +:+ lines l2.
Proof. unfold lines. induction l1 as [|e l1 IH]; [done|]. simpl. by rewrite IH, sapp_assoc. Qed.

Lemma oks_app (l1 l2 : list (res Envelope)) : oks (l1 ++ l2) = oks l1 ++ oks l2.
Proof. apply omap_app. Qed.

Lemma text_no_newline (b : string) : sforallb not_control b = true → IndexByte b newline = None.
Proof.
  induction b as [|c b IH]; [done|]. cbn. intros [Hc Hb]%andb_true_iff.
  rewrite bool_decide_eq_false_2 by (intros ->; done). by rewrite IH.
Qed.

Lemma text_IndexByte (b r : string) :
  sforallb not_control b = true → IndexByte (b +:+ String newline r) newline = Some (len b).
Proof.
  induction b as [|c b IH]; [done|]. rewrite sapp_cons. cbn. intros [Hc Hb]%andb_true_iff.
  rewrite bool_decide_eq_false_2 by (intros ->; done). by rewrite (IH Hb).
Qed.

Lemma text_dropCR (b : string) : sforallb not_control b = true → dropCR b = b.
Proof.
  induction b as [|c b IH]; [done|]. cbn. intros [Hc Hb]%andb_true_iff.
  destruct b as [|c' b]; [by rewrite bool_decide_eq_false_2 by (intros ->; done)|]. by rewrite (IH Hb).
Qed.

Lemma text_prefix (p q : string) :
  sforallb not_control (p +:+ q) = true → sforallb not_control p = true.
Proof.
  induction p as [|c p IH]; [done|]. rewrite sapp_cons. cbn. intros [Hc Hb]%andb_true_iff.
  by rewrite Hc, IH.
Qed.

Lemma sdrop_line (b r : string) : sdrop (S (len b)) (b +:+ String newline r) = r.
Proof. by induction b as [|c b IH]. Qed.

(** The scanner on a whole line followed by anything: the line, when it is
    shorter than the maximum. *)
Lemma Scan_line (b r : string) (fin : option (option error)) :
  sforallb not_control b = true →
  Scan (b +:+ String newline r) fin =
    if (Z.of_nat (len b) <? defaultStdioMaxLine)%Z then ScanToken b r else ScanStop (Some bufio_ErrTooLong).
Proof.
  intros Hb. unfold Scan. rewrite text_IndexByte by done. case_match; [|done].
  by rewrite stake_app, sdrop_line, text_dropCR.
Qed.

(** Two splits of one string: one of the first parts is a prefix of the other. *)
Lemma sapp_split (a b c d : string) :
  a +:+ b = c +:+ d →
  (∃ q, c = a +:+ q ∧ b = q +:+ d) ∨ (∃ x q, a = c +:+ String x q ∧ d = String x q +:+ b).
Proof.
  revert c. induction a as [|x a IH]; intros c H; [left; by exists c|].
  rewrite sapp_cons in H. destruct c as [|y c].
  - right. exists x, a. split; [done|]. by rewrite sapp_cons.
  - rewrite sapp_cons in H. injection H as <- H.
    destruct (IH c H) as [[q [-> ->]]|(z & q & -> & ->)].
    + left. exists q. by rewrite sapp_cons.
    + right. exists z, q. by rewrite sapp_cons.
Qed.

(** The input of a reader that is not broken in the middle. *)
Definition clean_end (fin : option (option error)) : Prop := ∀ e, fin ≠ Some (Some e).

(** What [Scan] makes of an input that starts the lines of [rest]. *)
Lemma Scan_spec (rest : list Envelope) (input tail : string) (fin : option (option error)) :
  lines rest = input +:+ tail → Forall encodable rest → Forall wire_ok rest →
  (clean_end fin → tail = EmptyString) →
  match Scan input fin with
  | ScanBlocked => True
  | ScanToken line r =>
      (∃ e rest' tail', rest = e :: rest' ∧ decode_line line = Ok e ∧ lines rest' = r +:+ tail' ∧
                        (clean_end fin → tail' = EmptyString)) ∨
      (∃ msg, decode_line line = Err (arcp_err ErrInvalidRequest msg) ∧ r = EmptyString ∧ ¬ clean_end fin)
  | ScanStop err => (err = None → fin = Some None ∧ rest = []) ∧
                    (∀ e, err = Some e → e = bufio_ErrTooLong ∨ fin = Some (Some e))
  end.
Proof.
  intros Hl Hc Hw Hclean. destruct rest as [|e rest].
  - symmetry in Hl. destruct input; [|done]. cbn. destruct fin as [err|]; [|done].
    simpl. split; [by intros ->|]. intros e ->. by right.
  - apply Forall_cons in Hc as [[b Hb] Hc]. apply Forall_cons in Hw as [Hwe Hw].
    pose proof (marshal_text e b Hb) as Ht.
    change (line_of e +:+ lines rest = input +:+ tail) in Hl. unfold line_of in Hl. rewrite Hb in Hl.
    rewrite sapp_assoc in Hl. symmetry in Hl. apply sapp_split in Hl as [(q & -> & Htail)|(x & q & -> & Hd)].
    + assert (¬ clean_end fin) as Hn by (intros Hf; rewrite (Hclean Hf) in Htail; by destruct q).
      pose proof (text_prefix _ _ Ht) as Hi. unfold Scan. rewrite text_no_newline by done.
      destruct (defaultStdioMaxLine <=? _)%Z; [split; [done|]; intros e' [= <-]; by left|].
      destruct fin as [err|]; [|done]. case_bool_decide.
      * split; [intros ->; by destruct Hn|]. intros e' ->. by right.
      * rewrite text_dropCR by done. unfold decode_line. destruct q as [|y q].
        -- rewrite sapp_nil_r in Hb. left. exists e, rest, (lines rest).
           rewrite (marshal_roundtrip e input Hwe Hb). split_and!; try done.
        -- right. destruct (marshal_prefix e _ input (String y q) Hb eq_refl) as [msg ->]; [done|].
           by exists ("decode envelope: " +:+ msg).
    + rewrite sapp_cons, sapp_nil_l, sapp_cons in Hd. injection Hd as <- Hd.
      rewrite Scan_line by done. destruct (_ <? defaultStdioMaxLine)%Z; [|split; [done|]; intros e' [= <-]; by left].
      left. exists e, rest, tail. unfold decode_line. rewrite (marshal_roundtrip e b Hwe Hb). by split_and!.
Qed.

End stdio.
