(* ===== verification/StdioSafety.v ===== *)
(** * The stdio transport: delivery

    The invariant of one direction of a [stdioLink] and what follows from it:
    envelopes arrive in order, whole and once, and an EOF comes after all of
    them; the instance of [FifoTransport]; the line limit; and the two ways in
    which the end of the reader departs from its comments. *)

From S2P Require Import Prelude GoStrings Errors Features Lease Messages Transport Decimal Stdio.
From Stdlib Require Import ZArith Ascii.

Section delivery.
Context {codec : JSONCodec}.

(** ** The invariant of a direction *)

(** The result [readerLoop] holds, and whether it has stopped scanning. *)
Definition hand (t : stdioTransport) : list (res Envelope) :=
  match st_reader t with RPut r _ => [r] | _ => [] end.
Definition final (t : stdioTransport) : bool :=
  match st_reader t with RScan | RPut _ false => false | _ => true end.
Definition made (t : stdioTransport) : list (res Envelope) := st_put t ++ hand t.

(** [s] sends and [r] receives. *)
Record Dir (s r : stdioTransport) : Prop := {
  dr_calls : ∀ n env body, st_calls s !! n = Some (Writing env body) →
               ∃ b, Marshal env = Ok b ∧ body = b +:+ String newline EmptyString;
  dr_enc : Forall encodable (st_written s);
  dr_chan : st_put r = st_taken r ++ st_recvCh r;
  dr_end : ∀ e, st_end r = Some (Some e) → errors_Is e io_EOF = false;
  dr_done : st_done r = true → st_reader r = RExited;
  dr_main : st_torn s = false → Forall wire_ok (st_written s) →
    ∃ rest tail, st_written s = oks (made r) ++ rest ∧ lines rest = st_input r +:+ tail ∧
      (clean_end (st_end r) → tail = EmptyString) ∧
      (Err io_EOF ∈ made r → rest = [] ∧ st_end r = Some None ∧ final r = true ∧
         made r = (Ok <$> oks (made r)) ++ [Err io_EOF]) ∧
      (clean_end (st_end r) → final r = false → made r = Ok <$> oks (made r))
}.

(** The parts of an endpoint a direction depends on. *)
Definition sview (t : stdioTransport) := (st_calls t, st_written t, st_torn t).
Definition rview (t : stdioTransport) :=
  (st_input t, st_end t, st_reader t, st_recvCh t, st_done t, st_put t, st_taken t).

Lemma Dir_view (s s' r r' : stdioTransport) :
  sview s = sview s' → rview r = rview r' → Dir s r → Dir s' r'.
Proof.
  unfold sview, rview. intros [= E1 E2 E3] [= F1 F2 F3 F4 F5 F6 F7] [D1 D2 D3 D4 D5 D6].
  unfold made, hand, final in D6.
  split; unfold made, hand, final; rewrite <-?E1, <-?E2, <-?E3, <-?F1, <-?F2, <-?F3, <-?F4, <-?F5, <-?F6, <-?F7; done.
Qed.

Lemma Dir_init : Dir NewStdioTransport NewStdioTransport.
Proof.
  split; try done. intros _ _. exists [], EmptyString. split_and!; try done. by intros Hi%elem_of_nil.
Qed.

Lemma Dir_send (s r : stdioTransport) (n : nat) (env : Envelope) : Dir s r → Dir (stdio_Send n env s) r.
Proof.
  intros [D1 D2 D3 D4 D5 D6].
  assert (∀ x, (∀ env body, x = Writing env body → ∃ b, Marshal env = Ok b ∧ body = b +:+ String newline EmptyString) →
    Dir (s <| st_calls := <[n := x]> (st_calls s) |>) r) as Hset.
  { intros x Hx. split; try done. intros n' env' body'. simpl. destruct (decide (n = n')) as [<-|Hn].
    - rewrite lookup_insert_eq. intros [= ->]. by apply Hx.
    - rewrite lookup_insert_ne by done. apply D1. }
  unfold stdio_Send. destruct (st_closed s); [by apply Hset|].
  destruct (Marshal _) as [b|err] eqn:E; apply Hset; [|done]. intros env' body [= <- <-]. by exists b.
Qed.

Lemma feed_view (bytes : string) (t : stdioTransport) : sview (feed bytes t) = sview t.
Proof. unfold feed. by destruct (st_end t). Qed.

Lemma line_of_Ok (e : Envelope) (b : string) : Marshal e = Ok b → line_of e = b +:+ String newline EmptyString.
Proof. unfold line_of. by intros ->. Qed.

Lemma Dir_write (s r : stdioTransport) (n : nat) (env : Envelope) (body : string) (w : write_outcome) :
  Dir s r → st_calls s !! n = Some (Writing env body) → (w = WroteAll → st_end r = None) →
  Dir (stdio_write n env body w s).2 (feed (stdio_write n env body w s).1 r).
Proof.
  intros [D1 D2 D3 D4 D5 D6] Hn Hw. destruct (D1 _ _ _ Hn) as (b & Hb & ->).
  assert (Hcalls : ∀ err n' env' body', <[n := WriteReturned err]> (st_calls s) !! n' = Some (Writing env' body') →
    ∃ b, Marshal env' = Ok b ∧ body' = b +:+ String newline EmptyString).
  { intros err n' env' body'. destruct (decide (n = n')) as [<-|Hne]; [by rewrite lookup_insert_eq|].
    rewrite lookup_insert_ne by done. apply D1. }
  destruct w as [|k err]; simpl.
  - specialize (Hw eq_refl). unfold feed. rewrite Hw. split; simpl; try done; try eauto.
    + apply Forall_app. split; [done|]. apply Forall_singleton. by exists b.
    + intros Ht Ho. apply Forall_app in Ho as [Ho _].
      destruct (D6 Ht Ho) as (rest & tail & M1 & M2 & M3 & M4 & M5).
      rewrite Hw in M3, M4, M5. rewrite M3 in M2 by (by intros e). rewrite sapp_nil_r in M2.
      exists (rest ++ [env]), EmptyString. unfold made, hand, final in *; simpl. split_and!.
      * by rewrite M1, app_assoc.
      * rewrite lines_app, M2. simpl. by rewrite (line_of_Ok env b Hb), !sapp_nil_r.
      * done.
      * intros Hi. by destruct (M4 Hi) as (_ & ? & _).
      * intros _. apply M5. by intros e.
  - assert (Hmain : k = 0 ∨ st_end r ≠ None → Dir (s <| st_calls := <[n := WriteReturned (Some err)]> (st_calls s) |>
       <| st_torn := st_torn s || (0 <? k)%nat |>) (feed (stake k (b +:+ String newline EmptyString)) r)).
    { intros Hk. assert (feed (stake k (b +:+ String newline EmptyString)) r = r) as ->.
      { unfold feed. destruct (st_end r) eqn:E; [done|]. destruct Hk as [->|]; [|done].
        simpl. rewrite sapp_nil_r. by destruct r. }
      split; simpl; try done; [apply Hcalls|].
      intros [Ht _]%orb_false_iff. by apply D6. }
    destruct k as [|k]; [apply Hmain; by left|].
    destruct (st_end r) eqn:E; [apply Hmain; by right|]. unfold feed. rewrite E.
    split; simpl; try done; [apply Hcalls|by rewrite E|].
    by intros [_ Ht]%orb_false_iff.
Qed.

Lemma clean_None : clean_end None.
Proof. by intros e. Qed.

(** Reading does not change what has been made. *)
Lemma Dir_recv (s r r' : stdioTransport) (c : select_case) (x : res Envelope) :
  Dir s r → stdio_Recv c r = Some (x, r') → Dir s r'.
Proof.
  intros [D1 D2 D3 D4 D5 D6] Hr. unfold stdio_Recv in Hr. destruct c as [| |err].
  - destruct (st_recvCh r) as [|y q] eqn:E.
    + destruct (st_recvClosed r); [|done]. injection Hr as _ <-. by split; rewrite ?E.
    + injection Hr as _ <-. split; try done. simpl. by rewrite D3, <-app_assoc.
  - destruct (st_done r) eqn:E; [|done]. injection Hr as _ <-. by split; rewrite ?E.
  - injection Hr as _ <-. by split.
Qed.

(** The step of [readerLoop] that scans. *)
Lemma Dir_scan (s r r' : stdioTransport) (c : select_case) :
  Dir s r → st_reader r = RScan → readerLoop c r = Some r' → Dir s r'.
Proof.
  intros [D1 D2 D3 D4 D5 D6] Hs Hr. unfold readerLoop in Hr. rewrite Hs in Hr.
  assert (Hpost : ∀ x b i, r' = r <| st_input := i |> <| st_reader := RPut x b |> →
    (st_torn s = false → Forall wire_ok (st_written s) →
    ∃ rest tail, st_written s = oks (st_put r ++ [x]) ++ rest ∧ lines rest = i +:+ tail ∧
      (clean_end (st_end r) → tail = EmptyString) ∧
      (x = Err io_EOF → rest = [] ∧ st_end r = Some None ∧ b = true) ∧
      (clean_end (st_end r) → b = false → is_ok x = true)) → Dir s r').
  { intros x b i -> Hm. split; try done; [by intros Hd; rewrite (D5 Hd) in Hs|].
    intros Ht Ho. destruct (Hm Ht Ho) as (rest & tail & M1 & M2 & M3 & M4 & M5).
    destruct (D6 Ht Ho) as (rest0 & tail0 & _ & _ & _ & N4 & N5).
    unfold made, hand, final in *; rewrite Hs in N4, N5; simpl in *. rewrite app_nil_r in N4, N5.
    exists rest, tail. split_and!; try done.
    - intros [Hi|Hi%list_elem_of_singleton]%elem_of_app; [by destruct (N4 Hi) as (_ & _ & ? & _)|].
      destruct (M4 (eq_sym Hi)) as (-> & He & ->). split_and!; try done. subst x.
      rewrite oks_app, app_nil_r. simpl. rewrite <-N5; [done| |done]. rewrite He. by intros e.
    - intros Hc Hb. rewrite oks_app, fmap_app, <-N5 by (try done; by destruct b). f_equal.
      specialize (M5 Hc). destruct b; [done|]. destruct x; [done|]. by discriminate M5. }
  destruct (Scan (st_input r) (st_end r)) as [|line rest'|err] eqn:E; [done|..]; injection Hr as <-.
  - eapply Hpost; [done|]. intros Ht Ho. destruct (D6 Ht Ho) as (rest & tail & M1 & M2 & M3 & M4 & M5).
    unfold made, hand in M1. rewrite Hs, app_nil_r in M1. rewrite M1 in D2, Ho.
    apply Forall_app in D2 as [_ D2]. apply Forall_app in Ho as [_ Ho].
    pose proof (Scan_spec rest _ tail (st_end r) M2 D2 Ho M3) as Hspec. rewrite E in Hspec.
    destruct Hspec as [(e & rest1 & tail1 & -> & -> & K1 & K2)|(msg & -> & -> & K)].
    + exists rest1, tail1. rewrite oks_app, M1, <-app_assoc. by split_and!.
    + exists rest, (lines rest). rewrite oks_app, app_nil_r. by split_and!.
  - eapply (Hpost _ _ (st_input r)); [by destruct r|].
    intros Ht Ho. destruct (D6 Ht Ho) as (rest & tail & M1 & M2 & M3 & M4 & M5).
    unfold made, hand in M1. rewrite Hs, app_nil_r in M1. rewrite M1 in D2, Ho.
    apply Forall_app in D2 as [_ D2]. apply Forall_app in Ho as [_ Ho].
    pose proof (Scan_spec rest _ tail (st_end r) M2 D2 Ho M3) as Hspec. rewrite E in Hspec.
    destruct Hspec as [K1 K2]. exists rest, tail. rewrite oks_app, app_nil_r. split_and!; try done.
    intros [= He]. destruct err as [e|]; [|by destruct (K1 eq_refl) as [-> ->]].
    unfold stop_error in He. destruct (K2 e eq_refl) as [->|Hf]; [done|].
    pose proof (D4 e Hf). destruct (errors_Is e bufio_ErrTooLong); [done|]. by subst e.
Qed.

Lemma Dir_reader (s r r' : stdioTransport) (c : select_case) :
  Dir s r → readerLoop c r = Some r' → Dir s r'.
Proof.
  intros D Hr. destruct (st_reader r) as [|x last| | |] eqn:E.
  { by eapply Dir_scan. }
  all: destruct D as [D1 D2 D3 D4 D5 D6]; unfold readerLoop in Hr; rewrite E in Hr;
    unfold made, hand, final in D6; rewrite E in D6.
  - destruct c; [| |done].
    + destruct (st_recvCh r) eqn:Ech; [|done]. injection Hr as <-.
      split; try done; [simpl; by rewrite D3, app_nil_r|by intros Hd; rewrite (D5 Hd) in E|].
      unfold made, hand, final. simpl. destruct last; simpl; by rewrite app_nil_r.
    + destruct (st_done r) eqn:Ed; [|done]. rewrite (D5 eq_refl) in E. done.
  - injection Hr as <-. split; try done. by intros Hd; rewrite (D5 Hd) in E.
  - by injection Hr as <-.
  - done.
Qed.

Lemma stake_split (k : nat) (s : string) : ∃ q, s = stake k s +:+ q.
Proof.
  revert s. induction k as [|k IH]; intros [|c s]; [by exists EmptyString|by exists (String c s)|by exists EmptyString|].
  destruct (IH s) as [q Hq]. exists q. simpl. rewrite sapp_cons. by rewrite <-Hq.
Qed.

Lemma Dir_end (s r : stdioTransport) (e : input_end) :
  Dir s r → st_end r = None → (∀ k err, e = InputError k err → errors_Is err io_EOF = false) →
  Dir s (end_input e r).
Proof.
  intros [D1 D2 D3 D4 D5 D6] Hn He. rewrite Hn in D6. destruct e as [|k err]; simpl.
  - split; try done. intros Ht Ho. destruct (D6 Ht Ho) as (rest & tail & M1 & M2 & M3 & M4 & M5).
    exists rest, tail. unfold made, hand, final in *. simpl in *. split_and!; try done.
    + intros _. apply M3, clean_None.
    + intros Hi. by destruct (M4 Hi) as (_ & ? & _).
    + intros _. apply M5, clean_None.
  - split; try done; [intros e [= <-]; by eapply He|].
    intros Ht Ho. destruct (D6 Ht Ho) as (rest & tail & M1 & M2 & M3 & M4 & M5).
    destruct (stake_split k (st_input r)) as [q Hq].
    exists rest, (q +:+ tail). unfold made, hand, final in *. simpl in *. split_and!; try done.
    + by rewrite <-sapp_assoc, <-Hq.
    + intros Hc. by destruct (Hc err).
    + intros Hi. by destruct (M4 Hi) as (_ & ? & _).
    + intros Hc. by destruct (Hc err).
Qed.

(** Both directions of a link. *)
Definition link_inv (k : stdioLink) : Prop := ∀ d, Dir (ep d k) (ep (peer d) k).

Lemma ep_set (d d' : side) (t : stdioTransport) (k : stdioLink) :
  ep d' (set_ep d t k) = if decide (d' = d) then t else ep d' k.
Proof. by destruct d, d'. Qed.

(** An endpoint changes as a sender or as a receiver, not as both. *)
Lemma link_inv_ep (d : side) (t : stdioTransport) (k : stdioLink) :
  link_inv k → Dir t (ep (peer d) k) → Dir (ep (peer d) k) t → link_inv (set_ep d t k).
Proof. intros I H1 H2 d'. destruct d, d'; done. Qed.

Lemma link_inv_sender (d : side) (t : stdioTransport) (k : stdioLink) :
  link_inv k → Dir t (ep (peer d) k) → rview t = rview (ep d k) → link_inv (set_ep d t k).
Proof.
  intros I Hd Hv. apply link_inv_ep; [done..|]. eapply Dir_view; [done|by symmetry|].
  rewrite <-(peer_peer d) at 2. apply I.
Qed.

Lemma link_inv_receiver (d : side) (t : stdioTransport) (k : stdioLink) :
  link_inv k → Dir (ep (peer d) k) t → sview t = sview (ep d k) → link_inv (set_ep d t k).
Proof.
  intros I Hd Hv. apply link_inv_ep; [done| |done]. eapply Dir_view; [by symmetry|done|]. apply I.
Qed.

Lemma link_inv_peer (k : stdioLink) (d : side) : link_inv k → Dir (ep (peer d) k) (ep d k).
Proof. intros I. rewrite <-(peer_peer d) at 2. apply I. Qed.

Lemma link_inv_step (k : stdioLink) (o : stdio_op) (k' : stdioLink) :
  link_inv k → stdio_step k o = Some k' → link_inv k'.
Proof.
  intros I H. destruct o as [d n env|d n w|d c|d c|d rd wr same|d e]; simpl in H.
  - destruct (st_calls (ep d k) !! n); [done|]. injection H as <-. apply link_inv_sender; [done|apply Dir_send, I|].
    unfold stdio_Send. destruct (st_closed _); [done|]. by destruct (Marshal _).
  - destruct (st_calls (ep d k) !! n) as [[env body|]|] eqn:E; [|done..].
    assert (Hw : w = WroteAll → st_end (ep (peer d) k) = None)
      by (intros ->; by destruct (st_end (ep (peer d) k))).
    assert (∃ bs t, stdio_write n env body w (ep d k) = (bs, t) ∧
      k' = set_ep (peer d) (feed bs (ep (peer d) k)) (set_ep d t k)) as (bs & t & Hbs & ->).
    { destruct (stdio_write n env body w (ep d k)) as [bs t]. exists bs, t. split; [done|].
      destruct w; [|by injection H]. rewrite Hw in H by done. by injection H. }
    pose proof (Dir_write (ep d k) (ep (peer d) k) n env body w (I d) E Hw) as Hd. rewrite Hbs in Hd. simpl in Hd.
    assert (rview t = rview (ep d k)) as Ht by (destruct w; by injection Hbs as <- <-).
    assert (Hv := feed_view bs (ep (peer d) k)). pose proof (link_inv_peer k d I) as Hp.
    intros d'. destruct (decide (d' = d)) as [->|Hne].
    + rewrite !ep_set. destruct d; simpl; done.
    + assert (d' = peer d) as -> by (by destruct d, d').
      rewrite !ep_set, peer_peer. destruct d; simpl in *; (eapply Dir_view; [by symmetry|by symmetry|done]).
  - destruct (readerLoop c (ep d k)) as [t|] eqn:E; [|done]. injection H as <-. apply link_inv_receiver; [done| |].
    + eapply Dir_reader; [|done]. by apply link_inv_peer.
    + unfold readerLoop in E. repeat case_match; by simplify_eq.
  - destruct (stdio_Recv c (ep d k)) as [[x t]|] eqn:E; [|done]. injection H as <-. apply link_inv_receiver; [done| |].
    + eapply Dir_recv; [|done]. by apply link_inv_peer.
    + unfold stdio_Recv in E. repeat case_match; by simplify_eq.
  - injection H as <-. assert (sview (stdio_Close rd wr same (ep d k)).2 = sview (ep d k) ∧
      rview (stdio_Close rd wr same (ep d k)).2 = rview (ep d k)) as [Hs Hr] by (unfold stdio_Close; by destruct (st_closed _)).
    apply link_inv_sender; [done| |done]. eapply Dir_view; [by symmetry|done|]. apply I.
  - destruct (st_end (ep d k)) eqn:E; [by destruct e|].
    assert (∀ j err, e = InputError j err → errors_Is err io_EOF = false) as He
      by (intros j err ->; by destruct (errors_Is err io_EOF)).
    assert (k' = set_ep d (end_input e (ep d k)) k) as ->.
    { destruct e as [|j err]; [by injection H|]. rewrite (He _ _ eq_refl) in H. by injection H. }
    apply link_inv_receiver; [done| |by destruct e]. apply Dir_end; [by apply link_inv_peer|done|done].
Qed.

Lemma link_reachable_inv (k : stdioLink) : run stdio_step NewLink k → link_inv k.
Proof.
  apply run_invariant; [|apply link_inv_step]. intros d. destruct d; apply Dir_init.
Qed.

(** ** What a direction delivers *)

Lemma made_split (r : stdioTransport) (s : stdioTransport) :
  Dir s r → made r = st_taken r ++ (st_recvCh r ++ hand r).
Proof. intros D. unfold made. by rewrite (dr_chan s r D), <-app_assoc. Qed.

(** A prefix that contains the last element, which occurs nowhere else, is
    everything. *)
Lemma prefix_with_last {A} (l p q : list A) (x : A) :
  p ++ q = l ++ [x] → x ∈ p → x ∉ l → p = l ++ [x].
Proof.
  intros H Hp Hl. destruct q as [|y q _] using rev_ind; [by rewrite app_nil_r in H|].
  rewrite app_assoc in H. apply app_inj_tail in H as [<- _]. destruct Hl. apply elem_of_app. by left.
Qed.

Lemma Dir_delivery (s r : stdioTransport) :
  Dir s r → st_torn s = false → Forall wire_ok (st_written s) →
  oks (st_taken r) `prefix_of` st_written s ∧
  (Err io_EOF ∈ st_taken r → st_taken r = (Ok <$> st_written s) ++ [Err io_EOF]).
Proof.
  intros D Ht Ho. destruct (dr_main s r D Ht Ho) as (rest & tail & M1 & _ & _ & M4 & _).
  pose proof (made_split r s D) as Hm. split.
  - rewrite M1, Hm, oks_app. exists (oks (st_recvCh r ++ hand r) ++ rest). by rewrite app_assoc.
  - intros Hi. destruct M4 as (-> & _ & _ & M4); [rewrite Hm; apply elem_of_app; by left|].
    rewrite app_nil_r in M1. rewrite <-M1 in M4. rewrite Hm in M4.
    eapply prefix_with_last; [exact M4|done|]. intros Hin. by apply list_elem_of_fmap in Hin as (? & ? & _).
Qed.

#[export] Program Instance stdio_fifo : FifoTransport stdioLink stdio_op := {
  t_init := NewLink; t_step := stdio_step;
  t_accepted := λ d k, st_written (ep d k);
  t_received := λ d k, oks (st_taken (ep d k));
  t_clean := λ d k, st_torn (ep d k) = false ∧ Forall wire_ok (st_written (ep d k))
}.
Next Obligation.
  intros d k Hk [Ht Ho]. by apply Dir_delivery, Ho; [apply link_reachable_inv|].
Qed.

(** The reader that has a result to put and no room stays there until [Recv]
    makes room: [done] is closed only by the reader itself. *)
Lemma reader_stuck_step (k k' : stdioLink) (d : side) (o : stdio_op) :
  link_inv k → hand (ep d k) ≠ [] → st_recvCh (ep d k) ≠ [] → (∀ c, o ≠ ORecv d c) →
  stdio_step k o = Some k' →
  st_reader (ep d k') = st_reader (ep d k) ∧ st_recvCh (ep d k') = st_recvCh (ep d k).
Proof.
  intros I Hh Hc Ho H. destruct o as [d' n env|d' n w|d' c|d' c|d' rd wr same|d' e]; simpl in H.
  - destruct (st_calls (ep d' k) !! n); [done|]. injection H as <-. rewrite ep_set. case_decide; [subst|done].
    unfold stdio_Send. destruct (st_closed _); [done|]. by destruct (Marshal _).
  - destruct (st_calls (ep d' k) !! n) as [[env body|]|]; [|done..].
    destruct (stdio_write n env body w (ep d' k)) as [bs t] eqn:E.
    assert (k' = set_ep (peer d') (feed bs (ep (peer d') k)) (set_ep d' t k)) as ->
      by (destruct w, (st_end (ep (peer d') k)); by simplify_eq).
    assert (st_reader t = st_reader (ep d' k) ∧ st_recvCh t = st_recvCh (ep d' k)) as [F1 F2]
      by (unfold stdio_write in E; destruct w; by simplify_eq).
    rewrite !ep_set. unfold feed. by repeat case_decide; subst; destruct (st_end _).
  - destruct (readerLoop c (ep d' k)) as [t|] eqn:E; [|done]. injection H as <-. rewrite ep_set. case_decide; [subst|done].
    exfalso. unfold readerLoop in E. unfold hand in Hh. destruct (st_reader (ep d' k)) as [|r last| | |] eqn:Er; [done| |done..].
    destruct c; [|destruct (st_done (ep d' k)) eqn:Ed; [|done]|done].
    + by destruct (st_recvCh (ep d' k)).
    + pose proof (dr_done _ _ (link_inv_peer k d' I) Ed). congruence.
  - destruct (stdio_Recv c (ep d' k)) as [[x t]|] eqn:E; [|done]. injection H as <-. rewrite ep_set.
    case_decide; [subst; by destruct (Ho c)|done].
  - injection H as <-. rewrite ep_set. case_decide; [subst|done]. unfold stdio_Close. by destruct (st_closed _).
  - assert (k' = set_ep d' (end_input e (ep d' k)) k) as -> by (repeat case_match; by simplify_eq).
    rewrite ep_set. case_decide; [subst|done]. by destruct e.
Qed.

(** The last steps of [readerLoop] once its last result can be put. *)
Lemma reader_exit (k : stdioLink) (d : side) (e : error) :
  st_reader (ep d k) = RPut (Err e) true → st_recvCh (ep d k) = [] →
  ∃ k', exec stdio_step k [OReader d CaseChan; OReader d CaseChan; OReader d CaseChan] = Some k' ∧
        st_done (ep d k') = true ∧ st_taken (ep d k') = st_taken (ep d k) ∧ st_recvCh (ep d k') = [Err e].
Proof.
  intros H1 H2. simpl. unfold readerLoop. rewrite H1, H2. simpl. rewrite ep_set, decide_True by done. simpl.
  rewrite ep_set, decide_True by done. simpl. eexists. split; [done|]. by rewrite ep_set, decide_True.
Qed.

(** ** Claims *)

(** C27: NDJSON over a pipe loses, reorders and invents nothing.  In every run of
    two stdio transports, while no write of the sender was torn and its
    envelopes are ones JSON preserves, the envelopes [Recv] has returned are a
    prefix of those whose [Send] returned nil, wherever reads and writes are
    split and also when the reader is closed in the middle of a line; and once
    [Recv] has returned EOF it has returned all of them, with no error before. *)
Theorem stdio_delivery (k : stdioLink) (d : side) :
  run stdio_step NewLink k → st_torn (ep d k) = false → Forall wire_ok (st_written (ep d k)) →
  oks (st_taken (ep (peer d) k)) `prefix_of` st_written (ep d k) ∧
  (Err io_EOF ∈ st_taken (ep (peer d) k) →
     st_taken (ep (peer d) k) = (Ok <$> st_written (ep d k)) ++ [Err io_EOF]).
Proof. intros Hk. apply Dir_delivery. by apply link_reachable_inv. Qed.

(** The line limit.  An envelope whose encoding is shorter than 1 MiB is
    read back as it was sent; one of exactly 1 MiB, which the documentation
    accepts, or longer stops the reader with INVALID_REQUEST, although [Send]
    checks no length. *)
Theorem stdio_line_limit (e : Envelope) (b r : string) (fin : option (option error)) :
  wire_ok e → Marshal e = Ok b →
  if (Z.of_nat (len b) <? 2 ^ 20)%Z
  then ∃ line, Scan (line_of e +:+ r) fin = ScanToken line r ∧ decode_line line = Ok e
  else ∃ err, Scan (line_of e +:+ r) fin = ScanStop err ∧ Code (Some (stop_error err)) = CodeInvalidRequest.
Proof.
  intros Hw Hb. rewrite (line_of_Ok e b Hb), sapp_assoc, sapp_cons, sapp_nil_l.
  rewrite Scan_line by (by eapply marshal_text). unfold defaultStdioMaxLine. case_match.
  - exists b. split; [done|]. unfold decode_line. by rewrite (marshal_roundtrip e b Hw Hb).
  - by eexists.
Qed.

(** The last error can be lost.  The comment promises an explicit error for
    an oversized line; whenever [readerLoop] has its last error to report and
    room for it, it can exit first, and then [Recv] may return [ErrClosed] while
    that error is still in the channel. *)
Theorem stdio_final_error_lost (k : stdioLink) (d : side) (e : error) :
  run stdio_step NewLink k → st_reader (ep d k) = RPut (Err e) true → st_recvCh (ep d k) = [] →
  ∃ k', run stdio_step NewLink k' ∧ st_recvCh (ep d k') = [Err e] ∧ st_taken (ep d k') = st_taken (ep d k) ∧
        stdio_Recv CaseClosed (ep d k') = Some (Err ErrClosed, ep d k').
Proof.
  intros Hk H1 H2. destruct (reader_exit k d e H1 H2) as (k' & Hx & Hd & Ht & Hc). exists k'.
  split; [by eapply exec_run|]. split_and!; try done. unfold stdio_Recv. by rewrite Hd.
Qed.

(** The reader leaks.  The [select]s of [readerLoop] also wait for [done],
    which only [readerLoop] closes: once it holds a result that does not fit
    the channel, no sequence of steps without a [Recv], [Close] included, ends
    or moves it. *)
Theorem stdio_reader_leaks (k k' : stdioLink) (d : side) (l : list stdio_op) :
  run stdio_step NewLink k → hand (ep d k) ≠ [] → st_recvCh (ep d k) ≠ [] →
  (∀ c, ORecv d c ∉ l) → exec stdio_step k l = Some k' →
  st_reader (ep d k') = st_reader (ep d k) ∧ st_done (ep d k') = false.
Proof.
  intros Hk Hh Hc Hl Hx.
  assert (∀ k1, run stdio_step NewLink k1 → hand (ep d k1) ≠ [] → st_done (ep d k1) = false) as Hdone.
  { intros k1 H1 Hh1. destruct (st_done (ep d k1)) eqn:E; [|done]. unfold hand in Hh1.
    by rewrite (dr_done _ _ (link_inv_peer k1 d (link_reachable_inv k1 H1)) E) in Hh1. }
  revert k Hk Hh Hc Hx. induction l as [|o l IH]; simpl; intros k Hk Hh Hc Hx.
  - injection Hx as <-. split; [done|]. by apply Hdone.
  - destruct (stdio_step k o) as [k1|] eqn:E; [|done].
    destruct (reader_stuck_step k k1 d o) as [F1 F2]; [by apply link_reachable_inv|done|done| |done|].
    { intros c ->. destruct (Hl c). by left. }
    rewrite <-F1. apply IH; [|by eapply run_next| | |done].
    + intros c Hi. destruct (Hl c). by right.
    + unfold hand. rewrite F1. exact Hh.
    + by rewrite F2.
Qed.

End delivery.

(** ** A small codec, for concrete runs

    The envelopes [probe_env n], encoded by [n] ones between braces. *)

Fixpoint ones (n : nat) : string :=
  match n with 0 => "}" | S n => String "1" (ones n) end.

Fixpoint count_ones (s : string) : option nat :=
  match s with
  | String "}" EmptyString => Some 0
  | String "1" s => S <$> count_ones s
  | _ => None
  end.

Definition is_probe (e : Envelope) : bool :=
  match e with
  | mkEnvelope "1.1" "m" "job.event" "s" "j" "" n PNil => (0 <=? n)%Z
  | _ => false
  end.

Lemma is_probe_true (e : Envelope) : is_probe e = true → e = probe_env (env_EventSeq e) ∧ (0 <= env_EventSeq e)%Z.
Proof. unfold is_probe. intros H. repeat case_match; try done. by breflect. Qed.

Definition unary_Marshal (e : Envelope) : res string :=
  if is_probe e then Ok (String "{" (ones (Z.to_nat (env_EventSeq e)))) else Err (ENew "json: unsupported value").

Definition unary_Unmarshal (s : string) : result string Envelope :=
  match s with
  | String "{" s => match count_ones s with
                    | Some n => Ok (probe_env (Z.of_nat n))
                    | None => Err "unexpected end of JSON input"
                    end
  | _ => Err "invalid character"
  end.

Lemma ones_text (n : nat) : sforallb not_control (ones n) = true.
Proof. induction n as [|n IH]; [done|]. simpl. by rewrite IH. Qed.

Lemma count_ones_ones (n : nat) : count_ones (ones n) = Some n.
Proof. induction n as [|n IH]; [done|]. simpl. by rewrite IH. Qed.

Lemma count_ones_prefix (n : nat) (p q : string) : ones n = p +:+ q → q ≠ EmptyString → count_ones p = None.
Proof.
  revert p. induction n as [|n IH]; intros [|c p] H Hq; try done; rewrite sapp_cons in H; injection H as <- H.
  - symmetry in H. destruct p; by simplify_eq.
  - simpl. by rewrite (IH p H Hq).
Qed.

Lemma len_ones (n : nat) : len (ones n) = S n.
Proof. induction n as [|n IH]; [done|]. simpl. by rewrite IH. Qed.

Lemma unary_probe (n : Z) :
  (0 <= n)%Z → unary_Marshal (probe_env n) = Ok (String "{" (ones (Z.to_nat n))).
Proof. intros Hn. unfold unary_Marshal. simpl. by rewrite (proj2 (Z.leb_le 0 n) Hn). Qed.

Lemma len_unary (n : Z) : (0 <= n)%Z → Z.of_nat (len (String "{" (ones (Z.to_nat n)))) = (n + 2)%Z.
Proof. intros Hn. rewrite len_cons, len_ones. lia. Qed.

#[local] Program Instance unary_codec : JSONCodec := {
  Marshal := unary_Marshal; Unmarshal := unary_Unmarshal; wire_ok := λ _, True
}.
Next Obligation.
  intros e b H. unfold unary_Marshal in H. destruct (is_probe e); [|done]. injection H as <-. apply ones_text.
Qed.
Next Obligation.
  intros e b _ H. unfold unary_Marshal in H. destruct (is_probe e) eqn:E; [|done]. injection H as <-.
  apply is_probe_true in E as [He Hn]. simpl. rewrite count_ones_ones, Z2Nat.id by done. by rewrite <-He.
Qed.
Next Obligation.
  intros e b p q H Hb Hq. unfold unary_Marshal in H. destruct (is_probe e); [|done]. injection H as <-.
  destruct p as [|c p]; [by eexists|]. rewrite sapp_cons in Hb. injection Hb as <- Hb.
  simpl. rewrite (count_ones_prefix _ _ _ Hb Hq). by eexists.
Qed.

(** Two envelopes, then the end of the input; the reader runs and everything
    is read. *)
Definition stdio_run : list stdio_op :=
  [OSend SLeft 0 (probe_env 1); OSend SLeft 1 (probe_env 3); OWrite SLeft 0 WroteAll; OWrite SLeft 1 WroteAll;
   OReader SRight CaseChan; OReader SRight CaseChan; OReader SRight CaseChan; ORecv SRight CaseChan;
   OReader SRight CaseChan; ORecv SRight CaseChan; OEnd SRight InputEOF].

Definition stdio_run_end : list stdio_op :=
  [OReader SRight CaseChan; OReader SRight CaseChan; ORecv SRight CaseChan].

Lemma stdio_delivery_witness :
  ∃ k, exec stdio_step NewLink (stdio_run ++ stdio_run_end) = Some k ∧
       st_written (ep SLeft k) = [probe_env 1; probe_env 3] ∧
       st_taken (ep SRight k) = (Ok <$> st_written (ep SLeft k)) ++ [Err io_EOF].
Proof.
  eexists. split; [vm_compute; reflexivity|]. split; [reflexivity|].
  apply (stdio_delivery _ SLeft).
  - apply (exec_run _ _ NewLink _ (stdio_run ++ stdio_run_end)); [constructor|vm_compute; reflexivity].
  - reflexivity.
  - repeat constructor.
  - cbn. right. right. left.
Defined.

Lemma stdio_line_limit_witness :
  (∃ line, Scan (line_of (probe_env 5) +:+ "x") None = ScanToken line "x" ∧ decode_line line = Ok (probe_env 5)) ∧
  ∃ err, Scan (line_of (probe_env (2 ^ 20 - 2))) None = ScanStop err ∧
         Code (Some (stop_error err)) = CodeInvalidRequest.
Proof.
  split; [exact (stdio_line_limit (probe_env 5) _ "x" None I eq_refl)|].
  assert (∀ n, (0 <= n)%Z → (2 ^ 20 <= n + 2)%Z → ∃ err, Scan (line_of (probe_env n)) None = ScanStop err ∧
    Code (Some (stop_error err)) = CodeInvalidRequest) as H; [|by apply H].
  intros n H0 Hn. pose proof (stdio_line_limit (probe_env n) _ EmptyString None I (unary_probe n H0)) as H.
  rewrite sapp_nil_r, len_unary in H by done.
  destruct (Z.ltb_spec (n + 2) (2 ^ 20)); [lia|exact H].
Defined.

Lemma stdio_final_error_lost_witness :
  ∃ k, exec stdio_step NewLink (stdio_run ++ [OReader SRight CaseChan]) = Some k ∧
       st_reader (ep SRight k) = RPut (Err io_EOF) true ∧
       ∃ k', run stdio_step NewLink k' ∧ st_recvCh (ep SRight k') = [Err io_EOF] ∧
             st_taken (ep SRight k') = st_taken (ep SRight k) ∧
             stdio_Recv CaseClosed (ep SRight k') = Some (Err ErrClosed, ep SRight k').
Proof.
  eexists. split; [vm_compute; reflexivity|]. split; [reflexivity|].
  apply (stdio_final_error_lost _ SRight io_EOF); [|reflexivity..].
  apply (exec_run _ _ NewLink _ (stdio_run ++ [OReader SRight CaseChan])); [constructor|vm_compute; reflexivity].
Defined.

(** Two lines arrive, nobody reads them, the transport is closed. *)
Definition leak_run : list stdio_op :=
  [OSend SLeft 0 (probe_env 1); OSend SLeft 1 (probe_env 3); OWrite SLeft 0 WroteAll; OWrite SLeft 1 WroteAll;
   OReader SRight CaseChan; OReader SRight CaseChan; OReader SRight CaseChan].
Definition leak_close : list stdio_op :=
  [OClose SRight (Some None) (Some None) false; OEnd SRight (InputError 0 (ENew "read on closed file"))].

Lemma stdio_reader_leaks_witness :
  ∃ k k', exec stdio_step NewLink leak_run = Some k ∧ exec stdio_step k leak_close = Some k' ∧
          st_closed (ep SRight k') = true ∧
          st_reader (ep SRight k') = st_reader (ep SRight k) ∧ st_done (ep SRight k') = false.
Proof.
  eexists _, _. split; [vm_compute; reflexivity|]. split; [vm_compute; reflexivity|]. split; [reflexivity|].
  apply (stdio_reader_leaks _ _ SRight leak_close).
  - apply (exec_run _ _ NewLink _ leak_run); [constructor|vm_compute; reflexivity].
  - discriminate.
  - discriminate.
  - intros c H. repeat (apply elem_of_cons in H as [H|H]; [discriminate H|]). by apply elem_of_nil in H.
  - vm_compute. reflexivity.
Defined.
