(* ===== verification/WebSocket.v ===== *)
(** * The WebSocket transport

    Models transport/websocket.go over a connection of the WebSocket library.
    What the library does is an argument of each step: the outcome of a write,
    and the frame or the error of a read.  A link is two endpoints on the two
    ends of a connection; [ws_wrote] and [ws_read] record the frames that went
    through each end.  What is used of the library is that an end reads a
    prefix of the frames the other end wrote and that it reports a cancellation
    only under a context that is done ([conn_reliable]): after another
    cancellation the code returns the nil error of the context, which
    [ws_spurious] records.  The JSON encoding is the one of [Stdio]. *)

From S2P Require Import Prelude GoStrings Errors Features Lease Messages Transport Stdio StdioSafety.
From Stdlib Require Import ZArith.

(** [websocket.MessageType]. *)
Inductive message_type := MessageText | MessageBinary.

#[export] Instance message_type_eq_dec : EqDecision message_type.
Proof. solve_decision. Defined.

Abbreviation frame := (message_type * string)%type.

Section websocket.
Context {codec : JSONCodec}.

(** A call of [Send] with its encoded envelope, or returned. *)
Inductive ws_call :=
| WsWriting (env : Envelope) (body : string)
| WsReturned (err : option error).

Record wsTransport := mkWs {
  ws_closed : bool;
  ws_calls : gmap nat ws_call;
  ws_sent : list Envelope;
  ws_got : list Envelope;
  ws_wrote : list frame;
  ws_read : list frame;
  ws_spurious : bool
}.

#[export] Instance eta_wsTransport : Eta wsTransport := λ t,
  mkWs (ws_closed t) (ws_calls t) (ws_sent t) (ws_got t) (ws_wrote t) (ws_read t) (ws_spurious t).

Definition NewWebSocket : wsTransport := mkWs false ∅ [] [] [] [] false.

(** [DialWebSocket], given the outcome of the library's dial: the read limit set
    on the connection, and the transport. *)
Definition DialWebSocket (readLimit : Z) (derr : option error) : res (Z * wsTransport) :=
  match derr with
  | Some err => Err (EWrap "dial websocket" err)
  | None => Ok (if (readLimit =? 0)%Z then (2 ^ 20)%Z else readLimit, NewWebSocket)
  end.

(** The error of a cancelled call is the error of its context. *)
Definition conn_error (err : error) (ctxErr : option error) : option error :=
  if errors_Is err ctx_Canceled || errors_Is err ctx_DeadlineExceeded then ctxErr else Some err.

(** [Send] up to the mutex, and the write under it. *)
Definition ws_Send (n : nat) (env : Envelope) (t : wsTransport) : wsTransport :=
  let return_ err := t <| ws_calls := <[n := WsReturned err]> (ws_calls t) |> in
  if ws_closed t then return_ (Some ErrClosed)
  else
    let env := if bool_decide (ARCP env = "")
               then mkEnvelope ProtocolVersion (env_ID env) (env_Type env) (env_SessionID env) (env_JobID env)
                      (env_TraceID env) (env_EventSeq env) (env_Payload env)
               else env in
    match Marshal env with
    | Err err => return_ (Some (EWrap "marshal envelope" err))
    | Ok body => t <| ws_calls := <[n := WsWriting env body]> (ws_calls t) |>
    end.

Definition ws_write (n : nat) (env : Envelope) (body : string) (werr : option error) (ctxErr : option error)
    (t : wsTransport) : wsTransport :=
  match werr with
  | None => t <| ws_calls := <[n := WsReturned None]> (ws_calls t) |>
              <| ws_sent := ws_sent t ++ [env] |> <| ws_wrote := ws_wrote t ++ [(MessageText, body)] |>
  | Some err => t <| ws_calls := <[n := WsReturned (conn_error err ctxErr)]> (ws_calls t) |>
                  <| ws_spurious := ws_spurious t || bool_decide (¬ is_Some (conn_error err ctxErr)) |>
  end.

(** [Recv], given the outcome of [conn.Read].  A cancelled read whose context
    has no error returns the zero envelope without an error. *)
Definition zero_envelope : Envelope := mkEnvelope "" "" "" "" "" "" 0 PNil.

Definition ws_Recv (r : result error frame) (ctxErr : option error) (t : wsTransport) : res Envelope * wsTransport :=
  if ws_closed t then (Err ErrClosed, t)
  else match r with
       | Err err =>
           match conn_error err ctxErr with
           | Some e => (Err e, t)
           | None => (Ok zero_envelope, t <| ws_got := ws_got t ++ [zero_envelope] |> <| ws_spurious := true |>)
           end
       | Ok (typ, body) =>
           let t := t <| ws_read := ws_read t ++ [(typ, body)] |> in
           if negb (bool_decide (typ = MessageText)) then
             (Err (arcp_err ErrInvalidRequest "expected text frame, got binary"), t)
           else match decode_line body with
                | Ok env => (Ok env, t <| ws_got := ws_got t ++ [env] |>)
                | Err e => (Err e, t)
                end
       end.

(** [Close], given the result of the connection's. *)
Definition ws_Close (cerr : option error) (t : wsTransport) : option error * wsTransport :=
  if ws_closed t then (None, t) else (cerr, t <| ws_closed := true |>).

(** ** Two endpoints *)

Record wsLink := mkWsLink { wl_left : wsTransport; wl_right : wsTransport }.

Definition wep (d : side) (k : wsLink) : wsTransport :=
  match d with SLeft => wl_left k | SRight => wl_right k end.
Definition set_wep (d : side) (t : wsTransport) (k : wsLink) : wsLink :=
  match d with SLeft => mkWsLink t (wl_right k) | SRight => mkWsLink (wl_left k) t end.

Definition NewWsLink : wsLink := mkWsLink NewWebSocket NewWebSocket.

Inductive ws_op :=
| WSend (d : side) (n : nat) (env : Envelope)
| WWrite (d : side) (n : nat) (werr ctxErr : option error)
| WRecv (d : side) (r : result error frame) (ctxErr : option error)
| WClose (d : side) (cerr : option error).

Definition ws_step (k : wsLink) (o : ws_op) : option wsLink :=
  match o with
  | WSend d n env =>
      match ws_calls (wep d k) !! n with
      | None => Some (set_wep d (ws_Send n env (wep d k)) k)
      | Some _ => None
      end
  | WWrite d n werr ctxErr =>
      match ws_calls (wep d k) !! n with
      | Some (WsWriting env body) => Some (set_wep d (ws_write n env body werr ctxErr (wep d k)) k)
      | _ => None
      end
  | WRecv d r ctxErr => Some (set_wep d (ws_Recv r ctxErr (wep d k)).2 k)
  | WClose d cerr => Some (set_wep d (ws_Close cerr (wep d k)).2 k)
  end.

(** The library: the frames read at one end are a prefix of those written at
    the other, and a call is cancelled only by its context. *)
Definition conn_reliable (d : side) (k : wsLink) : Prop :=
  ws_read (wep (peer d) k) `prefix_of` ws_wrote (wep d k) ∧
  ws_spurious (wep d k) = false ∧ ws_spurious (wep (peer d) k) = false.

(** ** Delivery *)

Definition encoded (env : Envelope) (f : frame) : Prop := f.1 = MessageText ∧ Marshal env = Ok f.2.

(** The envelope of a frame, if it has one. *)
Definition frame_env (f : frame) : option Envelope :=
  if bool_decide (f.1 = MessageText) then from_result (decode_line f.2) else None.

Record ws_inv (t : wsTransport) : Prop := {
  wi_calls : ∀ n env body, ws_calls t !! n = Some (WsWriting env body) → Marshal env = Ok body;
  wi_sent : Forall2 encoded (ws_sent t) (ws_wrote t);
  wi_got : ws_spurious t = false → ws_got t = omap frame_env (ws_read t)
}.

Lemma ws_inv_Send (n : nat) (env : Envelope) (t : wsTransport) : ws_inv t → ws_inv (ws_Send n env t).
Proof.
  intros [I1 I2 I3].
  assert (∀ x, (∀ env body, x = WsWriting env body → Marshal env = Ok body) →
    ws_inv (t <| ws_calls := <[n := x]> (ws_calls t) |>)) as Hset.
  { intros x Hx. split; try done. intros n' env' body'. simpl. destruct (decide (n = n')) as [<-|Hn].
    - rewrite lookup_insert_eq. intros [= ->]. by apply Hx.
    - rewrite lookup_insert_ne by done. apply I1. }
  unfold ws_Send. destruct (ws_closed t); [by apply Hset|].
  destruct (Marshal _) eqn:E; apply Hset; [|done]. by intros env' body [= <- <-].
Qed.

Lemma ws_inv_write (n : nat) (env : Envelope) (body : string) (werr ctxErr : option error) (t : wsTransport) :
  ws_inv t → ws_calls t !! n = Some (WsWriting env body) → ws_inv (ws_write n env body werr ctxErr t).
Proof.
  intros [I1 I2 I3] Hn.
  assert (∀ err n' env' body', <[n := WsReturned err]> (ws_calls t) !! n' = Some (WsWriting env' body') →
    Marshal env' = Ok body') as Hcalls.
  { intros err n' env' body'. destruct (decide (n = n')) as [<-|Hne]; [by rewrite lookup_insert_eq|].
    rewrite lookup_insert_ne by done. apply I1. }
  destruct werr as [err|]; split; simpl; try done; try apply Hcalls.
  - intros [Hs _]%orb_false_iff. by apply I3.
  - apply Forall2_app; [done|]. repeat constructor. by apply (I1 n).
Qed.

Lemma ws_inv_Recv (r : result error frame) (ctxErr : option error) (t : wsTransport) :
  ws_inv t → ws_inv (ws_Recv r ctxErr t).2.
Proof.
  intros [I1 I2 I3]. unfold ws_Recv. destruct (ws_closed t); [done|].
  destruct r as [[typ body]|err]; [|destruct (conn_error err ctxErr); [done|by split]].
  assert (∀ g, (ws_spurious t = false → g = omap frame_env (ws_read t ++ [(typ, body)])) →
    ws_inv (t <| ws_read := ws_read t ++ [(typ, body)] |> <| ws_got := g |>)) as Hset by (intros g Hg; by split).
  assert (Hone : ws_spurious t = false →
    omap frame_env (ws_read t ++ [(typ, body)]) = ws_got t ++ option_list (frame_env (typ, body))).
  { intros Hs. rewrite omap_app, (I3 Hs). simpl. by destruct (frame_env (typ, body)). }
  unfold frame_env in Hone at 2. simpl in Hone.
  destruct (bool_decide (typ = MessageText)); simpl.
  - destruct (decode_line body); simpl; apply Hset; intros Hs; by rewrite Hone, ?app_nil_r.
  - apply Hset. intros Hs. by rewrite Hone, app_nil_r.
Qed.

Lemma ws_inv_step (k : wsLink) (o : ws_op) (k' : wsLink) :
  (∀ d, ws_inv (wep d k)) → ws_step k o = Some k' → ∀ d, ws_inv (wep d k').
Proof.
  intros I H. assert (∀ d t, ws_inv t → ∀ d', ws_inv (wep d' (set_wep d t k))) as Hset.
  { intros d t Ht d'. destruct d, d'; try exact Ht; [apply (I SRight)|apply (I SLeft)]. }
  destruct o as [d n env|d n werr ctxErr|d r ctxErr|d cerr]; simpl in H.
  - destruct (ws_calls (wep d k) !! n); [done|]. injection H as <-. by apply Hset, ws_inv_Send.
  - destruct (ws_calls (wep d k) !! n) as [[env body|]|] eqn:E; try done. injection H as <-.
    by apply Hset, ws_inv_write.
  - injection H as <-. by apply Hset, ws_inv_Recv.
  - injection H as <-. apply Hset. unfold ws_Close. destruct (ws_closed (wep d k)); [apply I|]. by destruct (I d).
Qed.

Lemma ws_reachable_inv (k : wsLink) : run ws_step NewWsLink k → ∀ d, ws_inv (wep d k).
Proof.
  revert k. apply (run_invariant ws_step NewWsLink (λ k, ∀ d, ws_inv (wep d k))); [|apply ws_inv_step].
  intros d. destruct d; split; simpl; try done; try constructor.
Qed.

(** The envelopes of the frames written are the envelopes sent. *)
Lemma frames_sent (l : list Envelope) (fs : list frame) :
  Forall2 encoded l fs → Forall wire_ok l → omap frame_env fs = l.
Proof.
  induction 1 as [|e f l fs [H1 H2] _ IH]; intros Hw; [done|]. apply Forall_cons in Hw as [He Hw].
  assert (frame_env f = Some e) as Hf.
  { unfold frame_env. rewrite H1. simpl. unfold decode_line. by rewrite (marshal_roundtrip e _ He H2). }
  change (omap frame_env (f :: fs)) with (match frame_env f with Some y => y :: omap frame_env fs | None => omap frame_env fs end).
  by rewrite Hf, IH.
Qed.

Lemma ws_received_prefix (k : wsLink) (d : side) :
  run ws_step NewWsLink k → conn_reliable d k → Forall wire_ok (ws_sent (wep d k)) →
  ws_got (wep (peer d) k) `prefix_of` ws_sent (wep d k).
Proof.
  intros Hk ([rest Hr] & _ & Hs) Hw. pose proof (ws_reachable_inv k Hk d) as [_ I2 _].
  pose proof (ws_reachable_inv k Hk (peer d)) as [_ _ I3].
  rewrite <-(frames_sent _ _ I2 Hw), Hr, (I3 Hs), omap_app. by eexists.
Qed.

#[export] Program Instance ws_fifo : FifoTransport wsLink ws_op := {
  t_init := NewWsLink; t_step := ws_step;
  t_accepted := λ d k, ws_sent (wep d k); t_received := λ d k, ws_got (wep d k);
  t_clean := λ d k, conn_reliable d k ∧ Forall wire_ok (ws_sent (wep d k))
}.
Next Obligation. intros d k Hk [Hc Hw]. by apply ws_received_prefix. Qed.

End websocket.
