(* ===== verification/EndToEnd.v ===== *)
(** * A client on a transport

    The composition of the client ([Client]) with any transport that keeps the
    promise of [FifoTransport]: the read loop takes its envelopes from [Recv] of
    the client's end.  [system] holds of the states this composition reaches;
    the peer, the scheduling of the transport and the calls of the user are
    free.  The end-to-end property follows from the interface of the transport
    and the delivery invariant of the client, whatever the transport is. *)

From S2P Require Import Prelude GoStrings Errors Features Lease Messages Transport Client ClientInv ClientRegistry ClientDelivery ClientLossless ClientScenarios.
From Stdlib Require Import ZArith Lia.

(** ** What the read loop has received *)

Section recv.
Context {MO : MapOrder} {RD : RawDecode}.

Lemma scal_recv (c c' : Client) : scal c' = scal c → c_recv c' = c_recv c.
Proof. unfold scal. congruence. Qed.

Lemma end_dispatch_recv (c : Client) : c_recv (end_dispatch c) = c_recv c.
Proof. apply end_dispatch_park. Qed.

Lemma push_next_recv (ev : JobEvent) (subs : list nat) (c : Client) : c_recv (push_next ev subs c) = c_recv c.
Proof. apply push_next_park. Qed.

Lemma client_dispatch_recv (n : nat) (env : Envelope) (id : string) (serr : option error) (c : Client) :
  c_recv (client_dispatch n env id serr c) = c_recv c.
Proof.
  unfold client_dispatch. cbv zeta.
  case_bool_decide; [rewrite end_dispatch_recv; apply scal_recv, still_transport|].
  case_bool_decide; [rewrite end_dispatch_recv; apply scal_recv, still_handleSessionError|].
  case_bool_decide; [rewrite end_dispatch_recv; apply scal_recv, still_handleSessionJobs|].
  case_bool_decide; [rewrite end_dispatch_recv; apply scal_recv, handleJobAccepted_scal|].
  case_bool_decide.
  { unfold handleJobEvent. repeat case_goal; by rewrite ?push_next_recv, ?end_dispatch_recv. }
  destruct (_ || _); [rewrite end_dispatch_recv; apply scal_recv, still_handleJobTerminal|].
  case_bool_decide; [rewrite end_dispatch_recv; apply scal_recv, still_handleJobSubscribed|apply end_dispatch_recv].
Qed.

(** A [Recv] that fails, or shows a gap, ends the read loop; any other envelope
    is passed on. *)
Lemma readLoop_turn_recv (r : res Envelope) (n : nat) (id : string) (serr : option error) (c : Client) :
  let c' := readLoop_turn r n id serr c in
  (c_recv c' = c_recv c ∧ c_rl c' = RExited) ∨ ∃ env, r = Ok env ∧ c_recv c' = c_recv c ++ [env].
Proof.
  simpl. assert (∀ e, c_recv (failAll e c) = c_recv c) as Hf by (intros; apply scal_recv, still_failAll).
  unfold readLoop_turn. destruct r as [env|e]; [|left; case_goal; [done|split; [apply (Hf e)|done]]].
  case_goal; [left; split; [apply (Hf err_gap)|done]|]. right. exists env. split; [done|]. rewrite client_dispatch_recv. by case_goal.
Qed.

Lemma leave_deliver_recv h ev subs c : c_recv (leave_deliver h ev subs c) = c_recv c.
Proof. unfold leave_deliver. by rewrite push_next_recv. Qed.

Lemma leave_push_recv s ev subs c : c_recv (leave_push s ev subs c) = c_recv c.
Proof. unfold leave_push. by rewrite push_next_recv. Qed.

Lemma removeSubscriber_recv (k : string) (c : Client) : c_recv (client_removeSubscriber k c) = c_recv c.
Proof. unfold client_removeSubscriber. by repeat case_goal. Qed.

(** The sends of the read loop do not receive, and there are none after it has
    exited. *)
Lemma rl_select_recv (k : Client.select_case) (c c' : Client) :
  rl_select k c = Some c' → c_recv c' = c_recv c ∧ c_rl c ≠ RExited.
Proof.
  unfold rl_select. destruct (c_rl c) as [|h ev subs|h b ev subs|s ev subs| | |] eqn:E; try done; intros Hs; (split; [|done]).
  - unfold deliver, after_event in Hs. destruct (c_jobs c !! h) as [x|]; [|done]. simpl in Hs.
    destruct k; repeat case_in Hs; simplify_eq; by rewrite ?leave_deliver_recv.
  - unfold deliverChunk in Hs. destruct (c_jobs c !! h) as [x|]; [|done]. simpl in Hs.
    destruct k; repeat case_in Hs; simplify_eq; by rewrite ?leave_deliver_recv.
  - unfold Subscription_push in Hs. destruct (c_subs c !! s) as [x|]; [|done]. simpl in Hs.
    destruct k; repeat case_in Hs; simplify_eq; by rewrite ?leave_push_recv, ?removeSubscriber_recv.
Qed.

(** Only a successful [Recv] adds to what was received; a read loop that has
    exited stays so. *)
Lemma client_step_recv (c : Client) (o : client_op) (c' : Client) :
  client_step c o = Some c' → (∀ env n id serr, o ≠ ORecv (Ok env) n id serr) →
  c_recv c' = c_recv c ∧ (c_rl c = RExited → c_rl c' = RExited).
Proof.
  intros Hs Ho. pose proof (light_step c o c' Hs) as Hl.
  assert (light c c' → c_recv c' = c_recv c ∧ (c_rl c = RExited → c_rl c' = RExited)) as Hlight.
  { intros [L _ _]. injection L as _ E1 E2 _. split; [done|]. by rewrite E2. }
  destruct o as [| | | | | | | | | | | |r n id serr|k| | | | | | | | | | |]; try (by apply Hlight); try (by apply Hlight, Hl).
  - simpl in Hs. destruct (c_rl c) eqn:E; try done. injection Hs as <-.
    destruct (readLoop_turn_recv r n id serr c) as [[H1 H2]|(env & -> & _)]; [by split|]. by destruct (Ho env n id serr).
  - apply rl_select_recv in Hs as [H1 H2]. by split.
  - simpl in Hs. destruct (c_rl c) eqn:E; try done. split; [|done]. unfold push_close_resume in Hs.
    destruct (c_subs c !! s) as [x|]; [|done]. simpl in Hs. case_in Hs; [|done]. simplify_eq.
    by rewrite leave_push_recv, removeSubscriber_recv.
  - simpl in Hs. destruct (c_rl c) eqn:E; try done. injection Hs as <-. split; [|done]. unfold maybeAck_cas. by case_goal.
Qed.

End recv.

(** ** The composition *)

Section system.
Context {MO : MapOrder} {RD : RawDecode}.
Context {S O : Type} {TR : FifoTransport S O}.
Variable cl : side.

(** The states of a client on side [cl] of a transport: [Connect] takes the
    first envelope [Recv] returns and the read loop each later one; all other
    steps of the transport and of the client interleave. *)
Inductive system : S → Client → Prop :=
| sys_connect t opts id env c :
    run t_step t_init t → t_received cl t = [env] → in_u64 (co_AutoAckWindow opts) →
    Connect opts id None (Ok env) = Ok c → system t c
| sys_transport t o t' c :
    system t c → t_step t o = Some t' → t_received cl t' = t_received cl t → system t' c
| sys_recv t o t' c n id serr env c' :
    system t c → t_step t o = Some t' → t_received cl t' = t_received cl t ++ [env] →
    in_u64 (env_EventSeq env) → client_step c (ORecv (Ok env) n id serr) = Some c' → system t' c'
| sys_client t c o c' :
    system t c → op_typed o → (∀ env n id serr, o ≠ ORecv (Ok env) n id serr) →
    client_step c o = Some c' → system t c'.

Lemma Connect_recv (opts : ClientOptions) (id : string) (resp : res Envelope) (c : Client) :
  Connect opts id None resp = Ok c → c_recv c = [] ∧ c_rl c = RRecv.
Proof.
  unfold Connect. cbv zeta. destruct resp as [env|]; [|done].
  destruct (bool_decide (env_Type env = TypeSessionWelcome)).
  - destruct (decode_welcome (env_Payload env)); [|done]. intros [= <-]. by split.
  - by destruct (bool_decide (env_Type env = TypeSessionError)).
Qed.

(** The parts of a composed run are runs of the parts, and the read loop has
    passed on what was received after the welcome, up to the envelope it ended
    on. *)
Lemma system_parts (t : S) (c : Client) :
  system t c →
  run t_step t_init t ∧ client_reachable c ∧
  ∃ w extra, t_received cl t = w :: c_recv c ++ extra ∧ (extra = [] ∨ c_rl c = RExited).
Proof.
  induction 1 as [t opts id env c Hr Ht Hw Hc|t o t' c _ IH Ht He|t o t' c n id serr env c' _ IH Ht He Hu Hc|t c o c' _ IH Hty Ho Hc].
  - split; [done|]. split; [by eapply client_init|]. destruct (Connect_recv _ _ _ _ Hc) as [-> _].
    exists env, []. split; [done|by left].
  - destruct IH as (H1 & H2 & H3). split; [by eapply run_next|]. split; [done|]. by rewrite He.
  - destruct IH as (H1 & H2 & w & extra & H3 & H4). split; [by eapply run_next|].
    split; [eapply client_next; [done| |exact Hc]; exact Hu|]. cbn [client_step] in Hc. destruct (c_rl c) eqn:E; try done. apply (inj Some) in Hc as <-.
    destruct H4 as [->|]; [|done]. rewrite app_nil_r in H3. rewrite He, H3.
    destruct (readLoop_turn_recv (Ok env) n id serr c) as [[R1 R2]|(env' & [= <-] & R1)].
    + exists w, [env]. rewrite R1. split; [done|by right].
    + exists w, []. rewrite R1, app_nil_r. split; [done|by left].
  - destruct IH as (H1 & H2 & w & extra & H3 & H4). split; [done|]. split; [by eapply client_next|].
    destruct (client_step_recv c o c' Hc Ho) as [R1 R2]. exists w, extra. rewrite R1. split; [done|]. tauto.
Qed.

(** The delivery invariant of the client through the promise of the transport. *)
Lemma delivery_prefix (t : S) (c : Client) (j : string) (h : nat) (x : JobHandle) :
  system t c → t_clean (peer cl) t → (co_EventDeliveryTimeout (c_opts c) <= 0)%Z → c_ctxDone c = false →
  c_handles c !! j = Some h → c_jobs c !! h = Some x →
  jh_read x ++ jh_events x `prefix_of` events_since j x (tail (t_accepted (peer cl) t)) ∧
  jh_chunksRead x ++ jh_chunks x `prefix_of` omap chunk_of (events_since j x (tail (t_accepted (peer cl) t))).
Proof.
  intros Hs Hcl Ht Hc Hh Hx. destruct (system_parts t c Hs) as (Hr & Hcr & w & extra & Hrecv & _).
  destruct (dv_reg c (reachable_DelInv c Hcr) (conj Ht Hc) j h x Hh Hx) as [_ D1 D2 _].
  pose proof (t_fifo (peer cl) t Hr Hcl) as [rest Hp]. rewrite peer_peer, Hrecv in Hp.
  assert (∃ more, events_since j x (tail (t_accepted (peer cl) t)) = events_since j x (c_recv c) ++ more) as [more ->].
  { rewrite Hp. simpl. unfold events_since. rewrite <-app_assoc, drop_app, job_events_app. by eexists. }
  split; [etransitivity; [exact D1|by eexists]|]. etransitivity; [exact D2|]. exists (omap chunk_of more). apply omap_app.
Qed.

(** ** Claims *)

(** End-to-end delivery.  For every transport that keeps the promise of the
    interface, in every run of a client connected over it, what the consumer of
    a job has read followed by what is queued for it is a prefix, in order and
    without loss or duplication, of the events of that job among the envelopes
    the server's end accepted since the acceptance; the chunk channel holds
    the result chunks of a prefix of them. *)
Theorem end_to_end_delivery (t : S) (c : Client) (j : string) (h : nat) (x : JobHandle) :
  system t c → t_clean (peer cl) t → (co_EventDeliveryTimeout (c_opts c) <= 0)%Z → c_ctxDone c = false →
  c_handles c !! j = Some h → c_jobs c !! h = Some x →
  jh_read x ++ jh_events x `prefix_of` events_since j x (tail (t_accepted (peer cl) t)) ∧
  jh_chunksRead x ++ jh_chunks x `prefix_of` omap chunk_of (events_since j x (tail (t_accepted (peer cl) t))).
Proof. apply delivery_prefix. Qed.

End system.

(** ** A concrete composition

    The server's end of a memory pair sends a welcome, an acceptance and two
    events; the client reads the first event. *)

Definition carry (env : Envelope) (i : nat) : list memory_op :=
  [MSend SLeft i env; MSendSelect i Transport.CaseChan].
Definition take_one : memory_op := MRecv SRight Transport.CaseChan.

Definition wire_start : list memory_op :=
  carry welcome_env 0 ++ carry (accepted_env "job_1" "echo") 1 ++ carry (event_env "job_1" 1 (log_event "a")) 2 ++
  carry (event_env "job_1" 2 (log_event "b")) 3 ++ [take_one].

Definition wire_after (l : list memory_op) : memoryPair := default NewMemoryPair (exec memory_step NewMemoryPair l).
Definition wire_opts : ClientOptions := opts_with 0 false 0.
Definition client_after (l : list client_op) : Client := after wire_opts l.

Definition composed_client : Client :=
  client_after [submit_op "echo" "sub1"; recv (accepted_env "job_1" "echo"); OSubmitSelect Client.CaseChan ctx_Canceled;
                recv (event_env "job_1" 1 (log_event "a")); send_ok; OReadEvent 0].
Definition composed_handle : JobHandle := default (new_handle "" "") (c_jobs composed_client !! 0).
Definition composed_wire : memoryPair := wire_after (wire_start ++ [take_one; take_one]).

Lemma composed_system : system SRight composed_wire composed_client.
Proof.
  eapply (sys_client SRight _ (client_after [submit_op "echo" "sub1"; recv (accepted_env "job_1" "echo");
    OSubmitSelect Client.CaseChan ctx_Canceled; recv (event_env "job_1" 1 (log_event "a")); send_ok]) (OReadEvent 0));
    [|exact I|done|vm_compute; reflexivity].
  eapply (sys_client SRight _ (client_after [submit_op "echo" "sub1"; recv (accepted_env "job_1" "echo");
    OSubmitSelect Client.CaseChan ctx_Canceled; recv (event_env "job_1" 1 (log_event "a"))]) send_ok);
    [|exact I|done|vm_compute; reflexivity].
  eapply (sys_recv SRight (wire_after (wire_start ++ [take_one])) take_one _
    (client_after [submit_op "echo" "sub1"; recv (accepted_env "job_1" "echo"); OSubmitSelect Client.CaseChan ctx_Canceled])
    0 "p" None (event_env "job_1" 1 (log_event "a"))); [|vm_compute; reflexivity|vm_compute; reflexivity|done|vm_compute; reflexivity].
  eapply (sys_client SRight _ (client_after [submit_op "echo" "sub1"; recv (accepted_env "job_1" "echo")])
    (OSubmitSelect Client.CaseChan ctx_Canceled)); [|exact I|done|vm_compute; reflexivity].
  eapply (sys_recv SRight (wire_after wire_start) take_one _ (client_after [submit_op "echo" "sub1"])
    0 "p" None (accepted_env "job_1" "echo")); [|vm_compute; reflexivity|vm_compute; reflexivity|done|vm_compute; reflexivity].
  eapply (sys_client SRight _ (connected wire_opts) (submit_op "echo" "sub1")); [|done|done|vm_compute; reflexivity].
  apply (sys_connect SRight _ wire_opts "hello" welcome_env);
    [|vm_compute; reflexivity|done|vm_compute; reflexivity].
  apply (exec_run _ _ NewMemoryPair _ wire_start); [constructor|vm_compute; reflexivity].
Qed.

Lemma end_to_end_delivery_witness :
  jh_read composed_handle = [log_event "a"] ∧
  events_since "job_1" composed_handle (tail (accepted_on SLeft composed_wire)) = [log_event "a"; log_event "b"] ∧
  jh_read composed_handle ++ jh_events composed_handle `prefix_of`
    events_since "job_1" composed_handle (tail (accepted_on SLeft composed_wire)).
Proof.
  split; [vm_compute; reflexivity|]. split; [vm_compute; reflexivity|].
  apply (end_to_end_delivery SRight composed_wire composed_client "job_1" 0 composed_handle composed_system).
  - exact I.
  - vm_compute. discriminate.
  - vm_compute. reflexivity.
  - vm_compute. reflexivity.
  - vm_compute. reflexivity.
Defined.
