(* ===== verification/Served.v ===== *)
(** * A server, a transport and a client

    The composition of the whole: a session of the runtime ([Runtime]) whose
    writer puts its envelopes on one end of a transport of the interface
    [FifoTransport], and a client ([EndToEnd.system]) on the other end.  What a
    consumer of the client reads is traced back to what the handlers of the
    server queued. *)

From S2P Require Import Prelude GoStrings Errors Features Float64 Lease Canonical LeaseState Messages EventLog IdStore Agents ServerState Delivery Stream Job ListJobs Session Runtime Scenarios Invariant Preservation JobPreservation SessionPreservation HandlerPreservation Frames Safety ServerWire Transport Client ClientInv ClientRegistry ClientDelivery ClientLossless ClientScenarios EndToEnd.
From Stdlib Require Import ZArith Lia.

(** The events of a job are among the events of a wire. *)
Lemma frame_event_like j env ev :
  frame_event j env = Some ev → event_like env = true ∧ env_Type env = TypeJobEvent ∧ env_JobID env = j ∧
    decode_event (env_Payload env) = Ok ev.
Proof.
  unfold frame_event, event_like. case_bool_decide as Ht; [|done]. case_bool_decide as Hj; [|done]. cbn [andb].
  destruct (decode_event _) as [ev'|]; [|done]. intros [= ->]. by rewrite Ht.
Qed.

Lemma job_events_filter j l : job_events j (filter (λ e, event_like e = true) l) = job_events j l.
Proof.
  unfold job_events. induction l as [|e l IH]; [done|]. rewrite filter_cons. case_decide as He; [by cbn; rewrite IH|].
  cbn. destruct (frame_event j e) as [ev|] eqn:Hf; [|done]. by destruct (frame_event_like _ _ _ Hf).
Qed.

Lemma job_events_drop j n l : ∃ before, job_events j l = before ++ job_events j (drop n l).
Proof. exists (job_events j (take n l)). by rewrite <-job_events_app, take_drop. Qed.

Section served.
Context {RT : Runtime} {MO : MapOrder} {RD : RawDecode}.
Context {TS TO : Type} {TR : FifoTransport TS TO}.
Variable cl : side.

(** The session [x] of the server [s] is served over the transport: what its
    writer has written is what the server's end has accepted. *)
Definition served (s : Server) (x : session) (t : TS) (c : Client) : Prop :=
  system cl t c ∧ t_accepted (peer cl) t = wire_of s x.

(** What a job's consumer has, among what was queued on the session. *)
Lemma served_segment o t0 s p x t c j h y :
  reachable o t0 s → hsess s !! p = Some x → served s x t c →
  t_clean (peer cl) t → (co_EventDeliveryTimeout (c_opts c) <= 0)%Z → c_ctxDone c = false →
  c_handles c !! j = Some h → c_jobs c !! h = Some y →
  ∃ before after, job_events j (queued_on (trace s) p) = before ++ (jh_read y ++ jh_events y) ++ after.
Proof.
  intros Hr Hx [Hs Ha] Hcl Ht Hc Hh Hy. destruct (delivery_prefix cl t c j h y Hs Hcl Ht Hc Hh Hy) as [[rest Hp] _].
  rewrite Ha in Hp. unfold events_since in Hp. destruct (wire_split _ _ _ _ _ Hr Hx) as (lost & Hq & _).
  destruct (job_events_drop j (jh_since y) (tail (wire_of s x))) as [b1 Hb1]. rewrite Hp in Hb1.
  assert (∃ b0, job_events j (wire_of s x) = b0 ++ job_events j (tail (wire_of s x))) as [b0 Hb0].
  { destruct (wire_of s x) as [|e l]; [by exists []|]. exists (job_events j [e]). by rewrite <-job_events_app. }
  rewrite <-job_events_filter, Hq, job_events_app, job_events_filter, Hb0, Hb1.
  eexists (b0 ++ b1), (rest ++ _). by rewrite <-!app_assoc.
Qed.

End served.

(** ** A concrete deployment

    The server of [wired_server] on the left end of a memory pair, a client on
    its right end that has submitted the job and read the first of its two
    events on the wire. *)

Definition wired_list : list Envelope := Eval vm_compute in wire_of wired_server wired_session.
Definition wired (n : nat) : Envelope := nth n wired_list (client_env "" PNil).

Lemma wired_list_eq : wire_of wired_server wired_session = wired_list.
Proof. vm_compute. reflexivity. Qed.

Definition deployed_start : list memory_op :=
  carry (wired 0) 0 ++ carry (wired 1) 1 ++ carry (wired 2) 2 ++ carry (wired 3) 3 ++ [take_one].
Definition deployed_wire (l : list memory_op) : memoryPair := wire_after (deployed_start ++ l).

Definition deployed_connect : Client := default zero_client (from_result (Connect wire_opts "hello" None (Ok (wired 0)))).
Definition deployed_client (l : list client_op) : Client := default zero_client (client_run deployed_connect l).

Definition deployed_ops : list client_op :=
  [submit_op "echo" "sub1"; recv (wired 1); OSubmitSelect Client.CaseChan ctx_Canceled; recv (wired 2); send_ok; OReadEvent 0].

Definition deployed : Client := deployed_client deployed_ops.
Definition deployed_handle : JobHandle := default (new_handle "" "") (c_jobs deployed !! 0).

Lemma deployed_system : system SRight (deployed_wire [take_one; take_one]) deployed.
Proof.
  eapply (sys_client SRight _ (deployed_client (take 5 deployed_ops)) (OReadEvent 0)); [|exact I|done|vm_compute; reflexivity].
  eapply (sys_client SRight _ (deployed_client (take 4 deployed_ops)) send_ok); [|exact I|done|vm_compute; reflexivity].
  eapply (sys_recv SRight (deployed_wire [take_one]) take_one _ (deployed_client (take 3 deployed_ops)) 0 "p" None (wired 2));
    [|vm_compute; reflexivity|vm_compute; reflexivity|done|vm_compute; reflexivity].
  eapply (sys_client SRight _ (deployed_client (take 2 deployed_ops)) (OSubmitSelect Client.CaseChan ctx_Canceled));
    [|exact I|done|vm_compute; reflexivity].
  eapply (sys_recv SRight (deployed_wire []) take_one _ (deployed_client (take 1 deployed_ops)) 0 "p" None (wired 1));
    [|vm_compute; reflexivity|vm_compute; reflexivity|done|vm_compute; reflexivity].
  eapply (sys_client SRight _ deployed_connect (submit_op "echo" "sub1")); [|done|done|vm_compute; reflexivity].
  apply (sys_connect SRight _ wire_opts "hello" (wired 0)); [|vm_compute; reflexivity|done|vm_compute; reflexivity].
  apply (exec_run _ _ NewMemoryPair _ (deployed_start ++ [])); [constructor|vm_compute; reflexivity].
Qed.


(** ** Gaps that are not losses

    A client with [DetectSeqGaps] ends its session when a number is missing.
    In these runs every envelope the server queued arrives, and the session
    ends all the same. *)

(** A client that checks for gaps, after the envelopes of a wire. *)
Definition watching (l : list Envelope) : option Client :=
  match l with
  | [] => None
  | w :: l =>
      match Connect (opts_with 0 true 0) "hello" None (Ok w) with
      | Err _ => None
      | Ok c => client_run c (recv <$> l)
      end
  end.

Definition session_broken (c : Client) : bool := match c_rl c with RExited => c_transportClosed c | _ => false end.

(** An outbox of one envelope and a lag threshold of one: the back_pressure
    event finds the outbox full. *)
Definition lag_opts : Options := mkOptions "" "" 0 0 None None None 1 [] None 0 0 0 1.
Definition lag_server : Server :=
  Runtime.run (demo_submitted ++ [OpWrite 6; OpJobStart 8; demo_log "a"; OpWrite 6; demo_log "b"; OpWrite 6]) (New lag_opts 1000).
Definition lag_wire : list Envelope := Eval vm_compute in wire_of lag_server (sess lag_server 6).

(** The back_pressure event that is dropped on a full outbox has already taken
    the number 2; the next event has the number 3, and the client ends the
    session although everything that was queued has arrived. *)
Theorem dropped_back_pressure_breaks_session :
  wire_of lag_server (sess lag_server 6) = lag_wire ∧
  s_outbox (sess lag_server 6) = [] ∧ env_EventSeq <$> queued_on (trace lag_server) 6 = [0; 1; 3]%Z ∧
  session_broken <$> watching (take 3 lag_wire) = Some false ∧ session_broken <$> watching lag_wire = Some true.
Proof. split_and!; vm_compute; reflexivity. Qed.

(** A rotation between two events, then a resume from the first event. *)
Definition rotation_work : list Runtime.op :=
  demo_submitted ++ [OpJobStart 8; demo_log "a"; demo_log "b"; OpAgent 8 (ARotate "cred" "new"); demo_log "c"].
Definition rotation_token : string := s_resumeToken (sess (Runtime.run rotation_work (New demo_opts_pv 1000)) 6).
Definition rotation_server : Server :=
  Runtime.run (rotation_work ++ drop_session 6 ++ connect 2 26 "alice" (Some (mkResumeRequest demo_sid rotation_token 1)) ++
       [OpWrite 26; OpWrite 26]) (New demo_opts_pv 1000).
Definition rotation_wire : list Envelope := Eval vm_compute in wire_of rotation_server (sess rotation_server 26).

(** A credential rotation takes a number and is never logged, so the replay of
    a resume jumps over it: the resumed session ends at once, and again at every
    further resume from a number before the rotation. *)
Theorem replay_over_rotation_breaks_session :
  wire_of rotation_server (sess rotation_server 26) = rotation_wire ∧
  env_EventSeq <$> rotation_wire = [0; 2; 4]%Z ∧
  session_broken <$> watching rotation_wire = Some true.
Proof. split_and!; vm_compute; reflexivity. Qed.
