(* ===== verification/Clock.v ===== *)
(** * The clock

    Models internal/clock/clock.go: the interface the runtime takes its time
    from, and the mock.  A [mockTimer] is a cell of the heap [ck_cells], [timers]
    is the list of pointers the code keeps.  The callback of a timer is the
    timer's pointer in the list of due timers that [Advance] runs after it has
    released the mutex; what a callback does is a later operation.

    The rest of the development takes a timer to be the instant at which it
    will fire.  [mock_refines_alarms] says that the mock implements this: a table
    from timers to deadlines. *)

From S2P Require Import Prelude.

Record mockTimer := mkTimer { tm_deadline : Time; tm_stopped : bool }.

#[export] Instance eta_mockTimer : Eta mockTimer := λ t, mkTimer (tm_deadline t) (tm_stopped t).

(** [ck_next] is the next free pointer. *)
Record Mock := mkMock {
  ck_now : Time;
  ck_timers : list nat;
  ck_cells : gmap nat mockTimer;
  ck_next : nat
}.

#[export] Instance eta_Mock : Eta Mock := λ m, mkMock (ck_now m) (ck_timers m) (ck_cells m) (ck_next m).

Definition NewMock (t : Time) : Mock := mkMock t [] ∅ 0.

Definition Mock_Now (m : Mock) : Time := ck_now m.

(** The loop of [Advance] over the timers: the ones that are due, marked as
    stopped, and the ones that remain. *)
Fixpoint advance_loop (now : Time) (l : list nat) (cells : gmap nat mockTimer) (due remaining : list nat)
    : list nat * list nat * gmap nat mockTimer :=
  match l with
  | [] => (due, remaining, cells)
  | p :: l =>
      match cells !! p with
      | Some t =>
          if negb (After (tm_deadline t) now) && negb (tm_stopped t)
          then advance_loop now l (<[p := t <| tm_stopped := true |>]> cells) (due ++ [p]) remaining
          else advance_loop now l cells due (remaining ++ [p])
      | None => advance_loop now l cells due (remaining ++ [p])
      end
  end.

(** [Advance]: the timers whose callbacks run, in order, and the clock. *)
Definition Advance (d : Duration) (m : Mock) : list nat * Mock :=
  let now := (ck_now m + d)%Z in
  let '(due, remaining, cells) := advance_loop now (ck_timers m) (ck_cells m) [] [] in
  (due, m <| ck_now := now |> <| ck_timers := remaining |> <| ck_cells := cells |>).

Definition AfterFunc (d : Duration) (m : Mock) : nat * Mock :=
  let p := ck_next m in
  (p, m <| ck_timers := ck_timers m ++ [p] |>
        <| ck_cells := <[p := mkTimer (ck_now m + d)%Z false]> (ck_cells m) |>
        <| ck_next := S p |>).

(** [Stop] and [Reset] on the timer at [p]; [None] where the pointer is not
    one of a timer. *)
Definition Stop (p : nat) (m : Mock) : option (bool * Mock) :=
  match ck_cells m !! p with
  | None => None
  | Some t =>
      if tm_stopped t then Some (false, m)
      else Some (true, m <| ck_cells := <[p := t <| tm_stopped := true |>]> (ck_cells m) |>)
  end.

Definition timer_Reset (p : nat) (d : Duration) (m : Mock) : option (bool * Mock) :=
  match ck_cells m !! p with
  | None => None
  | Some t =>
      let was := negb (tm_stopped t) in
      let m := m <| ck_cells := <[p := mkTimer (ck_now m + d)%Z false]> (ck_cells m) |> in
      let found := bool_decide (p ∈ ck_timers m) in
      Some (was, if found then m else m <| ck_timers := ck_timers m ++ [p] |>)
  end.

(** ** The operations of a user of the clock *)

Inductive clock_op :=
| CAdvance (d : Duration)
| CAfterFunc (d : Duration)
| CStop (p : nat)
| CReset (p : nat) (d : Duration).

(** What a call returns: the callbacks run, a new timer, a boolean. *)
Inductive clock_ret :=
| RFired (l : list nat)
| RTimer (p : nat)
| RBool (b : bool).

Definition clock_step (m : Mock) (o : clock_op) : option (clock_ret * Mock) :=
  match o with
  | CAdvance d => let '(due, m) := Advance d m in Some (RFired due, m)
  | CAfterFunc d => let '(p, m) := AfterFunc d m in Some (RTimer p, m)
  | CStop p => (λ x, (RBool x.1, x.2)) <$> Stop p m
  | CReset p d => (λ x, (RBool x.1, x.2)) <$> timer_Reset p d m
  end.

(** ** The specification: a table of deadlines *)

Record Alarms := mkAlarms { al_now : Time; al_armed : gmap nat Time; al_known : nat }.

(** An [Advance] fires exactly the armed timers whose deadline has come, each
    once, and disarms them. *)
Inductive alarm_step : Alarms → clock_op → clock_ret → Alarms → Prop :=
| alarm_advance a d l :
    NoDup l → (∀ p, p ∈ l ↔ ∃ t, al_armed a !! p = Some t ∧ (t <= al_now a + d)%Z) →
    alarm_step a (CAdvance d) (RFired l)
      (mkAlarms (al_now a + d) (filter (λ x, al_now a + d < x.2)%Z (al_armed a)) (al_known a))
| alarm_after a d :
    alarm_step a (CAfterFunc d) (RTimer (al_known a))
      (mkAlarms (al_now a) (<[al_known a := (al_now a + d)%Z]> (al_armed a)) (S (al_known a)))
| alarm_stop a p :
    p < al_known a →
    alarm_step a (CStop p) (RBool (bool_decide (is_Some (al_armed a !! p))))
      (mkAlarms (al_now a) (delete p (al_armed a)) (al_known a))
| alarm_reset a p d :
    p < al_known a →
    alarm_step a (CReset p d) (RBool (bool_decide (is_Some (al_armed a !! p))))
      (mkAlarms (al_now a) (<[p := (al_now a + d)%Z]> (al_armed a)) (al_known a)).

(** The table of a mock: the timers that are not stopped. *)
Definition armed (m : Mock) : gmap nat Time :=
  omap (λ t, if tm_stopped t then None else Some (tm_deadline t)) (ck_cells m).
Definition alarms_of (m : Mock) : Alarms := mkAlarms (ck_now m) (armed m) (ck_next m).

Record clock_inv (m : Mock) : Prop := {
  ci_nodup : NoDup (ck_timers m);
  ci_cells : ∀ p, is_Some (ck_cells m !! p) ↔ p < ck_next m;
  ci_armed : ∀ p t, ck_cells m !! p = Some t → tm_stopped t = false → p ∈ ck_timers m;
  ci_listed : ∀ p, p ∈ ck_timers m → p < ck_next m
}.

Lemma armed_lookup (m : Mock) (p : nat) (t : Time) :
  armed m !! p = Some t ↔ ck_cells m !! p = Some (mkTimer t false).
Proof.
  unfold armed. rewrite lookup_omap. destruct (ck_cells m !! p) as [[dl st]|]; simpl; [|done].
  destruct st; split; intros H; by simplify_eq.
Qed.

(** ** [Advance] *)

(** The test of the loop. *)
Definition due_at (now : Time) (cells : gmap nat mockTimer) (p : nat) : bool :=
  match cells !! p with
  | Some t => negb (After (tm_deadline t) now) && negb (tm_stopped t)
  | None => false
  end.

Lemma due_at_true (now : Time) (cells : gmap nat mockTimer) (p : nat) :
  due_at now cells p = true ↔ ∃ t, cells !! p = Some (mkTimer t false) ∧ (t <= now)%Z.
Proof.
  unfold due_at, After. destruct (cells !! p) as [[dl st]|]; simpl; [|naive_solver].
  destruct st, (Z.ltb_spec now dl); simpl; naive_solver lia.
Qed.

Definition stop_cell (t : mockTimer) : mockTimer := t <| tm_stopped := true |>.

Lemma due_at_insert_ne (now : Time) (cells : gmap nat mockTimer) (p q : nat) (t : mockTimer) :
  p ≠ q → due_at now (<[p := t]> cells) q = due_at now cells q.
Proof. intros Hne. unfold due_at. by rewrite lookup_insert_ne. Qed.

Lemma list_filter_iff_in {A} (P Q : A → Prop) `{!∀ x, Decision (P x)} `{!∀ x, Decision (Q x)} (l : list A) :
  (∀ x, x ∈ l → P x ↔ Q x) → filter P l = filter Q l.
Proof.
  induction l as [|x l IH]; intros Heq; [done|].
  rewrite !filter_cons, IH by (intros y Hy; apply Heq; by right).
  destruct (Heq x ltac:(by left)). by repeat case_decide; try tauto.
Qed.

(** The loop is a partition of the list by the test, and stops the timers that
    are due. *)
Lemma advance_loop_spec (now : Time) (l : list nat) (cells : gmap nat mockTimer) (due remaining : list nat) :
  NoDup l →
  ∃ cells', advance_loop now l cells due remaining =
      (due ++ filter (λ p, due_at now cells p = true) l, remaining ++ filter (λ p, due_at now cells p ≠ true) l, cells') ∧
    ∀ p, cells' !! p = if decide (p ∈ l ∧ due_at now cells p = true) then stop_cell <$> cells !! p else cells !! p.
Proof.
  revert cells due remaining. induction l as [|q l IH]; intros cells due remaining Hnd.
  { exists cells. cbn [advance_loop]. rewrite !filter_nil, !app_nil_r. split; [done|]. intros p.
    rewrite decide_False; [done|]. intros [H _]. by apply elem_of_nil in H. }
  apply NoDup_cons in Hnd as [Hq Hnd]. cbn [advance_loop].
  assert (Hkeep : due_at now cells q ≠ true → ∃ cells', advance_loop now l cells due (remaining ++ [q]) =
      (due ++ filter (λ p, due_at now cells p = true) (q :: l),
       remaining ++ filter (λ p, due_at now cells p ≠ true) (q :: l), cells') ∧
    ∀ p, cells' !! p = if decide (p ∈ q :: l ∧ due_at now cells p = true) then stop_cell <$> cells !! p else cells !! p).
  { intros Hn. destruct (IH cells due (remaining ++ [q]) Hnd) as (cells' & -> & Hc). exists cells'.
    rewrite !filter_cons, decide_False, decide_True, <-app_assoc by done. split; [done|].
    intros p. rewrite Hc. destruct (decide (p = q)) as [->|Hpq].
    - rewrite !decide_False; naive_solver.
    - erewrite decide_ext; [done|]. rewrite elem_of_cons. naive_solver. }
  destruct (cells !! q) as [t|] eqn:E; [|apply Hkeep; unfold due_at; by rewrite E].
  destruct (negb (After (tm_deadline t) now) && negb (tm_stopped t)) eqn:Ed;
    [|apply Hkeep; unfold due_at; by rewrite E, Ed].
  assert (due_at now cells q = true) as Hdue by (unfold due_at; by rewrite E).
  assert (∀ p, p ∈ l → due_at now (<[q := stop_cell t]> cells) p = due_at now cells p) as Hsame.
  { intros p Hp. apply due_at_insert_ne. by intros ->. }
  destruct (IH (<[q := stop_cell t]> cells) (due ++ [q]) remaining Hnd) as (cells' & Hrun & Hc). exists cells'.
  rewrite !filter_cons, decide_True, decide_False by (try done; by intros []).
  split.
  - etransitivity; [exact Hrun|]. rewrite <-app_assoc. f_equal. f_equal; f_equal; [simpl; f_equal|]; apply list_filter_iff_in; intros p Hp; by rewrite Hsame.
  - intros p. rewrite Hc. destruct (decide (p = q)) as [->|Hpq].
    + rewrite decide_False by naive_solver. rewrite decide_True by (split; [by left|done]).
      by rewrite lookup_insert_eq, E.
    + rewrite lookup_insert_ne by done. destruct (decide (p ∈ l)) as [Hp|Hp].
      * rewrite Hsame by done. erewrite decide_ext; [done|]. rewrite elem_of_cons. naive_solver.
      * rewrite !decide_False; [done|rewrite elem_of_cons; naive_solver|naive_solver].
Qed.

(** ** Refinement, operation by operation *)

Lemma clock_inv_init (t : Time) : clock_inv (NewMock t).
Proof.
  split; simpl.
  - constructor.
  - intros p. rewrite lookup_empty. split; [by intros []|lia].
  - intros p x. by rewrite lookup_empty.
  - intros p H. by apply elem_of_nil in H.
Qed.

(** Changing one known cell, with the list of timers that goes with it. *)
Lemma clock_inv_set (m m' : Mock) (p : nat) (t : mockTimer) :
  clock_inv m → p < ck_next m → ck_next m' = ck_next m → ck_cells m' = <[p := t]> (ck_cells m) →
  NoDup (ck_timers m') → (∀ q, q ∈ ck_timers m' ↔ q ∈ ck_timers m ∨ q = p ∧ q ∈ ck_timers m') →
  (tm_stopped t = false → p ∈ ck_timers m') → clock_inv m'.
Proof.
  intros [I1 I2 I3 I4] Hp Hn Hc Hnd Hl Ht. split; [done|..].
  - intros q. rewrite Hn, Hc, <-I2. destruct (decide (p = q)) as [<-|Hne].
    + rewrite lookup_insert_eq. split; [|done]. intros _. by apply I2.
    + by rewrite lookup_insert_ne.
  - intros q t'. rewrite Hc. destruct (decide (p = q)) as [<-|Hne].
    + rewrite lookup_insert_eq. intros [= <-]. apply Ht.
    + rewrite lookup_insert_ne by done. intros Hq Hs. apply Hl. left. by eapply I3.
  - intros q Hq. rewrite Hn. apply Hl in Hq as [Hq|[-> _]]; [by apply I4|done].
Qed.

Lemma armed_set (m m' : Mock) (p : nat) (t : mockTimer) :
  ck_cells m' = <[p := t]> (ck_cells m) →
  armed m' = if tm_stopped t then delete p (armed m) else <[p := tm_deadline t]> (armed m).
Proof.
  intros Hc. apply map_eq. intros q. unfold armed at 1. rewrite lookup_omap, Hc.
  destruct (decide (p = q)) as [<-|Hne].
  - rewrite lookup_insert_eq. simpl. destruct (tm_stopped t); [by rewrite lookup_delete_eq|by rewrite lookup_insert_eq].
  - rewrite lookup_insert_ne by done. unfold armed.
    destruct (tm_stopped t); [rewrite lookup_delete_ne|rewrite lookup_insert_ne]; try done; by rewrite lookup_omap.
Qed.

Lemma Advance_refines (m : Mock) (d : Duration) :
  clock_inv m →
  alarm_step (alarms_of m) (CAdvance d) (RFired (Advance d m).1) (alarms_of (Advance d m).2) ∧
  clock_inv (Advance d m).2.
Proof.
  intros [I1 I2 I3 I4]. unfold Advance. set (now := (ck_now m + d)%Z).
  destruct (advance_loop_spec now (ck_timers m) (ck_cells m) [] [] I1) as (cells' & -> & Hc). simpl.
  assert (Hcell : ∀ p, cells' !! p = if decide (due_at now (ck_cells m) p = true)
                                     then stop_cell <$> ck_cells m !! p else ck_cells m !! p).
  { intros p. rewrite Hc. destruct (decide (due_at now (ck_cells m) p = true)) as [Hd|Hd].
    - rewrite decide_True; [done|]. split; [|done]. apply due_at_true in Hd as (t & Ht & _). by eapply I3.
    - rewrite decide_False; [done|]. tauto. }
  split.
  - assert (alarms_of (m <| ck_now := now |>
       <| ck_timers := filter (λ p, due_at now (ck_cells m) p ≠ true) (ck_timers m) |> <| ck_cells := cells' |>)
      = mkAlarms now (filter (λ x, now < x.2)%Z (armed m)) (ck_next m)) as ->.
    { unfold alarms_of. f_equal. apply map_eq. intros p. apply option_eq. intros t.
      rewrite map_lookup_filter_Some, !armed_lookup. simpl. rewrite Hcell.
      destruct (decide (due_at now (ck_cells m) p = true)) as [Hd|Hd].
      - pose proof (proj1 (due_at_true _ _ _) Hd) as (t' & Ht' & Hle). rewrite Ht'. simpl.
        split; [done|]. intros [[= ->] ?]. lia.
      - rewrite due_at_true in Hd. split; [|tauto]. intros Ht. split; [done|].
        destruct (Z.lt_ge_cases now t); [done|]. destruct Hd. eauto. }
    apply (alarm_advance (alarms_of m)); [by apply NoDup_filter|].
    intros p. rewrite list_elem_of_filter, due_at_true. unfold alarms_of; simpl. setoid_rewrite armed_lookup.
    split; [by intros [? _]|]. intros (t & Ht & Hle). split; [by exists t|]. by eapply I3.
  - split; simpl.
    + by apply NoDup_filter.
    + intros p. rewrite <-I2, Hcell. case_decide; [|done]. by rewrite fmap_is_Some.
    + intros p t. rewrite Hcell, list_elem_of_filter. destruct (decide (due_at now (ck_cells m) p = true)) as [Hd|Hd].
      * by intros (t' & _ & ->)%fmap_Some.
      * intros Ht Hs. split; [done|]. by eapply I3.
    + intros p [_ Hp]%list_elem_of_filter. by apply I4.
Qed.

Lemma armed_is_Some (m : Mock) (p : nat) (t : mockTimer) :
  ck_cells m !! p = Some t → bool_decide (is_Some (armed m !! p)) = negb (tm_stopped t).
Proof.
  intros H. unfold armed. rewrite lookup_omap, H. simpl. by destruct (tm_stopped t).
Qed.

Lemma clock_step_refines (m m' : Mock) (o : clock_op) (r : clock_ret) :
  clock_inv m → clock_step m o = Some (r, m') →
  alarm_step (alarms_of m) o r (alarms_of m') ∧ clock_inv m'.
Proof.
  intros I H. destruct o as [d|d|p|p d]; simpl in H.
  - pose proof (Advance_refines m d I). destruct (Advance d m). by injection H as <- <-.
  - injection H as <- <-. destruct I as [I1 I2 I3 I4]. split.
    + unfold alarms_of at 2. erewrite (armed_set m _ (ck_next m) (mkTimer (ck_now m + d) false)) by reflexivity.
      apply (alarm_after (alarms_of m)).
    + split; simpl.
      * apply NoDup_app. split; [done|]. split; [|repeat constructor; by intros Hi%elem_of_nil].
        intros q Hq ->%list_elem_of_singleton. apply I4 in Hq. lia.
      * intros q. destruct (decide (q = ck_next m)) as [->|Hne]; [rewrite lookup_insert_eq; split; [lia|done]|].
        rewrite lookup_insert_ne, I2 by done. lia.
      * intros q t. rewrite elem_of_app, list_elem_of_singleton.
        destruct (decide (q = ck_next m)) as [->|Hne]; [by right|]. rewrite lookup_insert_ne by done. left. by eapply I3.
      * intros q [Hq| ->%list_elem_of_singleton]%elem_of_app; [|lia]. apply I4 in Hq. lia.
  - unfold Stop in H. destruct (ck_cells m !! p) as [t|] eqn:E; [|done].
    assert (p < ck_next m) as Hp by (apply (ci_cells m I); by exists t).
    pose proof (alarm_stop (alarms_of m) p Hp) as Hspec. unfold alarms_of in Hspec at 2; simpl in Hspec.
    rewrite (armed_is_Some m p t E) in Hspec. destruct (tm_stopped t) eqn:Es; injection H as <- <-.
    + split; [|done]. unfold alarms_of at 2. replace (armed m) with (delete p (armed m)); [done|].
      apply delete_id. unfold armed. rewrite lookup_omap, E. simpl. by rewrite Es.
    + split; [|by eapply (clock_inv_set m _ p (stop_cell t)); try done; [apply I|naive_solver]].
      unfold alarms_of at 2. by erewrite (armed_set m _ p (stop_cell t)) by reflexivity.
  - unfold timer_Reset in H. destruct (ck_cells m !! p) as [t|] eqn:E; [|done].
    assert (p < ck_next m) as Hp by (apply (ci_cells m I); by exists t).
    pose proof (alarm_reset (alarms_of m) p d Hp) as Hspec. unfold alarms_of in Hspec at 2; simpl in Hspec.
    rewrite (armed_is_Some m p t E) in Hspec. injection H as <- <-. simpl.
    case_bool_decide as Hin; (split;
      [unfold alarms_of at 2; by erewrite (armed_set m _ p (mkTimer (ck_now m + d) false)) by reflexivity|
       eapply (clock_inv_set m _ p (mkTimer (ck_now m + d) false)); try done; simpl]).
    + apply I.
    + naive_solver.
    + apply NoDup_app. split; [apply I|]. split; [|repeat constructor; by intros Hi%elem_of_nil].
      by intros q Hq ->%list_elem_of_singleton.
    + intros q. rewrite elem_of_app, list_elem_of_singleton. naive_solver.
    + intros _. apply elem_of_app. right. by left.
Qed.

(** ** Runs *)

Fixpoint clock_exec (m : Mock) (l : list clock_op) : option (list clock_ret * Mock) :=
  match l with
  | [] => Some ([], m)
  | o :: l =>
      match clock_step m o with
      | Some (r, m') => (λ x, (r :: x.1, x.2)) <$> clock_exec m' l
      | None => None
      end
  end.

Inductive alarm_run : Alarms → list clock_op → list clock_ret → Alarms → Prop :=
| alarm_nil a : alarm_run a [] [] a
| alarm_cons a o r a' l rs a'' : alarm_step a o r a' → alarm_run a' l rs a'' → alarm_run a (o :: l) (r :: rs) a''.

Lemma clock_exec_refines (l : list clock_op) (m m' : Mock) (rs : list clock_ret) :
  clock_inv m → clock_exec m l = Some (rs, m') → alarm_run (alarms_of m) l rs (alarms_of m').
Proof.
  revert m rs. induction l as [|o l IH]; simpl; intros m rs I H; [injection H as <- <-; constructor|].
  destruct (clock_step m o) as [[r m1]|] eqn:E; [|done]. destruct (clock_step_refines m m1 o r I E) as [Hs I1].
  destruct (clock_exec m1 l) as [[rs' m2]|] eqn:E2; [|done]. injection H as <- <-.
  econstructor; [done|]. by apply IH.
Qed.

(** The mock clock is a table of deadlines.  Every sequence of calls of
    [AfterFunc], [Stop], [Reset] and [Advance] on a new mock returns what the
    table returns: [Advance] runs the callback of exactly the timers that are
    armed and whose deadline has come, each once, and disarms them; [Stop] and
    [Reset] report whether the timer was armed; a stopped timer never fires and
    a reset one fires at its new deadline. *)
Theorem mock_refines_alarms (t : Time) (l : list clock_op) (rs : list clock_ret) (m : Mock) :
  clock_exec (NewMock t) l = Some (rs, m) →
  alarm_run (mkAlarms t ∅ 0) l rs (alarms_of m).
Proof. apply (clock_exec_refines l (NewMock t)), clock_inv_init. Qed.

Lemma mock_refines_alarms_witness :
  ∃ rs m, clock_exec (NewMock 0) [CAfterFunc 5; CAfterFunc 3; CStop 1; CReset 0 9; CAdvance 8; CReset 1 0; CAdvance 1]
            = Some (rs, m) ∧
          rs = [RTimer 0; RTimer 1; RBool true; RBool true; RFired []; RBool false; RFired [0; 1]] ∧
          alarm_run (mkAlarms 0 ∅ 0)
            [CAfterFunc 5; CAfterFunc 3; CStop 1; CReset 0 9; CAdvance 8; CReset 1 0; CAdvance 1] rs (alarms_of m).
Proof.
  eexists _, _. split; [vm_compute; reflexivity|]. split; [reflexivity|].
  apply mock_refines_alarms. vm_compute. reflexivity.
Defined.
