(* ===== verification/Auth.v ===== *)
(** * Authentication

    Models auth/auth.go: the verifier that accepts a fixed set of tokens, with
    the constant-time comparison of crypto/subtle it is built on.  The
    interface [Verifier] is the field [o_Verifier] of the server's options. *)

From S2P Require Import Prelude GoStrings Errors Features Lease Messages Agents ServerState Session.
From Stdlib Require Import ZArith Ascii.

(** ** crypto/subtle *)

Definition wrap_u32 (z : Z) : Z := (z mod 2 ^ 32)%Z.

(** [ConstantTimeByteEq]: 1 for equal bytes and 0 otherwise, without a branch:
    the sign bit of the 32-bit difference of their exclusive or and one. *)
Definition ConstantTimeByteEq (x y : Z) : Z := Z.shiftr (wrap_u32 (Z.lxor x y - 1)) 31.

(** The loop of [ConstantTimeCompare]: the bits in which the strings differ. *)
Fixpoint diff_bits (x y : string) (v : Z) : Z :=
  match x, y with
  | String a x, String b y => diff_bits x y (Z.lor v (Z.lxor (byte_of a) (byte_of b)))
  | _, _ => v
  end.

Definition ConstantTimeCompare (x y : string) : Z :=
  if negb (len x =? len y)%nat then 0%Z else ConstantTimeByteEq (diff_bits x y 0) 0.

(** ** The static verifier *)

Definition ErrInvalidToken : error := ENew "auth: invalid token".

Section bearer.
Context `{MapOrder}.

(** The entries, in the order in which the map was iterated. *)
Definition bearer_entries (n : nat) (tokens : gmap string string) : list (string * string) :=
  omap (λ k, (λ v, (k, v)) <$> tokens !! k) (order_keys n (map_to_list tokens).*1).

(** The loop over every entry, with the principal of the last match. *)
Definition bearer_loop (entries : list (string * string)) (token : string) : string * Z :=
  foldl (λ acc e, if (ConstantTimeCompare token e.1 =? 1)%Z then (e.2, 1%Z) else acc) ("", 0%Z) entries.

Definition StaticBearer (n : nat) (tokens : gmap string string) (token : string) : res string :=
  let '(principal, matched) := bearer_loop (bearer_entries n tokens) token in
  if (matched =? 1)%Z then Ok principal
  else Err (EArcp (WithCause ErrUnauthenticated ErrInvalidToken)).

(** ** Comparison *)

Lemma bearer_byte_range (a : ascii) : (0 <= byte_of a < 2 ^ 8)%Z.
Proof. unfold byte_of. pose proof (N_ascii_bounded a). lia. Qed.

Lemma byte_of_inj (a b : ascii) : byte_of a = byte_of b → a = b.
Proof.
  unfold byte_of. intros Hab%N2Z.inj. rewrite <-(ascii_N_embedding a), <-(ascii_N_embedding b). by rewrite Hab.
Qed.

Definition is_byte (v : Z) : Prop := (0 <= v < 2 ^ 8)%Z.

(** Bytes are closed under the bit operations. *)
Lemma is_byte_bits (f : Z → Z → Z) (g : bool → bool → bool) (x y : Z) :
  (∀ i, Z.testbit (f x y) i = g (Z.testbit x i) (Z.testbit y i)) → g false false = false →
  (0 <= f x y)%Z → is_byte x → is_byte y → is_byte (f x y).
Proof.
  intros Hf Hg Hnn [Hx0 Hx] [Hy0 Hy]. apply Z.bounded_iff_bits_nonneg'; [lia|done|].
  intros l Hl. rewrite Hf, (proj1 (Z.bounded_iff_bits_nonneg 8 x ltac:(lia) Hx0) Hx l Hl).
  by rewrite (proj1 (Z.bounded_iff_bits_nonneg 8 y ltac:(lia) Hy0) Hy l Hl).
Qed.

Lemma is_byte_lor (x y : Z) : is_byte x → is_byte y → is_byte (Z.lor x y).
Proof.
  intros Hx Hy. apply (is_byte_bits Z.lor orb); try done; [intros i; apply Z.lor_spec|].
  apply Z.lor_nonneg. split; [apply Hx|apply Hy].
Qed.

Lemma is_byte_lxor (x y : Z) : is_byte x → is_byte y → is_byte (Z.lxor x y).
Proof.
  intros Hx Hy. apply (is_byte_bits Z.lxor xorb); try done; [intros i; apply Z.lxor_spec|].
  apply Z.lxor_nonneg. split; intros _; [apply Hy|apply Hx].
Qed.

Lemma diff_bits_spec (x y : string) (v : Z) :
  len x = len y → is_byte v → is_byte (diff_bits x y v) ∧ (diff_bits x y v = 0%Z ↔ v = 0%Z ∧ x = y).
Proof.
  revert y v. induction x as [|a x IH]; intros [|b y] v Hl Hv; try done; [simpl; tauto|].
  injection Hl as Hl. simpl.
  destruct (IH y (Z.lor v (Z.lxor (byte_of a) (byte_of b))) Hl) as [H1 H2].
  { apply is_byte_lor; [done|]. apply is_byte_lxor; apply bearer_byte_range. }
  split; [done|]. rewrite H2, Z.lor_eq_0_iff, Z.lxor_eq_0_iff. split.
  - intros [[-> Hab%byte_of_inj] ->]. by subst.
  - intros [-> [= -> ->]]. done.
Qed.

Lemma ConstantTimeByteEq_zero (v : Z) : is_byte v → ConstantTimeByteEq v 0 = if decide (v = 0%Z) then 1%Z else 0%Z.
Proof.
  intros Hv. unfold ConstantTimeByteEq, wrap_u32, is_byte in *. rewrite Z.lxor_0_r. case_decide as Hz; [by subst|].
  rewrite Z.mod_small by lia. rewrite Z.shiftr_div_pow2 by lia. apply Z.div_small. lia.
Qed.

(** The branch-free comparison decides equality. *)
Lemma ConstantTimeCompare_spec (x y : string) :
  (ConstantTimeCompare x y =? 1)%Z = bool_decide (x = y).
Proof.
  unfold ConstantTimeCompare. destruct (Nat.eqb_spec (len x) (len y)) as [Hl|Hl]; cbn [negb].
  - destruct (diff_bits_spec x y 0 Hl) as [H1 H2]; [done|].
    rewrite ConstantTimeByteEq_zero by done. case_decide as Hz; symmetry.
    + apply bool_decide_eq_true_2. tauto.
    + apply bool_decide_eq_false_2. tauto.
  - symmetry. apply bool_decide_eq_false_2. by intros ->.
Qed.

(** ** The verifier *)

Lemma elem_of_bearer_entries (n : nat) (tokens : gmap string string) (k v : string) :
  (k, v) ∈ bearer_entries n tokens ↔ tokens !! k = Some v.
Proof.
  unfold bearer_entries. rewrite list_elem_of_omap. split.
  - intros (k' & _ & (v' & Hv & [= -> ->])%fmap_Some). done.
  - intros Hk. exists k. split; [|by rewrite Hk]. rewrite order_keys_perm.
    apply list_elem_of_fmap. exists (k, v). split; [done|]. by apply elem_of_map_to_list.
Qed.

(** With one principal per token, the last match is the match. *)
Lemma bearer_loop_spec (l : list (string * string)) (token : string) :
  (∀ k v v', (k, v) ∈ l → (k, v') ∈ l → v = v') →
  (∀ v, (token, v) ∈ l → bearer_loop l token = (v, 1%Z)) ∧
  ((∀ v, (token, v) ∉ l) → bearer_loop l token = ("", 0%Z)).
Proof.
  unfold bearer_loop. induction l as [|[k v] l IH] using rev_ind; intros Huniq.
  { split; [|done]. by intros v Hv%elem_of_nil. }
  destruct IH as [IH1 IH2]; [intros k' v1 v2 H1 H2; apply (Huniq k'); apply elem_of_app; by left|].
  rewrite foldl_app. simpl. rewrite ConstantTimeCompare_spec. case_bool_decide as Hk.
  - subst k. split; [|intros Hno; destruct (Hno v); apply elem_of_app; right; by left].
    intros v' Hv'. f_equal. apply (Huniq token); [apply elem_of_app; right; by left|done].
  - split.
    + intros v' [Hv'|Hv'%list_elem_of_singleton]%elem_of_app; [by apply IH1|by injection Hv' as ->].
    + intros Hno. apply IH2. intros v' Hv'. destruct (Hno v'). apply elem_of_app. by left.
Qed.

(** [StaticBearer] accepts exactly the configured tokens.  Whatever the
    iteration order of the map, a token is accepted for the principal it is
    mapped to, and the server authenticates a hello with it; any other token,
    a prefix or the empty one included, is refused with an error that is both
    [ErrUnauthenticated] and [ErrInvalidToken]. *)
Theorem StaticBearer_exact (n : nat) (tokens : gmap string string) (token : string) :
  match tokens !! token with
  | Some p => StaticBearer n tokens token = Ok p
  | None => ∃ e, StaticBearer n tokens token = Err e ∧ Code (Some e) = CodeUnauthenticated ∧
                 errors_Is e (EArcp ErrUnauthenticated) = true ∧ errors_Is e ErrInvalidToken = true
  end ∧
  ∀ o m hello, o_Verifier o = Some (λ _, StaticBearer n tokens) → sh_AuthToken hello = token →
    ∀ p, authenticate o m hello = Ok p ↔ tokens !! token = Some p.
Proof.
  assert (match tokens !! token with
    | Some p => StaticBearer n tokens token = Ok p
    | None => StaticBearer n tokens token = Err (EArcp (WithCause ErrUnauthenticated ErrInvalidToken)) end) as Hspec.
  { unfold StaticBearer. destruct (bearer_loop_spec (bearer_entries n tokens) token) as [H1 H2].
    { intros k v v' Hv Hv'. rewrite elem_of_bearer_entries in Hv, Hv'. congruence. }
    destruct (tokens !! token) as [p|] eqn:E.
    - rewrite (H1 p); [done|]. by apply elem_of_bearer_entries.
    - rewrite H2; [done|]. intros v. rewrite elem_of_bearer_entries. by rewrite E. }
  split; [destruct (tokens !! token); [done|]; by eexists|].
  intros o m hello Ho <- p. unfold authenticate. rewrite Ho.
  destruct (tokens !! sh_AuthToken hello); rewrite Hspec; split; by intros [= ->].
Qed.

End bearer.

Definition two_tokens : gmap string string := {[ "tok-alice" := "alice"; "tok-bob" := "bob" ]}.

Definition bearer_options : Options :=
  mkOptions "" "" 0 0 (Some (λ _, StaticBearer 0 two_tokens)) None None 0 [] None 0 0 0 0.

Definition hello_with (token : string) : SessionHello := mkHello "c" "1" "bearer" token (mkHelloCaps [] []) None.

Lemma StaticBearer_exact_witness :
  (∀ p, authenticate bearer_options 0 (hello_with "tok-bob") = Ok p ↔ two_tokens !! "tok-bob" = Some p) ∧
  (∀ p, authenticate bearer_options 0 (hello_with "tok-bo") = Ok p ↔ two_tokens !! "tok-bo" = Some p) ∧
  two_tokens !! "tok-bob" = Some "bob" ∧ two_tokens !! "tok-bo" = None.
Proof.
  split; [|split; [|split; reflexivity]].
  - exact (proj2 (StaticBearer_exact 0 two_tokens "tok-bob") bearer_options 0 (hello_with "tok-bob") eq_refl eq_refl).
  - exact (proj2 (StaticBearer_exact 0 two_tokens "tok-bo") bearer_options 0 (hello_with "tok-bo") eq_refl eq_refl).
Defined.
