(* ===== verification/Credentials.v ===== *)
(** * The in-memory credential provisioner

    Models credentials/memory.go: the deterministic provisioner that issues one
    bearer credential per request, scoped to the request's budget, models and
    expiry, and records issues and revocations.  [strconv.FormatFloat] with
    precision -1 is a parameter; what is used of it is that the text reads back
    as the number.  Values are immutable here, so the copies the code makes of
    requests and times are the values themselves. *)

From S2P Require Import Prelude GoStrings Errors Features Float64 Lease Messages Agents ServerState Decimal.
From Stdlib Require Import ZArith Ascii.

Section memory.
Variable FormatFloat : f64 → string.

Record Memory := mkMemory {
  mm_prefix : string;
  mm_next : Z;
  mm_outstanding : gmap string Credential;
  mm_issued : list IssueRequest;
  mm_revoked : list string;
  mm_revokedValues : list string
}.

#[export] Instance eta_Memory : Eta Memory := λ m,
  mkMemory (mm_prefix m) (mm_next m) (mm_outstanding m) (mm_issued m) (mm_revoked m) (mm_revokedValues m).

Definition NewMemory (prefix : string) : Memory := mkMemory prefix 0 ∅ [] [] [].

(** [BudgetAmount.String] (lease.go). *)
Definition BudgetAmount_String (b : BudgetAmount) : string := ba_Currency b +:+ ":" +:+ FormatFloat (ba_Value b).

(** [budgetPatterns]: one pattern per currency, in the order of the names. *)
Definition budgetPatterns (budget : gmap Currency f64) : list string :=
  omap (λ cur, (λ v, cur +:+ ":" +:+ FormatFloat v) <$> budget !! cur)
       (merge_sort str_le (map_to_list budget).*1).

Definition mem_cloneTime (t : option Time) : option Time :=
  match t with None => None | Some t => Some t end.

Definition cloneIssueRequest (req : IssueRequest) : IssueRequest :=
  mkIssue (ir_JobID req) (ir_Principal req) (ir_Agent req) (Clone (ir_Lease req))
    ((λ v : f64, v) <$> ir_Budget req) (mem_cloneTime (ir_ExpiresAt req)) (ir_ParentJobID req).

(** The credential with the given id for a request. *)
Definition memory_credential (id : string) (req : IssueRequest) : Credential :=
  mkCredential id "bearer" ("memory-secret-" +:+ id) ("memory://credentials/" +:+ id) ""
    (Some (mkCredConstraints (budgetPatterns (ir_Budget req))
             (default [] (ir_Lease req !! CapModelUse)) (mem_cloneTime (ir_ExpiresAt req)))).

Definition Issue (req : IssueRequest) (m : Memory) : res (list Credential) * Memory :=
  let next := wrap_i64 (mm_next m + 1) in
  let id := mm_prefix m +:+ Itoa next in
  let cred := memory_credential id req in
  (Ok [cred], m <| mm_next := next |> <| mm_outstanding := <[id := cred]> (mm_outstanding m) |>
                <| mm_issued := mm_issued m ++ [cloneIssueRequest req] |>).

Definition Revoke (credentialID : string) (m : Memory) : option error * Memory :=
  (None, m <| mm_outstanding := delete credentialID (mm_outstanding m) |>
           <| mm_revoked := mm_revoked m ++ [credentialID] |>).

Definition RevokePriorValue (credentialID priorValue : string) (m : Memory) : option error * Memory :=
  (None, m <| mm_revokedValues := mm_revokedValues m ++ [priorValue] |>).

Definition RevokedValues (m : Memory) : list string := mm_revokedValues m.
Definition Outstanding (m : Memory) : nat := size (mm_outstanding m).
Definition Issued (m : Memory) : list IssueRequest := cloneIssueRequest <$> mm_issued m.
Definition Revoked (m : Memory) : list string := mm_revoked m.

(** ** Sequences of calls *)

Inductive memory_call :=
| PIssue (req : IssueRequest)
| PRevoke (id : string)
| PRevokePrior (id priorValue : string).

Definition memory_do (m : Memory) (c : memory_call) : Memory :=
  match c with
  | PIssue req => (Issue req m).2
  | PRevoke id => (Revoke id m).2
  | PRevokePrior id v => (RevokePriorValue id v m).2
  end.

Definition memory_calls (prefix : string) (l : list memory_call) : Memory := foldl memory_do (NewMemory prefix) l.

Definition issues (l : list memory_call) : list IssueRequest :=
  omap (λ c, match c with PIssue req => Some req | _ => None end) l.
Definition revokes (l : list memory_call) : list string :=
  omap (λ c, match c with PRevoke id => Some id | _ => None end) l.

Lemma issues_app (l1 l2 : list memory_call) : issues (l1 ++ l2) = issues l1 ++ issues l2.
Proof. apply omap_app. Qed.
Lemma revokes_app (l1 l2 : list memory_call) : revokes (l1 ++ l2) = revokes l1 ++ revokes l2.
Proof. apply omap_app. Qed.

(** The id of the [k]-th credential. *)
Definition credential_id (prefix : string) (k : nat) : string := prefix +:+ Itoa (Z.of_nat k).

Lemma Itoa_inj (x y : Z) : in_i64 x → in_i64 y → Itoa x = Itoa y → x = y.
Proof.
  intros Hx Hy H. destruct (ParseInt_FormatInt x Hx) as [Px _]. destruct (ParseInt_FormatInt y Hy) as [Py _].
  unfold Itoa in H. rewrite H in Px. congruence.
Qed.

Lemma credential_id_inj (prefix : string) (j k : nat) :
  (Z.of_nat j < 2 ^ 63)%Z → (Z.of_nat k < 2 ^ 63)%Z → credential_id prefix j = credential_id prefix k → j = k.
Proof.
  intros Hj Hk H%sapp_inj_l. apply Nat2Z.inj, Itoa_inj; [split; lia..|done].
Qed.

(** The counter counts the issues. *)
Lemma memory_next (prefix : string) (l : list memory_call) :
  (Z.of_nat (length (issues l)) < 2 ^ 63)%Z →
  mm_next (memory_calls prefix l) = Z.of_nat (length (issues l)) ∧ mm_prefix (memory_calls prefix l) = prefix ∧
  mm_issued (memory_calls prefix l) = cloneIssueRequest <$> issues l ∧
  mm_revoked (memory_calls prefix l) = revokes l.
Proof.
  unfold memory_calls, issues, revokes. induction l as [|c l IH] using rev_ind; [done|].
  rewrite foldl_app, !omap_app, length_app. intros Hl. destruct IH as (I1 & I2 & I3 & I4); [lia|].
  destruct c as [req|id|id v]; simpl in *; rewrite ?app_nil_r, ?Nat.add_0_r; [|by rewrite I4|done].
  split_and!; try done; [|by rewrite I3, fmap_app].
  rewrite I1, wrap_i64_small by (split; lia). lia.
Qed.

Lemma memory_do_other (m : Memory) (c : memory_call) (id : string) :
  (∀ req, c = PIssue req → mm_prefix m +:+ Itoa (wrap_i64 (mm_next m + 1)) ≠ id) → c ≠ PRevoke id →
  mm_outstanding (memory_do m c) !! id = mm_outstanding m !! id.
Proof.
  intros H1 H2. destruct c as [req|id'|id' v]; simpl; [|rewrite lookup_delete_ne; congruence|done].
  rewrite lookup_insert_ne; [done|]. by apply (H1 req).
Qed.

Lemma memory_calls_snoc (prefix : string) (l : list memory_call) (c : memory_call) :
  memory_calls prefix (l ++ [c]) = memory_do (memory_calls prefix l) c.
Proof. unfold memory_calls. by rewrite foldl_app. Qed.

(** Calls after the [k]-th issue change the entry of its id only by revoking
    it. *)
Lemma memory_later (prefix : string) (l l2 : list memory_call) (id : string) (k : nat) :
  (Z.of_nat (length (issues (l ++ l2))) < 2 ^ 63)%Z → k ≤ length (issues l) → id = credential_id prefix k →
  mm_outstanding (memory_calls prefix (l ++ l2)) !! id =
    if decide (id ∈ revokes l2) then None else mm_outstanding (memory_calls prefix l) !! id.
Proof.
  intros Hn Hk Hid. induction l2 as [|c l2 IH] using rev_ind.
  { rewrite app_nil_r, decide_False; [done|]. by intros H%elem_of_nil. }
  rewrite app_assoc, issues_app, length_app in Hn. rewrite app_assoc, memory_calls_snoc, revokes_app.
  specialize (IH ltac:(lia)). destruct (memory_next prefix (l ++ l2)) as (M1 & M2 & _); [lia|].
  assert (c = PRevoke id ∨ c ≠ PRevoke id) as [->|Hc]
    by (destruct c as [|id'|]; try (by right); destruct (decide (id' = id)) as [->|]; [by left|right; congruence]).
  { simpl. rewrite lookup_delete_eq, decide_True; [done|]. apply elem_of_app. right. by left. }
  rewrite memory_do_other; [|intros req' ->|done].
  - rewrite IH. destruct (decide (id ∈ revokes l2)) as [Hi|Hi].
    + rewrite decide_True; [done|]. apply elem_of_app. by left.
    + rewrite decide_False; [done|]. intros [?|Hi']%elem_of_app; [done|].
      destruct c as [|id'|]; simpl in Hi'; try by apply elem_of_nil in Hi'.
      apply list_elem_of_singleton in Hi'. by subst.
  - simpl in Hn. rewrite M1, M2, wrap_i64_small by (split; lia). intros Heq. rewrite Hid in Heq.
    assert (S (length (issues (l ++ l2))) = k); [|rewrite issues_app, length_app in *; lia].
    apply (credential_id_inj prefix); [lia| |].
    { rewrite issues_app, length_app in Hn. lia. }
    rewrite <-Heq. unfold credential_id. do 2 f_equal. lia.
Qed.

(** ** Budget patterns *)

Lemma letters_no_colon (f : ascii → bool) (s : string) :
  f ":"%char = false → sforallb f s = true → ∀ t, Index (s +:+ String ":" t) ":" = Some (len s).
Proof.
  intros Hf. induction s as [|c s IH]; intros Hs t; [done|].
  cbn in Hs. apply andb_true_iff in Hs as [Hc Hs]. rewrite sapp_cons. cbn [Index HasPrefix].
  rewrite bool_decide_eq_false_2 by (intros <-; by rewrite Hf in Hc). cbn [andb].
  by rewrite (IH Hs t).
Qed.

Lemma currency_loop_letters (rest whole : string) :
  currency_loop rest whole = true →
  sforallb is_upper rest = true ∨ sforallb is_upper whole = true ∨ sforallb is_lower whole = true.
Proof.
  induction rest as [|c rest IH]; simpl; [by left|]. destruct (is_upper c).
  - intros [H|H]%IH; [by left|by right].
  - unfold allUppercaseLetters, allLowercaseLetters. intros [[H _]%andb_true_iff|[H _]%andb_true_iff]%orb_true_iff; auto.
Qed.

Lemma isCurrency_Index (cur t : string) :
  isCurrency cur = true → Index (cur +:+ ":" +:+ t) ":" = Some (len cur) ∧ len cur ≠ 0.
Proof.
  unfold isCurrency. case_bool_decide as Hc; [intros _; by subst|].
  destruct (Nat.ltb_spec (len cur) 1) as [|Hlen]; [done|]. intros H. split; [|lia].
  change (":" +:+ t) with (String ":" t).
  destruct (currency_loop_letters cur cur H) as [Hs|[Hs|Hs]];
    [apply (letters_no_colon is_upper)|apply (letters_no_colon is_upper)|apply (letters_no_colon is_lower)]; done.
Qed.

(** The text of an amount reads back as the amount. *)
Lemma ParseBudgetAmount_pattern (cur : Currency) (v : f64) :
  isCurrency cur = true → ParseFloat (FormatFloat v) = Ok v → flt v fzero = false →
  ParseBudgetAmount (cur +:+ ":" +:+ FormatFloat v) = Ok (mkBudget cur v).
Proof.
  intros Hc Hp Hv. unfold ParseBudgetAmount. destruct (isCurrency_Index cur (FormatFloat v) Hc) as [-> Hl].
  assert (FormatFloat v ≠ EmptyString) as Hne by (intros E; by rewrite E in Hp).
  destruct (Nat.eqb_spec (len cur) 0); [done|]. cbn [orb].
  assert (len (cur +:+ ":" +:+ FormatFloat v) = len cur + S (len (FormatFloat v))) as Hlen by (by rewrite !len_app).
  rewrite Hlen. destruct (Nat.eqb_spec (len cur) (len cur + S (len (FormatFloat v)) - 1)) as [Heq|_].
  { destruct Hne. apply len_zero_inv. lia. }
  rewrite stake_app, <-sdrop_sdrop, sdrop_app, Hc.
  change (sdrop 1 (":" +:+ FormatFloat v)) with (FormatFloat v). cbn [negb]. by rewrite Hp, Hv.
Qed.

Lemma BudgetAmount_String_parse (b : BudgetAmount) :
  isCurrency (ba_Currency b) = true → ParseFloat (FormatFloat (ba_Value b)) = Ok (ba_Value b) →
  flt (ba_Value b) fzero = false → ParseBudgetAmount (BudgetAmount_String b) = Ok b.
Proof. destruct b. apply ParseBudgetAmount_pattern. Qed.

Lemma elem_of_budgetPatterns (budget : gmap Currency f64) (s : string) :
  s ∈ budgetPatterns budget ↔ ∃ cur v, budget !! cur = Some v ∧ s = cur +:+ ":" +:+ FormatFloat v.
Proof.
  unfold budgetPatterns. rewrite list_elem_of_omap. split.
  - intros (cur & _ & (v & Hv & ->)%fmap_Some). eauto.
  - intros (cur & v & Hv & ->). exists cur. rewrite merge_sort_Permutation. split; [|by rewrite Hv].
    apply list_elem_of_fmap. exists (cur, v). split; [done|]. by apply elem_of_map_to_list.
Qed.

(** The amounts a budget can hold: those [NewState] reads from a lease. *)
Definition budget_ok (budget : gmap Currency f64) : Prop :=
  ∀ cur v, budget !! cur = Some v →
    isCurrency cur = true ∧ flt v fzero = false ∧ ParseFloat (FormatFloat v) = Ok v.

(** ** Claims *)

(** An issued credential stays outstanding until it is revoked.  In any
    sequence of calls with fewer than 2^63 issues, the credential of each issue
    is the one stored under its id, scoped to that request, unless a revocation
    of that id came later: no later issue reuses the id, and revoking prior
    values (a rotation) or other ids, in any number, does not touch it. *)
Theorem memory_outstanding (prefix : string) (l1 l2 : list memory_call) (req : IssueRequest) (id : string) :
  (Z.of_nat (length (issues (l1 ++ PIssue req :: l2))) < 2 ^ 63)%Z →
  id = credential_id prefix (S (length (issues l1))) →
  (Issue req (memory_calls prefix l1)).1 = Ok [memory_credential id req] ∧
  mm_outstanding (memory_calls prefix (l1 ++ PIssue req :: l2)) !! id =
    if decide (id ∈ revokes l2) then None else Some (memory_credential id req).
Proof.
  intros Hn Hid. assert (Hn1 : (Z.of_nat (S (length (issues l1))) < 2 ^ 63)%Z)
    by (rewrite issues_app, length_app in Hn; simpl in Hn; lia).
  destruct (memory_next prefix l1) as (N1 & N2 & _); [lia|].
  assert (mm_prefix (memory_calls prefix l1) +:+ Itoa (wrap_i64 (mm_next (memory_calls prefix l1) + 1)) = id) as Hid1.
  { rewrite N1, N2, wrap_i64_small, Hid by (split; lia). unfold credential_id. do 2 f_equal. lia. }
  split; [unfold Issue; simpl; by rewrite Hid1|].
  rewrite (cons_middle (PIssue req) l1 l2), app_assoc, (memory_later prefix _ l2 id (S (length (issues l1)))).
  - rewrite memory_calls_snoc. simpl. by rewrite Hid1, lookup_insert_eq.
  - by rewrite <-app_assoc.
  - rewrite issues_app, length_app. simpl. lia.
  - done.
Qed.

(** The scope of an issued credential is the scope of the request: its
    budget patterns read back, by the parser of leases, as exactly the request's
    budget, its models are the lease's model patterns and its expiry is the
    request's. *)
Theorem memory_credential_scope (id : string) (req : IssueRequest) :
  budget_ok (ir_Budget req) →
  ∃ cc, cr_Constraints (memory_credential id req) = Some cc ∧
    cc_ModelUse cc = default [] (ir_Lease req !! CapModelUse) ∧ cc_ExpiresAt cc = ir_ExpiresAt req ∧
    (∀ s, s ∈ cc_CostBudget cc → is_ok (ParseBudgetAmount s) = true) ∧
    ∀ cur v, ir_Budget req !! cur = Some v ↔
             ∃ s, s ∈ cc_CostBudget cc ∧ ParseBudgetAmount s = Ok (mkBudget cur v).
Proof.
  intros Hb. eexists. split; [done|]. simpl. split; [done|]. split; [by destruct (ir_ExpiresAt req)|]. split.
  - intros s (cur & v & Hv & ->)%elem_of_budgetPatterns. destruct (Hb cur v Hv) as (H1 & H2 & H3).
    by rewrite ParseBudgetAmount_pattern.
  - intros cur v. split.
    + intros Hv. destruct (Hb cur v Hv) as (H1 & H2 & H3). exists (cur +:+ ":" +:+ FormatFloat v).
      split; [apply elem_of_budgetPatterns; eauto|]. by apply ParseBudgetAmount_pattern.
    + intros (s & (cur' & v' & Hv & ->)%elem_of_budgetPatterns & Hp). destruct (Hb cur' v' Hv) as (H1 & H2 & H3).
      rewrite ParseBudgetAmount_pattern in Hp by done. by injection Hp as <- <-.
Qed.

End memory.

(** ** A concrete provisioner *)

Definition five_budget : gmap Currency f64 := {[ "EUR" := f_of_Z 5; "USD" := fdiv (f_of_Z 5) (f_of_Z 4) ]}.
Definition small_format (v : f64) : string := if flt (f_of_Z 2) v then "5" else "1.25".
Definition small_request : IssueRequest :=
  mkIssue "job_1" "alice" "agent" {[ CapModelUse := ["gpt-*"] ]} five_budget (Some 7%Z) "".

Lemma memory_outstanding_witness :
  mm_outstanding (memory_calls small_format "cred-"
    [PIssue small_request; PIssue small_request; PRevoke "cred-1"; PRevokePrior "cred-2" "old"; PIssue small_request])
    !! "cred-2" = Some (memory_credential small_format "cred-2" small_request) ∧
  mm_outstanding (memory_calls small_format "cred-"
    [PIssue small_request; PIssue small_request; PRevoke "cred-1"; PRevokePrior "cred-2" "old"; PIssue small_request])
    !! "cred-1" = None.
Proof.
  split.
  - apply (memory_outstanding small_format "cred-" [PIssue small_request]
      [PRevoke "cred-1"; PRevokePrior "cred-2" "old"; PIssue small_request] small_request "cred-2"); reflexivity.
  - apply (memory_outstanding small_format "cred-" []
      [PIssue small_request; PRevoke "cred-1"; PRevokePrior "cred-2" "old"; PIssue small_request] small_request "cred-1");
      reflexivity.
Defined.

Lemma memory_credential_scope_witness :
  budgetPatterns small_format five_budget = ["EUR:5"; "USD:1.25"] ∧
  ∃ cc, cr_Constraints (memory_credential small_format "cred-1" small_request) = Some cc ∧
    cc_ModelUse cc = ["gpt-*"] ∧ cc_ExpiresAt cc = Some 7%Z ∧
    (∀ s, s ∈ cc_CostBudget cc → is_ok (ParseBudgetAmount s) = true) ∧
    ∀ cur v, five_budget !! cur = Some v ↔
             ∃ s, s ∈ cc_CostBudget cc ∧ ParseBudgetAmount s = Ok (mkBudget cur v).
Proof.
  split; [vm_compute; reflexivity|].
  apply (memory_credential_scope small_format "cred-1" small_request).
  intros cur v H. change (five_budget !! cur = Some v) in H. unfold five_budget in H.
  apply lookup_insert_Some in H as [[<- <-]|[_ [<- <-]%lookup_singleton_Some]];
    (split; [|split]; vm_compute; reflexivity).
Defined.
