(* ===== verification/NetHTTP.v ===== *)
(** * The HTTP handler

    Models middleware/nethttp/handler.go and middleware/chi/chi.go: the options and their defaults, the
    host check with [net.SplitHostPort] and [strings.Trim], the guards of
    [ServeHTTP], and the life of a [Handler]: registration and removal of
    connections and [Shutdown].

    Requests and calls of [Shutdown] interleave at the steps of [handler_op]:
    the guards, the upgrade with its registration, the two parts of [removeConn]
    (under the mutex, and the close of the old channel after it), and the
    parts of [Shutdown] between its accesses to shared state.  Channels are
    numbers; [hd_closedChans] are the closed ones, [hd_goingAway] the requests
    whose connection [Shutdown] closed, [hd_wrapped] records that the 64-bit
    counter overflowed, [hd_panic] that a closed channel was closed.  The upgrade of the
    WebSocket library and the session that the server runs on the connection
    are steps whose outcome the environment decides. *)

From S2P Require Import Prelude GoStrings Errors Features Lease Messages Transport.
From Stdlib Require Import ZArith Ascii.

(** ** Options *)

Record HandlerOptions := mkHandlerOptions {
  ho_Path : string;
  ho_AllowedHosts : list string;
  ho_ReadLimit : Z;
  ho_PingInterval : Duration
}.

#[export] Instance eta_HandlerOptions : Eta HandlerOptions := λ o,
  mkHandlerOptions (ho_Path o) (ho_AllowedHosts o) (ho_ReadLimit o) (ho_PingInterval o).

Definition handler_withDefaults (o : HandlerOptions) : HandlerOptions :=
  let o := if bool_decide (ho_Path o = "") then o <| ho_Path := "/arcp" |> else o in
  let o := if (length (ho_AllowedHosts o) =? 0)%nat
           then o <| ho_AllowedHosts := ["localhost"; "127.0.0.1"; "::1"] |> else o in
  if (ho_ReadLimit o =? 0)%Z then o <| ho_ReadLimit := (2 ^ 20)%Z |> else o.

(** ** The host check *)

(** [strings.LastIndexByte]. *)
Fixpoint LastIndexByte (s : string) (c : ascii) : option nat :=
  match s with
  | EmptyString => None
  | String a s =>
      match LastIndexByte s c with
      | Some i => Some (S i)
      | None => if bool_decide (a = c) then Some 0 else None
      end
  end.

Definition has_byte (s : string) (c : ascii) : bool := bool_decide (is_Some (IndexByte s c)).

(** [net.SplitHostPort], [None] for an error. *)
Definition SplitHostPort (hostport : string) : option (string * string) :=
  match LastIndexByte hostport ":" with
  | None => None
  | Some i =>
      let finish host j k :=
        if has_byte (sdrop j hostport) "[" then None
        else if has_byte (sdrop k hostport) "]" then None
        else Some (host, sdrop (i + 1) hostport) in
      match hostport with
      | String "[" _ =>
          match IndexByte hostport "]" with
          | None => None
          | Some e => if (e + 1 =? len hostport)%nat then None
                      else if (e + 1 =? i)%nat then finish (stake (e - 1) (sdrop 1 hostport)) 1 (e + 1)
                      else None
          end
      | _ => let host := stake i hostport in
             if has_byte host ":" then None else finish host 0 0
      end
  end.

Definition brackets : list ascii := ["["%char; "]"%char].

Definition hostAllowed (hostHeader : string) (allowed : list string) : bool :=
  let host := match SplitHostPort hostHeader with Some (h, _) => h | None => hostHeader end in
  let host := Trim host brackets in
  existsb (λ a, bool_decide (Trim a brackets = host)) allowed.

(** ** The guards of [ServeHTTP] *)

Record http_request := mkRequest { rq_Method : string; rq_Path : string; rq_Host : string }.

Definition StatusMethodNotAllowed : Z := 405.
Definition StatusServiceUnavailable : Z := 503.
Definition StatusNotFound : Z := 404.
Definition StatusMisdirectedRequest : Z := 421.

(** The status a request is refused with, or [None] when it goes on to the
    upgrade. *)
Definition serve_guards (o : HandlerOptions) (closing : bool) (r : http_request) : option Z :=
  if negb (bool_decide (rq_Method r = "GET")) then Some StatusMethodNotAllowed
  else if closing then Some StatusServiceUnavailable
  else if negb (bool_decide (ho_Path o = "")) && negb (bool_decide (rq_Path r = ho_Path o)) then Some StatusNotFound
  else if negb (hostAllowed (rq_Host r) (ho_AllowedHosts o)) then Some StatusMisdirectedRequest
  else None.

(** ** The handler *)

(** A request: in [websocket.Accept]; serving the connection with the given id;
    past the mutex of [removeConn], about to close the old channel; done. *)
Inductive request_pc :=
| ReqUpgrading
| ReqServing (id : Z)
| ReqSignalling (ch : nat)
| ReqDone (status : option Z).

(** A call of [Shutdown]: [closing] is set; closing the connections it has
    listed; at the head of its loop; waiting on a channel; returned. *)
Inductive shutdown_pc :=
| ShStarted
| ShClosing (conns : list nat)
| ShLoop
| ShWaiting (ch : nat)
| ShReturned (err : option error).

(** [hd_active] maps the id of a connection to the request that serves it. *)
Record Handler := mkHandler {
  hd_opts : HandlerOptions;
  hd_active : gmap Z nat;
  hd_nextID : Z;
  hd_closing : bool;
  hd_drained : nat;
  hd_closedChans : gset nat;
  hd_requests : gmap nat request_pc;
  hd_shutdowns : gmap nat shutdown_pc;
  hd_goingAway : gset nat;
  hd_wrapped : bool;
  hd_panic : bool
}.

#[export] Instance eta_Handler : Eta Handler := λ h,
  mkHandler (hd_opts h) (hd_active h) (hd_nextID h) (hd_closing h) (hd_drained h) (hd_closedChans h)
    (hd_requests h) (hd_shutdowns h) (hd_goingAway h) (hd_wrapped h) (hd_panic h).

Definition NewHandler (o : HandlerOptions) : Handler :=
  mkHandler (handler_withDefaults o) ∅ 0 false 0 ∅ ∅ ∅ ∅ false false.

Definition set_request (r : nat) (pc : request_pc) (h : Handler) : Handler :=
  h <| hd_requests := <[r := pc]> (hd_requests h) |>.
Definition set_shutdown (s : nat) (pc : shutdown_pc) (h : Handler) : Handler :=
  h <| hd_shutdowns := <[s := pc]> (hd_shutdowns h) |>.

(** [ServeHTTP] up to the upgrade. *)
Definition ServeHTTP (r : nat) (req : http_request) (h : Handler) : Handler :=
  match serve_guards (hd_opts h) (hd_closing h) req with
  | Some status => set_request r (ReqDone (Some status)) h
  | None => set_request r ReqUpgrading h
  end.

(** The upgrade, and the registration of the connection. *)
Definition register_conn (r : nat) (upgraded : bool) (h : Handler) : Handler :=
  if negb upgraded then set_request r (ReqDone None) h
  else
    let id := wrap_u64 (hd_nextID h + 1) in
    set_request r (ReqServing id) (h <| hd_nextID := id |> <| hd_active := <[id := r]> (hd_active h) |>
                                   <| hd_wrapped := hd_wrapped h || (max_u64 <=? hd_nextID h)%Z |>).

(** [removeConn] under the mutex, then the close of the previous channel. *)
Definition removeConn (r : nat) (id : Z) (h : Handler) : Handler :=
  set_request r (ReqSignalling (hd_drained h))
    (h <| hd_active := delete id (hd_active h) |> <| hd_drained := S (hd_drained h) |>).

Definition close_prev (r : nat) (ch : nat) (h : Handler) : Handler :=
  set_request r (ReqDone None) (h <| hd_closedChans := {[ch]} ∪ hd_closedChans h |>
       <| hd_panic := hd_panic h || bool_decide (ch ∈ hd_closedChans h) |>).

(** The steps of [Shutdown]; the order in which the map is listed does not
    matter, every connection of the list is closed. *)
Definition Shutdown (s : nat) (h : Handler) : Handler :=
  set_shutdown s ShStarted (h <| hd_closing := true |>).

Definition shutdown_snapshot (s : nat) (h : Handler) : Handler :=
  set_shutdown s (ShClosing (map_to_list (hd_active h)).*2) h.

Definition shutdown_close (s : nat) (conns : list nat) (h : Handler) : Handler :=
  match conns with
  | c :: conns => set_shutdown s (ShClosing conns) (h <| hd_goingAway := {[c]} ∪ hd_goingAway h |>)
  | [] => set_shutdown s ShLoop h
  end.

Definition shutdown_check (s : nat) (h : Handler) : Handler :=
  if (size (hd_active h) =? 0)%nat then set_shutdown s (ShReturned None) h
  else set_shutdown s (ShWaiting (hd_drained h)) h.

Inductive handler_op :=
| HRequest (r : nat) (req : http_request)
| HUpgrade (r : nat) (upgraded : bool)
| HSessionEnd (r : nat)
| HSignal (r : nat)
| HShutdown (s : nat)
| HShutdownNext (s : nat)
| HShutdownCtx (s : nat) (err : error).

Definition handler_step (h : Handler) (o : handler_op) : option Handler :=
  match o with
  | HRequest r req => match hd_requests h !! r with None => Some (ServeHTTP r req h) | Some _ => None end
  | HUpgrade r ok => match hd_requests h !! r with Some ReqUpgrading => Some (register_conn r ok h) | _ => None end
  | HSessionEnd r => match hd_requests h !! r with Some (ReqServing id) => Some (removeConn r id h) | _ => None end
  | HSignal r => match hd_requests h !! r with Some (ReqSignalling ch) => Some (close_prev r ch h) | _ => None end
  | HShutdown s => match hd_shutdowns h !! s with None => Some (Shutdown s h) | Some _ => None end
  | HShutdownNext s =>
      match hd_shutdowns h !! s with
      | Some ShStarted => Some (shutdown_snapshot s h)
      | Some (ShClosing conns) => Some (shutdown_close s conns h)
      | Some ShLoop => Some (shutdown_check s h)
      | Some (ShWaiting ch) => if bool_decide (ch ∈ hd_closedChans h) then Some (set_shutdown s ShLoop h) else None
      | _ => None
      end
  | HShutdownCtx s err =>
      match hd_shutdowns h !! s with
      | Some (ShWaiting _) => Some (set_shutdown s (ShReturned (Some err)) h)
      | _ => None
      end
  end.

(** [Mount] of middleware/chi: the path the router sends to the handler, and
    the handler. *)
Definition chi_Mount (o : HandlerOptions) : string * Handler :=
  let h := NewHandler o in
  let path := if bool_decide (ho_Path o = "") then "/arcp" else ho_Path o in
  (path, h).

(** ** The invariant of a handler *)

Record handler_inv (h : Handler) : Prop := {
  hi_serving : hd_wrapped h = false → ∀ id r,
    hd_active h !! id = Some r ↔ hd_requests h !! r = Some (ReqServing id);
  hi_ids : hd_wrapped h = false → (0 <= hd_nextID h < two64)%Z ∧
    ∀ id r, hd_active h !! id = Some r → (id <= hd_nextID h)%Z;
  hi_signal : ∀ ch, ch < hd_drained h ↔
    ch ∈ hd_closedChans h ∨ ∃ r, hd_requests h !! r = Some (ReqSignalling ch);
  hi_once : ∀ r ch, hd_requests h !! r = Some (ReqSignalling ch) →
    ch ∉ hd_closedChans h ∧ ∀ r', hd_requests h !! r' = Some (ReqSignalling ch) → r' = r;
  hi_panic : hd_panic h = false;
  hi_waiting : ∀ s ch, hd_shutdowns h !! s = Some (ShWaiting ch) →
    ch < hd_drained h ∨ ch = hd_drained h ∧ hd_active h ≠ ∅
}.

Lemma handler_inv_init (o : HandlerOptions) : handler_inv (NewHandler o).
Proof.
  split; simpl.
  - intros _ id r. by rewrite !lookup_empty.
  - intros _. split; [done|]. intros id r. by rewrite lookup_empty.
  - intros ch. split; [lia|]. intros [Hc|[r Hr]]; [set_solver|by rewrite lookup_empty in Hr].
  - intros r ch. by rewrite lookup_empty.
  - done.
  - intros s ch. by rewrite lookup_empty.
Qed.

(** A request whose position does not involve a connection or a channel. *)
Definition idle_pc (pc : option request_pc) : Prop :=
  match pc with Some (ReqServing _) | Some (ReqSignalling _) => False | _ => True end.

Lemma set_request_lookup (r r' : nat) (pc : request_pc) (h : Handler) :
  hd_requests (set_request r pc h) !! r' = if decide (r = r') then Some pc else hd_requests h !! r'.
Proof. simpl. case_decide; [subst; by rewrite lookup_insert_eq|by rewrite lookup_insert_ne]. Qed.

Lemma handler_inv_request (r : nat) (pc : request_pc) (h : Handler) :
  handler_inv h → idle_pc (hd_requests h !! r) → idle_pc (Some pc) → handler_inv (set_request r pc h).
Proof.
  intros [I1 I2 I3 I4 I5 I6] Hold Hnew.
  assert (∀ r' pc', ¬ idle_pc (Some pc') → hd_requests (set_request r pc h) !! r' = Some pc' ↔
    hd_requests h !! r' = Some pc') as Hl.
  { intros r' pc' Hp. rewrite set_request_lookup. case_decide; [subst|done].
    split; intros Heq; [injection Heq as ->; done|]. by rewrite Heq in Hold. }
  split; try done.
  - intros Hw id r'. rewrite Hl by naive_solver. by apply I1.
  - intros ch. rewrite I3. by setoid_rewrite Hl; [|naive_solver].
  - intros r' ch. rewrite Hl by naive_solver. intros Hr. destruct (I4 r' ch Hr) as [H1 H2]. split; [done|].
    intros r''. rewrite Hl by naive_solver. apply H2.
Qed.

Lemma handler_inv_register (r : nat) (h : Handler) :
  handler_inv h → hd_requests h !! r = Some ReqUpgrading → handler_inv (register_conn r true h).
Proof.
  intros [I1 I2 I3 I4 I5 I6] Hr. unfold register_conn. cbn [negb]. set (id := wrap_u64 (hd_nextID h + 1)).
  assert (∀ r' pc', pc' ≠ ReqServing id → pc' ≠ ReqUpgrading → <[r := ReqServing id]> (hd_requests h) !! r' = Some pc' ↔
    hd_requests h !! r' = Some pc') as Hl.
  { intros r' pc' H1 H2. destruct (decide (r = r')) as [<-|Hne]; [|by rewrite lookup_insert_ne].
    rewrite lookup_insert_eq, Hr. split; congruence. }
  split; cbn.
  - intros [Hw Hmax]%orb_false_iff id' r'. destruct (I2 Hw) as [Hn Hle]. apply Z.leb_gt in Hmax.
    assert (id = hd_nextID h + 1)%Z as Hid by (apply wrap_u64_small; unfold in_u64, max_u64 in *; lia).
    assert (hd_active h !! id = None) as Hfresh.
    { destruct (hd_active h !! id) as [r0|] eqn:E; [|done]. apply Hle in E. lia. }
    destruct (decide (id = id')) as [<-|Hne].
    + rewrite lookup_insert_eq. split; [intros [= ->]; by rewrite lookup_insert_eq|].
      destruct (decide (r = r')) as [->|Hner]; [done|]. rewrite lookup_insert_ne by done.
      intros Hr'. apply I1 in Hr'; [|done]. congruence.
    + rewrite lookup_insert_ne by done. rewrite Hl by congruence. by apply I1.
  - intros [Hw Hmax]%orb_false_iff. destruct (I2 Hw) as [Hn Hle]. apply Z.leb_gt in Hmax.
    assert (id = hd_nextID h + 1)%Z as Hid by (apply wrap_u64_small; unfold in_u64, max_u64 in *; lia).
    split; [unfold max_u64 in Hmax; lia|]. intros id' r'. destruct (decide (id = id')) as [<-|Hne]; [lia|].
    rewrite lookup_insert_ne by done. intros H'. apply Hle in H'. lia.
  - intros ch. rewrite I3. by setoid_rewrite Hl.
  - intros r' ch. rewrite Hl by done. intros Hr'. destruct (I4 r' ch Hr') as [H1 H2]. split; [done|].
    intros r''. rewrite Hl by done. apply H2.
  - done.
  - intros s ch Hs. destruct (I6 s ch Hs) as [|[? _]]; [by left|right]. split; [done|]. apply insert_non_empty.
Qed.

Lemma handler_inv_remove (r : nat) (id : Z) (h : Handler) :
  handler_inv h → hd_requests h !! r = Some (ReqServing id) → handler_inv (removeConn r id h).
Proof.
  intros [I1 I2 I3 I4 I5 I6] Hr. unfold removeConn.
  assert (∀ r' ch, <[r := ReqSignalling (hd_drained h)]> (hd_requests h) !! r' = Some (ReqSignalling ch) ↔
    r' = r ∧ ch = hd_drained h ∨ hd_requests h !! r' = Some (ReqSignalling ch)) as Hl.
  { intros r' ch. destruct (decide (r = r')) as [<-|Hne].
    - rewrite lookup_insert_eq, Hr. naive_solver.
    - rewrite lookup_insert_ne by done. naive_solver. }
  assert (∀ r', hd_requests h !! r' ≠ Some (ReqSignalling (hd_drained h))) as Hnew.
  { intros r' Hr'. assert (hd_drained h < hd_drained h); [|lia]. apply I3. right. by exists r'. }
  split; cbn.
  - intros Hw id' r'. destruct (decide (id = id')) as [<-|Hne].
    + rewrite lookup_delete_eq. destruct (decide (r = r')) as [<-|Hner]; [by rewrite lookup_insert_eq|].
      rewrite lookup_insert_ne by done. split; [done|]. intros Hr'. apply I1 in Hr, Hr'; try done. congruence.
    + rewrite lookup_delete_ne by done. rewrite (I1 Hw). destruct (decide (r = r')) as [<-|Hner].
      * rewrite lookup_insert_eq, Hr. naive_solver.
      * by rewrite lookup_insert_ne.
  - intros Hw. destruct (I2 Hw) as [Hn Hle]. split; [done|]. intros id' r' [_ H']%lookup_delete_Some. by eapply Hle.
  - intros ch. setoid_rewrite Hl. split.
    + intros Hch. destruct (decide (ch = hd_drained h)) as [->|Hne]; [right; exists r; by left|].
      assert (ch < hd_drained h) as [?|[r' ?]]%I3 by lia; [by left|right; exists r'; by right].
    + intros [Hc|(r' & [[-> ->]|Hr'])]; [|lia|]; assert (ch < hd_drained h); try lia; apply I3; eauto.
  - intros r' ch. rewrite Hl. intros [[-> ->]|Hr'].
    + split.
      * intros Hc. assert (hd_drained h < hd_drained h); [|lia]. apply I3. by left.
      * intros r''. rewrite Hl. intros [[-> _]|Hr'']; [done|]. by apply Hnew in Hr''.
    + destruct (I4 r' ch Hr') as [H1 H2]. split; [done|]. intros r''. rewrite Hl. intros [[-> ->]|Hr'']; [|by apply H2].
      by apply Hnew in Hr'.
  - done.
  - intros s ch Hs. left. destruct (I6 s ch Hs) as [|[-> _]]; lia.
Qed.

Lemma handler_inv_signal (r ch : nat) (h : Handler) :
  handler_inv h → hd_requests h !! r = Some (ReqSignalling ch) → handler_inv (close_prev r ch h).
Proof.
  intros [I1 I2 I3 I4 I5 I6] Hr. destruct (I4 r ch Hr) as [Hopen Huniq]. unfold close_prev.
  assert (∀ r' ch', <[r := ReqDone None]> (hd_requests h) !! r' = Some (ReqSignalling ch') ↔
    r' ≠ r ∧ hd_requests h !! r' = Some (ReqSignalling ch')) as Hl.
  { intros r' ch'. destruct (decide (r = r')) as [<-|Hne]; [rewrite lookup_insert_eq; naive_solver|].
    rewrite lookup_insert_ne by done. naive_solver. }
  split; cbn; try done.
  - intros Hw id r'. rewrite (I1 Hw). destruct (decide (r = r')) as [<-|Hne].
    + rewrite lookup_insert_eq, Hr. naive_solver.
    + by rewrite lookup_insert_ne.
  - intros ch'. rewrite I3. setoid_rewrite Hl. rewrite elem_of_union, elem_of_singleton. split.
    + intros [?|[r' Hr']]; [by left; right|]. destruct (decide (r' = r)) as [->|Hne]; [left; left; congruence|].
      right. by exists r'.
    + intros [[->|?]|(r' & _ & ?)]; eauto.
  - intros r' ch'. rewrite Hl. intros [Hne Hr']. destruct (I4 r' ch' Hr') as [H1 H2]. split.
    + apply not_elem_of_union. split; [|done]. intros ->%elem_of_singleton. by apply Hne, Huniq.
    + intros r''. rewrite Hl. intros [_ ?]. by apply H2.
  - rewrite I5. simpl. by apply bool_decide_eq_false_2.
Qed.

Lemma handler_inv_shutdown (s : nat) (pc : shutdown_pc) (h h' : Handler) :
  handler_inv h → hd_shutdowns h' = <[s := pc]> (hd_shutdowns h) → (∀ ch, pc = ShWaiting ch → ch = hd_drained h ∧ hd_active h ≠ ∅) →
  (hd_active h', hd_nextID h', hd_drained h', hd_closedChans h', hd_requests h', hd_wrapped h', hd_panic h') =
  (hd_active h, hd_nextID h, hd_drained h, hd_closedChans h, hd_requests h, hd_wrapped h, hd_panic h) →
  handler_inv h'.
Proof.
  intros [I1 I2 I3 I4 I5 I6] Hs Hpc [= E1 E2 E3 E4 E5 E6 E7].
  split; rewrite ?E1, ?E2, ?E3, ?E4, ?E5, ?E6, ?E7, ?Hs; try done.
  intros s' ch. destruct (decide (s = s')) as [<-|Hne].
  - rewrite lookup_insert_eq. intros [= ->]. right. by apply Hpc.
  - rewrite lookup_insert_ne by done. apply I6.
Qed.

Lemma handler_inv_step (h : Handler) (o : handler_op) (h' : Handler) :
  handler_inv h → handler_step h o = Some h' → handler_inv h'.
Proof.
  intros I H. destruct o as [r req|r ok|r|r|s|s|s err]; simpl in H.
  - destruct (hd_requests h !! r) eqn:E; [done|]. injection H as <-. unfold ServeHTTP.
    destruct (serve_guards _ _ _); apply handler_inv_request; try done; by rewrite E.
  - destruct (hd_requests h !! r) as [[]|] eqn:E; try done. injection H as <-.
    destruct ok; [by apply handler_inv_register|]. apply handler_inv_request; [done|by rewrite E|done].
  - destruct (hd_requests h !! r) as [[]|] eqn:E; try done. injection H as <-. by apply handler_inv_remove.
  - destruct (hd_requests h !! r) as [[]|] eqn:E; try done. injection H as <-. by apply handler_inv_signal.
  - destruct (hd_shutdowns h !! s); [done|]. injection H as <-. by eapply handler_inv_shutdown.
  - destruct (hd_shutdowns h !! s) as [[|conns| |ch|]|]; try done.
    + injection H as <-. by eapply handler_inv_shutdown.
    + injection H as <-. destruct conns; by eapply handler_inv_shutdown.
    + injection H as <-. unfold shutdown_check.
      destruct (Nat.eqb_spec (size (hd_active h)) 0) as [Hz|Hz]; eapply handler_inv_shutdown; try done.
      intros ch [= <-]. split; [done|]. intros He. by rewrite He in Hz.
    + case_bool_decide; [|done]. injection H as <-. by eapply handler_inv_shutdown.
  - destruct (hd_shutdowns h !! s) as [[]|]; try done. injection H as <-. by eapply handler_inv_shutdown.
Qed.

Lemma handler_reachable_inv (o : HandlerOptions) (h : Handler) : run handler_step (NewHandler o) h → handler_inv h.
Proof. apply run_invariant; [apply handler_inv_init|apply handler_inv_step]. Qed.

(** ** The host check *)

(** A text without the bytes that structure a host header. *)
Definition plain (c : ascii) : bool := negb (bool_decide (c ∈ [":"%char; "["%char; "]"%char])).
Definition no_brackets (c : ascii) : bool := negb (bool_decide (c ∈ brackets)).

Lemma LastIndexByte_None (f : ascii → bool) (s : string) (c : ascii) :
  sforallb f s = true → f c = false → LastIndexByte s c = None.
Proof.
  intros Hs Hc. induction s as [|a s IH]; [done|]. simpl in Hs. apply andb_true_iff in Hs as [Ha Hs].
  simpl. rewrite IH by done. rewrite bool_decide_eq_false_2; [done|]. intros ->. congruence.
Qed.

Lemma LastIndexByte_app (f : ascii → bool) (a b : string) (c : ascii) :
  sforallb f b = true → f c = false → LastIndexByte (a +:+ String c b) c = Some (len a).
Proof.
  intros Hb Hc. induction a as [|x a IH].
  - rewrite sapp_nil_l. simpl. rewrite (LastIndexByte_None f) by done. by rewrite bool_decide_eq_true_2.
  - rewrite sapp_cons. simpl. by rewrite IH.
Qed.

Lemma has_byte_false (f : ascii → bool) (s : string) (c : ascii) :
  sforallb f s = true → f c = false → has_byte s c = false.
Proof.
  intros Hs Hc. apply bool_decide_eq_false_2. induction s as [|a s IH]; [by intros []|].
  simpl in Hs. apply andb_true_iff in Hs as [Ha Hs]. simpl. rewrite bool_decide_eq_false_2 by (intros ->; congruence).
  intros [i Hi]. destruct (IH Hs). destruct (IndexByte s c); [by eexists|done].
Qed.

Lemma IndexByte_first (f : ascii → bool) (a b : string) (c : ascii) :
  sforallb f a = true → f c = false → IndexByte (a +:+ String c b) c = Some (len a).
Proof.
  intros Ha Hc. induction a as [|x a IH]; [rewrite sapp_nil_l; simpl; by rewrite bool_decide_eq_true_2|].
  simpl in Ha. apply andb_true_iff in Ha as [Hx Ha]. rewrite sapp_cons. simpl.
  rewrite bool_decide_eq_false_2 by (intros ->; congruence). by rewrite IH.
Qed.

Lemma plain_no_brackets (s : string) : sforallb plain s = true → sforallb no_brackets s = true.
Proof.
  induction s as [|c s IH]; [done|]. simpl. intros [Hc Hs]%andb_true_iff. rewrite IH, andb_true_r by done.
  unfold plain, no_brackets in *. apply negb_true_iff, bool_decide_eq_false in Hc.
  apply negb_true_iff, bool_decide_eq_false_2. set_solver.
Qed.

Lemma TrimLeft_none (s : string) : sforallb no_brackets s = true → TrimLeft s brackets = s.
Proof.
  destruct s as [|c s]; [done|]. simpl. intros [Hc _]%andb_true_iff.
  unfold no_brackets in Hc. apply negb_true_iff in Hc. by rewrite Hc.
Qed.

Lemma srev_app_app (s acc : string) : srev_app s acc = srev_app s EmptyString +:+ acc.
Proof.
  revert acc. induction s as [|c s IH]; intros acc; [done|]. simpl. rewrite IH, (IH (String c EmptyString)).
  by rewrite sapp_assoc.
Qed.

Lemma srev_involutive (s : string) : srev_app (srev_app s EmptyString) EmptyString = s.
Proof.
  assert (∀ acc, srev_app (srev_app s acc) EmptyString = srev_app acc EmptyString +:+ s) as Hs.
  { induction s as [|c s IH]; intros acc; simpl; [by rewrite sapp_nil_r|].
    rewrite IH. simpl. by rewrite srev_app_app, sapp_assoc. }
  by rewrite Hs.
Qed.

Lemma sforallb_srev (f : ascii → bool) (s acc : string) :
  sforallb f (srev_app s acc) = sforallb f s && sforallb f acc.
Proof. revert acc. induction s as [|c s IH]; intros acc; [done|]. simpl. rewrite IH. simpl. by destruct (f c), (sforallb f s). Qed.

(** Trimming a text without brackets, and one in brackets. *)
Lemma Trim_none (s : string) : sforallb no_brackets s = true → Trim s brackets = s.
Proof.
  intros Hs. unfold Trim. rewrite (TrimLeft_none s) by done. rewrite TrimLeft_none; [apply srev_involutive|].
  by rewrite sforallb_srev, Hs.
Qed.

Lemma Trim_bracketed (s : string) : sforallb no_brackets s = true → Trim ("[" +:+ s +:+ "]") brackets = s.
Proof.
  intros Hs. unfold Trim. rewrite sapp_cons, sapp_nil_l. simpl.
  destruct s as [|c s]; [done|]. rewrite sapp_cons. cbn [TrimLeft].
  pose proof Hs as Hs'. simpl in Hs'. apply andb_true_iff in Hs' as [Hc _]. unfold no_brackets in Hc.
  apply negb_true_iff in Hc. rewrite Hc, <-sapp_cons.
  assert (∀ a b acc, srev_app (a +:+ b) acc = srev_app b (srev_app a acc)) as Happ.
  { intros a. induction a as [|x a IH]; intros b acc; [done|]. rewrite sapp_cons. simpl. by rewrite IH. }
  rewrite Happ. simpl. rewrite TrimLeft_none; [exact (srev_involutive (String c s))|].
  change (srev_app s (String c EmptyString)) with (srev_app (String c s) EmptyString). by rewrite sforallb_srev, Hs.
Qed.

Lemma has_byte_cons (a c : ascii) (s : string) : has_byte (String a s) c = bool_decide (a = c) || has_byte s c.
Proof.
  unfold has_byte. cbn [IndexByte]. destruct (bool_decide (a = c)) eqn:E; [by apply bool_decide_eq_true_2; eexists|].
  apply bool_decide_ext. by rewrite fmap_is_Some.
Qed.

Lemma has_byte_app (a b : string) (c : ascii) : has_byte (a +:+ b) c = has_byte a c || has_byte b c.
Proof.
  induction a as [|x a IH]; [done|]. rewrite sapp_cons, !has_byte_cons, IH. by rewrite orb_assoc.
Qed.

(** [SplitHostPort] on each form of a host header. *)
Lemma SplitHostPort_plain (h : string) : sforallb plain h = true → SplitHostPort h = None.
Proof. intros Hh. unfold SplitHostPort. by rewrite (LastIndexByte_None plain). Qed.

Lemma SplitHostPort_port (h p : string) :
  sforallb plain h = true → sforallb plain p = true → SplitHostPort (h +:+ String ":" p) = Some (h, p).
Proof.
  intros Hh Hp. unfold SplitHostPort. rewrite (LastIndexByte_app plain) by done.
  rewrite stake_app, <-sdrop_sdrop, sdrop_app. cbn [sdrop].
  rewrite !has_byte_app, !has_byte_cons, !(has_byte_false plain h), !(has_byte_false plain p) by done.
  destruct h as [|c h]; [done|]. rewrite sapp_cons. simpl in Hh. apply andb_true_iff in Hh as [Hc _].
  destruct c as [[] [] [] [] [] [] [] []]; done.
Qed.

Lemma v6_port_shape (h p : string) :
  String "[" (h +:+ String "]" (String ":" p)) = String "[" (h +:+ "]") +:+ String ":" p.
Proof. by rewrite sapp_cons, sapp_assoc. Qed.

Lemma SplitHostPort_v6_port (h p : string) :
  sforallb no_brackets h = true → sforallb plain p = true →
  SplitHostPort (String "[" (h +:+ String "]" (String ":" p))) = Some (h, p).
Proof.
  intros Hh Hp. unfold SplitHostPort. cbn [IndexByte].
  rewrite (IndexByte_first no_brackets) by done. cbn [fmap option_fmap option_map]. rewrite bool_decide_eq_false_2 by done.
  rewrite v6_port_shape at 1. rewrite (LastIndexByte_app plain) by done.
  rewrite !len_cons, !len_app, !len_cons. change (len EmptyString) with 0.
  destruct (Nat.eqb_spec (S (len h) + 1) (S (len h + S (S (len p))))); [lia|].
  destruct (Nat.eqb_spec (S (len h) + 1) (S (len h + 1))); [|lia].
  replace (S (len h) - 1) with (len h) by lia. cbn [sdrop].
  replace (S (len h) + 1) with (S (len h + 1)) by lia. replace (S (len h + 1) + 1) with (S (len h + 2)) by lia.
  cbn [sdrop]. rewrite stake_app, <-!sdrop_sdrop, sdrop_app. cbn [sdrop].
  rewrite !has_byte_app, !has_byte_cons, (has_byte_false no_brackets h), !(has_byte_false plain p) by done. done.
Qed.

Lemma SplitHostPort_v6 (h : string) :
  sforallb no_brackets h = true → SplitHostPort (String "[" (h +:+ "]")) = None.
Proof.
  intros Hh. unfold SplitHostPort. destruct (LastIndexByte _ _) as [i|]; [|done]. cbn [IndexByte].
  rewrite (IndexByte_first no_brackets) by done. cbn [fmap option_fmap option_map]. rewrite bool_decide_eq_false_2 by done.
  rewrite len_cons, len_app, !len_cons. change (len EmptyString) with 0.
  by destruct (Nat.eqb_spec (S (len h) + 1) (S (len h + 1))); [|lia].
Qed.

(** A bare address with two colons or more is not split. *)
Lemma SplitHostPort_bare (a b c : string) :
  sforallb no_brackets (a +:+ String ":" b) = true → sforallb plain c = true →
  SplitHostPort ((a +:+ String ":" b) +:+ String ":" c) = None.
Proof.
  intros Hab Hc. unfold SplitHostPort. rewrite (LastIndexByte_app plain) by done. rewrite stake_app.
  rewrite has_byte_app, has_byte_cons. rewrite bool_decide_eq_true_2 by done. rewrite orb_true_l, orb_true_r.
  destruct (a +:+ String ":" b) as [|x y] eqn:E; [by destruct a|]. rewrite sapp_cons.
  simpl in Hab. apply andb_true_iff in Hab as [Hx _]. destruct x as [[] [] [] [] [] [] [] []]; done.
Qed.

(** Some allowed host is this one, brackets aside. *)
Definition in_hosts (h : string) (allowed : list string) : bool :=
  existsb (λ a, bool_decide (Trim a brackets = h)) allowed.

(** ** Claims *)

(** The host check compares hosts, whatever the form of the header.  A name
    or IPv4 address alone or with a port, an IPv6 address alone, in brackets or
    in brackets with a port are accepted exactly when the host itself, brackets
    aside, is in the list; so a header with another host never passes, which
    is the protection against DNS rebinding. *)
Theorem hostAllowed_forms (h p : string) (allowed : list string) :
  sforallb plain p = true →
  (sforallb plain h = true →
     hostAllowed h allowed = in_hosts h allowed ∧ hostAllowed (h +:+ String ":" p) allowed = in_hosts h allowed) ∧
  (sforallb no_brackets h = true →
     hostAllowed (String "[" (h +:+ "]")) allowed = in_hosts h allowed ∧
     hostAllowed (String "[" (h +:+ String "]" (String ":" p))) allowed = in_hosts h allowed) ∧
  (∀ a b c, h = (a +:+ String ":" b) +:+ String ":" c → sforallb no_brackets (a +:+ String ":" b) = true →
     sforallb plain c = true → hostAllowed h allowed = in_hosts (Trim h brackets) allowed).
Proof.
  intros Hp. unfold hostAllowed. split; [|split].
  - intros Hh. rewrite SplitHostPort_plain, SplitHostPort_port by done.
    by rewrite (Trim_none h) by (by apply plain_no_brackets).
  - intros Hh. rewrite SplitHostPort_v6, SplitHostPort_v6_port by done.
    change (String "[" (h +:+ "]")) with ("[" +:+ h +:+ "]"). by rewrite Trim_bracketed, Trim_none.
  - intros a b c -> Hab Hc. by rewrite SplitHostPort_bare.
Qed.

Lemma hostAllowed_forms_witness :
  hostAllowed "localhost:8080" ["localhost"; "::1"] = true ∧ hostAllowed "[::1]:80" ["localhost"; "::1"] = true ∧
  hostAllowed "evil.example:80" ["localhost"; "::1"] = false.
Proof.
  split; [|split].
  - exact (proj2 (proj1 (hostAllowed_forms "localhost" "8080" ["localhost"; "::1"] eq_refl) eq_refl)).
  - exact (proj2 (proj1 (proj2 (hostAllowed_forms "::1" "80" ["localhost"; "::1"] eq_refl)) eq_refl)).
  - exact (proj2 (proj1 (hostAllowed_forms "evil.example" "80" ["localhost"; "::1"] eq_refl) eq_refl)).
Defined.

(** C37: [Shutdown] loses no wake-up.  In every run, a call of [Shutdown] that
    waits can go on, or a request is about to close the channel it waits on, or
    a connection is still being served; no channel is closed twice; and once no
    request is serving or signalling, the call returns nil. *)
Theorem shutdown_no_lost_wakeup (o : HandlerOptions) (h : Handler) (s ch : nat) :
  run handler_step (NewHandler o) h → hd_wrapped h = false → hd_shutdowns h !! s = Some (ShWaiting ch) →
  hd_panic h = false ∧
  (is_Some (handler_step h (HShutdownNext s)) ∨ (∃ r, hd_requests h !! r = Some (ReqSignalling ch)) ∨
   (∃ r id, hd_requests h !! r = Some (ReqServing id))) ∧
  ((∀ r pc, hd_requests h !! r = Some pc → idle_pc (Some pc)) →
   ∃ h', exec handler_step h [HShutdownNext s; HShutdownNext s] = Some h' ∧
         hd_shutdowns h' !! s = Some (ShReturned None)).
Proof.
  intros Hr Hw Hs. destruct (handler_reachable_inv o h Hr) as [I1 I2 I3 I4 I5 I6].
  assert (Hcase : ch ∈ hd_closedChans h ∨ (∃ r, hd_requests h !! r = Some (ReqSignalling ch)) ∨
    (∃ r id, hd_requests h !! r = Some (ReqServing id))).
  { destruct (I6 s ch Hs) as [Hlt|[_ Hne]]; [apply I3 in Hlt as [?|?]; auto|]. right; right.
    apply map_choose in Hne as (id & r & Hid). exists r, id. by apply I1. }
  split; [done|]. split.
  - destruct Hcase as [Hc|?]; [left|by right]. simpl. rewrite Hs, bool_decide_eq_true_2 by done. by eexists.
  - intros Hidle. destruct Hcase as [Hc|[[r Hx]|(r & id & Hx)]]; [|by apply Hidle in Hx..].
    assert (hd_active h = ∅) as Hempty.
    { destruct (decide (hd_active h = ∅)) as [|Hne]; [done|]. apply map_choose in Hne as (id & r & Hid).
      apply I1 in Hid; [|done]. by apply Hidle in Hid. }
    assert (handler_step h (HShutdownNext s) = Some (set_shutdown s ShLoop h)) as E1
      by (unfold handler_step; by rewrite Hs, bool_decide_eq_true_2).
    assert (handler_step (set_shutdown s ShLoop h) (HShutdownNext s) =
      Some (set_shutdown s (ShReturned None) (set_shutdown s ShLoop h))) as E2.
    { unfold handler_step, set_shutdown at 1. cbn [hd_shutdowns set_field]. simpl. rewrite lookup_insert_eq.
      unfold shutdown_check. simpl. by rewrite Hempty. }
    cbn [exec]. rewrite E1, E2. eexists. split; [done|]. simpl. by rewrite lookup_insert_eq.
Qed.

Definition get_arcp : http_request := mkRequest "GET" "/arcp" "localhost:8080".
Definition default_options : HandlerOptions := mkHandlerOptions "" [] 0 0.

(** A connection is served while [Shutdown] starts; its session ends. *)
Definition shutdown_run : list handler_op :=
  [HRequest 0 get_arcp; HUpgrade 0 true; HShutdown 1; HShutdownNext 1; HShutdownNext 1; HShutdownNext 1;
   HShutdownNext 1; HSessionEnd 0; HSignal 0].

Lemma shutdown_no_lost_wakeup_witness :
  ∃ h, exec handler_step (NewHandler default_options) shutdown_run = Some h ∧
       hd_goingAway h = {[0]} ∧
       ∃ h', exec handler_step h [HShutdownNext 1; HShutdownNext 1] = Some h' ∧
             hd_shutdowns h' !! 1 = Some (ShReturned None).
Proof.
  eexists. split; [vm_compute; reflexivity|]. split; [reflexivity|].
  apply (shutdown_no_lost_wakeup default_options _ 1 0).
  - apply (exec_run _ _ (NewHandler default_options) _ shutdown_run); [constructor|vm_compute; reflexivity].
  - reflexivity.
  - reflexivity.
  - intros r pc H. destruct (decide (r = 0)) as [->|Hr]; [injection H as <-; exact I|].
    change (<[0 := ReqDone None]> (∅ : gmap nat request_pc) !! r = Some pc) in H.
    rewrite lookup_insert_ne in H by done. by rewrite lookup_empty in H.
Defined.

(** The interleaving of the next theorem. *)
Definition late_upgrade_run : list handler_op :=
  [HRequest 0 get_arcp; HShutdown 1; HShutdownNext 1; HShutdownNext 1; HShutdownNext 1; HUpgrade 0 true].

(** [Shutdown] can miss a connection.  The comments say that new connections
    are refused so that the active set cannot grow; a request that has passed
    the test of [closing] and is still in its upgrade registers afterwards:
    [Shutdown] has returned nil, and a connection is active that was never told
    to go away. *)
Theorem shutdown_misses_upgrade :
  ∃ h, exec handler_step (NewHandler default_options) late_upgrade_run = Some h ∧
       hd_shutdowns h !! 1 = Some (ShReturned None) ∧ hd_closing h = true ∧
       hd_active h !! 1%Z = Some 0 ∧ hd_goingAway h = ∅.
Proof. eexists. split; [vm_compute; reflexivity|]. split_and!; reflexivity. Qed.

(** The route [Mount] registers is the path the handler serves: no request that
    the router sends to it is refused for its path. *)
Lemma chi_Mount_path (o : HandlerOptions) (host : string) :
  serve_guards (hd_opts (chi_Mount o).2) false (mkRequest "GET" (chi_Mount o).1 host) =
    if hostAllowed host (ho_AllowedHosts (handler_withDefaults o)) then None else Some StatusMisdirectedRequest.
Proof.
  assert (ho_Path (handler_withDefaults o) = (chi_Mount o).1) as E.
  { simpl. unfold handler_withDefaults. destruct (bool_decide (ho_Path o = "")); by repeat case_match. }
  unfold serve_guards. cbn [rq_Method rq_Path rq_Host].
  change (hd_opts (chi_Mount o).2) with (handler_withDefaults o). rewrite E.
  rewrite (bool_decide_eq_true_2 ("GET" = "GET")), (bool_decide_eq_true_2 ((chi_Mount o).1 = (chi_Mount o).1)) by done.
  cbn [negb]. rewrite andb_false_r. by destruct (hostAllowed _ _).
Qed.

(** The comment on [Path] says that the empty path disables the check; the
    defaults replace it, so a handler that was built with it answers 404 to
    every path but the default one. *)
Lemma path_check_not_disabled (o : HandlerOptions) (path host : string) :
  ho_Path o = "" → path ≠ "/arcp" →
  serve_guards (hd_opts (NewHandler o)) false (mkRequest "GET" path host) = Some StatusNotFound.
Proof.
  intros Ho Hp. assert (ho_Path (hd_opts (NewHandler o)) = "/arcp") as E.
  { simpl. unfold handler_withDefaults. rewrite bool_decide_eq_true_2 by done. by repeat case_match. }
  unfold serve_guards. rewrite E. simpl. by rewrite bool_decide_eq_false_2.
Qed.
