(* ===== verification/Otel.v ===== *)
(** * The OpenTelemetry wrapper

    Models middleware/otel/otel.go: a transport that injects the trace context
    of the active span into the extensions of an outgoing envelope and starts
    spans for incoming ones.  The tracing library is a parameter: contexts, the
    active span, the propagator's [Inject] and [Extract], and the JSON form of
    a carrier.  The envelopes of [Messages] have no extensions, so the wrapper
    works on pairs of an envelope and its extensions (key to raw JSON). *)

From S2P Require Import Prelude GoStrings Errors Features Lease Messages.

Definition ExtensionsKey : string := "x-vendor.opentelemetry.tracecontext".

Record OtelOptions := mkOtelOptions { ot_FrameSpans : bool; ot_JobSpans : bool; ot_ToolCallSpans : bool }.

(** The defaults of the provider and the propagator are outside the model. *)
Definition otel_withDefaults (o : OtelOptions) : OtelOptions :=
  if negb (ot_JobSpans o) && negb (ot_FrameSpans o) && negb (ot_ToolCallSpans o)
  then mkOtelOptions (ot_FrameSpans o) true true else o.

Record wire_env := mkWireEnv { we_env : Envelope; we_ext : gmap string string }.

Abbreviation carrier := (gmap string string).

(** The tracing library.  [active ctx] is the trace id of the span of [ctx] if
    it is recording. *)
Class Tracing := {
  context : Type;
  active : context → option string;
  Inject : context → carrier;
  Extract : context → carrier → context;
  marshal_carrier : carrier → res string;
  unmarshal_carrier : string → option carrier
}.

Section otel.
Context {TL : Tracing}.

(** A span that was started and ended: its parent, its name and its
    attributes. *)
Record span := mkSpan { sp_parent : context; sp_name : string; sp_attrs : list (string * string) }.

Definition otel_Send (ctx : context) (e : wire_env) : wire_env :=
  match active ctx with
  | None => e
  | Some traceID =>
      let car := Inject ctx in
      let ext :=
        if (0 <? size car)%nat then
          match marshal_carrier car with
          | Ok raw => <[ExtensionsKey := raw]> (we_ext e)
          | Err _ => we_ext e
          end
        else we_ext e in
      let env := if bool_decide (env_TraceID (we_env e) = "") then set_trace (we_env e) traceID else we_env e in
      mkWireEnv env ext
  end.

(** The attributes [Send] sets on the active span. *)
Definition send_attrs (e : Envelope) : list (string * string) :=
  [("arcp.session_id", env_SessionID e); ("arcp.type", env_Type e)] ++
  (if bool_decide (env_JobID e = "") then [] else [("arcp.job_id", env_JobID e)]).

(** The context of [Recv] after the extraction. *)
Definition recv_context (ctx : context) (e : wire_env) : context :=
  match we_ext e !! ExtensionsKey with
  | Some raw => match unmarshal_carrier raw with Some car => Extract ctx car | None => ctx end
  | None => ctx
  end.

Definition frame_spans (o : OtelOptions) (ctx : context) (e : Envelope) : list span :=
  if ot_FrameSpans o
  then [mkSpan ctx ("arcp.recv " +:+ env_Type e) [("arcp.session_id", env_SessionID e); ("arcp.type", env_Type e)]]
  else [].

Definition job_spans (o : OtelOptions) (ctx : context) (e : Envelope) : list span :=
  if ot_JobSpans o && HasPrefix (env_Type e) "job." then
    [mkSpan ctx (env_Type e)
       ([("arcp.session_id", env_SessionID e); ("arcp.type", env_Type e)] ++
        (if bool_decide (env_JobID e = "") then [] else [("arcp.job_id", env_JobID e)]) ++
        (if bool_decide (env_TraceID e = "") then [] else [("arcp.trace_id", env_TraceID e)]))]
  else [].

Definition tool_spans (o : OtelOptions) (ctx : context) (e : Envelope) : list span :=
  if ot_ToolCallSpans o && bool_decide (env_Type e = TypeJobEvent) then
    match env_Payload e with
    | PEvent ev =>
        if bool_decide (ev_Kind ev = KindToolCall) || bool_decide (ev_Kind ev = KindToolResult) then
          [mkSpan ctx ("arcp." +:+ ev_Kind ev)
             [("arcp.session_id", env_SessionID e); ("arcp.job_id", env_JobID e); ("arcp.event.kind", ev_Kind ev)]]
        else []
    | _ => []
    end
  else [].

(** [Recv], given what the inner transport returned: the result, and the spans
    in the order in which they are started. *)
Definition otel_Recv (o : OtelOptions) (ctx : context) (r : res wire_env) : res wire_env * list span :=
  match r with
  | Err err => (Err err, [])
  | Ok e =>
      let ctx := recv_context ctx e in
      (Ok e, frame_spans o ctx (we_env e) ++ job_spans o ctx (we_env e) ++ tool_spans o ctx (we_env e))
  end.

(** ** Properties *)

(** The trace id aside, the wrapper does not change the envelope. *)
Lemma otel_Send_env (ctx : context) (e : wire_env) :
  we_env (otel_Send ctx e) =
    if bool_decide (env_TraceID (we_env e) = "")
    then set_trace (we_env e) (default "" (active ctx)) else we_env e.
Proof.
  unfold otel_Send. destruct (active ctx) as [tid|]; [done|]. simpl. case_bool_decide as Ht; [|done].
  destruct e as [[a b c d f g h i] x]. unfold set_trace. simpl in *. by subst.
Qed.

Lemma otel_Send_other_ext (ctx : context) (e : wire_env) (k : string) :
  k ≠ ExtensionsKey → we_ext (otel_Send ctx e) !! k = we_ext e !! k.
Proof.
  intros Hk. unfold otel_Send. destruct (active ctx); [|done]. simpl. repeat case_goal; try done.
  by rewrite lookup_insert_ne.
Qed.

(** The trace context travels with the envelope.  If the sender's span is
    recording, its propagator injects something and carriers survive their JSON
    form, then what the receiver gets is the sender's envelope, with its trace
    id filled in only when it had none and its other extensions as they were,
    and every span the receiver starts has as parent the context extracted from
    what the sender injected. *)
Theorem otel_propagates (o : OtelOptions) (ctx ctx' : context) (e : wire_env) (traceID raw : string) :
  active ctx = Some traceID → 0 < size (Inject ctx) → marshal_carrier (Inject ctx) = Ok raw →
  unmarshal_carrier raw = Some (Inject ctx) →
  let r := otel_Recv o ctx' (Ok (otel_Send ctx e)) in
  (∃ e', r.1 = Ok e' ∧
     we_env e' = (if bool_decide (env_TraceID (we_env e) = "") then set_trace (we_env e) traceID else we_env e) ∧
     ∀ k, k ≠ ExtensionsKey → we_ext e' !! k = we_ext e !! k) ∧
  Forall (λ s, sp_parent s = Extract ctx' (Inject ctx)) r.2.
Proof.
  intros Ha Hs Hm Hu. cbv zeta. split.
  - exists (otel_Send ctx e). split; [done|]. split; [by rewrite otel_Send_env, Ha|]. intros k. apply otel_Send_other_ext.
  - assert (recv_context ctx' (otel_Send ctx e) = Extract ctx' (Inject ctx)) as Hc.
    { unfold recv_context, otel_Send. rewrite Ha, Hm. simpl. rewrite (proj2 (Nat.ltb_lt _ _) Hs).
      by rewrite lookup_insert_eq, Hu. }
    simpl. rewrite Hc. unfold frame_spans, job_spans, tool_spans.
    repeat (apply Forall_app; split); repeat case_goal; by repeat constructor.
Qed.

(** The comment on [Recv] lists the envelope types that get a job span, without
    job.event; the code starts one for every type that begins with "job.". *)
Lemma job_span_for_events (ctx : context) (e : Envelope) :
  env_Type e = TypeJobEvent → length (job_spans (otel_withDefaults (mkOtelOptions false false false)) ctx e) = 1.
Proof. intros He. unfold job_spans. by rewrite He. Qed.

End otel.

(** ** A concrete library: a context is a trace parent, and a carrier with one
    entry is written as its value. *)

#[local] Instance tiny_tracing : Tracing := {|
  context := string;
  active := λ ctx, if bool_decide (ctx = "") then None else Some ctx;
  Inject := λ ctx, {[ "traceparent" := ctx ]};
  Extract := λ ctx car, default ctx (car !! "traceparent");
  marshal_carrier := λ car, Ok (default "" (car !! "traceparent"));
  unmarshal_carrier := λ raw, Some {[ "traceparent" := raw ]}
|}.

Definition traced_env : wire_env :=
  mkWireEnv (mkEnvelope "1.1" "m" "job.result" "s" "j" "" 4 PNil) {[ "x-vendor.other" := "1" ]}.

Lemma otel_propagates_witness :
  (∃ e', (otel_Recv (mkOtelOptions false true true) "" (Ok (otel_Send "tp" traced_env))).1 = Ok e' ∧
     we_env e' = set_trace (we_env traced_env) "tp" ∧
     ∀ k, k ≠ ExtensionsKey → we_ext e' !! k = we_ext traced_env !! k) ∧
  Forall (λ s, sp_parent s = ("tp" : context))
    (otel_Recv (mkOtelOptions false true true) "" (Ok (otel_Send "tp" traced_env))).2 ∧
  length (otel_Recv (mkOtelOptions false true true) "" (Ok (otel_Send "tp" traced_env))).2 = 1.
Proof.
  assert (H := otel_propagates (mkOtelOptions false true true) "tp" "" traced_env "tp" "tp" eq_refl ltac:(vm_compute; lia)
    eq_refl eq_refl).
  destruct H as [H1 H2]. split; [exact H1|]. split; [exact H2|]. vm_compute. reflexivity.
Defined.
