(* ===== verification/Json.v ===== *)
(** * JSON text

    What the SDK uses of encoding/json: string literals with their escapes, the
    printer of [json.Marshal] (compact, HTML-safe) and the parser of
    [json.Unmarshal], and the round trip between them.

    A value keeps the text of its literals: [JStr] holds what stands between
    the quotes, [JNum] the digits, so that the raw parts of a message keep
    their text up to the whitespace between tokens.  [quote] and [unquote] relate
    literals and Go strings.  The parser is recursive descent with fuel; the
    length of the input is enough.  The nesting limit of the Go parser (10000)
    is not modelled. *)

From S2P Require Import Prelude GoStrings Errors Features Lease Messages Stream.
From Stdlib Require Import ZArith Ascii.

(** ** Characters *)

Definition dquote : ascii := "034".
Definition backslash : ascii := "092".

(** Hexadecimal digits; the encoder writes lower case. *)
Definition hex_digit (d : Z) : ascii :=
  if (d <? 10)%Z then ascii_of_N (Z.to_N (48 + d)) else ascii_of_N (Z.to_N (87 + d)).

Definition hex_val (c : ascii) : option Z :=
  if in_range 48 57 c then Some (byte_of c - 48)%Z
  else if in_range 97 102 c then Some (byte_of c - 87)%Z
  else if in_range 65 70 c then Some (byte_of c - 55)%Z
  else None.

Definition hex4 (a b c d : ascii) : option Z :=
  match hex_val a, hex_val b, hex_val c, hex_val d with
  | Some x, Some y, Some z, Some w => Some (((x * 16 + y) * 16 + z) * 16 + w)%Z
  | _, _, _, _ => None
  end.

(** [utf8.AppendRune]; surrogates and values out of range are U+FFFD. *)
Definition byte_char (z : Z) : ascii := ascii_of_N (Z.to_N z).

Definition encode_rune (r : Z) : string :=
  if (r <=? 127)%Z then String (byte_char r) EmptyString
  else if (r <=? 2047)%Z then
    String (byte_char (192 + r / 64)) (String (byte_char (128 + r mod 64)) EmptyString)
  else if ((55296 <=? r) && (r <=? 57343) || (1114111 <? r))%Z then replacement
  else if (r <=? 65535)%Z then
    String (byte_char (224 + r / 4096)) (String (byte_char (128 + (r / 64) mod 64))
      (String (byte_char (128 + r mod 64)) EmptyString))
  else
    String (byte_char (240 + r / 262144)) (String (byte_char (128 + (r / 4096) mod 64))
      (String (byte_char (128 + (r / 64) mod 64)) (String (byte_char (128 + r mod 64)) EmptyString))).

(** ** String literals *)

(** An ASCII byte in a literal. *)
Definition esc_char (c : ascii) : string :=
  if bool_decide (c = dquote) || bool_decide (c = backslash) then String backslash (String c EmptyString)
  else if bool_decide (c = "008"%char) then String backslash "b"
  else if bool_decide (c = "012"%char) then String backslash "f"
  else if bool_decide (c = "010"%char) then String backslash "n"
  else if bool_decide (c = "013"%char) then String backslash "r"
  else if bool_decide (c = "009"%char) then String backslash "t"
  else if in_range 0 31 c || bool_decide (c ∈ ["<"; ">"; "&"]%char) then
    String backslash ("u00" +:+ String (hex_digit (byte_of c / 16)) (String (hex_digit (byte_of c mod 16)) EmptyString))
  else String c EmptyString.

Definition esc_bad : string := String backslash "ufffd".

(** U+2028 and U+2029, which break JavaScript, are escaped. *)
Definition esc3 (a b c : ascii) : string :=
  if bool_decide (a = "226"%char) && bool_decide (b = "128"%char) then
    if bool_decide (c = "168"%char) then String backslash "u2028"
    else if bool_decide (c = "169"%char) then String backslash "u2029"
    else String a (String b (String c EmptyString))
  else String a (String b (String c EmptyString)).

(** [appendString]: the literal of a string, without its quotes. *)
Fixpoint quote (s : string) : string :=
  match s with
  | EmptyString => EmptyString
  | String a s1 =>
      if in_range 0 127 a then esc_char a +:+ quote s1
      else match s1 with
           | EmptyString => esc_bad
           | String b s2 =>
               if lead2 a b then String a (String b (quote s2))
               else match s2 with
                    | EmptyString => esc_bad +:+ quote s1
                    | String c s3 =>
                        if lead3 a b c then esc3 a b c +:+ quote s3
                        else match s3 with
                             | EmptyString => esc_bad +:+ quote s1
                             | String d s4 =>
                                 if lead4 a b c d
                                 then String a (String b (String c (String d (quote s4))))
                                 else esc_bad +:+ quote s1
                             end
                    end
           end
  end.

(** The one-letter escapes. *)
Definition simple_escape (e : ascii) : option ascii :=
  if bool_decide (e = dquote) then Some dquote
  else if bool_decide (e = backslash) then Some backslash
  else if bool_decide (e = "/"%char) then Some "/"%char
  else if bool_decide (e = "b"%char) then Some "008"%char
  else if bool_decide (e = "f"%char) then Some "012"%char
  else if bool_decide (e = "n"%char) then Some "010"%char
  else if bool_decide (e = "r"%char) then Some "013"%char
  else if bool_decide (e = "t"%char) then Some "009"%char
  else None.

(** [utf16.DecodeRune] on a surrogate and what follows. *)
Definition surrogate (r : Z) : bool := ((55296 <=? r) && (r <=? 57343))%Z.
Definition utf16_pair (r1 r2 : Z) : option Z :=
  if ((55296 <=? r1) && (r1 <=? 56319) && (56320 <=? r2) && (r2 <=? 57343))%Z
  then Some ((r1 - 55296) * 1024 + (r2 - 56320) + 65536)%Z else None.

(** [unquoteBytes] on the text of a literal the lexer has accepted. *)
Fixpoint unquote (s : string) : string :=
  match s with
  | EmptyString => EmptyString
  | String a s1 =>
      if bool_decide (a = backslash) then
        match s1 with
        | EmptyString => EmptyString
        | String e s2 =>
            match simple_escape e with
            | Some c => String c (unquote s2)
            | None =>
                match s2 with
                | String h1 (String h2 (String h3 (String h4 s6))) =>
                    match hex4 h1 h2 h3 h4 with
                    | None => EmptyString
                    | Some r =>
                        if surrogate r then
                          match s6 with
                          | String b1 (String u1 (String g1 (String g2 (String g3 (String g4 s12))))) =>
                              match (if bool_decide (b1 = backslash) && bool_decide (u1 = "u"%char)
                                     then hex4 g1 g2 g3 g4 else None) with
                              | Some r2 =>
                                  match utf16_pair r r2 with
                                  | Some rr => encode_rune rr +:+ unquote s12
                                  | None => replacement +:+ unquote s6
                                  end
                              | None => replacement +:+ unquote s6
                              end
                          | _ => replacement +:+ unquote s6
                          end
                        else encode_rune r +:+ unquote s6
                    end
                | _ => EmptyString
                end
            end
        end
      else if in_range 0 127 a then String a (unquote s1)
      else match s1 with
           | EmptyString => replacement
           | String b s2 =>
               if lead2 a b then String a (String b (unquote s2))
               else match s2 with
                    | EmptyString => replacement +:+ unquote s1
                    | String c s3 =>
                        if lead3 a b c then String a (String b (String c (unquote s3)))
                        else match s3 with
                             | EmptyString => replacement +:+ unquote s1
                             | String d s4 =>
                                 if lead4 a b c d
                                 then String a (String b (String c (String d (unquote s4))))
                                 else replacement +:+ unquote s1
                             end
                    end
           end
  end.

Lemma esc_char_unquote (c : ascii) (s : string) :
  in_range 0 127 c = true → unquote (esc_char c +:+ s) = String c (unquote s).
Proof. destruct c as [[] [] [] [] [] [] [] []]; intros H; try discriminate H; reflexivity. Qed.

Lemma esc_bad_unquote (s : string) : unquote (esc_bad +:+ s) = replacement +:+ unquote s.
Proof. reflexivity. Qed.

Lemma esc3_unquote (a b c : ascii) (s : string) :
  in_range 0 127 a = false → lead2 a b = false → lead3 a b c = true →
  unquote (esc3 a b c +:+ s) = String a (String b (String c (unquote s))).
Proof.
  intros Ha Hl2 Hl3. unfold esc3.
  assert (unquote (String a (String b (String c s))) = String a (String b (String c (unquote s)))) as Hcopy.
  { cbn [unquote]. rewrite Ha, Hl2, Hl3. rewrite bool_decide_eq_false_2; [done|]. by intros ->. }
  case_bool_decide as E1; [|exact Hcopy]. case_bool_decide as E2; [|exact Hcopy]. subst. cbn [andb].
  case_bool_decide as E3; [by subst|]. case_bool_decide as E4; [by subst|exact Hcopy].
Qed.

(** Reading a literal back gives the string with every byte that is not part
    of valid UTF-8 replaced. *)
Lemma unquote_quote (s : string) : unquote (quote s) = coerce_utf8 s.
Proof.
  remember (len s) as n eqn:Hn. revert s Hn. induction n as [n IH] using lt_wf_ind. intros s ->.
  assert (Hrec : ∀ t, len t < len s → unquote (quote t) = coerce_utf8 t) by (intros t Ht; by eapply IH).
  destruct s as [|a s1]; [done|]. cbn [quote coerce_utf8].
  destruct (in_range 0 127 a) eqn:Ha.
  { rewrite esc_char_unquote by done. rewrite Hrec; [done|]. rewrite len_cons. lia. }
  assert (Hbs : bool_decide (a = backslash) = false) by (apply bool_decide_eq_false_2; by intros ->).
  destruct s1 as [|b s2]; [done|]. destruct (lead2 a b) eqn:H2.
  { cbn [unquote]. rewrite Hbs, Ha, H2, Hrec; [done|]. rewrite !len_cons. lia. }
  destruct s2 as [|c s3]; [rewrite esc_bad_unquote, Hrec; [done|]; rewrite !len_cons; lia|].
  destruct (lead3 a b c) eqn:H3.
  { rewrite esc3_unquote by done. rewrite Hrec; [done|]. rewrite !len_cons. lia. }
  destruct s3 as [|d s4]; [rewrite esc_bad_unquote, Hrec; [done|]; rewrite !len_cons; lia|].
  destruct (lead4 a b c d) eqn:H4; [|rewrite esc_bad_unquote, Hrec; [done|]; rewrite !len_cons; lia].
  cbn [unquote]. rewrite Hbs, Ha, H2, H3, H4, Hrec; [done|]. rewrite !len_cons. lia.
Qed.

(** ** Values *)

Definition is_ws (c : ascii) : bool := bool_decide (c ∈ [" "; "009"; "010"; "013"]%char).

(** A value with the whitespace of its text: [pad] is what an empty container
    holds, an item has the whitespace before and after it, a member the
    whitespace before its key, before and after the colon and after its
    value.  [JNum] and [JStr] keep the text of the literal. *)
Record pads := mkPads { p_key : string; p_colon : string; p_value : string; p_end : string }.

#[export] Instance pads_eq_dec : EqDecision pads.
Proof. solve_decision. Defined.

Inductive json :=
| JNull
| JBool (b : bool)
| JNum (lit : string)
| JStr (lit : string)
| JArr (pad : string) (items : list (string * json * string))
| JObj (pad : string) (members : list (string * pads * json)).

Section json_ind.
Variable P : json → Prop.
Hypothesis HNull : P JNull.
Hypothesis HBool : ∀ b, P (JBool b).
Hypothesis HNum : ∀ l, P (JNum l).
Hypothesis HStr : ∀ l, P (JStr l).
Hypothesis HArr : ∀ w l, Forall (λ i, P i.1.2) l → P (JArr w l).
Hypothesis HObj : ∀ w l, Forall (λ m, P m.2) l → P (JObj w l).

Fixpoint json_nested_ind (j : json) : P j :=
  match j with
  | JNull => HNull
  | JBool b => HBool b
  | JNum l => HNum l
  | JStr l => HStr l
  | JArr w l => HArr w l ((fix go l : Forall (λ i, P i.1.2) l :=
      match l with [] => Forall_nil_2 _ | i :: l => Forall_cons_2 _ _ _ (json_nested_ind i.1.2) (go l) end) l)
  | JObj w l => HObj w l ((fix go l : Forall (λ m, P m.2) l :=
      match l with [] => Forall_nil_2 _ | m :: l => Forall_cons_2 _ _ _ (json_nested_ind m.2) (go l) end) l)
  end.
End json_ind.

(** ** The text of a value *)

Definition str (c : ascii) : string := String c EmptyString.

Fixpoint render (j : json) : string :=
  match j with
  | JNull => "null"
  | JBool b => if b then "true" else "false"
  | JNum l => l
  | JStr l => str dquote +:+ l +:+ str dquote
  | JArr w l =>
      "[" +:+ w +:+
      (fix go l := match l with
                   | [] => "]"
                   | (a, v, b) :: l =>
                       a +:+ render v +:+ b +:+ match l with [] => "]" | _ => "," +:+ go l end
                   end) l
  | JObj w l =>
      "{" +:+ w +:+
      (fix go l := match l with
                   | [] => "}"
                   | (k, p, v) :: l =>
                       p_key p +:+ str dquote +:+ k +:+ str dquote +:+ p_colon p +:+ ":" +:+ p_value p +:+
                       render v +:+ p_end p +:+ match l with [] => "}" | _ => "," +:+ go l end
                   end) l
  end.

Fixpoint render_items (l : list (string * json * string)) : string :=
  match l with
  | [] => "]"
  | (a, v, b) :: l => a +:+ render v +:+ b +:+ match l with [] => "]" | _ => "," +:+ render_items l end
  end.

Fixpoint render_members (l : list (string * pads * json)) : string :=
  match l with
  | [] => "}"
  | (k, p, v) :: l =>
      p_key p +:+ str dquote +:+ k +:+ str dquote +:+ p_colon p +:+ ":" +:+ p_value p +:+
      render v +:+ p_end p +:+ match l with [] => "}" | _ => "," +:+ render_members l end
  end.

Lemma render_JArr w l : render (JArr w l) = "[" +:+ w +:+ render_items l.
Proof. reflexivity. Qed.

Lemma render_JObj w l : render (JObj w l) = "{" +:+ w +:+ render_members l.
Proof. reflexivity. Qed.

(** ** Tokens *)

(** The longest prefix of bytes satisfying [f]. *)
Fixpoint span (f : ascii → bool) (s : string) : string * string :=
  match s with
  | EmptyString => (EmptyString, EmptyString)
  | String c r => if f c then let '(a, b) := span f r in (String c a, b) else (EmptyString, s)
  end.

Definition is_hex (c : ascii) : bool := bool_decide (is_Some (hex_val c)).
Definition num_digit : ascii → bool := in_range 48 57.

(** A literal up to its closing quote, with the rest behind the quote. *)
Fixpoint lex_str (s : string) : option (string * string) :=
  match s with
  | EmptyString => None
  | String c s1 =>
      if bool_decide (c = dquote) then Some (EmptyString, s1)
      else if in_range 0 31 c then None
      else if bool_decide (c = backslash) then
        match s1 with
        | EmptyString => None
        | String e s2 =>
            if bool_decide (is_Some (simple_escape e)) then
              '(l, r) ← lex_str s2; Some (String c (String e l), r)
            else if bool_decide (e = "u"%char) then
              match s2 with
              | String h1 (String h2 (String h3 (String h4 s6))) =>
                  if is_hex h1 && is_hex h2 && is_hex h3 && is_hex h4 then
                    '(l, r) ← lex_str s6;
                    Some (String c (String e (String h1 (String h2 (String h3 (String h4 l))))), r)
                  else None
              | _ => None
              end
            else None
        end
      else '(l, r) ← lex_str s1; Some (String c l, r)
  end.

Definition digits1 (s : string) : option (string * string) :=
  let '(d, r) := span num_digit s in
  if bool_decide (d = EmptyString) then None else Some (d, r).

Definition lex_sign (cs : list ascii) (s : string) : string * string :=
  match s with
  | String c r => if bool_decide (c ∈ cs) then (str c, r) else (EmptyString, s)
  | EmptyString => (EmptyString, EmptyString)
  end.

(** A zero, or digits without a leading zero. *)
Definition lex_int (s : string) : option (string * string) :=
  match s with
  | String c r => if bool_decide (c = "0"%char) then Some (str c, r) else digits1 s
  | EmptyString => None
  end.

Definition lex_frac (s : string) : option (string * string) :=
  match s with
  | String c r =>
      if bool_decide (c = "."%char) then '(d, r) ← digits1 r; Some (String c d, r) else Some (EmptyString, s)
  | EmptyString => Some (EmptyString, EmptyString)
  end.

Definition lex_exp (s : string) : option (string * string) :=
  match s with
  | String c r =>
      if bool_decide (c ∈ ["e"; "E"]%char) then
        let '(sg, r) := lex_sign ["+"; "-"]%char r in
        '(d, r) ← digits1 r; Some (String c (sg +:+ d), r)
      else Some (EmptyString, s)
  | EmptyString => Some (EmptyString, EmptyString)
  end.

Definition lex_num (s : string) : option (string * string) :=
  let '(sg, r) := lex_sign ["-"]%char s in
  '(i, r) ← lex_int r;
  '(f, r) ← lex_frac r;
  '(e, r) ← lex_exp r;
  Some (sg +:+ i +:+ f +:+ e, r).

(** A byte that must come next. *)
Definition expect (c : ascii) (s : string) : option string :=
  match s with
  | String d r => if bool_decide (d = c) then Some r else None
  | EmptyString => None
  end.

Fixpoint expect_all (w s : string) : option string :=
  match w with
  | EmptyString => Some s
  | String c w => r ← expect c s; expect_all w r
  end.

(** ** The parser *)

Fixpoint pvalue (n : nat) (s : string) : option (json * string) :=
  match n, s with
  | S n, String c r =>
      if bool_decide (c = "{"%char) then
        let '(w, r1) := span is_ws r in
        match expect "}" r1 with
        | Some r2 => Some (JObj w [], r2)
        | None => '(l, r2) ← pmembers n r; Some (JObj EmptyString l, r2)
        end
      else if bool_decide (c = "["%char) then
        let '(w, r1) := span is_ws r in
        match expect "]" r1 with
        | Some r2 => Some (JArr w [], r2)
        | None => '(l, r2) ← pitems n r; Some (JArr EmptyString l, r2)
        end
      else if bool_decide (c = dquote) then '(l, r2) ← lex_str r; Some (JStr l, r2)
      else if bool_decide (c = "t"%char) then r2 ← expect_all "rue" r; Some (JBool true, r2)
      else if bool_decide (c = "f"%char) then r2 ← expect_all "alse" r; Some (JBool false, r2)
      else if bool_decide (c = "n"%char) then r2 ← expect_all "ull" r; Some (JNull, r2)
      else '(l, r2) ← lex_num s; Some (JNum l, r2)
  | _, _ => None
  end
with pitems (n : nat) (s : string) : option (list (string * json * string) * string) :=
  match n with
  | O => None
  | S n =>
      let '(a, s1) := span is_ws s in
      '(v, s2) ← pvalue n s1;
      let '(b, s3) := span is_ws s2 in
      match s3 with
      | String c s4 =>
          if bool_decide (c = "]"%char) then Some ([(a, v, b)], s4)
          else if bool_decide (c = ","%char) then '(l, r) ← pitems n s4; Some ((a, v, b) :: l, r)
          else None
      | EmptyString => None
      end
  end
with pmembers (n : nat) (s : string) : option (list (string * pads * json) * string) :=
  match n with
  | O => None
  | S n =>
      let '(w1, s1) := span is_ws s in
      s2 ← expect dquote s1;
      '(k, s3) ← lex_str s2;
      let '(w2, s4) := span is_ws s3 in
      s5 ← expect ":" s4;
      let '(w3, s6) := span is_ws s5 in
      '(v, s7) ← pvalue n s6;
      let '(w4, s8) := span is_ws s7 in
      match s8 with
      | String c s9 =>
          if bool_decide (c = "}"%char) then Some ([(k, mkPads w1 w2 w3 w4, v)], s9)
          else if bool_decide (c = ","%char) then
            '(l, r) ← pmembers n s9; Some ((k, mkPads w1 w2 w3 w4, v) :: l, r)
          else None
      | EmptyString => None
      end
  end.

(** [checkValid] and the parse: one value, whitespace around it, nothing else. *)
Definition Parse (s : string) : option json :=
  '(v, r) ← pvalue (S (len s)) (span is_ws s).2;
  if sforallb is_ws r then Some v else None.

(** ** The grammar *)

Definition num_ok (l : string) : bool := bool_decide (lex_num l = Some (l, EmptyString)).
Definition str_ok (l : string) : bool := bool_decide (lex_str (l +:+ str dquote) = Some (l, EmptyString)).
Definition ws_ok (w : string) : bool := sforallb is_ws w.
Definition pads_ok (p : pads) : bool := ws_ok (p_key p) && ws_ok (p_colon p) && ws_ok (p_value p) && ws_ok (p_end p).

Fixpoint wf (j : json) : bool :=
  match j with
  | JNull | JBool _ => true
  | JNum l => num_ok l
  | JStr l => str_ok l
  | JArr w l =>
      ws_ok w && (bool_decide (l = []) || bool_decide (w = EmptyString)) &&
      forallb (λ i, ws_ok i.1.1 && wf i.1.2 && ws_ok i.2) l
  | JObj w l =>
      ws_ok w && (bool_decide (l = []) || bool_decide (w = EmptyString)) &&
      forallb (λ m, str_ok m.1.1 && pads_ok m.1.2 && wf m.2) l
  end.

(** ** Lexers: soundness and completeness *)

(** The first byte, if there is one, does not satisfy [f]. *)
Definition head_not (f : ascii → bool) (s : string) : bool :=
  match s with String c _ => negb (f c) | EmptyString => true end.

Lemma span_sound f s a b : span f s = (a, b) → s = a +:+ b ∧ sforallb f a = true ∧ head_not f b = true.
Proof.
  revert a b. induction s as [|c s IH]; simpl; intros a b; [by intros [= <- <-]|].
  destruct (f c) eqn:Hc; [|intros [= <- <-]; simpl; by rewrite Hc].
  destruct (span f s) as [a' b'] eqn:Hs. intros [= <- <-]. destruct (IH _ _ eq_refl) as (-> & Ha & Hb).
  simpl. by rewrite Hc, Ha.
Qed.

Lemma span_app f a b : sforallb f a = true → head_not f b = true → span f (a +:+ b) = (a, b).
Proof.
  induction a as [|c a IH]; simpl; intros Ha Hb.
  - destruct b as [|c b]; [done|]. simpl in *. by destruct (f c).
  - rewrite !andb_true_iff in Ha. destruct Ha as [-> Ha]. by rewrite IH.
Qed.

Lemma head_not_app f s t : s ≠ EmptyString → head_not f (s +:+ t) = head_not f s.
Proof. by destruct s. Qed.

Lemma expect_sound c s r : expect c s = Some r → s = String c r.
Proof. destruct s as [|d s]; [done|]. simpl. case_bool_decide; [|done]. intros [= <-]. by subst. Qed.

Lemma expect_cons c r : expect c (String c r) = Some r.
Proof. simpl. by rewrite bool_decide_eq_true_2. Qed.

Lemma expect_all_sound w s r : expect_all w s = Some r → s = w +:+ r.
Proof.
  revert s. induction w as [|c w IH]; simpl; intros s; [by intros [= ->]|].
  destruct (expect c s) as [s'|] eqn:He; [|done]. apply expect_sound in He as ->. simpl. intros H.
  by rewrite (IH _ H).
Qed.

Lemma expect_all_app w r : expect_all w (w +:+ r) = Some r.
Proof. induction w as [|c w IH]; [done|]. cbn [expect_all]. rewrite sapp_cons, expect_cons. exact IH. Qed.
Lemma lex_str_sound s l r :
  lex_str s = Some (l, r) → s = l +:+ String dquote r ∧ ∀ t, lex_str (l +:+ String dquote t) = Some (l, t).
Proof.
  remember (len s) as n eqn:Hn. revert s l r Hn. induction n as [n IH] using lt_wf_ind. intros s l r ->.
  assert (Hrec : ∀ u l r, len u < len s → lex_str u = Some (l, r) →
                   u = l +:+ String dquote r ∧ ∀ t, lex_str (l +:+ String dquote t) = Some (l, t))
    by (intros u l' r' Hu; by eapply IH).
  clear IH. destruct s as [|c s1]; [done|]. cbn [lex_str]. case_bool_decide as Hq.
  { intros [= <- <-]. subst. done. }
  destruct (in_range 0 31 c) eqn:Hctl; [done|]. case_bool_decide as Hb.
  - destruct s1 as [|e s2]; [done|]. case_bool_decide as Hs.
    + destruct (lex_str s2) as [[l' r']|] eqn:Hl; [|done]. intros [= <- <-].
      destruct (Hrec s2 l' r') as [-> Ht]; [rewrite !len_cons; lia|done|]. split; [done|]. intros t.
      rewrite !sapp_cons. cbn [lex_str]. rewrite bool_decide_eq_false_2, Hctl, !bool_decide_eq_true_2 by done.
      by rewrite Ht.
    + case_bool_decide as Hu; [|done].
      destruct s2 as [|h1 [|h2 [|h3 [|h4 s6]]]]; try done.
      destruct (is_hex h1 && is_hex h2 && is_hex h3 && is_hex h4) eqn:Hh; [|done].
      destruct (lex_str s6) as [[l' r']|] eqn:Hl; [|done]. intros [= <- <-].
      destruct (Hrec s6 l' r') as [-> Ht]; [rewrite !len_cons; lia|done|]. split; [done|]. intros t.
      rewrite !sapp_cons. cbn [lex_str]. rewrite bool_decide_eq_false_2, Hctl by done.
      rewrite (bool_decide_eq_true_2 (c = _)), (bool_decide_eq_false_2 (is_Some _)), bool_decide_eq_true_2, Hh by done.
      by rewrite Ht.
  - destruct (lex_str s1) as [[l' r']|] eqn:Hl; [|done]. intros [= <- <-].
    destruct (Hrec s1 l' r') as [-> Ht]; [rewrite !len_cons; lia|done|]. split; [done|]. intros t.
    rewrite !sapp_cons. cbn [lex_str]. rewrite bool_decide_eq_false_2, Hctl, bool_decide_eq_false_2 by done.
    by rewrite Ht.
Qed.

Lemma lex_str_complete l t : str_ok l = true → lex_str (l +:+ String dquote t) = Some (l, t).
Proof. unfold str_ok. rewrite bool_decide_eq_true. intros H. by destruct (lex_str_sound _ _ _ H) as [_ Ht]. Qed.

Lemma lex_str_ok s l r : lex_str s = Some (l, r) → s = l +:+ String dquote r ∧ str_ok l = true.
Proof.
  intros H. destruct (lex_str_sound _ _ _ H) as [-> Ht]. split; [done|]. unfold str_ok.
  apply bool_decide_eq_true. apply Ht.
Qed.

(** Numbers. *)
Definition num_char (c : ascii) : bool := num_digit c || bool_decide (c ∈ ["."; "e"; "E"]%char).

Lemma digits1_sound s d r :
  digits1 s = Some (d, r) → s = d +:+ r ∧ d ≠ EmptyString ∧ sforallb num_digit d = true ∧ head_not num_digit r = true.
Proof.
  unfold digits1. destruct (span num_digit s) as [d' r'] eqn:Hs. case_bool_decide; [done|]. intros [= <- <-].
  destruct (span_sound _ _ _ _ Hs) as (-> & ? & ?). done.
Qed.

Lemma digits1_app d t :
  d ≠ EmptyString → sforallb num_digit d = true → head_not num_digit t = true → digits1 (d +:+ t) = Some (d, t).
Proof. intros. unfold digits1. rewrite span_app by done. by rewrite bool_decide_eq_false_2. Qed.

Lemma lex_sign_sound cs s sg r :
  lex_sign cs s = (sg, r) → s = sg +:+ r ∧ ((∃ c, sg = str c ∧ c ∈ cs) ∨ sg = EmptyString).
Proof.
  destruct s as [|c s]; simpl; [by intros [= <- <-]; auto|].
  case_bool_decide; intros [= <- <-]; split; try done; [left; by exists c|by right].
Qed.

Lemma lex_sign_app cs sg t :
  ((∃ c, sg = str c ∧ c ∈ cs) ∨ sg = EmptyString ∧ head_not (λ c, bool_decide (c ∈ cs)) t = true) →
  lex_sign cs (sg +:+ t) = (sg, t).
Proof.
  intros [(c & -> & Hc)|[-> Hc]]; [simpl; by rewrite bool_decide_eq_true_2|].
  rewrite sapp_nil_l. destruct t as [|c t]; [done|]. simpl in *. by case_bool_decide.
Qed.

Lemma lex_int_sound s i r : lex_int s = Some (i, r) →
  s = i +:+ r ∧ head_not num_digit i = false ∧ ∀ t, head_not num_digit t = true → lex_int (i +:+ t) = Some (i, t).
Proof.
  destruct s as [|c s]; [done|]. unfold lex_int at 1. case_bool_decide as H0.
  { intros [= <- <-]. subst. done. }
  intros H. destruct (digits1_sound _ _ _ H) as (He & Hi & Hd & Hr). split; [done|].
  destruct i as [|c' i]; [done|]. injection He as <- ->. split.
  { simpl in *. by destruct (num_digit c). }
  intros t Ht. rewrite sapp_cons. unfold lex_int. rewrite bool_decide_eq_false_2 by done. rewrite <-sapp_cons.
  by apply digits1_app.
Qed.

Definition frac_char (c : ascii) : bool := num_digit c || bool_decide (c = "."%char).
Definition exp_char (c : ascii) : bool := num_digit c || bool_decide (c ∈ ["e"; "E"]%char).

Lemma head_not_orb f g s : head_not (λ c, f c || g c) s = head_not f s && head_not g s.
Proof. destruct s; [done|]. simpl. by rewrite negb_orb. Qed.

Lemma lex_frac_sound s f r : lex_frac s = Some (f, r) →
  s = f +:+ r ∧ (f = EmptyString ∨ head_not frac_char f = false ∧ head_not num_digit f = true) ∧
  ∀ t, head_not frac_char t = true → lex_frac (f +:+ t) = Some (f, t).
Proof.
  assert (Hnil : ∀ t, head_not frac_char t = true → lex_frac t = Some (EmptyString, t)).
  { intros [|c t]; [done|]. unfold frac_char. simpl. case_bool_decide; [|done]. by rewrite orb_true_r. }
  destruct s as [|c s]; [intros [= <- <-]; auto|]. simpl. case_bool_decide as H0; [|intros [= <- <-]; auto].
  destruct (digits1 s) as [[d r']|] eqn:Hd; [|done]. intros [= <- <-].
  destruct (digits1_sound _ _ _ Hd) as (-> & Hi & Hdd & Hr). split; [done|]. split; [right; by subst|].
  intros t Ht. rewrite sapp_cons. unfold frac_char in Ht. rewrite head_not_orb, andb_true_iff in Ht.
  simpl. rewrite bool_decide_eq_true_2 by done. rewrite digits1_app by tauto. done.
Qed.

Lemma lex_exp_sound s e r : lex_exp s = Some (e, r) →
  s = e +:+ r ∧ (e = EmptyString ∨ head_not frac_char e = true) ∧
  ∀ t, head_not exp_char t = true → lex_exp (e +:+ t) = Some (e, t).
Proof.
  assert (Hnil : ∀ t, head_not exp_char t = true → lex_exp t = Some (EmptyString, t)).
  { intros [|c t]; [done|]. unfold exp_char. simpl. case_bool_decide; [|done]. by rewrite orb_true_r. }
  destruct s as [|c s]; [intros [= <- <-]; auto|]. simpl. case_bool_decide as H0; [|intros [= <- <-]; auto].
  destruct (lex_sign _ s) as [sg s1] eqn:Hs. destruct (lex_sign_sound _ _ _ _ Hs) as [-> Hsg].
  destruct (digits1 s1) as [[d r']|] eqn:Hd; [|done]. intros [= <- <-].
  destruct (digits1_sound _ _ _ Hd) as (-> & Hi & Hdd & Hr). split; [by rewrite sapp_cons, sapp_assoc|].
  split; [right; set_unfold in H0; destruct_or? H0; by subst|].
  intros t Ht. rewrite sapp_cons, sapp_assoc. unfold exp_char in Ht. rewrite head_not_orb, andb_true_iff in Ht.
  simpl. rewrite bool_decide_eq_true_2 by done. rewrite lex_sign_app.
  2:{ destruct Hsg as [?| ->]; [by left|right]. split; [done|]. rewrite head_not_app by done.
      destruct d as [|x d]; [done|]. simpl in *. rewrite andb_true_iff in Hdd. destruct Hdd as [Hx _].
      apply negb_true_iff, bool_decide_eq_false_2. intros Hin. set_unfold in Hin. destruct_or? Hin; by subst. }
  rewrite digits1_app by tauto. done.
Qed.

Lemma head_not_impl f g s : (∀ c, f c = true → g c = true) → head_not g s = true → head_not f s = true.
Proof. intros H. destruct s as [|c s]; [done|]. simpl. specialize (H c). destruct (f c), (g c); auto. Qed.

Lemma head_not_app_inv f s t : head_not f s = true → head_not f t = true → head_not f (s +:+ t) = true.
Proof. by destruct s. Qed.

Lemma num_char_frac c : frac_char c = true → num_char c = true.
Proof. unfold frac_char, num_char. destruct (num_digit c); [done|]. simpl. rewrite !bool_decide_eq_true. intros ->. set_solver. Qed.
Lemma num_char_exp c : exp_char c = true → num_char c = true.
Proof. unfold exp_char, num_char. destruct (num_digit c); [done|]. simpl. rewrite !bool_decide_eq_true, !elem_of_cons. tauto. Qed.
Lemma frac_char_digit c : num_digit c = true → frac_char c = true.
Proof. unfold frac_char. by intros ->. Qed.

Lemma lex_num_sound s l r : lex_num s = Some (l, r) →
  s = l +:+ r ∧ head_not (λ c, num_digit c || bool_decide (c = "-"%char)) l = false ∧
  ∀ t, head_not num_char t = true → lex_num (l +:+ t) = Some (l, t).
Proof.
  unfold lex_num at 1. destruct (lex_sign _ s) as [sg s1] eqn:Hs. destruct (lex_sign_sound _ _ _ _ Hs) as [-> Hsg].
  destruct (lex_int s1) as [[i s2]|] eqn:Hi; [|done]. destruct (lex_int_sound _ _ _ Hi) as (-> & Hih & Hit). simpl.
  destruct (lex_frac s2) as [[f s3]|] eqn:Hf; [|done]. destruct (lex_frac_sound _ _ _ Hf) as (-> & Hfh & Hft). simpl.
  destruct (lex_exp s3) as [[e s4]|] eqn:He; [|done]. destruct (lex_exp_sound _ _ _ He) as (-> & Heh & Het). simpl.
  intros [= <- <-]. split; [by rewrite !sapp_assoc|].
  assert (Hine : i ≠ EmptyString) by (by intros ->). split.
  { rewrite head_not_orb. destruct Hsg as [(c & -> & Hc)| ->].
    - set_unfold in Hc. destruct_or? Hc; by subst.
    - rewrite sapp_nil_l, head_not_app by done. by rewrite Hih. }
  intros t Ht. rewrite !sapp_assoc. unfold lex_num.
  assert (Hft' : head_not frac_char t = true) by (eapply head_not_impl; [apply num_char_frac|done]).
  assert (Het' : head_not exp_char t = true) by (eapply head_not_impl; [apply num_char_exp|done]).
  assert (H1 : head_not frac_char (e +:+ t) = true) by (apply head_not_app_inv; [by destruct Heh as [->|?]|done]).
  assert (H2 : head_not num_digit (f +:+ e +:+ t) = true).
  { apply head_not_app_inv; [by destruct Hfh as [->|[??]]|]. eapply head_not_impl; [apply frac_char_digit|done]. }
  rewrite lex_sign_app.
  2:{ destruct Hsg as [?| ->]; [by left|right]. split; [done|]. rewrite head_not_app by done.
      destruct i as [|c i]; [done|]. simpl in *. apply negb_true_iff, bool_decide_eq_false_2. intros Hin.
      set_unfold in Hin. destruct_or? Hin; by subst. }
  rewrite Hit by done. simpl. rewrite Hft by done. simpl. rewrite Het by done. done.
Qed.

Lemma lex_num_ok s l r : lex_num s = Some (l, r) → s = l +:+ r ∧ num_ok l = true.
Proof.
  intros H. destruct (lex_num_sound _ _ _ H) as (-> & _ & Ht). split; [done|]. unfold num_ok.
  apply bool_decide_eq_true. specialize (Ht EmptyString eq_refl). by rewrite sapp_nil_r in Ht.
Qed.

Lemma lex_num_complete l t : num_ok l = true → head_not num_char t = true → lex_num (l +:+ t) = Some (l, t).
Proof. unfold num_ok. rewrite bool_decide_eq_true. intros H. by destruct (lex_num_sound _ _ _ H) as (_ & _ & Ht); auto. Qed.

Lemma num_ok_head l : num_ok l = true → head_not (λ c, num_digit c || bool_decide (c = "-"%char)) l = false.
Proof. unfold num_ok. rewrite bool_decide_eq_true. intros H. by destruct (lex_num_sound _ _ _ H) as (_ & Hh & _). Qed.

(** What may follow a value: after a number, no byte that would extend it. *)
Definition follow (j : json) (r : string) : bool :=
  match j with JNum _ => head_not num_char r | _ => true end.

(** The first byte of a value. *)
Lemma render_head j : wf j = true →
  ∃ c s, render j = String c s ∧ is_ws c = false ∧ c ≠ "]"%char.
Proof.
  destruct j as [|[]|l|l|w l|w l]; intros Hwf; try (by eexists _, _; split; [reflexivity|]).
  simpl in Hwf. apply num_ok_head in Hwf. destruct l as [|c l]; [done|]. exists c, l. split; [done|].
  destruct c as [[] [] [] [] [] [] [] []]; try discriminate Hwf; by split.
Qed.

Lemma ws_head_not f w r : (∀ c, is_ws c = true → f c = false) → ws_ok w = true → head_not f r = true → head_not f (w +:+ r) = true.
Proof.
  intros Hf Hw Hr. destruct w as [|c w]; [done|]. unfold ws_ok in Hw. simpl in *. rewrite andb_true_iff in Hw. destruct Hw as [Hc _]. by rewrite Hf.
Qed.

Lemma ws_not_num c : is_ws c = true → num_char c = false.
Proof. unfold is_ws. rewrite bool_decide_eq_true. intros H. set_unfold in H. destruct_or? H; by subst. Qed.

Lemma follow_ws j w r : ws_ok w = true → head_not num_char r = true → follow j (w +:+ r) = true.
Proof. intros. destruct j; try done. apply ws_head_not; [apply ws_not_num|done|done]. Qed.

Lemma span_ws_value w j r : ws_ok w = true → wf j = true → span is_ws (w +:+ render j +:+ r) = (w, render j +:+ r).
Proof.
  intros Hw Hj. apply span_app; [done|]. destruct (render_head j Hj) as (c & s & -> & Hc & _). simpl. by rewrite Hc.
Qed.

(** *** Soundness *)

Lemma forallb_cons {A} (f : A → bool) x l : forallb f (x :: l) = f x && forallb f l.
Proof. done. Qed.

Lemma parser_sound n :
  (∀ s j r, pvalue n s = Some (j, r) → s = render j +:+ r ∧ wf j = true) ∧
  (∀ s l r, pitems n s = Some (l, r) → s = render_items l +:+ r ∧ l ≠ [] ∧
     forallb (λ i, ws_ok i.1.1 && wf i.1.2 && ws_ok i.2) l = true) ∧
  (∀ s l r, pmembers n s = Some (l, r) → s = render_members l +:+ r ∧ l ≠ [] ∧
     forallb (λ m, str_ok m.1.1 && pads_ok m.1.2 && wf m.2) l = true).
Proof.
  induction n as [|n (IHv & IHi & IHm)]; [by repeat split|]. split_and!.
  - intros [|c s] j r; [done|]. cbn [pvalue]. case_bool_decide as Hc.
    { destruct (span is_ws s) as [w r1] eqn:Hw. destruct (span_sound _ _ _ _ Hw) as (-> & Hws & _).
      destruct (expect _ r1) as [r2|] eqn:He.
      { apply expect_sound in He as ->. intros [= <- <-]. rewrite render_JObj. split; [by rewrite Hc, !sapp_assoc|].
        simpl. unfold ws_ok. by rewrite Hws. }
      destruct (pmembers n _) as [[l r2]|] eqn:Hm; [|done]. intros [= <- <-].
      destruct (IHm _ _ _ Hm) as (-> & Hl & Hok). rewrite render_JObj. split; [by rewrite Hc|].
      cbn [wf]. rewrite Hok. by destruct l. }
    clear Hc. case_bool_decide as Hc.
    { destruct (span is_ws s) as [w r1] eqn:Hw. destruct (span_sound _ _ _ _ Hw) as (-> & Hws & _).
      destruct (expect _ r1) as [r2|] eqn:He.
      { apply expect_sound in He as ->. intros [= <- <-]. rewrite render_JArr. split; [by rewrite Hc, !sapp_assoc|].
        simpl. unfold ws_ok. by rewrite Hws. }
      destruct (pitems n _) as [[l r2]|] eqn:Hm; [|done]. intros [= <- <-].
      destruct (IHi _ _ _ Hm) as (-> & Hl & Hok). rewrite render_JArr. split; [by rewrite Hc|].
      cbn [wf]. rewrite Hok. by destruct l. }
    clear Hc. case_bool_decide as Hc.
    { destruct (lex_str s) as [[l r2]|] eqn:Hl; [|done]. intros [= <- <-].
      destruct (lex_str_ok _ _ _ Hl) as [-> Hok]. split; [|done]. subst c. cbn [render]. rewrite !sapp_assoc. reflexivity. }
    repeat (clear Hc; case_bool_decide as Hc;
      [destruct (expect_all _ s) as [r2|] eqn:He; [|done]; intros [= <- <-];
       apply expect_all_sound in He as ->; by subst c|]).
    clear Hc. destruct (lex_num _) as [[l r2]|] eqn:Hl; [|done]. intros [= <- <-]. by apply lex_num_ok.
  - intros s l r. cbn [pitems]. destruct (span is_ws s) as [a s1] eqn:Ha.
    destruct (span_sound _ _ _ _ Ha) as (-> & Haw & _).
    destruct (pvalue n s1) as [[v s2]|] eqn:Hv; [|done]. destruct (IHv _ _ _ Hv) as [-> Hvw]. simpl.
    destruct (span is_ws s2) as [b s3] eqn:Hb. destruct (span_sound _ _ _ _ Hb) as (-> & Hbw & _).
    destruct s3 as [|c s4]; [done|]. case_bool_decide as Hc.
    { intros [= <- <-]. subst c. simpl. unfold ws_ok. rewrite Haw, Hvw, Hbw, !sapp_assoc. by split_and!. }
    clear Hc. case_bool_decide as Hc; [|done]. destruct (pitems n s4) as [[l' r']|] eqn:Hi; [|done].
    intros [= <- <-]. destruct (IHi _ _ _ Hi) as (-> & Hne & Hok). subst c.
    rewrite forallb_cons, Hok. simpl. unfold ws_ok. rewrite Haw, Hvw, Hbw, !sapp_assoc. destruct l'; [done|]. by split_and!.
  - intros s l r. cbn [pmembers]. destruct (span is_ws s) as [w1 s1] eqn:H1.
    destruct (span_sound _ _ _ _ H1) as (-> & Hw1 & _).
    destruct (expect dquote s1) as [s2|] eqn:He; [|done]. apply expect_sound in He as ->. simpl.
    destruct (lex_str s2) as [[k s3]|] eqn:Hk; [|done]. destruct (lex_str_ok _ _ _ Hk) as [-> Hkok]. simpl.
    destruct (span is_ws s3) as [w2 s4] eqn:H2. destruct (span_sound _ _ _ _ H2) as (-> & Hw2 & _).
    destruct (expect ":" s4) as [s5|] eqn:He; [|done]. apply expect_sound in He as ->. simpl.
    destruct (span is_ws s5) as [w3 s6] eqn:H3. destruct (span_sound _ _ _ _ H3) as (-> & Hw3 & _).
    destruct (pvalue n s6) as [[v s7]|] eqn:Hv; [|done]. destruct (IHv _ _ _ Hv) as [-> Hvw]. simpl.
    destruct (span is_ws s7) as [w4 s8] eqn:H4. destruct (span_sound _ _ _ _ H4) as (-> & Hw4 & _).
    destruct s8 as [|c s9]; [done|]. case_bool_decide as Hc.
    { intros [= <- <-]. subst c. simpl. unfold pads_ok, ws_ok. simpl. rewrite Hkok, Hw1, Hw2, Hw3, Hw4, Hvw.
      repeat (rewrite ?sapp_assoc; simpl). by split_and!. }
    clear Hc. case_bool_decide as Hc; [|done]. destruct (pmembers n s9) as [[l' r']|] eqn:Hi; [|done].
    intros [= <- <-]. destruct (IHm _ _ _ Hi) as (-> & Hne & Hok). subst c.
    rewrite forallb_cons, Hok. simpl. unfold pads_ok, ws_ok. simpl. rewrite Hkok, Hw1, Hw2, Hw3, Hw4, Hvw.
    destruct l'; [done|]. repeat (rewrite ?sapp_assoc; simpl). by split_and!.
Qed.

(** *** Completeness *)

Definition items_ok (l : list (string * json * string)) : bool := forallb (λ i, ws_ok i.1.1 && wf i.1.2 && ws_ok i.2) l.
Definition members_ok (l : list (string * pads * json)) : bool := forallb (λ m, str_ok m.1.1 && pads_ok m.1.2 && wf m.2) l.

(** The parser reads back the text of [j], whatever follows, with the length
    of the text as fuel. *)
Definition parses (j : json) : Prop :=
  ∀ n r, len (render j) ≤ n → follow j r = true → pvalue n (render j +:+ r) = Some (j, r).

Lemma span_ws_char w c r : ws_ok w = true → is_ws c = false → span is_ws (w +:+ String c r) = (w, String c r).
Proof. intros Hw Hc. apply span_app; [done|]. simpl. by rewrite Hc. Qed.

Lemma render_pos j : wf j = true → 1 ≤ len (render j).
Proof. intros H. destruct (render_head j H) as (c & s & -> & _). rewrite len_cons. lia. Qed.

Lemma items_complete l : l ≠ [] → items_ok l = true → Forall (λ i, parses i.1.2) l →
  ∀ n r, len (render_items l) ≤ n → pitems n (render_items l +:+ r) = Some (l, r).
Proof.
  induction l as [|[[a v] b] l IH]; [done|]. intros _ Hok Hp n r Hn. unfold items_ok in Hok.
  rewrite forallb_cons in Hok. simpl in Hok. rewrite !andb_true_iff in Hok. destruct Hok as [[[Ha Hv] Hb] Hok].
  rewrite Forall_cons in Hp. destruct Hp as [Hpv Hp]. simpl in Hpv.
  set (tl := match l with [] => "]" | _ => "," +:+ render_items l end).
  assert (Hr : render_items ((a, v, b) :: l) = a +:+ render v +:+ b +:+ tl) by done. rewrite Hr in Hn |- *.
  assert (Htl : 1 ≤ len tl) by (unfold tl; destruct l; [simpl; lia|rewrite len_app; simpl; lia]).
  rewrite !len_app in Hn. destruct n as [|n]; [lia|]. cbn [pitems].
  rewrite !sapp_assoc, span_ws_value by done. rewrite Hpv; [|lia|apply follow_ws; [done|unfold tl; by destruct l]]. simpl.
  assert (Hsp : ∃ c u, tl +:+ r = String c u ∧ is_ws c = false) by (unfold tl; destruct l; by eexists _, _).
  assert (span is_ws (b +:+ tl +:+ r) = (b, tl +:+ r)) as ->.
  { destruct Hsp as (c & u & -> & Hc). by apply span_ws_char. }
  unfold tl. destruct l as [|i l]; [done|].
  change (("," +:+ render_items (i :: l)) +:+ r) with (String "," (render_items (i :: l) +:+ r)).
  cbv beta iota. rewrite (bool_decide_eq_false_2 (_ = _)), bool_decide_eq_true_2 by done.
  rewrite (IH ltac:(done) Hok Hp); [done|]. unfold tl in Hn. rewrite len_app in Hn. simpl in Hn |- *. lia.
Qed.

Lemma members_complete l : l ≠ [] → members_ok l = true → Forall (λ m, parses m.2) l →
  ∀ n r, len (render_members l) ≤ n → pmembers n (render_members l +:+ r) = Some (l, r).
Proof.
  induction l as [|[[k [w1 w2 w3 w4]] v] l IH]; [done|]. intros _ Hok Hp n r Hn. unfold members_ok in Hok.
  rewrite forallb_cons in Hok. unfold pads_ok in Hok. simpl in Hok. rewrite !andb_true_iff in Hok.
  destruct Hok as [[[Hk [[[H1 H2] H3] H4]] Hv] Hok].
  rewrite Forall_cons in Hp. destruct Hp as [Hpv Hp]. simpl in Hpv.
  set (tl := match l with [] => "}" | _ => "," +:+ render_members l end).
  assert (Hr : render_members ((k, mkPads w1 w2 w3 w4, v) :: l) +:+ r =
    w1 +:+ String dquote (k +:+ String dquote (w2 +:+ String ":" (w3 +:+ render v +:+ w4 +:+ tl +:+ r)))).
  { cbn [render_members p_key p_colon p_value p_end]. rewrite !sapp_assoc. done. }
  assert (Hl : len (render v) + len tl < n).
  { apply (f_equal len) in Hr. rewrite ?len_app, ?len_cons, ?len_app, ?len_cons, ?len_app, ?len_cons, ?len_app in Hr. lia. }
  rewrite Hr.
  assert (Htl : 1 ≤ len tl) by (unfold tl; destruct l; [simpl; lia|rewrite len_app; simpl; lia]).
  destruct n as [|n]; [lia|]. cbn [pmembers].
  rewrite span_ws_char, expect_cons by done. cbn [mbind option_bind]. rewrite lex_str_complete by done.
  cbn [mbind option_bind]. rewrite span_ws_char, expect_cons by done. cbn [mbind option_bind].
  rewrite span_ws_value by done. rewrite Hpv; [|lia|apply follow_ws; [done|unfold tl; by destruct l]].
  cbn [mbind option_bind].
  assert (Hsp : ∃ c u, tl +:+ r = String c u ∧ is_ws c = false) by (unfold tl; destruct l; by eexists _, _).
  assert (span is_ws (w4 +:+ tl +:+ r) = (w4, tl +:+ r)) as ->.
  { destruct Hsp as (c & u & -> & Hc). by apply span_ws_char. }
  unfold tl. destruct l as [|i l]; [done|].
  change (("," +:+ render_members (i :: l)) +:+ r) with (String "," (render_members (i :: l) +:+ r)).
  cbv beta iota. rewrite (bool_decide_eq_false_2 (_ = _)), bool_decide_eq_true_2 by done.
  rewrite (IH ltac:(done) Hok Hp); [done|]. unfold tl in Hl. rewrite len_app in Hl. simpl in Hl |- *. lia.
Qed.

Lemma expect_not c s : (∀ r, s ≠ String c r) → expect c s = None.
Proof. destruct s as [|d s]; [done|]. intros H. simpl. case_bool_decide; [|done]. subst. by destruct (H s). Qed.

Lemma items_head l r : l ≠ [] → items_ok l = true → expect "]" (span is_ws (render_items l +:+ r)).2 = None.
Proof.
  destruct l as [|[[a v] b] l]; [done|]. intros _ Hok. unfold items_ok in Hok. rewrite forallb_cons in Hok.
  simpl in Hok. rewrite !andb_true_iff in Hok. destruct Hok as [[[Ha Hv] Hb] _].
  cbn [render_items]. rewrite !sapp_assoc, span_ws_value by done. apply expect_not. intros u.
  destruct (render_head v Hv) as (c & s & -> & _ & Hc). simpl. by intros [= -> _].
Qed.

Lemma members_head l r : l ≠ [] → members_ok l = true → expect "}" (span is_ws (render_members l +:+ r)).2 = None.
Proof.
  destruct l as [|[[k p] v] l]; [done|]. intros _ Hok. unfold members_ok in Hok. rewrite forallb_cons in Hok.
  unfold pads_ok in Hok. simpl in Hok. rewrite !andb_true_iff in Hok. destruct Hok as [[[Hk [[[H1 H2] H3] H4]] Hv] Hok].
  cbn [render_members]. rewrite !sapp_assoc. unfold str at 1.
  rewrite sapp_cons, sapp_nil_l, span_ws_char by done. done.
Qed.

Lemma Forall_forallb_impl {A} (P Q : A → Prop) (f : A → bool) (l : list A) :
  Forall P l → forallb f l = true → (∀ x, P x → f x = true → Q x) → Forall Q l.
Proof.
  intros HP Hf HPQ. induction HP as [|x l Hx HP IH]; [done|]. rewrite forallb_cons, andb_true_iff in Hf.
  destruct Hf as [Hfx Hf]. constructor; auto.
Qed.

Lemma pvalue_complete j : wf j = true → parses j.
Proof.
  induction j as [|b|l|l|w l IH|w l IH] using json_nested_ind; intros Hwf n r Hn Hf;
    (destruct n as [|n]; [pose proof (render_pos _ Hwf); lia|]).
  - done.
  - by destruct b.
  - simpl in Hwf. pose proof (num_ok_head _ Hwf) as Hh. pose proof (lex_num_complete l r Hwf Hf) as Hl.
    cbn [render]. destruct l as [|c l]; [done|]. rewrite sapp_cons in Hl |- *. cbn [pvalue]. rewrite Hl.
    rewrite !bool_decide_eq_false_2; [done|..]; intros ->; discriminate Hh.
  - cbn [render]. rewrite !sapp_assoc. change (str dquote +:+ l +:+ str dquote +:+ r) with (String dquote (l +:+ String dquote r)).
    cbn [pvalue]. rewrite lex_str_complete by done. done.
  - rewrite render_JArr in Hn |- *. rewrite len_app in Hn. cbn [wf] in Hwf. rewrite !andb_true_iff in Hwf.
    destruct Hwf as [[Hw Hor] Hok]. change (("[" +:+ w +:+ render_items l) +:+ r) with (String "[" ((w +:+ render_items l) +:+ r)).
    rewrite sapp_assoc. cbn [pvalue]. rewrite bool_decide_eq_false_2, bool_decide_eq_true_2 by done.
    destruct l as [|i l]; [change (render_items [] +:+ r) with (String "]" r); by rewrite span_ws_char|].
    rewrite orb_true_iff, !bool_decide_eq_true in Hor. destruct Hor as [?| ->]; [done|]. rewrite sapp_nil_l.
    pose proof (items_head (i :: l) r ltac:(done) Hok) as He. destruct (span is_ws _) as [a b]. simpl in He. rewrite He.
    rewrite sapp_nil_l in Hn. change (len "[") with 1 in Hn.
    rewrite items_complete; [done|done|done| |lia].
    apply (Forall_forallb_impl _ _ _ _ IH Hok). intros x Hx. rewrite !andb_true_iff. intros [[_ Hv] _]. by apply Hx.
  - rewrite render_JObj in Hn |- *. rewrite len_app in Hn. cbn [wf] in Hwf. rewrite !andb_true_iff in Hwf.
    destruct Hwf as [[Hw Hor] Hok]. change (("{" +:+ w +:+ render_members l) +:+ r) with (String "{" ((w +:+ render_members l) +:+ r)).
    rewrite sapp_assoc. cbn [pvalue]. rewrite bool_decide_eq_true_2 by done.
    destruct l as [|i l]; [change (render_members [] +:+ r) with (String "}" r); by rewrite span_ws_char|].
    rewrite orb_true_iff, !bool_decide_eq_true in Hor. destruct Hor as [?| ->]; [done|]. rewrite sapp_nil_l.
    pose proof (members_head (i :: l) r ltac:(done) Hok) as He. destruct (span is_ws _) as [a b]. simpl in He. rewrite He.
    rewrite sapp_nil_l in Hn. change (len "{") with 1 in Hn.
    rewrite members_complete; [done|done|done| |lia].
    apply (Forall_forallb_impl _ _ _ _ IH Hok). intros x Hx. rewrite !andb_true_iff. intros [[_ _] Hv]. by apply Hx.
Qed.

(** [Parse] accepts exactly the texts of the grammar and returns their tree. *)
Lemma Parse_spec s j :
  Parse s = Some j ↔ ∃ w1 w2, s = w1 +:+ render j +:+ w2 ∧ ws_ok w1 = true ∧ ws_ok w2 = true ∧ wf j = true.
Proof.
  unfold Parse. split.
  - destruct (span is_ws s) as [w1 s1] eqn:Hs. destruct (span_sound _ _ _ _ Hs) as (-> & Hw1 & _). cbn [snd].
    destruct (pvalue _ s1) as [[v r]|] eqn:Hv; [|done]. cbn [mbind option_bind].
    destruct (proj1 (parser_sound _) _ _ _ Hv) as [-> Hwf]. destruct (sforallb is_ws r) eqn:Hr; [|done].
    intros [= <-]. by exists w1, r.
  - intros (w1 & w2 & -> & H1 & H2 & Hwf). rewrite span_ws_value by done. cbn [snd].
    rewrite (pvalue_complete j Hwf); cbn [mbind option_bind].
    + unfold ws_ok in H2. by rewrite H2.
    + rewrite !len_app. lia.
    + rewrite <-(sapp_nil_r w2). by apply follow_ws.
Qed.

Lemma Parse_render j : wf j = true → Parse (render j) = Some j.
Proof. intros H. apply Parse_spec. exists EmptyString, EmptyString. by rewrite sapp_nil_r. Qed.

(** A proper prefix of the text of an object is no JSON text. *)
Lemma Parse_object_prefix w l p q :
  wf (JObj w l) = true → render (JObj w l) = p +:+ q → q ≠ EmptyString → Parse p = None.
Proof.
  intros Hwf Hr Hq. destruct (Parse p) as [j|] eqn:Hp; [|done]. exfalso.
  apply Parse_spec in Hp as (w1 & w2 & -> & H1 & H2 & Hj). rewrite !sapp_assoc in Hr.
  assert (w1 = EmptyString) as ->.
  { destruct w1 as [|c w1]; [done|]. rewrite render_JObj in Hr. injection Hr as <- _. done. }
  rewrite sapp_nil_l in Hr.
  assert (Hf : follow j (w2 +:+ q) = true).
  { destruct j as [| |l'| | |]; try done. destruct l' as [|c l']; [done|]. injection Hr as <- _. by apply num_ok_head in Hj. }
  assert (∃ n, len (render j) ≤ n ∧ len (render (JObj w l)) ≤ n) as (n & Hn1 & Hn2)
    by (exists (len (render j) + len (render (JObj w l))); lia).
  pose proof (pvalue_complete j Hj n (w2 +:+ q) Hn1 Hf) as E1.
  pose proof (pvalue_complete _ Hwf n EmptyString Hn2 eq_refl) as E2.
  rewrite sapp_nil_r, Hr, E1 in E2. injection E2 as _ E2. by destruct w2, q.
Qed.
