(* ===== verification/JsonText.v ===== *)
(** * JSON texts the encoder writes

    The literals of [json.Marshal] are literals of the grammar, decimal
    integers are numbers of the grammar, the compaction of a raw message keeps
    a value of the grammar, and a compact text has no control character. *)

From S2P Require Import Prelude GoStrings Decimal Stream Json.
From Stdlib Require Import ZArith Ascii Lia.

(** ** Literals the encoder writes *)

(** [p] is a piece of a string literal: whatever literal follows, the lexer
    passes over [p]. *)
Definition lexes (p : string) : Prop :=
  ∀ u l r, lex_str u = Some (l, r) → lex_str (p +:+ u) = Some (p +:+ l, r).

Lemma lexes_nil : lexes EmptyString.
Proof. by intros u l r. Qed.

Lemma lexes_app p q : lexes p → lexes q → lexes (p +:+ q).
Proof. intros Hp Hq u l r H. rewrite !sapp_assoc. by apply Hp, Hq. Qed.

Definition plain_char (c : ascii) : bool :=
  negb (bool_decide (c = dquote)) && negb (in_range 0 31 c) && negb (bool_decide (c = backslash)).

Lemma lexes_char c : plain_char c = true → lexes (str c).
Proof.
  unfold plain_char. rewrite !andb_true_iff, !negb_true_iff. intros [[Hq Hc] Hb] u l r H.
  unfold str. rewrite !sapp_cons, !sapp_nil_l. cbn [lex_str]. by rewrite Hq, Hc, Hb, H.
Qed.

Lemma lexes_cons c p : plain_char c = true → lexes p → lexes (String c p).
Proof. intros Hc Hp. change (String c p) with (str c +:+ p). apply lexes_app; [by apply lexes_char|done]. Qed.

Lemma lexes_str_ok p : lexes p → str_ok p = true.
Proof.
  intros H. unfold str_ok. apply bool_decide_eq_true. specialize (H (str dquote) EmptyString EmptyString eq_refl).
  by rewrite sapp_nil_r in H.
Qed.

Lemma lexes_escape e : bool_decide (is_Some (simple_escape e)) = true → lexes (String backslash (str e)).
Proof. intros He u l r H. unfold str. rewrite !sapp_cons, !sapp_nil_l. cbn [lex_str]. by rewrite He, H. Qed.

Lemma lexes_unicode h1 h2 h3 h4 :
  is_hex h1 && is_hex h2 && is_hex h3 && is_hex h4 = true →
  lexes (String backslash (String "u" (String h1 (String h2 (String h3 (str h4)))))).
Proof. intros Hh u l r H. unfold str. rewrite !sapp_cons, !sapp_nil_l. cbn [lex_str]. by rewrite Hh, H. Qed.

(** One piece of a literal, known. *)
Ltac lex_piece :=
  match goal with
  | |- lexes ?p => let t := eval vm_compute in p in change (lexes t);
      first [apply lexes_char; reflexivity | apply lexes_escape; reflexivity | apply lexes_unicode; reflexivity]
  end.

Lemma lexes_esc_char c : in_range 0 127 c = true → lexes (esc_char c).
Proof. destruct c as [[] [] [] [] [] [] [] []]; intros Hr; try discriminate Hr; lex_piece. Qed.

Lemma lexes_esc_bad : lexes esc_bad.
Proof. lex_piece. Qed.

Lemma high_plain c : in_range 128 255 c = true → plain_char c = true.
Proof. by destruct c as [[] [] [] [] [] [] [] []]. Qed.

Lemma lead_high a b c d :
  (lead2 a b = true → plain_char a = true ∧ plain_char b = true) ∧
  (lead3 a b c = true → plain_char a = true ∧ plain_char b = true ∧ plain_char c = true) ∧
  (lead4 a b c d = true → plain_char a = true ∧ plain_char b = true ∧ plain_char c = true ∧ plain_char d = true).
Proof.
  unfold lead2, lead3, lead4, cont.
  split_and!; intros H; repeat split; apply high_plain; revert H; unfold in_range;
    repeat setoid_rewrite orb_true_iff; repeat setoid_rewrite andb_true_iff; repeat setoid_rewrite Z.leb_le; lia.
Qed.

Lemma lexes_esc3 a b c : plain_char a = true → plain_char b = true → plain_char c = true → lexes (esc3 a b c).
Proof.
  intros Ha Hb Hc.
  assert (lexes (String a (String b (str c)))) as H by (apply lexes_cons; [done|]; apply lexes_cons; [done|]; by apply lexes_char).
  unfold esc3. destruct (_ && _); [|exact H]. case_bool_decide; [lex_piece|]. case_bool_decide; [lex_piece|exact H].
Qed.

Lemma lexes_quote s : lexes (quote s).
Proof.
  remember (len s) as n eqn:Hn. revert s Hn. induction n as [n IH] using lt_wf_ind. intros s ->.
  assert (Hrec : ∀ t, len t < len s → lexes (quote t)) by (intros t Ht; by eapply IH).
  destruct s as [|a s1]; [apply lexes_nil|]. cbn [quote].
  assert (Hbad : lexes (esc_bad +:+ quote s1)) by (apply lexes_app; [apply lexes_esc_bad|apply Hrec; rewrite len_cons; lia]).
  destruct (in_range 0 127 a) eqn:Ha; [apply lexes_app; [by apply lexes_esc_char|apply Hrec; rewrite len_cons; lia]|].
  destruct s1 as [|b s2]; [apply lexes_esc_bad|]. destruct (lead2 a b) eqn:H2.
  { apply (lead_high a b a a) in H2 as (? & ?). repeat (apply lexes_cons; [done|]). apply Hrec. rewrite !len_cons. lia. }
  destruct s2 as [|c s3]; [done|]. destruct (lead3 a b c) eqn:H3.
  { apply (lead_high a b c a) in H3 as (? & ? & ?). apply lexes_app; [by apply lexes_esc3|apply Hrec; rewrite !len_cons; lia]. }
  destruct s3 as [|d s4]; [done|]. destruct (lead4 a b c d) eqn:H4; [|done].
  apply (lead_high a b c d) in H4 as (? & ? & ? & ?). repeat (apply lexes_cons; [done|]). apply Hrec. rewrite !len_cons. lia.
Qed.

Lemma quote_ok s : str_ok (quote s) = true.
Proof. apply lexes_str_ok, lexes_quote. Qed.

(** *** Numbers *)

Lemma num_digit_is_digit s : sforallb is_digit s = true → sforallb num_digit s = true.
Proof. induction s as [|c s IH]; [done|]. simpl. rewrite !andb_true_iff. intros [Hc Hs]. by rewrite IH. Qed.

Lemma format_fuel_head fuel z acc : (0 < z < 10 ^ Z.of_nat fuel)%Z →
  ∃ c s, format_fuel fuel z acc = String c s ∧ c ≠ "0"%char.
Proof.
  revert z acc. induction fuel as [|fuel IH]; intros z acc Hz; [cbn in Hz; lia|]. cbn [format_fuel].
  destruct (Z.ltb_spec z 10) as [Hlt|Hge].
  - eexists _, _. split; [done|]. rewrite Z.mod_small by lia. intros E.
    destruct (digit_char_spec z) as [_ Hv]; [lia|]. rewrite E in Hv. change (digit_val "0") with 0%Z in Hv. lia.
  - apply IH. split; [apply Z.div_str_pos; lia|]. apply Z.div_lt_upper_bound; [lia|].
    rewrite Nat2Z.inj_succ, Z.pow_succ_r in Hz by lia. lia.
Qed.

Lemma num_ok_digits d : d ≠ EmptyString → sforallb num_digit d = true →
  (d = "0" ∨ ∀ s, d ≠ String "0" s) → num_ok d = true ∧ num_ok (String "-" d) = true.
Proof.
  intros Hne Hd Hz.
  assert (Hi : lex_int d = Some (d, EmptyString)).
  { destruct d as [|c d]; [done|]. destruct Hz as [->|Hz]; [done|]. unfold lex_int.
    rewrite bool_decide_eq_false_2 by (intros ->; by destruct (Hz d)).
    pose proof (digits1_app _ EmptyString Hne Hd eq_refl) as H. by rewrite sapp_nil_r in H. }
  assert (Hs : lex_sign ["-"%char] d = (EmptyString, d)).
  { destruct d as [|c d]; [done|]. simpl in *. rewrite andb_true_iff in Hd. destruct Hd as [Hc _].
    rewrite bool_decide_eq_false_2; [done|]. intros Hin. set_unfold in Hin. destruct_or? Hin; by subst. }
  unfold num_ok. rewrite !bool_decide_eq_true. unfold lex_num. rewrite Hs. cbn [lex_sign].
  rewrite bool_decide_eq_true_2 by set_solver. rewrite Hi. simpl. by rewrite sapp_nil_r.
Qed.

Lemma format_nonneg_digits z : (0 <= z < 10 ^ 20)%Z →
  format_nonneg z ≠ EmptyString ∧ sforallb num_digit (format_nonneg z) = true ∧
  (format_nonneg z = "0" ∨ ∀ s, format_nonneg z ≠ String "0" s).
Proof.
  intros Hz. destruct (parse_format z Hz) as [Hp Hd]. split; [by intros E; rewrite E in Hp|].
  split; [by apply num_digit_is_digit|]. destruct (decide (z = 0%Z)) as [->|Hz0]; [by left|]. right. intros s.
  destruct (format_fuel_head 20 z EmptyString) as (c & u & He & Hc); [change (Z.of_nat 20) with 20%Z; lia|].
  unfold format_nonneg. rewrite He. by intros [= -> _].
Qed.

Definition in_int_text (z : Z) : Prop := (- 10 ^ 20 < z < 10 ^ 20)%Z.

Lemma FormatInt_ok z : in_int_text z → num_ok (FormatInt z) = true.
Proof.
  unfold in_int_text, FormatInt. intros Hz. destruct (Z.ltb_spec z 0).
  - destruct (format_nonneg_digits (- z)) as (? & ? & ?); [lia|]. by apply num_ok_digits.
  - destruct (format_nonneg_digits z) as (? & ? & ?); [lia|]. by apply num_ok_digits.
Qed.

(** [strconv.ParseUint(s, 10, 64)]. *)
Definition ParseUint (s : string) : option Z :=
  match parse_digits s with
  | Some z => if (z <? two64)%Z then Some z else None
  | None => None
  end.

Lemma ParseUint_FormatInt z : in_u64 z → ParseUint (FormatInt z) = Some z.
Proof.
  unfold in_u64, ParseUint, FormatInt. intros Hz. destruct (Z.ltb_spec z 0); [lia|].
  destruct (parse_format z) as [-> _]; [unfold two64 in Hz; lia|]. destruct (Z.ltb_spec z two64); [done|lia].
Qed.

Lemma ParseUint_range s z : ParseUint s = Some z → in_u64 z.
Proof.
  unfold ParseUint, in_u64, parse_digits. destruct s as [|c s]; [done|].
  assert (∀ s a z, (0 <= a)%Z → digits_acc s a = Some z → (0 <= z)%Z) as Hnn.
  { clear. induction s as [|c s IH]; simpl; intros a z Ha; [by intros [= <-]|].
    destruct (is_digit c) eqn:Hc; [|done]. apply IH. unfold is_digit, GoStrings.in_range in Hc.
    rewrite andb_true_iff, !Z.leb_le in Hc. unfold digit_val. lia. }
  destruct (digits_acc _ _) as [v|] eqn:Hd; [|done]. destruct (Z.ltb_spec v two64); [|done].
  intros [= <-]. split; [|done]. by eapply Hnn in Hd.
Qed.

Lemma ParseInt_range s z : ParseInt s = Some z → in_i64 z.
Proof.
  unfold ParseInt, in_i64. destruct (match s with EmptyString => _ | String _ _ => _ end) as [v|]; [|done].
  destruct (Z.leb_spec (- 2 ^ 63) v), (Z.ltb_spec v (2 ^ 63)); simpl; try done. intros [= <-]. lia.
Qed.

(** ** Raw JSON

    A [json.RawMessage] is compacted when it is marshalled: whitespace goes,
    and the characters of [<], [>], [&], U+2028 and U+2029 are escaped. *)

Definition html_char (c : ascii) : string :=
  if bool_decide (c ∈ ["<"; ">"; "&"]%char) then esc_char c else str c.

Definition line_sep (a b c : ascii) : bool :=
  bool_decide (a = "226"%char) && bool_decide (b = "128"%char) && (bool_decide (c = "168"%char) || bool_decide (c = "169"%char)).

Fixpoint html_lit (l : string) : string :=
  match l with
  | EmptyString => EmptyString
  | String a l1 =>
      match l1 with
      | String b (String c l3) =>
          if line_sep a b c then esc3 a b c +:+ html_lit l3 else html_char a +:+ html_lit l1
      | _ => html_char a +:+ html_lit l1
      end
  end.

Definition no_pads : pads := mkPads EmptyString EmptyString EmptyString EmptyString.

Fixpoint compact (j : json) : json :=
  match j with
  | JNull | JBool _ | JNum _ => j
  | JStr l => JStr (html_lit l)
  | JArr _ l => JArr EmptyString (map (λ i, (EmptyString, compact i.1.2, EmptyString)) l)
  | JObj _ l => JObj EmptyString (map (λ m, (html_lit m.1.1, no_pads, compact m.2)) l)
  end.

(** No whitespace between the tokens. *)
Fixpoint tight (j : json) : bool :=
  match j with
  | JNull | JBool _ | JNum _ | JStr _ => true
  | JArr w l =>
      bool_decide (w = EmptyString) &&
      forallb (λ i, bool_decide (i.1.1 = EmptyString) && tight i.1.2 && bool_decide (i.2 = EmptyString)) l
  | JObj w l => bool_decide (w = EmptyString) && forallb (λ m, bool_decide (m.1.2 = no_pads) && tight m.2) l
  end.

Lemma html_plain a l : bool_decide (a ∈ ["<"; ">"; "&"]%char) = false → a ≠ "226"%char →
  html_lit (String a l) = String a (html_lit l).
Proof.
  intros Ha Hs. cbn [html_lit]. unfold html_char, line_sep. rewrite Ha, (bool_decide_eq_false_2 (a = _)) by done.
  by destruct l as [|b [|c l]].
Qed.

Lemma simple_escape_html e : is_Some (simple_escape e) → bool_decide (e ∈ ["<"; ">"; "&"]%char) = false ∧ e ≠ "226"%char.
Proof. destruct e as [[] [] [] [] [] [] [] []]; intros [x H]; try discriminate H; by split. Qed.

Lemma hex_html h : is_hex h = true → bool_decide (h ∈ ["<"; ">"; "&"]%char) = false ∧ h ≠ "226"%char.
Proof. destruct h as [[] [] [] [] [] [] [] []]; intros H; try discriminate H; by split. Qed.

Lemma lexes_html_char c : plain_char c = true → lexes (html_char c).
Proof.
  intros Hc. unfold html_char. case_bool_decide as H; [|by apply lexes_char].
  apply lexes_esc_char. set_unfold in H. destruct_or? H; by subst.
Qed.

Lemma lex_str_plain c s l r : plain_char c = true → lex_str (String c s) = Some (String c l, r) → lex_str s = Some (l, r).
Proof.
  unfold plain_char. rewrite !andb_true_iff, !negb_true_iff. intros [[Hq Hc] Hb]. cbn [lex_str]. rewrite Hq, Hc, Hb.
  destruct (lex_str s) as [[l' r']|]; [|done]. by intros [= <- <-].
Qed.

Lemma lexes_html s l r : lex_str s = Some (l, r) → lexes (html_lit l).
Proof.
  remember (len s) as n eqn:Hn. revert s l r Hn. induction n as [n IH] using lt_wf_ind. intros s l r ->.
  assert (Hrec : ∀ u l r, len u < len s → lex_str u = Some (l, r) → lexes (html_lit l)) by (intros u l' r' Hu; by eapply IH).
  clear IH. destruct s as [|c s1]; [done|]. cbn [lex_str]. case_bool_decide as Hq.
  { intros [= <- <-]. apply lexes_nil. }
  destruct (in_range 0 31 c) eqn:Hctl; [done|]. case_bool_decide as Hb.
  - destruct s1 as [|e s2]; [done|]. case_bool_decide as Hs.
    + destruct (lex_str s2) as [[l' r']|] eqn:Hl; [|done]. intros [= <- <-].
      destruct (simple_escape_html e Hs) as [? ?]. rewrite (html_plain c), html_plain by (done || by subst). subst c.
      change (String backslash (String e (html_lit l'))) with (String backslash (str e) +:+ html_lit l').
      apply lexes_app; [apply lexes_escape; by apply bool_decide_eq_true|].
      eapply (Hrec s2); [rewrite !len_cons; lia|done].
    + case_bool_decide as Hu; [|done].
      destruct s2 as [|h1 [|h2 [|h3 [|h4 s6]]]]; try done.
      destruct (is_hex h1 && is_hex h2 && is_hex h3 && is_hex h4) eqn:Hh; [|done].
      destruct (lex_str s6) as [[l' r']|] eqn:Hl; [|done]. intros [= <- <-].
      pose proof Hh as Hh'. rewrite !andb_true_iff in Hh'. destruct Hh' as [[[H1 H2] H3] H4].
      apply hex_html in H1 as [? ?], H2 as [? ?], H3 as [? ?], H4 as [? ?].
      rewrite (html_plain c), (html_plain e), !html_plain by (done || by subst). subst c e.
      change (lexes (String backslash (String "u" (String h1 (String h2 (String h3 (str h4))))) +:+ html_lit l')).
      apply lexes_app; [by apply lexes_unicode|]. eapply (Hrec s6); [rewrite !len_cons; lia|done].
  - destruct (lex_str s1) as [[l' r']|] eqn:Hl; [|done]. intros [= <- <-].
    assert (Hp : plain_char c = true).
    { unfold plain_char. rewrite Hctl, !(bool_decide_eq_false_2 (_ = _)) by done. done. }
    assert (H1 : lexes (html_char c +:+ html_lit l')).
    { apply lexes_app; [by apply lexes_html_char|]. eapply (Hrec s1); [rewrite len_cons; lia|done]. }
    cbn [html_lit]. destruct l' as [|b [|d l3]]; [done|done|]. destruct (line_sep c b d) eqn:Hls; [|done].
    unfold line_sep in Hls. rewrite !andb_true_iff, orb_true_iff, !bool_decide_eq_true in Hls. destruct Hls as [[-> ->] Hd].
    assert (Hd' : plain_char d = true) by (destruct Hd; by subst).
    destruct (lex_str_ok _ _ _ Hl) as [-> _]. rewrite !sapp_cons in Hl.
    apply lex_str_plain in Hl; [|done]. apply lex_str_plain in Hl; [|done].
    apply lexes_app; [by apply lexes_esc3|]. eapply (Hrec _ _ _); [|exact Hl].
    rewrite !sapp_cons, !len_cons. lia.
Qed.

Lemma compact_tight j : tight (compact j) = true.
Proof.
  induction j as [| | | |w l IH|w l IH] using json_nested_ind; try done; simpl.
  - apply forallb_forall. intros x Hx. apply in_map_iff in Hx as (i & <- & Hi). simpl.
    rewrite Forall_forall in IH. rewrite IH; [done|]. by apply list_elem_of_In.
  - apply forallb_forall. intros x Hx. apply in_map_iff in Hx as (i & <- & Hi). simpl.
    rewrite Forall_forall in IH. rewrite IH; [done|]. by apply list_elem_of_In.
Qed.

Lemma html_lit_ok l : str_ok l = true → str_ok (html_lit l) = true.
Proof. unfold str_ok at 1. rewrite bool_decide_eq_true. intros H. by eapply lexes_str_ok, lexes_html. Qed.

Lemma forallb_map_impl {A B} (f : A → bool) (g : B → bool) (h : A → B) (P : A → Prop) l :
  Forall P l → forallb f l = true → (∀ x, P x → f x = true → g (h x) = true) → forallb g (map h l) = true.
Proof.
  intros HP Hf Hi. induction HP as [|x l Hx HP IH]; [done|]. simpl in Hf |- *. rewrite andb_true_iff in Hf.
  destruct Hf as [Hfx Hf]. by rewrite Hi, IH.
Qed.

Lemma compact_wf j : wf j = true → wf (compact j) = true.
Proof.
  induction j as [| | |l|w l IH|w l IH] using json_nested_ind; try done; cbn [wf compact].
  - apply html_lit_ok.
  - rewrite !andb_true_iff. intros [_ Hl]. split; [split; [done|]; by rewrite orb_true_r|].
    eapply forallb_map_impl; [exact IH|exact Hl|]. simpl. intros x Hx. rewrite !andb_true_iff. intros [[_ Hv] _]. auto.
  - rewrite !andb_true_iff. intros [_ Hl]. split; [split; [done|]; by rewrite orb_true_r|].
    eapply forallb_map_impl; [exact IH|exact Hl|]. simpl. intros x Hx. rewrite !andb_true_iff. intros [[Hk _] Hv].
    split; [|by auto]. split; [by apply html_lit_ok|done].
Qed.

(** A compact text has no control character, so no newline. *)
Lemma lex_str_text s l r : lex_str s = Some (l, r) → sforallb (in_range 32 255) l = true.
Proof.
  remember (len s) as n eqn:Hn. revert s l r Hn. induction n as [n IH] using lt_wf_ind. intros s l r ->.
  assert (Hrec : ∀ u l r, len u < len s → lex_str u = Some (l, r) → sforallb (in_range 32 255) l = true)
    by (intros u l' r' Hu; by eapply IH).
  clear IH. destruct s as [|c s1]; [done|]. cbn [lex_str]. case_bool_decide as Hq; [by intros [= <- <-]|].
  destruct (in_range 0 31 c) eqn:Hctl; [done|].
  assert (Hc : in_range 32 255 c = true) by (revert Hctl; by destruct c as [[] [] [] [] [] [] [] []]).
  case_bool_decide as Hb.
  - destruct s1 as [|e s2]; [done|]. case_bool_decide as Hs.
    + destruct (lex_str s2) as [[l' r']|] eqn:Hl; [|done]. intros [= <- <-]. cbn [sforallb].
      rewrite Hc, (Hrec s2 l' r'); [|rewrite !len_cons; lia|done].
      destruct Hs as [x Hs]. destruct e as [[] [] [] [] [] [] [] []]; try discriminate Hs; reflexivity.
    + case_bool_decide as Hu; [|done]. destruct s2 as [|h1 [|h2 [|h3 [|h4 s6]]]]; try done.
      destruct (is_hex h1 && is_hex h2 && is_hex h3 && is_hex h4) eqn:Hh; [|done].
      destruct (lex_str s6) as [[l' r']|] eqn:Hl; [|done]. intros [= <- <-]. cbn [sforallb].
      assert (Hhex : ∀ h, is_hex h = true → in_range 32 255 h = true).
      { intros h. destruct h as [[] [] [] [] [] [] [] []]; intros H; try discriminate H; done. }
      rewrite !andb_true_iff in Hh. destruct Hh as [[[H1 H2] H3] H4].
      rewrite Hc, (Hhex h1), (Hhex h2), (Hhex h3), (Hhex h4) by done.
      rewrite (Hrec s6 l' r'); [by subst|rewrite !len_cons; lia|done].
  - destruct (lex_str s1) as [[l' r']|] eqn:Hl; [|done]. intros [= <- <-]. cbn [sforallb].
    by rewrite Hc, (Hrec s1 l' r'); [|rewrite !len_cons; lia|].
Qed.

Lemma str_ok_text l : str_ok l = true → sforallb (in_range 32 255) l = true.
Proof. unfold str_ok. rewrite bool_decide_eq_true. apply lex_str_text. Qed.

Lemma num_ok_text l : num_ok l = true → sforallb (in_range 32 255) l = true.
Proof.
  assert (Hw : ∀ d, sforallb num_digit d = true → sforallb (in_range 32 255) d = true).
  { induction d as [|c d IH]; [done|]. simpl. rewrite !andb_true_iff. intros [Hc Hd]. rewrite IH by done. split; [|done].
    revert Hc. unfold num_digit, in_range. rewrite !andb_true_iff, !Z.leb_le. lia. }
  assert (Hd1 : ∀ s d r, digits1 s = Some (d, r) → sforallb (in_range 32 255) d = true).
  { intros s d r H. destruct (digits1_sound _ _ _ H) as (_ & _ & H1 & _). by apply Hw. }
  assert (Hsg : ∀ cs s sg r, Forall (λ c, in_range 32 255 c = true) cs → lex_sign cs s = (sg, r) → sforallb (in_range 32 255) sg = true).
  { intros cs s sg r Hcs H. destruct (lex_sign_sound _ _ _ _ H) as [_ [(c & -> & Hc)| ->]]; [|done].
    rewrite Forall_forall in Hcs. simpl. by rewrite Hcs. }
  unfold num_ok. rewrite bool_decide_eq_true. unfold lex_num.
  destruct (lex_sign _ l) as [sg s1] eqn:H0. apply Hsg in H0; [|by repeat constructor].
  destruct (lex_int s1) as [[i s2]|] eqn:Hi; [|done].
  assert (sforallb (in_range 32 255) i = true) as H1.
  { destruct s1 as [|c s1]; [done|]. unfold lex_int in Hi. case_bool_decide; [injection Hi as <- _; by subst|by eapply Hd1]. }
  simpl. destruct (lex_frac s2) as [[f s3]|] eqn:Hf; [|done].
  assert (sforallb (in_range 32 255) f = true) as H2.
  { destruct s2 as [|c s2]; [by injection Hf as <- _|]. simpl in Hf. case_bool_decide; [|by injection Hf as <- _].
    destruct (digits1 s2) as [[d r']|] eqn:Hd; [|done]. injection Hf as <- _. subst. simpl. by eapply Hd1. }
  simpl. destruct (lex_exp s3) as [[e s4]|] eqn:He; [|done].
  assert (sforallb (in_range 32 255) e = true) as H3.
  { destruct s3 as [|c s3]; [by injection He as <- _|]. simpl in He. case_bool_decide as Hc; [|by injection He as <- _].
    destruct (lex_sign _ s3) as [sg' s5] eqn:Hs. apply Hsg in Hs; [|by repeat constructor].
    destruct (digits1 s5) as [[d r']|] eqn:Hd; [|done]. injection He as <- _. apply Hd1 in Hd.
    cbn [sforallb]. rewrite sforallb_app, Hs, Hd. set_unfold in Hc. destruct_or? Hc; by subst. }
  simpl. intros [= <- _]. by rewrite !sforallb_app, H0, H1, H2, H3.
Qed.

Lemma tight_text j : wf j = true → tight j = true → sforallb (in_range 32 255) (render j) = true.
Proof.
  induction j as [|b|l|l|w l IH|w l IH] using json_nested_ind; intros Hwf Ht.
  - done.
  - by destruct b.
  - by apply num_ok_text.
  - cbn [render]. rewrite !sforallb_app. by rewrite (str_ok_text l).
  - rewrite render_JArr. cbn [tight wf] in Ht, Hwf. rewrite !andb_true_iff, bool_decide_eq_true in Ht. destruct Ht as [-> Ht].
    rewrite !andb_true_iff in Hwf. destruct Hwf as [_ Hwf]. rewrite sapp_nil_l, sforallb_app. apply andb_true_iff. split; [done|].
    induction IH as [|[[a v] b] l Hv IH IHl]; [done|]. cbn [forallb fst snd] in Ht, Hwf. simpl in Hv.
    rewrite !andb_true_iff, !bool_decide_eq_true in Ht. rewrite !andb_true_iff in Hwf.
    destruct Ht as [[[-> Htv] ->] Ht], Hwf as [[[_ Hwv] _] Hwf]. cbn [render_items].
    rewrite !sapp_nil_l, sforallb_app, Hv by done. destruct l; [done|]. rewrite sforallb_app, IHl; done.
  - rewrite render_JObj. cbn [tight wf] in Ht, Hwf. rewrite !andb_true_iff, bool_decide_eq_true in Ht. destruct Ht as [-> Ht].
    rewrite !andb_true_iff in Hwf. destruct Hwf as [_ Hwf]. rewrite sapp_nil_l, sforallb_app. apply andb_true_iff. split; [done|].
    induction IH as [|[[k p] v] l Hv IH IHl]; [done|]. cbn [forallb fst snd] in Ht, Hwf. simpl in Hv.
    rewrite !andb_true_iff, !bool_decide_eq_true in Ht. rewrite !andb_true_iff in Hwf.
    destruct Ht as [[-> Htv] Ht], Hwf as [[[Hk _] Hwv] Hwf]. cbn [render_members no_pads p_key p_colon p_value p_end].
    rewrite !sapp_nil_l, !sforallb_app, Hv, (str_ok_text k) by done. destruct l; [done|]. rewrite sforallb_app, IHl; done.
Qed.
(** *** Compaction of what is compact *)

(** A byte that starts nothing [compact] would escape. *)
Definition html_safe (c : ascii) : bool := negb (bool_decide (c ∈ ["<"; ">"; "&"]%char)) && negb (bool_decide (c = "226"%char)).

Lemma html_safe_cons c l : html_safe c = true → html_lit (String c l) = String c (html_lit l).
Proof.
  unfold html_safe. rewrite andb_true_iff, !negb_true_iff, (bool_decide_eq_false (c = _)). intros [? ?]. by apply html_plain.
Qed.

Lemma html_safe_app p l : sforallb html_safe p = true → html_lit (p +:+ l) = p +:+ html_lit l.
Proof.
  induction p as [|c p IH]; [done|]. cbn [sforallb]. rewrite andb_true_iff. intros [Hc Hp].
  rewrite sapp_cons, html_safe_cons, IH by done. done.
Qed.

Lemma html_lit_cons a l : (∀ b c l', l = String b (String c l') → line_sep a b c = false) →
  html_lit (String a l) = html_char a +:+ html_lit l.
Proof. intros H. cbn [html_lit]. destruct l as [|b [|c l]]; [done|done|]. by rewrite (H b c l). Qed.

Lemma esc_char_safe a : in_range 0 127 a = true → sforallb html_safe (esc_char a) = true.
Proof. destruct a as [[] [] [] [] [] [] [] []]; intros H; try discriminate H; vm_compute; reflexivity. Qed.

Lemma cont_safe b : in_range 128 225 b = true → html_safe b = true.
Proof. destruct b as [[] [] [] [] [] [] [] []]; intros H; try discriminate H; vm_compute; reflexivity. Qed.

Lemma high_safe b : in_range 227 255 b = true → html_safe b = true.
Proof. destruct b as [[] [] [] [] [] [] [] []]; intros H; try discriminate H; vm_compute; reflexivity. Qed.

Ltac byte_bounds H :=
  revert H; unfold lead2, lead3, lead4, cont, in_range;
  repeat setoid_rewrite orb_true_iff; repeat setoid_rewrite andb_true_iff; repeat setoid_rewrite Z.leb_le; lia.

Lemma html_esc3 a b c l : lead3 a b c = true → html_lit (esc3 a b c +:+ l) = esc3 a b c +:+ html_lit l.
Proof.
  intros H3. assert (html_safe b = true) as Hb by (apply cont_safe; byte_bounds H3).
  assert (html_safe c = true) as Hc by (apply cont_safe; byte_bounds H3).
  assert (line_sep a b c = false → html_lit (String a (String b (String c l))) = String a (String b (String c (html_lit l)))) as Hcopy.
  { intros Hs. rewrite html_lit_cons by (by intros ? ? ? [= <- <- _]). rewrite !html_safe_cons by done.
    unfold html_char. rewrite bool_decide_eq_false_2; [done|]. intros Hin. set_unfold in Hin.
    destruct_or? Hin; subst a; discriminate H3. }
  unfold esc3, line_sep in *. destruct (bool_decide (a = _) && bool_decide (b = _)); [|by apply Hcopy].
  case_bool_decide; [by rewrite html_safe_app by reflexivity|]. case_bool_decide; [by rewrite html_safe_app by reflexivity|].
  by apply Hcopy.
Qed.

(** What the encoder quotes is already escaped. *)
Lemma html_quote s : html_lit (quote s) = quote s.
Proof.
  remember (len s) as n eqn:Hn. revert s Hn. induction n as [n IH] using lt_wf_ind. intros s ->.
  assert (Hrec : ∀ t, len t < len s → html_lit (quote t) = quote t) by (intros t Ht; by eapply IH).
  destruct s as [|a s1]; [done|]. cbn [quote].
  assert (Hbad : html_lit (esc_bad +:+ quote s1) = esc_bad +:+ quote s1)
    by (rewrite html_safe_app, Hrec; [done|rewrite len_cons; lia|reflexivity]).
  destruct (in_range 0 127 a) eqn:Ha; [rewrite html_safe_app, Hrec; [done|rewrite len_cons; lia|by apply esc_char_safe]|].
  destruct s1 as [|b s2]; [done|]. destruct (lead2 a b) eqn:H2.
  { rewrite !html_safe_cons, Hrec; [done|rewrite !len_cons; lia|apply cont_safe; byte_bounds H2..]. }
  destruct s2 as [|c s3]; [done|]. destruct (lead3 a b c) eqn:H3.
  { rewrite html_esc3, Hrec by (done || (rewrite !len_cons; lia)). done. }
  destruct s3 as [|d s4]; [done|]. destruct (lead4 a b c d) eqn:H4; [|done].
  rewrite !html_safe_cons, Hrec; [done|rewrite !len_cons; lia|..].
  all: first [apply cont_safe; byte_bounds H4|apply high_safe; byte_bounds H4].
Qed.

(** The first byte of an escaped literal is that of the literal, or a
    backslash. *)
Lemma html_lit_head l b t : html_lit l = String b t → b ≠ backslash → ∃ l', l = String b l' ∧ t = html_lit l'.
Proof.
  destruct l as [|a l]; [done|]. intros H Hb.
  assert (html_char a +:+ html_lit l = String b t → ∃ l', String a l = String b l' ∧ t = html_lit l') as Hc.
  { unfold html_char. case_bool_decide as Hs; [|by intros [= -> <-]; exists l]. intros E. exfalso. apply Hb.
    set_unfold in Hs. destruct_or? Hs; subst a; by injection E. }
  cbn [html_lit] in H. destruct l as [|b' [|c' l]]; [by auto|by auto|].
  destruct (line_sep a b' c') eqn:Hls; [|by auto]. exfalso. apply Hb.
  unfold line_sep in Hls. rewrite !andb_true_iff, orb_true_iff, !bool_decide_eq_true in Hls.
  destruct Hls as [[-> ->] [->| ->]]; by injection H.
Qed.

Lemma line_sep_cases a l : (∃ b c l', l = String b (String c l') ∧ line_sep a b c = true) ∨
  (∀ b c l', l = String b (String c l') → line_sep a b c = false).
Proof.
  destruct l as [|b [|c l]]; [by right|by right|]. destruct (line_sep a b c) eqn:E; [left; eauto|].
  right. by intros ? ? ? [= <- <- _].
Qed.

Lemma html_lit_idem l : html_lit (html_lit l) = html_lit l.
Proof.
  remember (len l) as n eqn:Hn. revert l Hn. induction n as [n IH] using lt_wf_ind. intros l ->.
  assert (Hrec : ∀ t, len t < len l → html_lit (html_lit t) = html_lit t) by (intros t Ht; by eapply IH).
  destruct l as [|a l1]; [done|].
  destruct (line_sep_cases a l1) as [(b & c & l3 & -> & Hs)|Hns].
  - cbn [html_lit]. rewrite Hs. pose proof Hs as Hs'. unfold line_sep in Hs'.
    rewrite !andb_true_iff, orb_true_iff, !bool_decide_eq_true in Hs'.
    rewrite html_safe_app, Hrec; [done|rewrite !len_cons; lia|]. destruct Hs' as [[-> ->] [->| ->]]; reflexivity.
  - rewrite (html_lit_cons a l1 Hns). unfold html_char at 1 2. case_bool_decide as Hsp.
    + rewrite html_safe_app, Hrec; [done|rewrite len_cons; lia|]. set_unfold in Hsp. destruct_or? Hsp; subst a; reflexivity.
    + change (str a +:+ html_lit l1) with (String a (html_lit l1)). rewrite html_lit_cons.
      * rewrite Hrec by (rewrite len_cons; lia). unfold html_char. by rewrite bool_decide_eq_false_2.
      * intros b c t HX. destruct (line_sep a b c) eqn:E; [|done].
        pose proof E as E'. unfold line_sep in E'. rewrite !andb_true_iff, orb_true_iff, !bool_decide_eq_true in E'.
        destruct E' as [[-> ->] Hc]. apply html_lit_head in HX as (l2 & -> & HX); [|done]. symmetry in HX.
        apply html_lit_head in HX as (l3 & -> & _); [|by destruct Hc; subst c]. by rewrite (Hns _ _ _ eq_refl) in E.
Qed.

Lemma compact_idem j : compact (compact j) = compact j.
Proof.
  induction j as [| | |l|w l IH|w l IH] using json_nested_ind; try done; cbn [compact].
  - by rewrite html_lit_idem.
  - f_equal. rewrite map_map. apply map_ext_Forall. eapply Forall_impl; [exact IH|]. simpl. intros x ->. done.
  - f_equal. rewrite map_map. apply map_ext_Forall. eapply Forall_impl; [exact IH|]. simpl. intros x ->. by rewrite html_lit_idem.
Qed.
