(* ===== verification/Codec.v ===== *)
(** * Encoding and decoding Go values

    What [json.Marshal] and [json.Unmarshal] do at the types the messages are
    made of.  A [codec] of a type has the encoder ([None] is an error of
    [Marshal]), the decoder into an existing value ([None] is an error of
    [Unmarshal]; what the text does not mention keeps its old value), the zero
    value and the test of [omitempty].  Structs are lists of fields with the
    names of their json tags.  [fits] says which values survive the trip, and
    the class [Lawful] that they do.

    The text of a [float64] is a parameter ([strconv.FormatFloat] as
    [encoding/json] calls it), and so is the text of a time (RFC 3339).  A
    slice that decodes twice, because its key is repeated, is decoded afresh:
    the stale elements Go would show under a null element are not modelled. *)

From S2P Require Import Prelude GoStrings Decimal Errors Features Float64 Lease Messages Agents Stream Json JsonText.
From Stdlib Require Import ZArith Ascii Lia SpecFloat.

Record codec (A : Type) := mkCodec {
  zero : A;
  is_empty : A → bool;
  enc : A → option json;
  dec : A → json → option A;
  fits : A → Prop
}.
Arguments mkCodec {A} _ _ _ _ _.
Arguments zero {A} _.
Arguments is_empty {A} _ _.
Arguments enc {A} _ _.
Arguments dec {A} _ _ _.
Arguments fits {A} _ _.

Class Lawful {A} (c : codec A) : Prop := {
  enc_text : ∀ x j, enc c x = Some j → wf j = true ∧ compact j = j;
  empty_zero : ∀ x, is_empty c x = true → x = zero c;
  enc_total : ∀ x, fits c x → is_Some (enc c x);
  round_trip : ∀ x j, fits c x → enc c x = Some j → dec c (zero c) j = Some x
}.

(** ** Scalars *)

Definition utf8 (s : string) : Prop := coerce_utf8 s = s.

(** A null leaves a value that is no pointer, map or slice as it is. *)
Definition string_codec : codec string :=
  mkCodec "" (λ s, bool_decide (s = ""))
    (λ s, Some (JStr (quote s)))
    (λ old j, match j with JStr l => Some (unquote l) | JNull => Some old | _ => None end)
    utf8.

Definition bool_codec : codec bool :=
  mkCodec false negb
    (λ b, Some (JBool b))
    (λ old j, match j with JBool b => Some b | JNull => Some old | _ => None end)
    (λ _, True).

(** A [uint64] and an [int]; an integer outside the width is no value of the
    type. *)
Definition uint64_codec : codec Z :=
  mkCodec 0%Z (λ z, (z =? 0)%Z)
    (λ z, if ((0 <=? z) && (z <? two64))%Z then Some (JNum (FormatInt z)) else None)
    (λ old j, match j with JNum l => ParseUint l | JNull => Some old | _ => None end)
    in_u64.

Definition int_codec : codec Z :=
  mkCodec 0%Z (λ z, (z =? 0)%Z)
    (λ z, if ((- 2 ^ 63 <=? z) && (z <? 2 ^ 63))%Z then Some (JNum (FormatInt z)) else None)
    (λ old j, match j with JNum l => ParseInt l | JNull => Some old | _ => None end)
    (λ z, - 2 ^ 63 <= z < 2 ^ 63)%Z.

(** The text of floats and times. *)
Class WireText := {
  float_text : f64 → string;
  float_text_ok : ∀ v, is_finite v = true → num_ok (float_text v) = true;
  time_text : ZonedTime → option string;
  time_text_ok : ∀ t s, time_text t = Some s → str_ok s = true ∧ html_lit s = s;
  time_parse : string → option ZonedTime;
  local_offset : Time → Z
}.

Section codecs.
Context `{WT : WireText}.

(** An unsupported value (NaN, an infinity) is an error. *)
Definition float_codec : codec f64 :=
  mkCodec fzero (λ v, bool_decide (v = fzero))
    (λ v, if is_finite v then Some (JNum (float_text v)) else None)
    (λ old j, match j with
              | JNum l => from_result (ParseFloat l)
              | JNull => Some old
              | _ => None
              end)
    (λ v, is_finite v = true ∧ ParseFloat (float_text v) = Ok v).

(** [Time.MarshalJSON] and [Time.UnmarshalJSON], which reads the text between
    the quotes as it stands. *)
Definition zoned_codec : codec ZonedTime :=
  mkCodec (mkZoned zero_time 0) (λ _, false)
    (λ t, JStr <$> time_text t)
    (λ old j, match j with JStr l => time_parse l | JNull => Some old | _ => None end)
    (λ t, ∃ s, time_text t = Some s ∧ time_parse s = Some t).

(** A time whose zone the program does not look at. *)
Definition time_codec : codec Time :=
  mkCodec zero_time (λ _, false)
    (λ t, JStr <$> time_text (mkZoned t (local_offset t)))
    (λ old j, match j with JStr l => zt_instant <$> time_parse l | JNull => Some old | _ => None end)
    (λ t, ∃ s, time_text (mkZoned t (local_offset t)) = Some s ∧ zt_instant <$> time_parse s = Some t).

End codecs.

(** [json.RawMessage]: compacted when written, the bytes of the value when
    read (a null too).  Empty ones are always omitted. *)
Definition raw_codec : codec string :=
  mkCodec "" (λ s, bool_decide (s = ""))
    (λ s, compact <$> Parse s)
    (λ _ j, Some (render j))
    (λ s, ∃ j, Parse s = Some j ∧ render (compact j) = s).

(** A value of type [any]: numbers are [float64], so they must be in range. *)
Fixpoint any_numbers (j : json) : bool :=
  match j with
  | JNum l => is_ok (ParseFloat l)
  | JArr _ l => forallb (λ i, any_numbers i.1.2) l
  | JObj _ l => forallb (λ m, any_numbers m.2) l
  | _ => true
  end.

Definition any_codec : codec any :=
  mkCodec AnyNil (λ v, bool_decide (v = AnyNil))
    (λ v, match v with
          | AnyString s => Some (JStr (quote s))
          | AnyUint z => enc uint64_codec z
          | AnyBool b => Some (JBool b)
          | AnyNil => Some JNull
          | AnyJSON t => compact <$> Parse t
          end)
    (λ _ j, match j with
            | JNull => Some AnyNil
            | JBool b => Some (AnyBool b)
            | JStr l => Some (AnyString (unquote l))
            | _ => if any_numbers j then Some (AnyJSON (render j)) else None
            end)
    (λ v, match v with
          | AnyString s => utf8 s
          | AnyUint _ => False
          | AnyJSON t => ∃ j, Parse t = Some j ∧
              (match j with JNum _ | JArr _ _ | JObj _ _ => any_numbers (compact j) = true | _ => False end) ∧
              render (compact j) = t
          | _ => True
          end).

(** ** Pointers, slices and maps *)

(** A null sets a pointer to nil; another value is decoded into what the
    pointer points to, or into a new zero value. *)
Definition ptr_codec {A} (c : codec A) : codec (option A) :=
  mkCodec None (λ p, match p with None => true | Some _ => false end)
    (λ p, match p with None => Some JNull | Some x => enc c x end)
    (λ old j, match j with
              | JNull => Some None
              | _ => Some <$> dec c (default (zero c) old) j
              end)
    (λ p, match p with None => True | Some x => fits c x end).

Definition bare (j : json) : string * json * string := (EmptyString, j, EmptyString).
Definition member (k : string) (j : json) : string * pads * json := (k, no_pads, j).

Definition slice_codec {A} (c : codec A) : codec (list A) :=
  mkCodec [] (λ l, bool_decide (length l = 0))
    (λ l, (λ js, JArr EmptyString (bare <$> js)) <$> mapM (enc c) l)
    (λ _ j, match j with
            | JNull => Some []
            | JArr _ items => mapM (λ i, dec c (zero c) i.1.2) items
            | _ => None
            end)
    (Forall (fits c)).

(** A map is written in the order of its keys; reading adds the members to the
    old map, each decoded into a new zero value. *)
Definition key_le {A} (x y : string * A) : Prop := str_le x.1 y.1.
#[export] Instance key_le_dec {A} (x y : string * A) : Decision (key_le x y).
Proof. unfold key_le. apply _. Defined.

Definition entries {A} (m : gmap string A) : list (string * A) := merge_sort key_le (map_to_list m).

Definition enc_entry {A} (c : codec A) (e : string * A) : option (string * pads * json) :=
  member (quote e.1) <$> enc c e.2.

Fixpoint dec_entries {A} (c : codec A) (ms : list (string * pads * json)) (m : gmap string A) : option (gmap string A) :=
  match ms with
  | [] => Some m
  | (k, _, j) :: ms => v ← dec c (zero c) j; dec_entries c ms (<[unquote k := v]> m)
  end.

Definition map_codec {A} (c : codec A) : codec (gmap string A) :=
  mkCodec ∅ (λ m, bool_decide (size m = 0))
    (λ m, JObj EmptyString <$> mapM (enc_entry c) (entries m))
    (λ old j, match j with
              | JNull => Some ∅
              | JObj _ ms => dec_entries c ms old
              | _ => None
              end)
    (λ m, map_Forall (λ k v, utf8 k ∧ fits c v) m).

(** [Lease.MarshalJSON] and [Lease.UnmarshalJSON]: the JSON of a
    [map[string][]string], which replaces the old lease. *)
Definition lease_codec : codec Lease :=
  mkCodec ∅ (λ l, bool_decide (size l = 0))
    (enc (map_codec (slice_codec string_codec)))
    (λ _ j, dec (map_codec (slice_codec string_codec)) ∅ j)
    (fits (map_codec (slice_codec string_codec))).

(** ** Structs *)

(** A field: its name, its encoding ([Some None] when it is omitted), the
    decoding into a struct, and the copy of the field from one struct to
    another. *)
Record field (R : Type) := mkField {
  f_name : string;
  f_enc : R → option (option json);
  f_dec : R → json → option R;
  f_copy : R → R → R;
  f_fits : R → Prop
}.
Arguments mkField {R} _ _ _ _ _.
Arguments f_name {R} _.
Arguments f_enc {R} _ _.
Arguments f_dec {R} _ _ _.
Arguments f_copy {R} _ _ _.
Arguments f_fits {R} _ _.

Definition fld {R A} (name : string) (get : R → A) (set : A → R → R) (c : codec A) (omitempty : bool) : field R :=
  mkField name
    (λ r, if omitempty && is_empty c (get r) then Some None else Some <$> enc c (get r))
    (λ r j, (λ v, set v r) <$> dec c (get r) j)
    (λ r r', set (get r) r')
    (λ r, omitempty && is_empty c (get r) = true ∨ fits c (get r)).

(** [foldName]: keys match field names up to case; the long s and the Kelvin
    sign are the only letters outside ASCII that fold into it. *)
Definition fold_char (c : ascii) : ascii := if is_upper c then byte_char (byte_of c + 32) else c.

Fixpoint fold_key (s : string) : string :=
  match s with
  | EmptyString => EmptyString
  | String a s1 =>
      match s1 with
      | String b s2 =>
          if bool_decide (a = "197"%char) && bool_decide (b = "191"%char) then String "s" (fold_key s2)
          else match s2 with
               | String c s3 =>
                   if bool_decide (a = "226"%char) && bool_decide (b = "132"%char) && bool_decide (c = "170"%char)
                   then String "k" (fold_key s3) else String (fold_char a) (fold_key s1)
               | EmptyString => String (fold_char a) (fold_key s1)
               end
      | EmptyString => String (fold_char a) (fold_key s1)
      end
  end.

Definition find_field {R} (fs : list (field R)) (k : string) : option (field R) :=
  snd <$> list_find (λ f, fold_key (f_name f) = fold_key k) fs.

Fixpoint enc_fields {R} (fs : list (field R)) (r : R) : option (list (string * pads * json)) :=
  match fs with
  | [] => Some []
  | f :: fs =>
      o ← f_enc f r;
      ms ← enc_fields fs r;
      Some (match o with Some j => member (quote (f_name f)) j :: ms | None => ms end)
  end.

(** The members in order, each into the struct so far; a key that names no
    field is skipped. *)
Fixpoint dec_fields {R} (fs : list (field R)) (ms : list (string * pads * json)) (r : R) : option R :=
  match ms with
  | [] => Some r
  | (k, _, j) :: ms =>
      r' ← match find_field fs (unquote k) with Some f => f_dec f r j | None => Some r end;
      dec_fields fs ms r'
  end.

Definition struct_codec {R} (z : R) (fs : list (field R)) : codec R :=
  mkCodec z (λ _, false)
    (λ r, JObj EmptyString <$> enc_fields fs r)
    (λ old j, match j with
              | JNull => Some old
              | JObj _ ms => dec_fields fs ms old
              | _ => None
              end)
    (λ r, Forall (λ f, f_fits f r) fs).

(** ** The codecs are lawful *)

Lemma members_text ms :
  Forall (λ m : string * pads * json, ∃ k, m.1.1 = quote k ∧ m.1.2 = no_pads ∧ wf m.2 = true ∧ compact m.2 = m.2) ms →
  wf (JObj EmptyString ms) = true ∧ compact (JObj EmptyString ms) = JObj EmptyString ms.
Proof.
  intros H. cbn [wf compact]. rewrite orb_true_r. cbn [ws_ok sforallb andb].
  enough (forallb (λ m, str_ok m.1.1 && pads_ok m.1.2 && wf m.2) ms = true ∧
          map (λ m, (html_lit m.1.1, no_pads, compact m.2)) ms = ms) as [-> ->] by done.
  induction H as [|[[q p] v] ms (k & Hk & Hp & Hw & Hc) H [IH1 IH2]]; [done|]. simpl in *. subst q p.
  rewrite quote_ok, html_quote, Hw, Hc, IH1, IH2. done.
Qed.

Lemma items_text js : Forall (λ j, wf j = true ∧ compact j = j) js →
  wf (JArr EmptyString (bare <$> js)) = true ∧ compact (JArr EmptyString (bare <$> js)) = JArr EmptyString (bare <$> js).
Proof.
  intros H.
  assert (forallb (λ i, ws_ok i.1.1 && wf i.1.2 && ws_ok i.2) (bare <$> js) = true ∧
          map (λ i : string * json * string, (EmptyString, compact i.1.2, EmptyString)) (bare <$> js) = bare <$> js) as [E1 E2].
  { induction H as [|v js (Hw & Hc) H [IH1 IH2]]; [done|]. rewrite fmap_cons. cbn [forallb map].
    rewrite IH1, IH2. cbn [bare fst snd]. by rewrite Hw, Hc. }
  cbn [wf compact]. rewrite E1, E2. by rewrite orb_true_r.
Qed.

#[export] Instance string_lawful : Lawful string_codec.
Proof.
  split; simpl.
  - intros x j [= <-]. cbn [wf compact]. by rewrite quote_ok, html_quote.
  - intros x. by rewrite bool_decide_eq_true.
  - by eexists.
  - intros x j Hx [= <-]. by rewrite unquote_quote, Hx.
Qed.

#[export] Instance bool_lawful : Lawful bool_codec.
Proof. split; simpl; [by intros x j [= <-]|by intros []|by eexists|by intros x j _ [= <-]]. Qed.

Lemma in_u64_text z : in_u64 z → in_int_text z.
Proof. unfold in_u64, in_int_text, two64. lia. Qed.

#[export] Instance uint64_lawful : Lawful uint64_codec.
Proof.
  split; simpl.
  - intros x j. destruct (Z.leb_spec 0 x), (Z.ltb_spec x two64); simpl; try done. intros [= <-].
    split; [|done]. by apply FormatInt_ok, in_u64_text.
  - intros x. by rewrite Z.eqb_eq.
  - unfold in_u64. intros x Hx. destruct (Z.leb_spec 0 x), (Z.ltb_spec x two64); simpl; [by eexists|lia..].
  - intros x j _. destruct (Z.leb_spec 0 x), (Z.ltb_spec x two64); simpl; try done. intros [= <-].
    by apply ParseUint_FormatInt.
Qed.

#[export] Instance int_lawful : Lawful int_codec.
Proof.
  split; simpl.
  - intros x j. destruct (Z.leb_spec (- 2 ^ 63) x), (Z.ltb_spec x (2 ^ 63)); simpl; try done. intros [= <-].
    split; [|done]. apply FormatInt_ok. unfold in_int_text. lia.
  - intros x. by rewrite Z.eqb_eq.
  - intros x Hx. destruct (Z.leb_spec (- 2 ^ 63) x), (Z.ltb_spec x (2 ^ 63)); simpl; [by eexists|lia..].
  - intros x j _. destruct (Z.leb_spec (- 2 ^ 63) x), (Z.ltb_spec x (2 ^ 63)); simpl; try done. intros [= <-].
    by apply ParseInt_FormatInt.
Qed.

#[export] Instance raw_lawful : Lawful raw_codec.
Proof.
  assert (∀ s j, Parse s = Some j → wf j = true) as Hp by (intros s j H; by apply Parse_spec in H as (? & ? & _ & _ & _ & ?)).
  split; simpl.
  - intros x j H. apply fmap_Some in H as (j' & Hj & ->). split; [by eapply compact_wf, Hp|apply compact_idem].
  - intros x. by rewrite bool_decide_eq_true.
  - intros x (j & Hj & _). rewrite Hj. by eexists.
  - intros x j (k & Hk & Hr) H. rewrite Hk in H. injection H as <-. by rewrite Hr.
Qed.

#[export] Instance any_lawful : Lawful any_codec.
Proof.
  split; simpl.
  - intros [s|z|b| |t] j; simpl.
    + intros [= <-]. cbn [wf compact]. by rewrite quote_ok, html_quote.
    + apply (enc_text (c := uint64_codec)).
    + by intros [= <-].
    + by intros [= <-].
    + apply (enc_text (c := raw_codec)).
  - intros x. by rewrite bool_decide_eq_true.
  - intros [s|z|b| |t]; simpl; intros Hf; [by eexists|done|by eexists|by eexists|].
    destruct Hf as (j & Hj & _). rewrite Hj. by eexists.
  - intros [s|z|b| |t] j Hf; simpl; try done.
    + intros [= <-]. by rewrite unquote_quote, Hf.
    + by intros [= <-].
    + by intros [= <-].
    + destruct Hf as (j' & Hj & Hn & Hr). rewrite Hj. intros [= <-]. subst t.
      destruct j'; try done; cbn [compact] in Hn |- *; rewrite Hn; done.
Qed.

Section lawful.
Context `{WT : WireText}.

#[export] Instance float_lawful : Lawful float_codec.
Proof.
  split; simpl.
  - intros x j. destruct (is_finite x) eqn:Hf; [|done]. intros [= <-]. split; [by apply float_text_ok|done].
  - intros x. by rewrite bool_decide_eq_true.
  - intros x [-> _]. by eexists.
  - intros x j [-> Hx] [= <-]. by rewrite Hx.
Qed.

#[export] Instance zoned_lawful : Lawful zoned_codec.
Proof.
  split; simpl; [|done|..].
  - intros x j H. apply fmap_Some in H as (s & Hs & ->). destruct (time_text_ok _ _ Hs) as [? Hh]. cbn [wf compact]. by rewrite Hh.
  - intros x (s & Hs & _). rewrite Hs. by eexists.
  - intros x j (s & Hs & Hp) H. rewrite Hs in H. by injection H as <-.
Qed.

#[export] Instance time_lawful : Lawful time_codec.
Proof.
  split; simpl; [|done|..].
  - intros x j H. apply fmap_Some in H as (s & Hs & ->). destruct (time_text_ok _ _ Hs) as [? Hh]. cbn [wf compact]. by rewrite Hh.
  - intros x (s & Hs & _). rewrite Hs. by eexists.
  - intros x j (s & Hs & Hp) H. rewrite Hs in H. by injection H as <-.
Qed.
End lawful.

(** Only nil is written as null. *)
Class NotNull {A} (c : codec A) : Prop := not_null : ∀ x, enc c x ≠ Some JNull.

#[export] Instance struct_not_null {R} (z : R) fs : NotNull (struct_codec z fs).
Proof. intros x. simpl. by destruct (enc_fields fs x). Qed.

#[export] Instance zoned_not_null `{WT : WireText} : NotNull zoned_codec.
Proof. intros x. simpl. by destruct (time_text x). Qed.

#[export] Instance time_not_null `{WT : WireText} : NotNull time_codec.
Proof. intros x. simpl. by destruct (time_text _). Qed.

#[export] Instance ptr_lawful {A} (c : codec A) `{!Lawful c, !NotNull c} : Lawful (ptr_codec c).
Proof.
  split; simpl.
  - intros [x|] j; [apply enc_text|by intros [= <-]].
  - by intros [x|].
  - intros [x|]; [apply enc_total|by eexists].
  - intros [x|] j; [|by intros _ [= <-]]. intros Hf Hj. pose proof (not_null x) as Hn. rewrite Hj in Hn.
    rewrite (round_trip _ _ Hf Hj). by destruct j.
Qed.

#[export] Instance slice_lawful {A} (c : codec A) `{!Lawful c} : Lawful (slice_codec c).
Proof.
  split; simpl.
  - intros x j H. apply fmap_Some in H as (js & Hm & ->). apply items_text.
    apply mapM_Some in Hm. apply Forall_forall. intros j Hj. apply list_elem_of_lookup in Hj as [i Hi].
    destruct (Forall2_lookup_r _ _ _ _ _ Hm Hi) as (y & _ & Hy). by eapply enc_text.
  - intros x. rewrite bool_decide_eq_true. by destruct x.
  - intros x Hf. apply fmap_is_Some, mapM_is_Some. eapply Forall_impl; [exact Hf|]. apply enc_total.
  - intros x j Hf H. apply fmap_Some in H as (js & Hm & ->). apply mapM_Some in Hm. apply mapM_Some.
    induction Hm as [|y j l js Hy Hm IH]; [constructor|]. apply Forall_cons in Hf as [Hfy Hf].
    constructor; [by apply round_trip|by apply IH].
Qed.

Lemma entries_perm {A} (m : gmap string A) : entries m ≡ₚ map_to_list m.
Proof. apply merge_sort_Permutation. Qed.

Lemma dec_enc_entries {A} (c : codec A) `{!Lawful c} l ms acc :
  NoDup (l.*1) → Forall (λ e, utf8 e.1 ∧ fits c e.2) l → mapM (enc_entry c) l = Some ms →
  dec_entries c ms acc = Some (list_to_map l ∪ acc).
Proof.
  intros Hnd Hf Hm. apply mapM_Some in Hm. revert acc.
  induction Hm as [|[k v] m l ms He Hm IH]; intros acc; [by cbn; rewrite map_empty_union|].
  apply Forall_cons in Hf as [[Hk Hv] Hf]. apply NoDup_cons in Hnd as [Hnin Hnd].
  apply fmap_Some in He as (j & Hj & ->). simpl in Hk, Hv, Hnin, Hj |- *. unfold member. cbn [dec_entries].
  rewrite (round_trip _ _ Hv Hj). cbn [mbind option_bind]. rewrite (IH Hnd Hf), unquote_quote, Hk. f_equal.
  rewrite <-insert_union_l. symmetry. apply insert_union_r. by apply not_elem_of_list_to_map_1.
Qed.

#[export] Instance map_lawful {A} (c : codec A) `{!Lawful c} : Lawful (map_codec c).
Proof.
  split; simpl.
  - intros x j H. apply fmap_Some in H as (ms & Hm & ->). apply members_text. apply mapM_Some in Hm.
    apply Forall_forall. intros m Hin. apply list_elem_of_lookup in Hin as [i Hi].
    destruct (Forall2_lookup_r _ _ _ _ _ Hm Hi) as (y & _ & Hy). apply fmap_Some in Hy as (j & Hj & ->).
    exists y.1. destruct (enc_text _ _ Hj). done.
  - intros x. rewrite bool_decide_eq_true. apply map_size_empty_inv.
  - intros x Hf. apply fmap_is_Some, mapM_is_Some. rewrite entries_perm. apply Forall_forall. intros [k v] Hin.
    apply elem_of_map_to_list in Hin. apply fmap_is_Some, enc_total. by apply (Hf k v).
  - intros x j Hf H. apply fmap_Some in H as (ms & Hm & ->). rewrite (dec_enc_entries c (entries x)); [|..|exact Hm].
    + rewrite map_union_empty, (list_to_map_proper _ (map_to_list x)), list_to_map_to_list; [done| |apply entries_perm].
      rewrite entries_perm. apply NoDup_fst_map_to_list.
    + rewrite entries_perm. apply NoDup_fst_map_to_list.
    + rewrite entries_perm. apply Forall_forall. intros [k v] Hin. apply elem_of_map_to_list in Hin. by apply (Hf k v).
Qed.

#[export] Instance lease_lawful : Lawful lease_codec.
Proof.
  split.
  - apply (enc_text (c := map_codec (slice_codec string_codec))).
  - apply (empty_zero (c := map_codec (slice_codec string_codec))).
  - apply (enc_total (c := map_codec (slice_codec string_codec))).
  - apply (round_trip (c := map_codec (slice_codec string_codec))).
Qed.

(** *** Structs *)

(** No two names are equal up to case, and every name is plain text. *)
Definition names_ok {R} (fs : list (field R)) : bool :=
  bool_decide (NoDup ((λ f, fold_key (f_name f)) <$> fs)) &&
  forallb (λ f, bool_decide (coerce_utf8 (f_name f) = f_name f)) fs.

Definition field_text {R} (f : field R) : Prop :=
  ∀ r j, f_enc f r = Some (Some j) → wf j = true ∧ compact j = j.

Definition field_total {R} (f : field R) : Prop := ∀ r, f_fits f r → is_Some (f_enc f r).

(** Reading the fields of [r], one after the other, into [acc]. *)
Fixpoint chain {R} (fs : list (field R)) (r acc : R) : Prop :=
  match fs with
  | [] => acc = r
  | f :: fs =>
      (∀ j, f_enc f r = Some (Some j) → f_dec f acc j = Some (f_copy f r acc)) ∧
      (f_enc f r = Some None → f_copy f r acc = acc) ∧
      chain fs r (f_copy f r acc)
  end.

Lemma find_field_name {R} (fs : list (field R)) f :
  NoDup ((λ f, fold_key (f_name f)) <$> fs) → f ∈ fs → find_field fs (f_name f) = Some f.
Proof.
  intros Hnd Hin. unfold find_field. apply list_elem_of_lookup in Hin as [i Hi].
  assert (list_find (λ g, fold_key (f_name g) = fold_key (f_name f)) fs = Some (i, f)) as ->; [|done].
  apply list_find_Some. split_and!; [done|done|]. intros k g Hg Hlt He.
  assert (k = i); [|lia]. apply (NoDup_lookup _ k i (fold_key (f_name f)) Hnd).
  - rewrite list_lookup_fmap, Hg. simpl. by rewrite He.
  - by rewrite list_lookup_fmap, Hi.
Qed.

Lemma dec_enc_fields {R} (all fs : list (field R)) r acc ms :
  (∀ f, f ∈ fs → find_field all (unquote (quote (f_name f))) = Some f) →
  chain fs r acc → enc_fields fs r = Some ms → dec_fields all ms acc = Some r.
Proof.
  revert acc ms. induction fs as [|f fs IH]; intros acc ms Hfind Hch; [by intros [= <-]; rewrite Hch|].
  destruct Hch as (Hs & Hn & Hch). cbn [enc_fields]. destruct (f_enc f r) as [o|] eqn:He; [|done]. cbn [mbind option_bind].
  destruct (enc_fields fs r) as [ms'|] eqn:Hms; [|done]. cbn [mbind option_bind]. intros [= <-].
  assert (∀ acc, chain fs r acc → dec_fields all ms' acc = Some r) as Hrec.
  { intros a Ha. apply IH; [|done|done]. intros g Hg. apply Hfind. set_solver. }
  destruct o as [j|]; [|rewrite Hn in Hch by done; by apply Hrec].
  unfold member. cbn [dec_fields]. rewrite Hfind by set_solver. rewrite Hs by done. by apply Hrec.
Qed.

Lemma struct_lawful {R} (z : R) (fs : list (field R)) :
  names_ok fs = true → Forall field_text fs → Forall field_total fs → (∀ r, Forall (λ f, f_fits f r) fs → chain fs r z) →
  Lawful (struct_codec z fs).
Proof.
  unfold names_ok. rewrite andb_true_iff, bool_decide_eq_true. intros [Hnd Hn] Ht Htot Hc. split; simpl.
  - intros x j H. apply fmap_Some in H as (ms & Hm & ->). apply members_text. clear Hnd Hn Hc Htot.
    revert ms Hm. induction Ht as [|f fs Hf Ht IH]; intros ms; [by intros [= <-]|]. cbn [enc_fields].
    destruct (f_enc f x) as [o|] eqn:He; [|done]. cbn [mbind option_bind].
    destruct (enc_fields fs x) as [ms'|] eqn:Hms; [|done]. cbn [mbind option_bind]. intros [= <-].
    destruct o as [j|]; [|by apply IH]. constructor; [|by apply IH]. simpl.
    exists (f_name f). destruct (Hf _ _ He). done.
  - done.
  - intros x Hf. apply fmap_is_Some. clear Hnd Hn Hc Ht. induction Htot as [|f fs Hfs Htot IH]; [by eexists|].
    apply Forall_cons in Hf as [Hx Hf]. destruct (Hfs x Hx) as [o Ho], (IH Hf) as [ms Hms]. cbn [enc_fields]. rewrite Ho. cbn [mbind option_bind].
    rewrite Hms. by eexists.
  - intros x j Hf H. apply fmap_Some in H as (ms & Hm & ->). eapply dec_enc_fields; [|by apply Hc|done].
    intros f Hin. rewrite unquote_quote. rewrite forallb_forall in Hn.
    pose proof (Hn f ltac:(by apply list_elem_of_In)) as Hu. apply bool_decide_eq_true in Hu. rewrite Hu.
    by apply find_field_name.
Qed.

Lemma fld_text {R A} name (get : R → A) set (c : codec A) o `{!Lawful c} : field_text (fld name get set c o).
Proof.
  intros r j. simpl. destruct (o && _); [done|]. intros H. apply fmap_Some in H as (j' & Hj & [= ->]). by eapply enc_text.
Qed.

Lemma fld_total {R A} name (get : R → A) set (c : codec A) o `{!Lawful c} : field_total (fld name get set c o).
Proof.
  intros r. simpl. destruct (o && _); [by eexists|]. intros [?|Hf]; [done|]. by apply fmap_is_Some, enc_total.
Qed.

Lemma chain_fld {R A} name (get : R → A) set (c : codec A) o fs r acc `{!Lawful c} :
  o && is_empty c (get r) = true ∨ fits c (get r) → get acc = zero c → set (zero c) acc = acc → chain fs r (set (get r) acc) →
  chain (fld name get set c o :: fs) r acc.
Proof.
  intros Hf Hz Hs Hch. cbn [chain]. split_and!; [| |exact Hch]; simpl.
  - intros j. destruct (o && _); [done|]. destruct Hf as [?|Hf]; [done|]. intros H. apply fmap_Some in H as (j' & Hj & [= ->]).
    rewrite Hz, (round_trip _ _ Hf Hj). done.
  - destruct (o && _) eqn:Ho; [|by destruct (enc c _)]. intros _. apply andb_true_iff in Ho as [_ He].
    by rewrite (empty_zero _ He).
Qed.

(** The laws of a struct, from those of its fields. *)
Ltac solve_struct :=
  apply struct_lawful;
  [ vm_compute; reflexivity
  | repeat (apply Forall_cons; split; [apply fld_text; apply _|]); by apply Forall_nil
  | repeat (apply Forall_cons; split; [apply fld_total; apply _|]); by apply Forall_nil
  | let r := fresh "r" in let H := fresh "H" in
    intros r H;
    repeat (let Hf := fresh "Hf" in apply Forall_cons in H; destruct H as [Hf H]);
    destruct r; repeat (match goal with p : (_ * _)%type |- _ => destruct p end);
    repeat (eapply chain_fld; [apply _|assumption|reflexivity|reflexivity|]);
    reflexivity ].
