(* ===== verification/Rfc3339.v ===== *)
(** * Texts of times and floats

    Concrete functions for the parameters of [WireText]: the RFC 3339 text of a
    time as [Time.MarshalJSON] writes it (the fraction without trailing zeros,
    [Z] or a numeric zone, an error for a year of more than four digits or a
    zone of a day or more) and the strict reader of [Time.UnmarshalJSON]; and
    an exact decimal text of a [float64], which is not the shortest one. *)

From Stdlib Require Import ZArith Ascii Lia SpecFloat.
From S2P Require Import Prelude GoStrings Decimal Errors Features Float64 Lease Messages Agents Stream Json JsonText Codec.
Open Scope Z_scope.

(** ** The calendar *)

Definition is_leap (y : Z) : bool := (y mod 4 =? 0) && (negb (y mod 100 =? 0) || (y mod 400 =? 0)).

Definition month_days (y m : Z) : Z :=
  if m =? 2 then (if is_leap y then 29 else 28)
  else if bool_decide (m ∈ [4; 6; 9; 11]) then 30 else 31.

(** Days before January 1 of the year [y], counted from year 0. *)
Definition year_start (y : Z) : Z := 365 * y + (y + 3) / 4 - (y + 99) / 100 + (y + 399) / 400.

Fixpoint month_start (y : Z) (m : nat) : Z :=
  match m with O => 0 | S m => month_start y m + month_days y (Z.of_nat m + 1) end.

(** The Unix epoch is day 719528. *)
Definition epoch_day : Z := 719528.

Definition civil_to_days (y m d : Z) : Z := year_start y + month_start y (Z.to_nat (m - 1)) + (d - 1) - epoch_day.

Fixpoint find_month (fuel : nat) (y m day : Z) : Z * Z :=
  match fuel with
  | O => (m, day + 1)
  | S fuel => if day <? month_days y m then (m, day + 1) else find_month fuel y (m + 1) (day - month_days y m)
  end.

Definition days_to_civil (n : Z) : Z * Z * Z :=
  let n := n + epoch_day in
  let y := n * 400 / 146097 in
  let y := if n <? year_start y then y - 1 else if year_start (y + 1) <=? n then y + 1 else y in
  let '(m, d) := find_month 11 y 1 (n - year_start y) in (y, m, d).

(** ** Digits *)

Fixpoint digits (width : nat) (z : Z) : string :=
  match width with
  | O => EmptyString
  | S w => digits w (z / 10) +:+ str (digit_char (z mod 10))
  end.

Fixpoint drop_zeros (s : string) : string :=
  match s with
  | EmptyString => EmptyString
  | String c s =>
      let r := drop_zeros s in
      if bool_decide (c = "0"%char) && bool_decide (r = EmptyString) then EmptyString else String c r
  end.

(** ** Times *)

Definition zone_text (offset : Z) : option string :=
  if offset =? 0 then Some "Z"
  else
    let zone := Z.quot offset 60 in
    if Z.abs zone / 60 <? 24
    then Some ((if zone <? 0 then "-" else "+") +:+ digits 2 (Z.abs zone / 60) +:+ ":" +:+ digits 2 (Z.abs zone mod 60))
    else None.

Definition rfc3339_text (t : ZonedTime) : option string :=
  let local := zt_instant t / second + zt_offset t in
  let nanos := zt_instant t mod second in
  let '(y, m, d) := days_to_civil (local / 86400) in
  let s := local mod 86400 in
  if (0 <=? y) && (y <=? 9999) then
    zone ← zone_text (zt_offset t);
    Some (digits 4 y +:+ "-" +:+ digits 2 m +:+ "-" +:+ digits 2 d +:+ "T" +:+ digits 2 (s / 3600) +:+ ":" +:+
          digits 2 (s / 60 mod 60) +:+ ":" +:+ digits 2 (s mod 60) +:+
          (if nanos =? 0 then "" else "." +:+ drop_zeros (digits 9 nanos)) +:+ zone)
  else None.

(** A number of exactly [width] digits within bounds. *)
Definition read_num (width : nat) (lo hi : Z) (s : string) : option (Z * string) :=
  v ← parse_digits (stake width s);
  if bool_decide (len (stake width s) = width) && (lo <=? v) && (v <=? hi) then Some (v, sdrop width s) else None.

(** The fraction in nanoseconds; digits beyond the ninth are dropped. *)
Definition read_frac (s : string) : option (Z * string) :=
  match expect "." s with
  | None => Some (0, s)
  | Some r =>
      '(ds, r) ← digits1 r;
      let kept := stake 9 ds in
      v ← parse_digits kept;
      Some (v * 10 ^ (9 - Z.of_nat (len kept)), r)
  end.

Definition read_zone (s : string) : option Z :=
  if bool_decide (s = "Z") then Some 0
  else match s with
       | String c r =>
           if bool_decide (c ∈ ["+"; "-"]%char) then
             '(h, r) ← read_num 2 0 23 r; r ← expect ":" r; '(m, r) ← read_num 2 0 59 r;
             if bool_decide (r = "") then Some ((if bool_decide (c = "-"%char) then -1 else 1) * (h * 60 + m) * 60) else None
           else None
       | EmptyString => None
       end.

Definition rfc3339_parse (s : string) : option ZonedTime :=
  '(y, s) ← read_num 4 0 9999 s; s ← expect "-" s; '(m, s) ← read_num 2 1 12 s; s ← expect "-" s;
  '(d, s) ← read_num 2 1 (month_days y m) s; s ← expect "T" s;
  '(h, s) ← read_num 2 0 23 s; s ← expect ":" s; '(mi, s) ← read_num 2 0 59 s; s ← expect ":" s;
  '(se, s) ← read_num 2 0 59 s;
  '(f, s) ← read_frac s;
  off ← read_zone s;
  Some (mkZoned ((civil_to_days y m d * 86400 + h * 3600 + mi * 60 + se - off) * second + f) off).

(** ** Floats *)

(** The digits of a nonnegative integer of any size. *)
Definition big_digits (z : Z) : string := format_fuel (S (Z.to_nat (Z.log2 z))) z EmptyString.

(** [m * 2^e] as digits, or as digits and a negative power of ten. *)
Definition exact_text (v : f64) : string :=
  match v with
  | S754_finite s m e =>
      (if s then "-" else "") +:+
      (if 0 <=? e then big_digits (Zpos m * 2 ^ e) else big_digits (Zpos m * 5 ^ (- e)) +:+ "e-" +:+ big_digits (- e))
  | S754_zero s => if s then "-0" else "0"
  | _ => "0"
  end.

(** ** The laws of the texts *)

Definition safe_char (c : ascii) : bool := plain_char c && html_safe c.

Lemma safe_text s : sforallb safe_char s = true → str_ok s = true ∧ html_lit s = s.
Proof.
  intros H. split.
  - apply lexes_str_ok. revert H. induction s as [|c s IH]; [intros _; apply lexes_nil|].
    cbn [sforallb]. unfold safe_char at 1. rewrite !andb_true_iff. intros [[Hc _] Hs]. apply lexes_cons; [done|by apply IH].
  - rewrite <-(sapp_nil_r s) at 1. rewrite html_safe_app; [by rewrite sapp_nil_r|].
    revert H. induction s as [|c s IH]; [done|]. cbn [sforallb]. unfold safe_char at 1. rewrite !andb_true_iff.
    intros [[_ Hc] Hs]. split; [done|by apply IH].
Qed.

Lemma safe_digit d : (0 <= d < 10)%Z → safe_char (digit_char d) = true.
Proof.
  intros Hd. assert (d = 0 ∨ d = 1 ∨ d = 2 ∨ d = 3 ∨ d = 4 ∨ d = 5 ∨ d = 6 ∨ d = 7 ∨ d = 8 ∨ d = 9)%Z as H by lia.
  repeat destruct H as [->|H]; try done. by subst d.
Qed.

Lemma safe_digits w z : sforallb safe_char (digits w z) = true.
Proof.
  revert z. induction w as [|w IH]; intros z; [done|]. cbn [digits]. rewrite sforallb_app, IH. cbn [str sforallb].
  rewrite safe_digit; [done|]. apply Z.mod_pos_bound. lia.
Qed.

Lemma safe_drop_zeros s : sforallb safe_char s = true → sforallb safe_char (drop_zeros s) = true.
Proof.
  induction s as [|c s IH]; [done|]. cbn [sforallb drop_zeros]. rewrite andb_true_iff. intros [Hc Hs].
  case_goal; [done|]. cbn [sforallb]. rewrite Hc. by apply IH.
Qed.

Lemma rfc3339_text_ok t s : rfc3339_text t = Some s → str_ok s = true ∧ html_lit s = s.
Proof.
  intros H. apply safe_text. unfold rfc3339_text in H. destruct (days_to_civil _) as [[y m] d].
  destruct ((0 <=? y) && (y <=? 9999)); [|done]. destruct (zone_text (zt_offset t)) as [zone|] eqn:Hz; [|done].
  assert (sforallb safe_char zone = true) as Hzone.
  { unfold zone_text in Hz. destruct (_ =? 0); [by injection Hz as <-|]. destruct (_ <? 24); [|done]. apply (inj Some) in Hz as <-.
    rewrite !sforallb_app, !safe_digits. by destruct (_ <? 0). }
  apply (inj Some) in H as <-. rewrite !sforallb_app, !safe_digits, Hzone. cbn [sforallb andb].
  destruct (_ =? 0); [done|]. rewrite sforallb_app, safe_drop_zeros by apply safe_digits. done.
Qed.

Lemma big_digits_spec z : (0 < z)%Z → big_digits z ≠ EmptyString ∧ sforallb num_digit (big_digits z) = true ∧
  ∀ s, big_digits z ≠ String "0" s.
Proof.
  intros Hz. unfold big_digits.
  assert (0 <= z < 10 ^ Z.of_nat (S (Z.to_nat (Z.log2 z))))%Z as Hb.
  { split; [lia|]. pose proof (Z.log2_nonneg z). destruct (Z.log2_spec z Hz) as [_ Hlt].
    rewrite Nat2Z.inj_succ, Z2Nat.id by lia. eapply Z.lt_le_trans; [exact Hlt|]. apply Z.pow_le_mono_l. lia. }
  destruct (format_fuel_head (S (Z.to_nat (Z.log2 z))) z EmptyString) as (c & s & Hc & H0); [lia|].
  destruct (format_fuel_spec _ z EmptyString (Nat.lt_0_succ _) Hb) as (ds & Hds & Hne & Hd & _).
  rewrite Hds, sapp_nil_r in Hc |- *. split_and!; [done|by apply num_digit_is_digit|]. intros u. rewrite Hc. by intros [= -> _].
Qed.

Lemma num_ok_exp (neg : bool) d x : d ≠ EmptyString → sforallb num_digit d = true → (∀ u, d ≠ String "0" u) →
  x ≠ EmptyString → sforallb num_digit x = true → num_ok ((if neg then "-" else "") +:+ d +:+ "e-" +:+ x) = true.
Proof.
  intros H1 H2 H3 H4 H5. unfold num_ok. apply bool_decide_eq_true. unfold lex_num.
  assert (lex_sign ["-"%char] ((if neg then "-" else "") +:+ d +:+ "e-" +:+ x) = (if neg then "-" else "", d +:+ "e-" +:+ x)) as ->.
  { apply lex_sign_app. destruct neg; [left; exists "-"%char; split; [done|set_solver]|right]. split; [done|].
    destruct d as [|c d]; [done|]. simpl in *. rewrite andb_true_iff in H2. destruct H2 as [Hc _].
    apply negb_true_iff, bool_decide_eq_false_2. intros Hin. set_unfold in Hin. destruct_or? Hin; by subst. }
  assert (lex_int (d +:+ "e-" +:+ x) = Some (d, "e-" +:+ x)) as ->.
  { destruct d as [|c d]; [done|]. rewrite sapp_cons. unfold lex_int.
    rewrite bool_decide_eq_false_2 by (intros ->; by destruct (H3 d)). rewrite <-sapp_cons. by apply digits1_app. }
  cbn [mbind option_bind]. pose proof (digits1_app x EmptyString H4 H5 eq_refl) as Hx. rewrite sapp_nil_r in Hx.
  change (lex_frac ("e-" +:+ x)) with (Some (EmptyString, "e-" +:+ x)). cbn [mbind option_bind].
  assert (lex_exp ("e-" +:+ x) = Some ("e-" +:+ x, EmptyString)) as ->; [|done].
  change (lex_exp ("e-" +:+ x)) with ('(ds, r) ← digits1 x; Some (String "e" ("-" +:+ ds), r)). by rewrite Hx.
Qed.

Lemma exact_text_ok v : is_finite v = true → num_ok (exact_text v) = true.
Proof.
  destruct v as [[]| | |s m e]; try done. intros _.
  assert (∀ d, d ≠ EmptyString → sforallb num_digit d = true → (∀ u, d ≠ String "0" u) →
    num_ok ((if s then "-" else "") +:+ d) = true) as Hint.
  { intros d H1 H2 H3. destruct (num_ok_digits d H1 H2 (or_intror H3)). by destruct s. }
  cbn [exact_text]. destruct (Z.leb_spec 0 e) as [He|He].
  - destruct (big_digits_spec (Zpos m * 2 ^ e)) as (? & ? & ?); [apply Z.mul_pos_pos; [lia|by apply Z.pow_pos_nonneg]|].
    by apply Hint.
  - destruct (big_digits_spec (Zpos m * 5 ^ (- e))) as (H1 & H2 & H3); [apply Z.mul_pos_pos; [lia|apply Z.pow_pos_nonneg; lia]|].
    destruct (big_digits_spec (- e)) as (H4 & H5 & H6); [lia|]. set (d := big_digits (Zpos m * 5 ^ (- e))) in *.
    set (x := big_digits (- e)) in *. by apply num_ok_exp.
Qed.

(** The texts of this file, for the zone offset of the process. *)
Definition rfc3339 (offset : Time → Z) : WireText := {|
  float_text := exact_text;
  float_text_ok := exact_text_ok;
  time_text := rfc3339_text;
  time_text_ok := rfc3339_text_ok;
  time_parse := rfc3339_parse;
  local_offset := offset
|}.

Close Scope Z_scope.
