(* ===== verification/Rfc3339Laws.v ===== *)
(** * The texts of times round-trip

    The calendar functions are inverse to each other, and the strict reader
    returns the time whose RFC 3339 text it reads, for every year of four
    digits and every zone of whole minutes.  A zone with seconds is outside: its
    text drops them, so the instant is lost. *)

From Stdlib Require Import ZArith Ascii Lia SpecFloat.
From S2P Require Import Prelude GoStrings Decimal Errors Features Float64 Lease Messages Agents Stream Json JsonText Codec Rfc3339.
Open Scope Z_scope.

(** ** The calendar *)

Lemma year_start_S y : year_start (y + 1) = year_start y + (if is_leap y then 366 else 365).
Proof.
  unfold year_start, is_leap.
  destruct (Z.eqb_spec (y mod 4) 0), (Z.eqb_spec (y mod 100) 0), (Z.eqb_spec (y mod 400) 0); simpl;
    Z.to_euclidean_division_equations; lia.
Qed.

Lemma month_start_12 y : month_start y 12 = if is_leap y then 366 else 365.
Proof.
  cbn [month_start]. unfold month_days. cbn [Z.of_nat Z.add Pos.of_succ_nat Pos.add Pos.succ Z.eqb Pos.eqb].
  by destruct (is_leap y).
Qed.

Lemma month_days_pos y m : 28 <= month_days y m <= 31.
Proof. unfold month_days. destruct (m =? 2), (is_leap y); try lia; case_bool_decide; lia. Qed.

Lemma month_start_S y m : 1 <= m → month_start y (Z.to_nat m) = month_start y (Z.to_nat (m - 1)) + month_days y m.
Proof.
  intros Hm. replace (Z.to_nat m) with (S (Z.to_nat (m - 1))) by lia. cbn [month_start]. f_equal. f_equal. lia.
Qed.

Lemma find_month_spec fuel y m day m' d' :
  1 <= m → m + Z.of_nat fuel = 12 → 0 <= day → day < month_start y 12 - month_start y (Z.to_nat (m - 1)) →
  find_month fuel y m day = (m', d') →
  1 <= m' <= 12 ∧ 1 <= d' <= month_days y m' ∧
  month_start y (Z.to_nat (m' - 1)) + (d' - 1) = month_start y (Z.to_nat (m - 1)) + day.
Proof.
  revert m day. induction fuel as [|fuel IH]; intros m day Hm Hf Hd Hlt.
  - assert (m = 12) as -> by lia. pose proof (month_start_S y 12 ltac:(lia)) as Hs.
    change (Z.to_nat 12) with 12%nat in Hs. intros [= <- <-]. lia.
  - cbn [find_month]. pose proof (month_start_S y m Hm) as Hs. destruct (Z.ltb_spec day (month_days y m)); [intros [= <- <-]; lia|].
    intros Hr. destruct (IH (m + 1) (day - month_days y m)) as (H1 & H2 & H3); [lia|lia|lia| |exact Hr|].
    + replace (m + 1 - 1) with m by lia. lia.
    + split_and!; try lia. replace (m + 1 - 1) with m in H3 by lia. lia.
Qed.

Lemma year_spec n y : y = n * 400 / 146097 →
  let y := if n <? year_start y then y - 1 else if year_start (y + 1) <=? n then y + 1 else y in
  year_start y <= n < year_start (y + 1).
Proof.
  intros Hy. assert (year_start (y - 1) <= n < year_start (y + 2)) as Hb.
  { unfold year_start. Z.to_euclidean_division_equations; lia. }
  cbn zeta. destruct (Z.ltb_spec n (year_start y)); [replace (y - 1 + 1) with y by lia; lia|].
  destruct (Z.leb_spec (year_start (y + 1)) n); [replace (y + 1 + 1) with (y + 2) by lia; lia|lia].
Qed.

Lemma days_to_civil_spec n y m d : days_to_civil n = (y, m, d) →
  civil_to_days y m d = n ∧ year_start y <= n + epoch_day < year_start (y + 1) ∧ 1 <= m <= 12 ∧ 1 <= d <= month_days y m.
Proof.
  unfold days_to_civil. pose proof (year_spec (n + epoch_day) _ eq_refl) as Hy. cbn zeta in Hy.
  set (y0 := if _ <? _ then _ else _) in *. destruct (find_month 11 y0 1 (n + epoch_day - year_start y0)) as [m0 d0] eqn:Hf.
  intros [= <- <- <-]. rewrite year_start_S in Hy. pose proof (month_start_12 y0) as H12.
  destruct (find_month_spec 11 y0 1 (n + epoch_day - year_start y0) m0 d0) as (H1 & H2 & H3); [lia|lia|lia| |exact Hf|].
  - change (month_start y0 (Z.to_nat (1 - 1))) with 0. lia.
  - change (month_start y0 (Z.to_nat (1 - 1))) with 0 in H3. rewrite year_start_S. unfold civil_to_days. lia.
Qed.

(** ** Digits *)

Lemma digits_spec w z : 0 <= z < 10 ^ Z.of_nat w →
  len (digits w z) = w ∧ sforallb is_digit (digits w z) = true ∧
  ∀ s a, digits_acc (digits w z +:+ s) a = digits_acc s (a * 10 ^ Z.of_nat w + z).
Proof.
  revert z. induction w as [|w IH]; intros z Hz.
  - split_and!; [done|done|]. intros s a. rewrite sapp_nil_l. f_equal. change (10 ^ Z.of_nat 0) with 1 in *. lia.
  - rewrite Nat2Z.inj_succ, Z.pow_succ_r in Hz by lia.
    destruct (IH (z / 10)) as (Hl & Hd & Ha); [split; [apply Z.div_pos; lia|apply Z.div_lt_upper_bound; lia]|].
    destruct (digit_char_spec (z mod 10)) as [Hc Hv]; [apply Z.mod_pos_bound; lia|]. cbn [digits]. unfold str. split_and!.
    + rewrite len_app, Hl. cbn. lia.
    + rewrite sforallb_app, Hd. cbn [sforallb]. by rewrite Hc.
    + intros s a. rewrite sapp_assoc, Ha, sapp_cons, sapp_nil_l. cbn [digits_acc]. rewrite Hc, Hv. f_equal.
      rewrite Nat2Z.inj_succ, Z.pow_succ_r by lia. pose proof (Z.div_mod z 10). lia.
Qed.

Lemma digits_acc_total s a : sforallb is_digit s = true → is_Some (digits_acc s a).
Proof.
  revert a. induction s as [|c s IH]; intros a; [by eexists|]. cbn [sforallb digits_acc]. rewrite andb_true_iff.
  intros [-> Hs]. by apply IH.
Qed.

Lemma parse_digits_acc s : s ≠ EmptyString → parse_digits s = digits_acc s 0.
Proof. by destruct s. Qed.

Lemma read_num_digits w lo hi z r : (0 < w)%nat → 0 <= z < 10 ^ Z.of_nat w → lo <= z <= hi →
  read_num w lo hi (digits w z +:+ r) = Some (z, r).
Proof.
  intros Hw Hz Hb. destruct (digits_spec w z Hz) as (Hl & _ & Ha).
  pose proof (stake_app (digits w z) r) as Hs. pose proof (sdrop_app (digits w z) r) as Hd. rewrite Hl in Hs, Hd.
  unfold read_num. rewrite Hs, Hd, parse_digits_acc by (intros He; rewrite He in Hl; cbn in Hl; lia).
  rewrite <-(sapp_nil_r (digits w z)) at 1. rewrite Ha. cbn [digits_acc mbind option_bind].
  rewrite Z.mul_0_l, Z.add_0_l, bool_decide_eq_true_2 by exact Hl.
  destruct (Z.leb_spec lo z), (Z.leb_spec z hi); try lia. done.
Qed.

Lemma drop_zeros_spec s : sforallb is_digit s = true →
  sforallb is_digit (drop_zeros s) = true ∧
  ∃ k, len s = (len (drop_zeros s) + k)%nat ∧
    ∀ a v, digits_acc (drop_zeros s) a = Some v → digits_acc s a = Some (v * 10 ^ Z.of_nat k).
Proof.
  induction s as [|c s IH]; [intros _; split; [done|]; exists 0%nat; split; [done|]; intros a v [= <-]; cbn; f_equal; lia|].
  cbn [sforallb drop_zeros]. rewrite andb_true_iff. intros [Hc Hs]. destruct (IH Hs) as (Hd & k & Hl & Ha).
  destruct (bool_decide (c = "0"%char) && bool_decide (drop_zeros s = EmptyString)) eqn:He.
  - rewrite andb_true_iff, !bool_decide_eq_true in He. destruct He as [-> He]. rewrite He in Hl, Ha.
    split; [done|]. exists (S k).
    split; [change (len (String "0" s)) with (S (len s)); change (len EmptyString) with 0%nat in *; lia|]. intros a v [= <-].
    change (digits_acc (String "0" s) a) with (digits_acc s (a * 10 + 0)). rewrite (Ha _ _ eq_refl). f_equal.
    rewrite Nat2Z.inj_succ, Z.pow_succ_r by lia. lia.
  - cbn [sforallb]. rewrite Hc, Hd. split; [done|]. exists k.
    split; [change (S (len s) = S (len (drop_zeros s)) + k)%nat; lia|]. intros a v. cbn [digits_acc]. rewrite Hc. apply Ha.
Qed.

Lemma stake_all n s : (len s <= n)%nat → stake n s = s.
Proof.
  revert n. induction s as [|c s IH]; intros [|n]; rewrite ?len_cons; intros Hl; [done|done|lia|].
  cbn [stake]. rewrite IH; [done|lia].
Qed.

Lemma read_frac_none r : expect "." r = None → read_frac r = Some (0, r).
Proof. intros H. unfold read_frac. by rewrite H. Qed.

Lemma read_frac_digits nanos r : 0 < nanos < 10 ^ 9 → head_not num_digit r = true →
  read_frac ("." +:+ drop_zeros (digits 9 nanos) +:+ r) = Some (nanos, r).
Proof.
  intros Hn Hr. destruct (digits_spec 9 nanos) as (Hl & Hd & Ha); [cbn; lia|].
  destruct (drop_zeros_spec _ Hd) as (Hz & k & Hk & Hv). set (d := drop_zeros (digits 9 nanos)) in *.
  destruct (digits_acc_total d 0 Hz) as [v Hdv]. pose proof (Hv _ _ Hdv) as Hval.
  rewrite <-(sapp_nil_r (digits 9 nanos)), Ha in Hval. cbn [digits_acc] in Hval. apply (inj Some) in Hval.
  assert (d ≠ EmptyString) as Hne. { intros He. rewrite He in Hdv. injection Hdv as <-. lia. }
  unfold read_frac. change (expect "." ("." +:+ d +:+ r)) with (Some (d +:+ r)). cbn iota.
  rewrite digits1_app; [|done|exact Hz|done]. cbn [mbind option_bind]. rewrite stake_all by lia.
  rewrite parse_digits_acc, Hdv by done. cbn [mbind option_bind]. do 2 f_equal.
  replace (9 - Z.of_nat (len d)) with (Z.of_nat k) by lia. lia.
Qed.

(** ** Zones *)

Lemma zone_text_spec off zone : off mod 60 = 0 → zone_text off = Some zone →
  read_zone zone = Some off ∧ head_not num_digit zone = true ∧ expect "." zone = None.
Proof.
  intros Hm. unfold zone_text. destruct (Z.eqb_spec off 0) as [->|Hne]; [by intros [= <-]|].
  assert (Z.quot off 60 * 60 = off) as Hq by (Z.to_euclidean_division_equations; lia).
  destruct (Z.ltb_spec (Z.abs (Z.quot off 60) / 60) 24) as [Hlt|]; [|done]. intros [= <-].
  set (h := Z.abs (Z.quot off 60) / 60) in *. set (m := Z.abs (Z.quot off 60) mod 60).
  assert (0 <= h ∧ 0 <= m < 60 ∧ h * 60 + m = Z.abs (Z.quot off 60)) as (Hh & Hm' & Hhm)
    by (subst h m; Z.to_euclidean_division_equations; lia).
  assert (∀ c, c ∈ ["+"; "-"]%char → read_zone (String c EmptyString +:+ digits 2 h +:+ ":" +:+ digits 2 m) =
    Some ((if bool_decide (c = "-"%char) then -1 else 1) * (h * 60 + m) * 60)) as Hread.
  { intros c Hc. rewrite sapp_cons, sapp_nil_l. unfold read_zone.
    rewrite bool_decide_eq_false_2 by (intros [= -> _]; set_unfold in Hc; by destruct_or? Hc). rewrite bool_decide_eq_true_2 by done.
    rewrite read_num_digits by (cbn; lia). cbn [mbind option_bind].
    change (expect ":" (":" +:+ digits 2 m)) with (Some (digits 2 m)). cbn [mbind option_bind].
    rewrite <-(sapp_nil_r (digits 2 m)), read_num_digits by (cbn; lia). done. }
  destruct (Z.ltb_spec (Z.quot off 60) 0); (split; [|done]); rewrite Hread by set_solver; f_equal.
  - rewrite bool_decide_eq_true_2 by done. lia.
  - rewrite bool_decide_eq_false_2 by done. lia.
Qed.

(** ** The round trip *)

(** A time [MarshalJSON] accepts, in a zone its text can express. *)
Definition time_ok (t : ZonedTime) : Prop :=
  civil_to_days 0 1 1 <= (zt_instant t / second + zt_offset t) / 86400 < civil_to_days 10000 1 1 ∧
  Z.abs (zt_offset t) < 86400 ∧ zt_offset t mod 60 = 0.

Lemma year_start_mono y z : y <= z → year_start y <= year_start z.
Proof. intros H. unfold year_start. Z.to_euclidean_division_equations; lia. Qed.

Lemma year_in_range n y m d : days_to_civil n = (y, m, d) → civil_to_days 0 1 1 <= n < civil_to_days 10000 1 1 → 0 <= y <= 9999.
Proof.
  intros H Hn. apply days_to_civil_spec in H as (_ & Hy & _).
  change (civil_to_days 0 1 1) with (year_start 0 + 0 + (1 - 1) - epoch_day) in Hn.
  change (civil_to_days 10000 1 1) with (year_start 10000 + 0 + (1 - 1) - epoch_day) in Hn.
  destruct (Z.lt_ge_cases y 0) as [Hlt|]; [pose proof (year_start_mono (y + 1) 0); lia|].
  destruct (Z.lt_ge_cases 9999 y) as [Hlt|]; [pose proof (year_start_mono 10000 y); lia|lia].
Qed.

Lemma zone_text_total off : Z.abs off < 86400 → is_Some (zone_text off).
Proof.
  intros H. unfold zone_text. destruct (off =? 0); [by eexists|].
  destruct (Z.ltb_spec (Z.abs (Z.quot off 60) / 60) 24); [by eexists|]. exfalso. Z.to_euclidean_division_equations; lia.
Qed.

Lemma expect_lit c r : expect c (String c EmptyString +:+ r) = Some r.
Proof. rewrite sapp_cons, sapp_nil_l. apply expect_cons. Qed.

Lemma rfc3339_roundtrip t : time_ok t → ∃ s, rfc3339_text t = Some s ∧ rfc3339_parse s = Some t.
Proof.
  intros (Hn & Ho & Hm). destruct (zone_text_total _ Ho) as [zone Hz].
  destruct (zone_text_spec _ _ Hm Hz) as (Hrz & Hhd & Hdot). unfold rfc3339_text.
  set (local := zt_instant t / second + zt_offset t) in *. destruct (days_to_civil (local / 86400)) as [[y m] d] eqn:Hc.
  pose proof (year_in_range _ _ _ _ Hc Hn) as Hy. destruct (days_to_civil_spec _ _ _ _ Hc) as (Hciv & _ & Hmo & Hd).
  pose proof (month_days_pos y m) as Hmd.
  destruct (Z.leb_spec 0 y), (Z.leb_spec y 9999); try lia. cbn [andb]. rewrite Hz. cbn [mbind option_bind].
  eexists. split; [reflexivity|]. set (s := local mod 86400).
  assert (0 <= s < 86400) as Hs by (apply Z.mod_pos_bound; lia).
  assert (0 <= s / 3600 <= 23 ∧ 0 <= s / 60 mod 60 <= 59 ∧ 0 <= s mod 60 <= 59 ∧
          s / 3600 * 3600 + s / 60 mod 60 * 60 + s mod 60 = s) as (Hh & Hmi & Hse & Hsum)
    by (Z.to_euclidean_division_equations; lia).
  assert (0 <= zt_instant t mod second < 10 ^ 9) as Hns by (apply Z.mod_pos_bound; done).
  assert (read_frac ((if zt_instant t mod second =? 0 then "" else "." +:+ drop_zeros (digits 9 (zt_instant t mod second))) +:+ zone) =
          Some (zt_instant t mod second, zone)) as Hf.
  { destruct (Z.eqb_spec (zt_instant t mod second) 0) as [E|E]; [rewrite E, sapp_nil_l; by apply read_frac_none|].
    rewrite sapp_assoc. apply read_frac_digits; [lia|done]. }
  unfold rfc3339_parse.
  repeat (first [rewrite read_num_digits by (cbn; lia)|rewrite expect_lit]; cbn [mbind option_bind]).
  rewrite Hf. cbn [mbind option_bind]. rewrite Hrz. cbn [mbind option_bind]. f_equal. destruct t as [inst off]. cbn in *. f_equal.
  rewrite Hciv. pose proof (Z.div_mod local 86400). pose proof (Z.div_mod inst second). fold s in H0. unfold second in *. lia.
Qed.

(** A time in range travels on the wire. *)
Lemma zoned_fits f t : time_ok t → fits (zoned_codec (WT := rfc3339 f)) t.
Proof. apply rfc3339_roundtrip. Qed.

Lemma time_fits f t : time_ok (mkZoned t (f t)) → fits (time_codec (WT := rfc3339 f)) t.
Proof. intros H. destruct (rfc3339_roundtrip _ H) as (s & Hs & Hp). exists s. split; [exact Hs|]. simpl. by rewrite Hp. Qed.

Close Scope Z_scope.
