(* ===== verification/Wire.v ===== *)
(** * The wire format

    The JSON of every message: the structs of messages/session.go,
    messages/job.go and messages/event.go with their json tags, the event
    bodies with [NewEventBody] and [DecodeEventBody], the payloads by message
    type, and [Envelope].  The JSON of an envelope is an instance of
    [JSONCodec], the interface of the transports.

    An embedded raw message is text: [Marshal] of an envelope compacts the text
    of its payload, and [Unmarshal] keeps the text the payload had.  The typed
    payload of the model is what that text decodes to at the type of the
    envelope, and [PRaw] where it does not decode. *)

From Stdlib Require Import ZArith Ascii Lia SpecFloat.
From S2P Require Import Prelude GoStrings Decimal Errors Features Float64 Lease Messages Agents Stream Json JsonText Codec Transport Stdio.

(** ** Record update for the messages *)

#[export] Instance eta_ResumeRequest : Eta ResumeRequest := λ r, mkResumeRequest (rr_SessionID r) (rr_ResumeToken r) (rr_LastEventSeq r).
#[export] Instance eta_HelloCapabilities : Eta HelloCapabilities := λ r, mkHelloCaps (hc_Encodings r) (hc_Features r).
#[export] Instance eta_SessionHello : Eta SessionHello := λ r,
  mkHello (sh_ClientName r) (sh_ClientVersion r) (sh_AuthScheme r) (sh_AuthToken r) (sh_Capabilities r) (sh_Resume r).
#[export] Instance eta_AgentEntry : Eta AgentEntry := λ r, mkAgentEntry (ae_Name r) (ae_Versions r) (ae_Default r) (ae_Bare r).
#[export] Instance eta_SessionWelcome : Eta SessionWelcome := λ r,
  mkWelcome (sw_RuntimeName r) (sw_RuntimeVersion r) (sw_ResumeToken r) (sw_ResumeWindowSec r) (sw_HeartbeatIntervalSec r)
    (sw_Encodings r) (sw_Features r) (sw_Agents r).
#[export] Instance eta_SessionErrorMsg : Eta SessionErrorMsg := λ r,
  mkSessionError (se_Code r) (se_Message r) (se_Retryable r) (se_Details r) (se_RequestID r) (se_JobID r).
#[export] Instance eta_ListJobsFilter : Eta ListJobsFilter := λ r,
  mkFilter (f_Status r) (f_Agent r) (f_CreatedAfter r) (f_CreatedBefore r).
#[export] Instance eta_SessionListJobs : Eta SessionListJobs := λ r, mkListJobs (lj_Filter r) (lj_Limit r) (lj_Cursor r).
#[export] Instance eta_JobInfo : Eta JobInfo := λ r,
  mkJobInfo (ji_JobID r) (ji_Agent r) (ji_Status r) (ji_Lease r) (ji_ParentJobID r) (ji_CreatedAt r) (ji_TraceID r) (ji_LastEventSeq r).
#[export] Instance eta_SessionJobs : Eta SessionJobs := λ r, mkJobs (sj_RequestID r) (sj_Jobs r) (sj_NextCursor r).
#[export] Instance eta_LeaseConstraints : Eta LeaseConstraints := λ r, mkConstraints (lc_ExpiresAt r).
#[export] Instance eta_JobSubmit : Eta JobSubmit := λ r,
  mkSubmit (js_Agent r) (js_Input r) (js_LeaseRequest r) (js_LeaseConstraints r) (js_IdempotencyKey r) (js_MaxRuntimeSec r).
#[export] Instance eta_CredentialConstraints : Eta CredentialConstraints := λ r,
  mkCredConstraints (cc_CostBudget r) (cc_ModelUse r) (cc_ExpiresAt r).
#[export] Instance eta_Credential : Eta Credential := λ r,
  mkCredential (cr_ID r) (cr_Scheme r) (cr_Value r) (cr_Endpoint r) (cr_Profile r) (cr_Constraints r).
#[export] Instance eta_JobAccepted : Eta JobAccepted := λ r,
  mkAccepted (ja_JobID r) (ja_Lease r) (ja_LeaseConstraints r) (ja_Budget r) (ja_Credentials r) (ja_AcceptedAt r)
    (ja_TraceID r) (ja_ParentJobID r) (ja_Agent r).
#[export] Instance eta_JobResult : Eta JobResult := λ r,
  mkResult (jr_FinalStatus r) (jr_Output r) (jr_ResultID r) (jr_ResultSize r) (jr_Summary r).
#[export] Instance eta_JobErrorMsg : Eta JobErrorMsg := λ r,
  mkJobError (je_FinalStatus r) (je_Code r) (je_Message r) (je_Retryable r) (je_Details r).
#[export] Instance eta_JobSubscribe : Eta JobSubscribe := λ r, mkSubscribe (sb_JobID r) (sb_FromEventSeq r) (sb_History r).
#[export] Instance eta_JobSubscribed : Eta JobSubscribed := λ r,
  mkSubscribed (sd_JobID r) (sd_CurrentStatus r) (sd_Agent r) (sd_Lease r) (sd_ParentJobID r) (sd_TraceID r)
    (sd_SubscribedFrom r) (sd_Replayed r).
#[export] Instance eta_ToolError : Eta ToolError := λ r, mkToolError (te_Code r) (te_Message r) (te_Retryable r) (te_Details r).
#[export] Instance eta_ToolResultBody : Eta ToolResultBody := λ r, mkToolResult (tr_CallID r) (tr_Result r) (tr_Error r).
#[export] Instance eta_StatusBody : Eta StatusBody := λ r, mkStatus (sb_Phase r) (sb_Message r) (sb_Details r).
#[export] Instance eta_MetricBody : Eta MetricBody := λ r, mkMetric (mb_Name r) (mb_Value r) (mb_Unit r) (mb_Dimensions r).
#[export] Instance eta_ProgressBody : Eta ProgressBody := λ r, mkProgress (pb_Current r) (pb_Total r) (pb_Units r) (pb_Message r).
#[export] Instance eta_ResultChunkBody : Eta ResultChunkBody := λ r,
  mkChunk (rc_ResultID r) (rc_ChunkSeq r) (rc_Data r) (rc_Encoding r) (rc_More r).

(** A field that is always written, and one with [omitempty]. *)
Notation req n p c := (fld n p (λ v r, r <| p := v |>) c false).
Notation opt n p c := (fld n p (λ v r, r <| p := v |>) c true).

Section wire.
Context `{WT : WireText}.

Notation strings := (slice_codec string_codec).
Notation details := (map_codec any_codec).

(** ** messages/session.go *)

(** [ClientInfo] and [RuntimeInfo]; [AuthInfo]. *)
Definition info_codec : codec (string * string) :=
  struct_codec ("", "")
    [fld "name" fst (λ v r, (v, r.2)) string_codec false; fld "version" snd (λ v r, (r.1, v)) string_codec true].

Definition auth_codec : codec (string * string) :=
  struct_codec ("", "")
    [fld "scheme" fst (λ v r, (v, r.2)) string_codec false; fld "token" snd (λ v r, (r.1, v)) string_codec true].

Definition AgentEntry_codec : codec AgentEntry :=
  struct_codec (mkAgentEntry "" [] "" false)
    [req "name" ae_Name string_codec; opt "versions" ae_Versions strings; opt "default" ae_Default string_codec;
     opt "bare" ae_Bare bool_codec].

Definition HelloCapabilities_codec : codec HelloCapabilities :=
  struct_codec (mkHelloCaps [] []) [opt "encodings" hc_Encodings strings; opt "features" hc_Features strings].

Definition WelcomeCapabilities_codec : codec (list string * list string * list AgentEntry) :=
  struct_codec ([], [], [])
    [fld "encodings" (λ r, r.1.1) (λ v r, (v, r.1.2, r.2)) strings true;
     fld "features" (λ r, r.1.2) (λ v r, (r.1.1, v, r.2)) strings true;
     fld "agents" snd (λ v r, (r.1, v)) (slice_codec AgentEntry_codec) true].

Definition ResumeRequest_codec : codec ResumeRequest :=
  struct_codec (mkResumeRequest "" "" 0)
    [req "session_id" rr_SessionID string_codec; req "resume_token" rr_ResumeToken string_codec;
     req "last_event_seq" rr_LastEventSeq uint64_codec].

Definition zero_hello : SessionHello := mkHello "" "" "" "" (mkHelloCaps [] []) None.

Definition SessionHello_codec : codec SessionHello :=
  struct_codec zero_hello
    [fld "client" (λ r, (sh_ClientName r, sh_ClientVersion r))
       (λ v r, r <| sh_ClientName := v.1 |> <| sh_ClientVersion := v.2 |>) info_codec false;
     fld "auth" (λ r, (sh_AuthScheme r, sh_AuthToken r))
       (λ v r, r <| sh_AuthScheme := v.1 |> <| sh_AuthToken := v.2 |>) auth_codec false;
     req "capabilities" sh_Capabilities HelloCapabilities_codec;
     opt "resume" sh_Resume (ptr_codec ResumeRequest_codec)].

Definition SessionWelcome_codec : codec SessionWelcome :=
  struct_codec (mkWelcome "" "" "" 0 0 [] [] [])
    [fld "runtime" (λ r, (sw_RuntimeName r, sw_RuntimeVersion r))
       (λ v r, r <| sw_RuntimeName := v.1 |> <| sw_RuntimeVersion := v.2 |>) info_codec false;
     opt "resume_token" sw_ResumeToken string_codec;
     opt "resume_window_sec" sw_ResumeWindowSec int_codec;
     opt "heartbeat_interval_sec" sw_HeartbeatIntervalSec int_codec;
     fld "capabilities" (λ r, (sw_Encodings r, sw_Features r, sw_Agents r))
       (λ v r, r <| sw_Encodings := v.1.1 |> <| sw_Features := v.1.2 |> <| sw_Agents := v.2 |>)
       WelcomeCapabilities_codec false].

Definition SessionError_codec : codec SessionErrorMsg :=
  struct_codec (mkSessionError "" "" false ∅ "" "")
    [req "code" se_Code string_codec; opt "message" se_Message string_codec; req "retryable" se_Retryable bool_codec;
     opt "details" se_Details details; opt "request_id" se_RequestID string_codec; opt "job_id" se_JobID string_codec].

(** [SessionClose], [SessionClosed] and [JobCancel]. *)
Definition reason_codec : codec string :=
  struct_codec "" [fld "reason" id (λ v _, v) string_codec true].

Definition SessionPing_codec : codec (string * Time) :=
  struct_codec ("", zero_time)
    [fld "nonce" fst (λ v r, (v, r.2)) string_codec false; fld "sent_at" snd (λ v r, (r.1, v)) time_codec false].

Definition SessionPong_codec : codec (string * Time) :=
  struct_codec ("", zero_time)
    [fld "ping_nonce" fst (λ v r, (v, r.2)) string_codec false; fld "received_at" snd (λ v r, (r.1, v)) time_codec false].

Definition SessionAck_codec : codec N :=
  struct_codec 0%N [fld "last_processed_seq" Z.of_N (λ v _, Z.to_N v) uint64_codec false].

Definition ListJobsFilter_codec : codec ListJobsFilter :=
  struct_codec (mkFilter [] "" None None)
    [opt "status" f_Status strings; opt "agent" f_Agent string_codec;
     opt "created_after" f_CreatedAfter (ptr_codec time_codec); opt "created_before" f_CreatedBefore (ptr_codec time_codec)].

Definition SessionListJobs_codec : codec SessionListJobs :=
  struct_codec (mkListJobs (mkFilter [] "" None None) 0 "")
    [opt "filter" lj_Filter ListJobsFilter_codec; opt "limit" lj_Limit int_codec; opt "cursor" lj_Cursor string_codec].

Definition JobInfo_codec : codec JobInfo :=
  struct_codec (mkJobInfo "" "" "" ∅ "" zero_time "" 0)
    [req "job_id" ji_JobID string_codec; req "agent" ji_Agent string_codec; req "status" ji_Status string_codec;
     opt "lease" ji_Lease lease_codec; opt "parent_job_id" ji_ParentJobID string_codec;
     req "created_at" ji_CreatedAt time_codec; opt "trace_id" ji_TraceID string_codec;
     opt "last_event_seq" ji_LastEventSeq uint64_codec].

Definition SessionJobs_codec : codec SessionJobs :=
  struct_codec (mkJobs "" [] "")
    [opt "request_id" sj_RequestID string_codec; req "jobs" sj_Jobs (slice_codec JobInfo_codec);
     opt "next_cursor" sj_NextCursor string_codec].

(** ** messages/job.go *)

Definition LeaseConstraints_codec : codec LeaseConstraints :=
  struct_codec (mkConstraints None) [opt "expires_at" lc_ExpiresAt (ptr_codec zoned_codec)].

Definition zero_submit : JobSubmit := mkSubmit "" "" ∅ None "" 0.

Definition JobSubmit_codec : codec JobSubmit :=
  struct_codec zero_submit
    [req "agent" js_Agent string_codec; opt "input" js_Input raw_codec; opt "lease_request" js_LeaseRequest lease_codec;
     opt "lease_constraints" js_LeaseConstraints (ptr_codec LeaseConstraints_codec);
     opt "idempotency_key" js_IdempotencyKey string_codec; opt "max_runtime_sec" js_MaxRuntimeSec int_codec].

Definition CredentialConstraints_codec : codec CredentialConstraints :=
  struct_codec (mkCredConstraints [] [] None)
    [opt "cost.budget" cc_CostBudget strings; opt "model.use" cc_ModelUse strings;
     opt "expires_at" cc_ExpiresAt (ptr_codec time_codec)].

Definition Credential_codec : codec Credential :=
  struct_codec (mkCredential "" "" "" "" "" None)
    [req "id" cr_ID string_codec; req "scheme" cr_Scheme string_codec; req "value" cr_Value string_codec;
     req "endpoint" cr_Endpoint string_codec; opt "profile" cr_Profile string_codec;
     opt "constraints" cr_Constraints (ptr_codec CredentialConstraints_codec)].

Definition JobAccepted_codec : codec JobAccepted :=
  struct_codec (mkAccepted "" ∅ None ∅ [] zero_time "" "" "")
    [req "job_id" ja_JobID string_codec; opt "lease" ja_Lease lease_codec;
     opt "lease_constraints" ja_LeaseConstraints (ptr_codec LeaseConstraints_codec);
     opt "budget" ja_Budget (map_codec float_codec); opt "credentials" ja_Credentials (slice_codec Credential_codec);
     req "accepted_at" ja_AcceptedAt time_codec; opt "trace_id" ja_TraceID string_codec;
     opt "parent_job_id" ja_ParentJobID string_codec; opt "agent" ja_Agent string_codec].

Definition JobResult_codec : codec JobResult :=
  struct_codec (mkResult "" "" "" 0 "")
    [req "final_status" jr_FinalStatus string_codec; opt "output" jr_Output raw_codec;
     opt "result_id" jr_ResultID string_codec; opt "result_size" jr_ResultSize uint64_codec;
     opt "summary" jr_Summary string_codec].

Definition JobError_codec : codec JobErrorMsg :=
  struct_codec (mkJobError "" "" "" false ∅)
    [req "final_status" je_FinalStatus string_codec; req "code" je_Code string_codec; opt "message" je_Message string_codec;
     req "retryable" je_Retryable bool_codec; opt "details" je_Details details].

Definition JobCancelled_codec : codec (string * string) :=
  struct_codec ("", "")
    [fld "job_id" fst (λ v r, (v, r.2)) string_codec true; fld "reason" snd (λ v r, (r.1, v)) string_codec true].

Definition JobSubscribe_codec : codec JobSubscribe :=
  struct_codec (mkSubscribe "" 0 false)
    [req "job_id" sb_JobID string_codec; opt "from_event_seq" sb_FromEventSeq uint64_codec; opt "history" sb_History bool_codec].

Definition JobSubscribed_codec : codec JobSubscribed :=
  struct_codec (mkSubscribed "" "" "" ∅ "" "" 0 false)
    [req "job_id" sd_JobID string_codec; req "current_status" sd_CurrentStatus string_codec; req "agent" sd_Agent string_codec;
     opt "lease" sd_Lease lease_codec; opt "parent_job_id" sd_ParentJobID string_codec; opt "trace_id" sd_TraceID string_codec;
     req "subscribed_from" sd_SubscribedFrom uint64_codec; req "replayed" sd_Replayed bool_codec].

Definition JobUnsubscribe_codec : codec string :=
  struct_codec "" [fld "job_id" id (λ v _, v) string_codec false].

(** ** messages/event.go *)

Definition LogBody_codec : codec (string * string * gmap string any) :=
  struct_codec ("", "", ∅)
    [fld "level" (λ r, r.1.1) (λ v r, (v, r.1.2, r.2)) string_codec false;
     fld "message" (λ r, r.1.2) (λ v r, (r.1.1, v, r.2)) string_codec false;
     fld "fields" snd (λ v r, (r.1, v)) details true].

Definition ThoughtBody_codec : codec string :=
  struct_codec "" [fld "text" id (λ v _, v) string_codec false].

Definition ToolCallBody_codec : codec (string * string * string) :=
  struct_codec ("", "", "")
    [fld "tool" (λ r, r.1.1) (λ v r, (v, r.1.2, r.2)) string_codec false;
     fld "args" (λ r, r.1.2) (λ v r, (r.1.1, v, r.2)) raw_codec true;
     fld "call_id" snd (λ v r, (r.1, v)) string_codec false].

Definition ToolError_codec : codec ToolError :=
  struct_codec (mkToolError "" "" false ∅)
    [req "code" te_Code string_codec; opt "message" te_Message string_codec; req "retryable" te_Retryable bool_codec;
     opt "details" te_Details details].

Definition ToolResultBody_codec : codec ToolResultBody :=
  struct_codec (mkToolResult "" "" None)
    [req "call_id" tr_CallID string_codec; opt "result" tr_Result raw_codec;
     opt "error" tr_Error (ptr_codec ToolError_codec)].

Definition StatusBody_codec : codec StatusBody :=
  struct_codec (mkStatus "" "" ∅)
    [req "phase" sb_Phase string_codec; opt "message" sb_Message string_codec; opt "details" sb_Details details].

Definition MetricBody_codec : codec MetricBody :=
  struct_codec (mkMetric "" fzero "" ∅)
    [req "name" mb_Name string_codec; req "value" mb_Value float_codec; opt "unit" mb_Unit string_codec;
     opt "dimensions" mb_Dimensions (map_codec string_codec)].

Definition ArtifactRefBody_codec : codec (string * string * Z * string) :=
  struct_codec ("", "", 0%Z, "")
    [fld "uri" (λ r, r.1.1.1) (λ v r, (v, r.1.1.2, r.1.2, r.2)) string_codec false;
     fld "content_type" (λ r, r.1.1.2) (λ v r, (r.1.1.1, v, r.1.2, r.2)) string_codec false;
     fld "byte_size" (λ r, r.1.2) (λ v r, (r.1.1, v, r.2)) uint64_codec true;
     fld "sha256" snd (λ v r, (r.1, v)) string_codec true].

Definition DelegateBody_codec : codec (string * string * Lease) :=
  struct_codec ("", "", ∅)
    [fld "child_job_id" (λ r, r.1.1) (λ v r, (v, r.1.2, r.2)) string_codec false;
     fld "agent" (λ r, r.1.2) (λ v r, (r.1.1, v, r.2)) string_codec false;
     fld "lease" snd (λ v r, (r.1, v)) lease_codec true].

Definition ProgressBody_codec : codec ProgressBody :=
  struct_codec (mkProgress 0 0 "" "")
    [req "current" pb_Current uint64_codec; opt "total" pb_Total uint64_codec; opt "units" pb_Units string_codec;
     opt "message" pb_Message string_codec].

Definition ResultChunkBody_codec : codec ResultChunkBody :=
  struct_codec (mkChunk "" 0 "" "" false)
    [req "result_id" rc_ResultID string_codec; req "chunk_seq" rc_ChunkSeq uint64_codec; req "data" rc_Data string_codec;
     req "encoding" rc_Encoding string_codec; req "more" rc_More bool_codec].

(** ** The laws of the structs *)

#[export] Instance info_lawful : Lawful info_codec.
Proof. solve_struct. Qed.
#[export] Instance auth_lawful : Lawful auth_codec.
Proof. solve_struct. Qed.
#[export] Instance AgentEntry_lawful : Lawful AgentEntry_codec.
Proof. solve_struct. Qed.
#[export] Instance HelloCapabilities_lawful : Lawful HelloCapabilities_codec.
Proof. solve_struct. Qed.
#[export] Instance WelcomeCapabilities_lawful : Lawful WelcomeCapabilities_codec.
Proof. solve_struct. Qed.
#[export] Instance ResumeRequest_lawful : Lawful ResumeRequest_codec.
Proof. solve_struct. Qed.
#[export] Instance SessionHello_lawful : Lawful SessionHello_codec.
Proof. solve_struct. Qed.
#[export] Instance SessionWelcome_lawful : Lawful SessionWelcome_codec.
Proof. solve_struct. Qed.
#[export] Instance SessionError_lawful : Lawful SessionError_codec.
Proof. solve_struct. Qed.
#[export] Instance reason_lawful : Lawful reason_codec.
Proof. solve_struct. Qed.
#[export] Instance SessionPing_lawful : Lawful SessionPing_codec.
Proof. solve_struct. Qed.
#[export] Instance SessionPong_lawful : Lawful SessionPong_codec.
Proof. solve_struct. Qed.
#[export] Instance ListJobsFilter_lawful : Lawful ListJobsFilter_codec.
Proof. solve_struct. Qed.
#[export] Instance SessionListJobs_lawful : Lawful SessionListJobs_codec.
Proof. solve_struct. Qed.
#[export] Instance JobInfo_lawful : Lawful JobInfo_codec.
Proof. solve_struct. Qed.
#[export] Instance SessionJobs_lawful : Lawful SessionJobs_codec.
Proof. solve_struct. Qed.
#[export] Instance LeaseConstraints_lawful : Lawful LeaseConstraints_codec.
Proof. solve_struct. Qed.
#[export] Instance JobSubmit_lawful : Lawful JobSubmit_codec.
Proof. solve_struct. Qed.
#[export] Instance CredentialConstraints_lawful : Lawful CredentialConstraints_codec.
Proof. solve_struct. Qed.
#[export] Instance Credential_lawful : Lawful Credential_codec.
Proof. solve_struct. Qed.
#[export] Instance JobAccepted_lawful : Lawful JobAccepted_codec.
Proof. solve_struct. Qed.
#[export] Instance JobResult_lawful : Lawful JobResult_codec.
Proof. solve_struct. Qed.
#[export] Instance JobError_lawful : Lawful JobError_codec.
Proof. solve_struct. Qed.
#[export] Instance JobCancelled_lawful : Lawful JobCancelled_codec.
Proof. solve_struct. Qed.
#[export] Instance JobSubscribe_lawful : Lawful JobSubscribe_codec.
Proof. solve_struct. Qed.
#[export] Instance JobSubscribed_lawful : Lawful JobSubscribed_codec.
Proof. solve_struct. Qed.
#[export] Instance JobUnsubscribe_lawful : Lawful JobUnsubscribe_codec.
Proof. solve_struct. Qed.
#[export] Instance LogBody_lawful : Lawful LogBody_codec.
Proof. solve_struct. Qed.
#[export] Instance ThoughtBody_lawful : Lawful ThoughtBody_codec.
Proof. solve_struct. Qed.
#[export] Instance ToolCallBody_lawful : Lawful ToolCallBody_codec.
Proof. solve_struct. Qed.
#[export] Instance ToolError_lawful : Lawful ToolError_codec.
Proof. solve_struct. Qed.
#[export] Instance ToolResultBody_lawful : Lawful ToolResultBody_codec.
Proof. solve_struct. Qed.
#[export] Instance StatusBody_lawful : Lawful StatusBody_codec.
Proof. solve_struct. Qed.
#[export] Instance MetricBody_lawful : Lawful MetricBody_codec.
Proof. solve_struct. Qed.
#[export] Instance ArtifactRefBody_lawful : Lawful ArtifactRefBody_codec.
Proof. solve_struct. Qed.
#[export] Instance DelegateBody_lawful : Lawful DelegateBody_codec.
Proof. solve_struct. Qed.
#[export] Instance ProgressBody_lawful : Lawful ProgressBody_codec.
Proof. solve_struct. Qed.
#[export] Instance ResultChunkBody_lawful : Lawful ResultChunkBody_codec.
Proof. solve_struct. Qed.
#[export] Instance SessionAck_lawful : Lawful SessionAck_codec.
Proof.
  apply struct_lawful;
    [vm_compute; reflexivity|apply Forall_singleton, fld_text; apply _|apply Forall_singleton, fld_total; apply _|].
  intros n Hn. rewrite Forall_singleton in Hn. eapply chain_fld; [apply _|exact Hn|done|done|]. apply N2Z.id.
Qed.

(** ** Marshal and Unmarshal at a type *)

Definition marshal {A} (c : codec A) (x : A) : option string := render <$> enc c x.
Definition unmarshal {A} (c : codec A) (s : string) : option A := Parse s ≫= dec c (zero c).

(** [json.Decoder]: the first value of the text; what follows it is not read. *)
Definition json_Decode (s : string) : option json := fst <$> pvalue (S (len s)) (span is_ws s).2.

(** [DecodePayload] into a value [v]: an empty payload leaves it as it is. *)
Definition DecodePayload {A} (c : codec A) (v : A) (payload : string) : res A :=
  if bool_decide (payload = "") then Ok v
  else match json_Decode payload ≫= dec c v with Some x => Ok x | None => Err err_decode end.

(** On one JSON value, which is what the payload of a decoded envelope is, the
    decoder and [Unmarshal] agree. *)
Lemma DecodePayload_unmarshal {A} (c : codec A) (s : string) (j : json) :
  Parse s = Some j →
  DecodePayload c (zero c) s = match unmarshal c s with Some x => Ok x | None => Err err_decode end.
Proof.
  intros Hp. unfold DecodePayload, unmarshal. case_bool_decide as Hs.
  - subst s. done.
  - rewrite Hp. unfold json_Decode, Parse in *.
    destruct (pvalue _ _) as [[v r]|]; [|done]. cbn in *. by destruct (sforallb is_ws r); simplify_eq.
Qed.

(** ** Event bodies *)

(** [NewEventBody]; a raw body stands for its bytes. *)
Definition NewEventBody (b : event_body) : option string :=
  match b with
  | BLog level message fields => marshal LogBody_codec (level, message, fields)
  | BThought text => marshal ThoughtBody_codec text
  | BToolCall tool args callID => marshal ToolCallBody_codec (tool, args, callID)
  | BToolResult b => marshal ToolResultBody_codec b
  | BStatus b => marshal StatusBody_codec b
  | BMetric b => marshal MetricBody_codec b
  | BArtifactRef uri ct size sha => marshal ArtifactRefBody_codec (uri, ct, size, sha)
  | BDelegate child agent lease => marshal DelegateBody_codec (child, agent, lease)
  | BProgress b => marshal ProgressBody_codec b
  | BResultChunk b => marshal ResultChunkBody_codec b
  | BRaw bytes => Some bytes
  end.

(** The body of a kind of event; [None] for an unknown kind and for bytes that
    do not decode. *)
Definition unmarshal_body (kind body : string) : option event_body :=
  if bool_decide (kind = KindLog) then (λ p, BLog p.1.1 p.1.2 p.2) <$> unmarshal LogBody_codec body
  else if bool_decide (kind = KindThought) then BThought <$> unmarshal ThoughtBody_codec body
  else if bool_decide (kind = KindToolCall) then (λ p, BToolCall p.1.1 p.1.2 p.2) <$> unmarshal ToolCallBody_codec body
  else if bool_decide (kind = KindToolResult) then BToolResult <$> unmarshal ToolResultBody_codec body
  else if bool_decide (kind = KindStatus) then BStatus <$> unmarshal StatusBody_codec body
  else if bool_decide (kind = KindMetric) then BMetric <$> unmarshal MetricBody_codec body
  else if bool_decide (kind = KindArtifactRef) then
    (λ p, BArtifactRef p.1.1.1 p.1.1.2 p.1.2 p.2) <$> unmarshal ArtifactRefBody_codec body
  else if bool_decide (kind = KindDelegate) then (λ p, BDelegate p.1.1 p.1.2 p.2) <$> unmarshal DelegateBody_codec body
  else if bool_decide (kind = KindProgress) then BProgress <$> unmarshal ProgressBody_codec body
  else if bool_decide (kind = KindResultChunk) then BResultChunk <$> unmarshal ResultChunkBody_codec body
  else None.

Definition known_kind (kind : string) : bool :=
  bool_decide (kind ∈ [KindLog; KindThought; KindToolCall; KindToolResult; KindStatus; KindMetric; KindArtifactRef;
                       KindDelegate; KindProgress; KindResultChunk]).

Definition body_Validate (b : event_body) : option error :=
  match b with
  | BToolResult b => ToolResultBody_Validate b
  | BProgress b => ProgressBody_Validate b
  | BResultChunk b => ResultChunkBody_Validate b
  | _ => None
  end.

(** [DecodeEventBody] on an event as it travels, its body a raw message: the
    struct of its kind, validated where it has a [Validate]; the bytes of an
    unknown kind as they are.  With an error the code may also return the
    partly filled struct, which is dropped here. *)
Definition err_unmarshal : error := ENew "json: cannot unmarshal".

Definition DecodeEventBody (kind body : string) : res event_body :=
  if known_kind kind then
    match unmarshal_body kind body with
    | None => Err err_unmarshal
    | Some b => match body_Validate b with Some err => Err err | None => Ok b end
    end
  else Ok (BRaw body).

(** [JobEvent] as it travels. *)
Record wireEvent := mkWireEvent { we_Kind : string; we_TS : Time; we_Body : string }.
#[export] Instance eta_wireEvent : Eta wireEvent := λ r, mkWireEvent (we_Kind r) (we_TS r) (we_Body r).

Definition JobEvent_codec : codec wireEvent :=
  struct_codec (mkWireEvent "" zero_time "")
    [req "kind" we_Kind string_codec; req "ts" we_TS time_codec; opt "body" we_Body raw_codec].

(** The event of the model: its body is what the bytes decode to. *)
Definition read_event (w : wireEvent) : JobEvent :=
  mkEvent (we_Kind w) (we_TS w) (default (BRaw (we_Body w)) (unmarshal_body (we_Kind w) (we_Body w))).

Definition marshal_event (e : JobEvent) : option string :=
  body ← NewEventBody (ev_Body e);
  marshal JobEvent_codec (mkWireEvent (ev_Kind e) (ev_TS e) body).

(** ** Payloads *)

(** The bytes of a payload. *)
Definition payload_text (p : payload) : option string :=
  match p with
  | PNil => Some ""
  | PRaw bytes => Some bytes
  | PHello p => marshal SessionHello_codec p
  | PWelcome p => marshal SessionWelcome_codec p
  | PSessionError p => marshal SessionError_codec p
  | PClose reason | PClosed reason | PCancel reason => marshal reason_codec reason
  | PPing nonce sentAt => marshal SessionPing_codec (nonce, sentAt)
  | PPong nonce receivedAt => marshal SessionPong_codec (nonce, receivedAt)
  | PAck n => marshal SessionAck_codec n
  | PListJobs p => marshal SessionListJobs_codec p
  | PJobs p => marshal SessionJobs_codec p
  | PSubmit p => marshal JobSubmit_codec p
  | PAccepted p => marshal JobAccepted_codec p
  | PEvent e => marshal_event e
  | PResult p => marshal JobResult_codec p
  | PJobError p => marshal JobError_codec p
  | PCancelled jobID reason => marshal JobCancelled_codec (jobID, reason)
  | PSubscribe p => marshal JobSubscribe_codec p
  | PSubscribed p => marshal JobSubscribed_codec p
  | PUnsubscribe jobID => marshal JobUnsubscribe_codec jobID
  end.

(** [DecodePayload] into the struct registered for a message type, on the one
    JSON value a decoded envelope holds ([DecodePayload_unmarshal]). *)
Definition payload_parse (typ body : string) : option payload :=
  if bool_decide (typ = TypeSessionHello) then PHello <$> unmarshal SessionHello_codec body
  else if bool_decide (typ = TypeSessionWelcome) then PWelcome <$> unmarshal SessionWelcome_codec body
  else if bool_decide (typ = TypeSessionError) then PSessionError <$> unmarshal SessionError_codec body
  else if bool_decide (typ = TypeSessionClose) then PClose <$> unmarshal reason_codec body
  else if bool_decide (typ = TypeSessionClosed) then PClosed <$> unmarshal reason_codec body
  else if bool_decide (typ = TypeSessionPing) then (λ p, PPing p.1 p.2) <$> unmarshal SessionPing_codec body
  else if bool_decide (typ = TypeSessionPong) then (λ p, PPong p.1 p.2) <$> unmarshal SessionPong_codec body
  else if bool_decide (typ = TypeSessionAck) then PAck <$> unmarshal SessionAck_codec body
  else if bool_decide (typ = TypeSessionListJobs) then PListJobs <$> unmarshal SessionListJobs_codec body
  else if bool_decide (typ = TypeSessionJobs) then PJobs <$> unmarshal SessionJobs_codec body
  else if bool_decide (typ = TypeJobSubmit) then PSubmit <$> unmarshal JobSubmit_codec body
  else if bool_decide (typ = TypeJobAccepted) then PAccepted <$> unmarshal JobAccepted_codec body
  else if bool_decide (typ = TypeJobEvent) then PEvent ∘ read_event <$> unmarshal JobEvent_codec body
  else if bool_decide (typ = TypeJobResult) then PResult <$> unmarshal JobResult_codec body
  else if bool_decide (typ = TypeJobError) then PJobError <$> unmarshal JobError_codec body
  else if bool_decide (typ = TypeJobCancel) then PCancel <$> unmarshal reason_codec body
  else if bool_decide (typ = TypeJobCancelled) then (λ p, PCancelled p.1 p.2) <$> unmarshal JobCancelled_codec body
  else if bool_decide (typ = TypeJobSubscribe) then PSubscribe <$> unmarshal JobSubscribe_codec body
  else if bool_decide (typ = TypeJobSubscribed) then PSubscribed <$> unmarshal JobSubscribed_codec body
  else if bool_decide (typ = TypeJobUnsubscribe) then PUnsubscribe <$> unmarshal JobUnsubscribe_codec body
  else None.

(** The payload of the model. *)
Definition read_payload (typ body : string) : payload :=
  if bool_decide (body = "") then PNil else default (PRaw body) (payload_parse typ body).

(** ** Envelopes (envelope.go) *)

Record wireEnvelope := mkWireEnvelope {
  we_ARCP : string;
  we_ID : string;
  we_Type : string;
  we_SessionID : string;
  we_JobID : string;
  we_TraceID : string;
  we_EventSeq : Z;
  we_Payload : string;
  we_Extensions : gmap string string
}.
#[export] Instance eta_wireEnvelope : Eta wireEnvelope := λ r,
  mkWireEnvelope (we_ARCP r) (we_ID r) (we_Type r) (we_SessionID r) (we_JobID r) (we_TraceID r) (we_EventSeq r)
    (we_Payload r) (we_Extensions r).

Definition Envelope_codec : codec wireEnvelope :=
  struct_codec (mkWireEnvelope "" "" "" "" "" "" 0 "" ∅)
    [req "arcp" we_ARCP string_codec; req "id" we_ID string_codec; req "type" we_Type string_codec;
     opt "session_id" we_SessionID string_codec; opt "job_id" we_JobID string_codec; opt "trace_id" we_TraceID string_codec;
     opt "event_seq" we_EventSeq uint64_codec; opt "payload" we_Payload raw_codec;
     opt "extensions" we_Extensions (map_codec raw_codec)].

Definition write_envelope (e : Envelope) (ext : gmap string string) : option wireEnvelope :=
  (λ body, mkWireEnvelope (ARCP e) (env_ID e) (env_Type e) (env_SessionID e) (env_JobID e) (env_TraceID e)
             (env_EventSeq e) body ext) <$> payload_text (env_Payload e).

Definition read_envelope (w : wireEnvelope) : Envelope :=
  mkEnvelope (we_ARCP w) (we_ID w) (we_Type w) (we_SessionID w) (we_JobID w) (we_TraceID w) (we_EventSeq w)
    (read_payload (we_Type w) (we_Payload w)).

(** [json.Marshal] and [json.Unmarshal] of an envelope with its extensions. *)
Definition marshal_envelope (e : Envelope) (ext : gmap string string) : option string :=
  w ← write_envelope e ext; marshal Envelope_codec w.

Definition unmarshal_envelope (s : string) : option (Envelope * gmap string string) :=
  (λ w, (read_envelope w, we_Extensions w)) <$> unmarshal Envelope_codec s.
End wire.
