(* ===== verification/WireSafety.v ===== *)
(** * The wire format round-trips

    Every message that fits the wire (its strings valid UTF-8, its raw parts
    compact JSON, its times and floats in range of their texts) decodes to
    itself; the encoding is one line of text; a torn encoding does not decode.
    [sdk_json] discharges the interface [JSONCodec] of the transports, so the
    theorems of [StdioSafety] and [EndToEnd] hold of the SDK's own format. *)

From Stdlib Require Import ZArith Ascii Lia SpecFloat.
From S2P Require Import Prelude GoStrings Decimal Errors Features Float64 Lease Messages Agents Stream Json JsonText Codec Transport Stdio Wire Rfc3339 Rfc3339Laws.

Section wire_laws.
Context `{WT : WireText}.

#[local] Hint Opaque string_codec raw_codec bool_codec uint64_codec int_codec any_codec lease_codec
  info_codec auth_codec AgentEntry_codec HelloCapabilities_codec WelcomeCapabilities_codec ResumeRequest_codec
  SessionHello_codec SessionWelcome_codec SessionError_codec reason_codec SessionPing_codec SessionPong_codec
  SessionAck_codec ListJobsFilter_codec SessionListJobs_codec JobInfo_codec SessionJobs_codec
  LeaseConstraints_codec JobSubmit_codec CredentialConstraints_codec Credential_codec JobAccepted_codec
  JobResult_codec JobError_codec JobCancelled_codec JobSubscribe_codec JobSubscribed_codec
  JobUnsubscribe_codec LogBody_codec ThoughtBody_codec ToolCallBody_codec ToolError_codec ToolResultBody_codec
  StatusBody_codec MetricBody_codec ArtifactRefBody_codec DelegateBody_codec ProgressBody_codec
  ResultChunkBody_codec JobEvent_codec Envelope_codec : typeclass_instances.

(** ** One type *)

Lemma marshal_total {A} (c : codec A) `{!Lawful c} x : fits c x → is_Some (marshal c x).
Proof. intros Hf. by apply fmap_is_Some, enc_total. Qed.

Lemma marshal_unmarshal {A} (c : codec A) `{!Lawful c} x t :
  fits c x → marshal c x = Some t → unmarshal c t = Some x.
Proof.
  intros Hf H. apply fmap_Some in H as (j & Hj & ->). unfold unmarshal.
  destruct (enc_text _ _ Hj) as [Hw _]. rewrite Parse_render by done. by apply round_trip.
Qed.

(** What [Marshal] writes can be embedded as a raw message. *)
Lemma marshal_raw {A} (c : codec A) `{!Lawful c} x t :
  marshal c x = Some t → fits raw_codec t ∧ t ≠ "" ∧ is_Some (Parse t).
Proof.
  intros H. apply fmap_Some in H as (j & Hj & ->). destruct (enc_text _ _ Hj) as [Hw Hc].
  rewrite (Parse_render j Hw). split_and!; [|destruct (render_head j Hw) as (? & ? & -> & _); done|done].
  simpl. exists j. by rewrite (Parse_render j Hw), Hc.
Qed.

(** ** Event bodies *)

Definition body_fits (kind : string) (b : event_body) : Prop :=
  match b with
  | BLog level message fields => kind = KindLog ∧ fits LogBody_codec (level, message, fields)
  | BThought text => kind = KindThought ∧ fits ThoughtBody_codec text
  | BToolCall tool args callID => kind = KindToolCall ∧ fits ToolCallBody_codec (tool, args, callID)
  | BToolResult b => kind = KindToolResult ∧ fits ToolResultBody_codec b
  | BStatus b => kind = KindStatus ∧ fits StatusBody_codec b
  | BMetric b => kind = KindMetric ∧ fits MetricBody_codec b
  | BArtifactRef uri ct size sha => kind = KindArtifactRef ∧ fits ArtifactRefBody_codec (uri, ct, size, sha)
  | BDelegate child agent lease => kind = KindDelegate ∧ fits DelegateBody_codec (child, agent, lease)
  | BProgress b => kind = KindProgress ∧ fits ProgressBody_codec b
  | BResultChunk b => kind = KindResultChunk ∧ fits ResultChunkBody_codec b
  | BRaw bytes => (bytes = "" ∨ fits raw_codec bytes) ∧ unmarshal_body kind bytes = None
  end.

Lemma unmarshal_NewEventBody kind b t :
  body_fits kind b → NewEventBody b = Some t → default (BRaw t) (unmarshal_body kind t) = b.
Proof.
  destruct b; cbn [body_fits NewEventBody]; intros [Hk Hf] Ht;
    try (subst kind; unfold unmarshal_body; repeat (rewrite bool_decide_eq_false_2 by done);
         rewrite bool_decide_eq_true_2 by done; erewrite marshal_unmarshal by (apply _ || eassumption); reflexivity).
  injection Ht as <-. by rewrite Hf.
Qed.

Lemma NewEventBody_raw kind b t : body_fits kind b → NewEventBody b = Some t → t = "" ∨ fits raw_codec t.
Proof.
  destruct b; cbn [body_fits NewEventBody]; intros Hf Ht; try (right; by eapply marshal_raw in Ht as (? & _); [|apply _]).
  injection Ht as <-. apply Hf.
Qed.

Lemma NewEventBody_total kind b : body_fits kind b → is_Some (NewEventBody b).
Proof. destruct b; cbn [body_fits NewEventBody]; intros [_ Hf]; [by apply (marshal_total _)..|by eexists]. Qed.

#[export] Instance JobEvent_lawful : Lawful JobEvent_codec.
Proof. solve_struct. Qed.

#[export] Instance Envelope_lawful : Lawful Envelope_codec.
Proof. solve_struct. Qed.

(** ** Payloads *)

(** The payload fits a message of type [typ]. *)
Definition payload_fits (typ : string) (p : payload) : Prop :=
  match p with
  | PNil => True
  | PRaw bytes => bytes ≠ "" ∧ fits raw_codec bytes ∧ payload_parse typ bytes = None
  | _ =>
      ARCPType p = Some typ ∧
      match p with
      | PHello p => fits SessionHello_codec p
      | PWelcome p => fits SessionWelcome_codec p
      | PSessionError p => fits SessionError_codec p
      | PClose reason | PClosed reason | PCancel reason => fits reason_codec reason
      | PPing nonce t => fits SessionPing_codec (nonce, t)
      | PPong nonce t => fits SessionPong_codec (nonce, t)
      | PAck n => fits SessionAck_codec n
      | PListJobs p => fits SessionListJobs_codec p
      | PJobs p => fits SessionJobs_codec p
      | PSubmit p => fits JobSubmit_codec p
      | PAccepted p => fits JobAccepted_codec p
      | PEvent e => utf8 (ev_Kind e) ∧ fits time_codec (ev_TS e) ∧ body_fits (ev_Kind e) (ev_Body e)
      | PResult p => fits JobResult_codec p
      | PJobError p => fits JobError_codec p
      | PCancelled jobID reason => fits JobCancelled_codec (jobID, reason)
      | PSubscribe p => fits JobSubscribe_codec p
      | PSubscribed p => fits JobSubscribed_codec p
      | PUnsubscribe jobID => fits JobUnsubscribe_codec jobID
      | _ => True
      end
  end.

(** Field by field: present fields fit. *)
Ltac fit_fields := repeat (apply Forall_cons; split; [try (by right)|]); try (by apply Forall_nil).

(** A raw member is absent or fits. *)
Lemma raw_member t : t = "" ∨ fits raw_codec t → true && is_empty raw_codec t = true ∨ fits raw_codec t.
Proof. intros [->|?]; [by left|by right]. Qed.

Lemma marshal_event_total e : utf8 (ev_Kind e) → fits time_codec (ev_TS e) → body_fits (ev_Kind e) (ev_Body e) →
  is_Some (marshal_event e).
Proof.
  intros Hk Ht Hb. destruct (NewEventBody_total _ _ Hb) as [body Hn]. unfold marshal_event. rewrite Hn. simpl.
  apply (marshal_total JobEvent_codec). fit_fields. by eapply raw_member, NewEventBody_raw.
Qed.

Lemma marshal_event_spec e t : utf8 (ev_Kind e) → fits time_codec (ev_TS e) → body_fits (ev_Kind e) (ev_Body e) →
  marshal_event e = Some t →
  ∃ w, marshal JobEvent_codec w = Some t ∧ unmarshal JobEvent_codec t = Some w ∧ read_event w = e.
Proof.
  intros Hk Ht Hb. unfold marshal_event. destruct (NewEventBody (ev_Body e)) as [body|] eqn:Hn; [|done]. simpl. intros Hm.
  eexists. split; [exact Hm|]. split.
  - apply (marshal_unmarshal JobEvent_codec); [|done]. fit_fields. by eapply raw_member, NewEventBody_raw.
  - unfold read_event. simpl. rewrite (unmarshal_NewEventBody _ _ _ Hb Hn). by destruct e.
Qed.

Lemma read_payload_text typ p t : payload_fits typ p → payload_text p = Some t → read_payload typ t = p.
Proof.
  intros Hf Ht. unfold read_payload. destruct p; cbn [payload_fits payload_text ARCPType] in Hf, Ht.
  1: by injection Ht as <-.
  1: { injection Ht as <-. destruct Hf as (Hne & _ & ->). by rewrite bool_decide_eq_false_2. }
  all: destruct Hf as [Hty Hf]; apply (inj Some) in Hty; subst typ.
  13: { destruct Hf as (H1 & H2 & H3). destruct (marshal_event_spec _ _ H1 H2 H3 Ht) as (w & Hw & Hu & Hr).
        destruct (marshal_raw JobEvent_codec _ _ Hw) as (_ & Hne & _). rewrite bool_decide_eq_false_2 by done.
        unfold payload_parse. repeat (rewrite bool_decide_eq_false_2 by done). rewrite bool_decide_eq_true_2 by done.
        rewrite Hu. cbn. by rewrite Hr. }
  all: let Hr := fresh in pose proof Ht as Hr; eapply marshal_raw in Hr as (_ & Hne & _); [|apply _];
    rewrite bool_decide_eq_false_2 by exact Hne; eapply marshal_unmarshal in Ht; [|apply _|exact Hf];
    unfold payload_parse; repeat (rewrite bool_decide_eq_false_2 by done); rewrite bool_decide_eq_true_2 by done;
    rewrite Ht; reflexivity.
Qed.

Lemma payload_text_raw typ p t : payload_fits typ p → payload_text p = Some t → t = "" ∨ fits raw_codec t.
Proof.
  intros Hf Ht. destruct p; cbn [payload_fits payload_text ARCPType] in Hf, Ht.
  1: left; by injection Ht as <-.
  all: right.
  1: { injection Ht as <-. apply Hf. }
  13: { destruct Hf as (_ & H1 & H2 & H3). destruct (marshal_event_spec _ _ H1 H2 H3 Ht) as (w & Hw & _ & _).
        by destruct (marshal_raw JobEvent_codec _ _ Hw). }
  all: by eapply marshal_raw in Ht as (? & _); [|apply _].
Qed.

Lemma payload_text_total typ p : payload_fits typ p → is_Some (payload_text p).
Proof.
  intros Hf. destruct p; cbn [payload_fits payload_text ARCPType] in Hf |- *; try (by eexists).
  all: destruct Hf as [_ Hf].
  13: { destruct Hf as (H1 & H2 & H3). by apply marshal_event_total. }
  all: by apply (marshal_total _).
Qed.

(** ** Envelopes *)

(** An envelope the wire carries faithfully. *)
Record envelope_fits (e : Envelope) : Prop := mkEnvelopeFits {
  fits_ARCP : utf8 (ARCP e);
  fits_ID : utf8 (env_ID e);
  fits_Type : utf8 (env_Type e);
  fits_SessionID : utf8 (env_SessionID e);
  fits_JobID : utf8 (env_JobID e);
  fits_TraceID : utf8 (env_TraceID e);
  fits_EventSeq : in_u64 (env_EventSeq e);
  fits_Payload : payload_fits (env_Type e) (env_Payload e)
}.

Definition extensions_fit (ext : gmap string string) : Prop := map_Forall (λ k v, utf8 k ∧ fits raw_codec v) ext.

Lemma wire_fits e ext body : envelope_fits e → extensions_fit ext → payload_text (env_Payload e) = Some body →
  fits Envelope_codec (mkWireEnvelope (ARCP e) (env_ID e) (env_Type e) (env_SessionID e) (env_JobID e) (env_TraceID e)
                         (env_EventSeq e) body ext).
Proof.
  intros [] Hext Hp. fit_fields. by eapply raw_member, payload_text_raw.
Qed.

Lemma marshal_envelope_total e ext : envelope_fits e → extensions_fit ext → is_Some (marshal_envelope e ext).
Proof.
  intros Hf Hext. destruct (payload_text_total _ _ (fits_Payload _ Hf)) as [body Hp].
  unfold marshal_envelope, write_envelope. rewrite Hp. simpl. apply (marshal_total Envelope_codec). by apply wire_fits.
Qed.

Lemma envelope_roundtrip_ext e ext t :
  envelope_fits e → extensions_fit ext → marshal_envelope e ext = Some t → unmarshal_envelope t = Some (e, ext).
Proof.
  intros Hf Hext. unfold marshal_envelope, write_envelope. destruct (payload_text (env_Payload e)) as [body|] eqn:Hp; [|done].
  simpl. intros Hm. unfold unmarshal_envelope. eapply (marshal_unmarshal Envelope_codec) in Hm as ->; [|by apply wire_fits].
  cbn [fmap option_fmap option_map]. unfold read_envelope. cbn.
  erewrite read_payload_text by (eassumption || apply fits_Payload, Hf). by destruct e.
Qed.

(** The encoding of an envelope is an object of the grammar, compact. *)
Lemma marshal_envelope_object e ext t : marshal_envelope e ext = Some t →
  ∃ ms, t = render (JObj EmptyString ms) ∧ wf (JObj EmptyString ms) = true ∧ tight (JObj EmptyString ms) = true.
Proof.
  unfold marshal_envelope. destruct (write_envelope e ext) as [w|]; [|done]. simpl. unfold marshal. intros H.
  apply fmap_Some in H as (j & Hj & ->). destruct (enc_text _ _ Hj) as [Hw Hc].
  pose proof Hj as Hj'. apply fmap_Some in Hj' as (ms & _ & ->). exists ms. split; [done|]. split; [done|].
  pose proof (compact_tight (JObj EmptyString ms)) as Ht. rewrite Hc in Ht. exact Ht.
Qed.

(** ** The interface of the transports *)

Definition err_json : error := ENew "json: unsupported value".

Definition json_Marshal (e : Envelope) : res string :=
  match marshal_envelope e ∅ with Some b => Ok b | None => Err err_json end.

Definition json_Unmarshal (s : string) : result string Envelope :=
  match unmarshal_envelope s with Some (e, _) => Ok e | None => Err "json: cannot unmarshal" end.

Lemma json_Marshal_Ok e b : json_Marshal e = Ok b → marshal_envelope e ∅ = Some b.
Proof. unfold json_Marshal. destruct (marshal_envelope e ∅); [|done]. by intros [= ->]. Qed.

Lemma json_text e b : json_Marshal e = Ok b → sforallb not_control b = true.
Proof.
  intros Hm%json_Marshal_Ok. destruct (marshal_envelope_object _ _ _ Hm) as (ms & -> & Hw & Ht).
  pose proof (tight_text _ Hw Ht) as H. revert H. generalize (render (JObj EmptyString ms)). clear.
  induction s as [|c s IH]; [done|]. cbn [sforallb]. rewrite !andb_true_iff. intros [Hc Hs]. split; [|by apply IH].
  unfold in_range in Hc. rewrite andb_true_iff in Hc. apply Hc.
Qed.

Lemma json_roundtrip e b : envelope_fits e → json_Marshal e = Ok b → json_Unmarshal b = Ok e.
Proof.
  intros Hf Hm%json_Marshal_Ok. unfold json_Unmarshal.
  by rewrite (envelope_roundtrip_ext e ∅ b Hf (map_Forall_empty _) Hm).
Qed.

Lemma json_prefix e b p q : json_Marshal e = Ok b → b = p +:+ q → q ≠ EmptyString → ∃ msg, json_Unmarshal p = Err msg.
Proof.
  intros Hm%json_Marshal_Ok Hpq Hq. destruct (marshal_envelope_object _ _ _ Hm) as (ms & -> & Hw & _).
  unfold json_Unmarshal, unmarshal_envelope, unmarshal. rewrite (Parse_object_prefix _ _ p q Hw Hpq Hq). by eexists.
Qed.


#[export] Instance sdk_json : JSONCodec := {
  Marshal := json_Marshal;
  Unmarshal := json_Unmarshal;
  wire_ok := envelope_fits;
  marshal_text := json_text;
  marshal_roundtrip := json_roundtrip;
  marshal_prefix := json_prefix
}.
End wire_laws.

(** ** Witness *)

(** An acceptance with a lease, a zoned deadline and a budget, on a process in
    the zone UTC-05:30. *)
Definition demo_accepted : Envelope :=
  mkEnvelope ProtocolVersion "e1" TypeJobAccepted "sess_1" "job_1" "" 0
    (PAccepted (mkAccepted "job_1" {[ "cost.budget" := ["USD:5"] ]}
       (Some (mkConstraints (Some (mkZoned 1700000000123000000 0)))) {[ "USD" := f_of_Z 5 ]} [] 951782400000000000 "" "" "a<b")).

Definition demo_text : WireText := rfc3339 (λ _, -19800)%Z.

Lemma demo_fits : envelope_fits (WT := demo_text) demo_accepted.
Proof.
  constructor; try reflexivity; [by split|]. split; [reflexivity|].
  repeat (apply Forall_cons; split; [try (left; reflexivity); try (right; reflexivity)|]).
  - right. apply map_Forall_singleton. split; [reflexivity|]. repeat constructor.
  - right. apply Forall_singleton. right. apply zoned_fits. repeat split; vm_compute; done.
  - right. apply map_Forall_singleton. split; [reflexivity|]. split; vm_compute; reflexivity.
  - right. apply time_fits. repeat split; vm_compute; done.
  - by apply Forall_nil.
Qed.

Definition demo_line : string :=
  Eval vm_compute in match json_Marshal (WT := demo_text) demo_accepted with Ok b => b | Err _ => "" end.

