(* ===== verification/WireTypes.v ===== *)
(** * What decoding can produce

    Whatever bytes arrive, an envelope that decodes has its integers within
    the width of their Go types and a payload of the struct its type names;
    and [DecodeEventBody] returns a valid body of the kind of its event. *)

From Stdlib Require Import ZArith Ascii Lia SpecFloat.
From S2P Require Import Prelude GoStrings Decimal Errors Features Float64 Lease Messages Agents Stream Json JsonText Codec Transport Stdio Wire WireSafety.

(** ** Decoders keep a property of values *)

(** [P] holds of the zero value and decoding keeps it. *)
Class Keeps {A} (c : codec A) (P : A → Prop) : Prop := {
  keeps_zero : P (zero c);
  keeps_dec : ∀ old j x, P old → dec c old j = Some x → P x
}.

#[export] Instance keeps_uint64 : Keeps uint64_codec in_u64.
Proof.
  split; [unfold in_u64, two64; simpl; lia|]. intros old [] x Ho; simpl; try done; [by intros [= <-]|apply ParseUint_range].
Qed.

#[export] Instance keeps_int : Keeps int_codec in_i64.
Proof.
  split; [unfold in_i64; simpl; lia|]. intros old [] x Ho; simpl; try done; [by intros [= <-]|apply ParseInt_range].
Qed.

Lemma keeps_true {A} (c : codec A) : Keeps c (λ _, True).
Proof. by split. Qed.

#[export] Instance keeps_ptr {A} (c : codec A) P `{!Keeps c P} : Keeps (ptr_codec c) (λ p, ∀ x, p = Some x → P x).
Proof.
  split; [done|]. intros old j x Ho. simpl.
  assert (P (default (zero c) old)) as Hd by (destruct old; [by apply Ho|apply keeps_zero]).
  destruct j; try (intros H; apply fmap_Some in H as (y & Hy & ->); intros ? [= <-]; by eapply keeps_dec).
  by intros [= <-].
Qed.

#[export] Instance keeps_slice {A} (c : codec A) P `{!Keeps c P} : Keeps (slice_codec c) (Forall P).
Proof.
  split; [constructor|]. intros old j x _. simpl. destruct j as [| | | |w items|]; try done; [by intros [= <-]|].
  intros H. apply mapM_Some in H. induction H as [|i y items l Hy H IH]; constructor; [|done].
  eapply keeps_dec; [apply keeps_zero|exact Hy].
Qed.

Lemma keeps_struct {R} (z : R) (fs : list (field R)) (P : R → Prop) :
  P z → Forall (λ f, ∀ r j r', P r → f_dec f r j = Some r' → P r') fs → Keeps (struct_codec z fs) P.
Proof.
  intros Hz Hf. split; [exact Hz|]. intros old j x Ho. simpl. destruct j as [| | | | |w ms]; try done; [by intros [= <-]|].
  revert old Ho. induction ms as [|[[k p] j] ms IH]; intros old Ho; cbn [dec_fields]; [by intros [= <-]|].
  destruct (find_field fs (unquote k)) as [f|] eqn:Hfind; [|by apply IH].
  destruct (f_dec f old j) as [r'|] eqn:Hd; [|done]. apply IH. unfold find_field in Hfind.
  destruct (list_find _ fs) as [[i g]|] eqn:Hl; [|done]. injection Hfind as <-.
  apply list_find_Some in Hl as (Hi & _ & _). rewrite Forall_forall in Hf.
  eapply Hf; [by eapply list_elem_of_lookup_2|exact Ho|exact Hd].
Qed.

(** A field that the property does not read, and one whose values it bounds. *)
Lemma fld_skips {R A} name (get : R → A) set (c : codec A) o (P : R → Prop) :
  (∀ v r, P r → P (set v r)) → ∀ r j r', P r → f_dec (fld name get set c o) r j = Some r' → P r'.
Proof. intros Hs r j r' Hr H. apply fmap_Some in H as (v & _ & ->). by apply Hs. Qed.

Lemma fld_keeps {R A} name (get : R → A) set (c : codec A) o (P : R → Prop) (Q : A → Prop) `{!Keeps c Q} :
  (∀ r, P r → Q (get r)) → (∀ v r, P r → Q v → P (set v r)) →
  ∀ r j r', P r → f_dec (fld name get set c o) r j = Some r' → P r'.
Proof.
  intros Hg Hs r j r' Hr H. apply fmap_Some in H as (v & Hv & ->). apply Hs; [done|].
  eapply keeps_dec; [by apply Hg|exact Hv].
Qed.

Lemma keeps_unmarshal {A} (c : codec A) P `{!Keeps c P} s x : unmarshal c s = Some x → P x.
Proof.
  unfold unmarshal. destruct (Parse s) as [j|]; [|done]. simpl. intros H. eapply keeps_dec; [apply keeps_zero|exact H].
Qed.

(** The fields of a struct, each skipped or bounded. *)
Ltac solve_keeps :=
  apply keeps_struct;
  [ repeat split; try done; unfold in_u64, in_i64, two64; try lia; try constructor
  | repeat (apply Forall_cons; split;
      [ first [ apply fld_skips; intros ? [] ?; simpl in *; solve [assumption | tauto]
              | eapply fld_keeps; [apply _ | intros [] ?; simpl in *; solve [assumption | tauto]
                                  | intros ? [] ? ?; simpl in *; solve [assumption | tauto]] ] |]);
    by apply Forall_nil ].

Section types.
Context `{WT : WireText}.

#[export] Instance keeps_ResumeRequest : Keeps ResumeRequest_codec (λ r, in_u64 (rr_LastEventSeq r)).
Proof. solve_keeps. Qed.
Definition hello_bounds (h : SessionHello) : Prop := ∀ r, sh_Resume h = Some r → in_u64 (rr_LastEventSeq r).

#[export] Instance keeps_SessionHello : Keeps SessionHello_codec hello_bounds.
Proof. solve_keeps. Qed.
#[export] Instance keeps_SessionWelcome :
  Keeps SessionWelcome_codec (λ w, in_i64 (sw_ResumeWindowSec w) ∧ in_i64 (sw_HeartbeatIntervalSec w)).
Proof. solve_keeps. Qed.
#[export] Instance keeps_SessionListJobs : Keeps SessionListJobs_codec (λ r, in_i64 (lj_Limit r)).
Proof. solve_keeps. Qed.
#[export] Instance keeps_JobInfo : Keeps JobInfo_codec (λ i, in_u64 (ji_LastEventSeq i)).
Proof. solve_keeps. Qed.
#[export] Instance keeps_SessionJobs : Keeps SessionJobs_codec (λ r, Forall (λ i, in_u64 (ji_LastEventSeq i)) (sj_Jobs r)).
Proof. solve_keeps. Qed.
#[export] Instance keeps_JobSubmit : Keeps JobSubmit_codec (λ r, in_i64 (js_MaxRuntimeSec r)).
Proof. solve_keeps. Qed.
#[export] Instance keeps_JobResult : Keeps JobResult_codec (λ r, in_u64 (jr_ResultSize r)).
Proof. solve_keeps. Qed.
#[export] Instance keeps_JobSubscribe : Keeps JobSubscribe_codec (λ r, in_u64 (sb_FromEventSeq r)).
Proof. solve_keeps. Qed.
#[export] Instance keeps_JobSubscribed : Keeps JobSubscribed_codec (λ r, in_u64 (sd_SubscribedFrom r)).
Proof. solve_keeps. Qed.
#[export] Instance keeps_ArtifactRefBody : Keeps ArtifactRefBody_codec (λ r, in_u64 r.1.2).
Proof. solve_keeps. Qed.
#[export] Instance keeps_ProgressBody : Keeps ProgressBody_codec (λ r, in_u64 (pb_Current r) ∧ in_u64 (pb_Total r)).
Proof. solve_keeps. Qed.
#[export] Instance keeps_ResultChunkBody : Keeps ResultChunkBody_codec (λ r, in_u64 (rc_ChunkSeq r)).
Proof. solve_keeps. Qed.
#[export] Instance keeps_SessionAck : Keeps SessionAck_codec (λ n, in_u64 (Z.of_N n)).
Proof.
  apply keeps_struct; [unfold in_u64, two64; simpl; lia|]. apply Forall_singleton.
  eapply fld_keeps; [apply _|done|]. intros v n _ Hv. unfold in_u64 in *. rewrite Z2N.id by lia. done.
Qed.
#[export] Instance keeps_Envelope : Keeps Envelope_codec (λ w, in_u64 (we_EventSeq w)).
Proof. solve_keeps. Qed.

(** ** Widths *)

Definition body_bounds (b : event_body) : Prop :=
  match b with
  | BArtifactRef _ _ size _ => in_u64 size
  | BProgress b => in_u64 (pb_Current b) ∧ in_u64 (pb_Total b)
  | BResultChunk b => in_u64 (rc_ChunkSeq b)
  | _ => True
  end.

Definition payload_bounds (p : payload) : Prop :=
  match p with
  | PHello h => hello_bounds h
  | PWelcome w => in_i64 (sw_ResumeWindowSec w) ∧ in_i64 (sw_HeartbeatIntervalSec w)
  | PAck n => in_u64 (Z.of_N n)
  | PListJobs r => in_i64 (lj_Limit r)
  | PJobs r => Forall (λ i, in_u64 (ji_LastEventSeq i)) (sj_Jobs r)
  | PSubmit r => in_i64 (js_MaxRuntimeSec r)
  | PEvent e => body_bounds (ev_Body e)
  | PResult r => in_u64 (jr_ResultSize r)
  | PSubscribe r => in_u64 (sb_FromEventSeq r)
  | PSubscribed r => in_u64 (sd_SubscribedFrom r)
  | _ => True
  end.

Lemma unmarshal_body_typed kind body b :
  unmarshal_body kind body = Some b → body_kind b = Some kind ∧ body_bounds b.
Proof.
  unfold unmarshal_body.
  repeat (case_bool_decide as Hk; [subst; intros H; apply fmap_Some in H as (y & Hy & ->); split; [done|];
                             first [exact I | exact (keeps_unmarshal _ _ _ _ Hy)]|clear Hk]). done.
Qed.

Lemma read_event_bounds w : body_bounds (ev_Body (read_event w)).
Proof.
  unfold read_event. simpl. destruct (unmarshal_body _ _) as [b|] eqn:Hb; [|done]. by apply unmarshal_body_typed in Hb as [_ ?].
Qed.

Lemma payload_parse_typed typ body p : payload_parse typ body = Some p → ARCPType p = Some typ ∧ payload_bounds p.
Proof.
  unfold payload_parse.
  repeat (case_bool_decide as Hk; [subst; intros H; apply fmap_Some in H as (y & Hy & ->); split; [done|];
                             first [exact I | exact (read_event_bounds y) | exact (keeps_unmarshal _ _ _ _ Hy)]|clear Hk]). done.
Qed.
End types.

(** ** Failures of the encoder *)

Lemma enc_fields_all {R} (fs : list (field R)) r ms : enc_fields fs r = Some ms → Forall (λ f, is_Some (f_enc f r)) fs.
Proof.
  revert ms. induction fs as [|f fs IH]; intros ms; cbn [enc_fields]; [constructor|].
  destruct (f_enc f r) eqn:Hf; [|done]. simpl. destruct (enc_fields fs r) as [ms'|]; [|done]. intros _.
  constructor; [by rewrite Hf|by eapply IH].
Qed.

(** A field of a struct that was encoded was encoded, or is empty. *)
Lemma marshal_field {R A} z (fs : list (field R)) (r : R) t name get set (c : codec A) o `{!Lawful c} :
  marshal (struct_codec z fs) r = Some t → fld name get set c o ∈ fs → is_Some (enc c (get r)) ∨ get r = zero c.
Proof.
  intros H Hin. apply fmap_Some in H as (j & H & _). apply fmap_Some in H as (ms & H & _).
  apply enc_fields_all in H. rewrite Forall_forall in H. specialize (H _ Hin). simpl in H.
  destruct (o && is_empty c (get r)) eqn:He; [right; apply empty_zero; by apply andb_true_iff in He as [_ ?]|].
  left. by apply fmap_is_Some in H.
Qed.

(** The encoder rejects what [MarshalPayload] of the model rejects: NaN and the
    infinities, in a budget or in a metric. *)
Lemma payload_text_json_ok `{WT : WireText} p t : payload_text p = Some t → json_ok p = true.
Proof.
  destruct p as [| | | | | | | | | | | | | |e| | | | | | |]; try done; cbn [payload_text json_ok].
  - intros H. apply bool_decide_eq_true. intros k v Hv.
    destruct (marshal_field _ _ p t "budget" ja_Budget (λ v r, r <| ja_Budget := v |>) (map_codec float_codec) true H) as [[j Hj]|Hz];
      [do 3 right; by left| |by rewrite Hz in Hv].
    apply fmap_Some in Hj as (ms & Hm & _). apply mapM_Some in Hm.
    assert ((k, v) ∈ entries (ja_Budget p)) as Hin by (rewrite entries_perm; by apply elem_of_map_to_list).
    apply list_elem_of_lookup in Hin as [i Hi]. destruct (Forall2_lookup_l _ _ _ _ _ Hm Hi) as (m & _ & Hme).
    apply fmap_Some in Hme as (j' & Hj' & _). simpl in Hj'. by destruct (is_finite v).
  - unfold marshal_event. destruct (ev_Body e) as [| | | | |b| | | | |] eqn:Hb; try done. simpl.
    destruct (marshal MetricBody_codec b) as [t'|] eqn:Hm; [|done]. intros _.
    destruct (marshal_field _ _ b t' "value" mb_Value (λ v r, r <| mb_Value := v |>) float_codec false Hm) as [[j Hj]|Hz];
      [right; by left| |by rewrite Hz].
    simpl in Hj. by destruct (is_finite (mb_Value b)).
Qed.

(** ** Properties *)

Section properties.
Context `{WT : WireText}.


(** [DecodeEventBody] returns the body of the kind of the event: what
    [NewEventBody] writes for a valid body, without error, decodes to it; whatever decodes at a
    known kind is the struct of that kind and passes its [Validate], with its
    integers in range; and the bytes of an unknown kind come back unchanged. *)
Theorem DecodeEventBody_spec (kind : string) :
  (∀ b, body_kind b = Some kind → body_fits kind b → body_Validate b = None →
     ∃ t, NewEventBody b = Some t ∧ DecodeEventBody kind t = Ok b) ∧
  (∀ body b, known_kind kind = true → DecodeEventBody kind body = Ok b →
     body_kind b = Some kind ∧ body_Validate b = None ∧ body_bounds b) ∧
  (∀ body, known_kind kind = false → DecodeEventBody kind body = Ok (BRaw body)).
Proof.
  unfold DecodeEventBody. split_and!.
  - intros b Hk Hf Hv. destruct (NewEventBody_total _ _ Hf) as [t Ht]. exists t. split; [exact Ht|].
    assert (known_kind kind = true) as -> by (destruct b; try done; injection Hk as <-; vm_compute; reflexivity).
    pose proof (unmarshal_NewEventBody _ _ _ Hf Ht) as Hu. destruct (unmarshal_body kind t) as [b'|]; simpl in Hu.
    + subst b'. by rewrite Hv.
    + by subst b.
  - intros body b ->. destruct (unmarshal_body kind body) as [b'|] eqn:Hu; [|done].
    destruct (body_Validate b') eqn:Hv; [done|]. intros [= <-]. apply unmarshal_body_typed in Hu as [? ?]. done.
  - by intros body ->.
Qed.
End properties.

(** ** Witness *)


Lemma DecodeEventBody_spec_witness :
  ∃ t, NewEventBody (WT := demo_text) (BProgress (mkProgress 1 2 "files" "")) = Some t ∧
       DecodeEventBody (WT := demo_text) KindProgress t = Ok (BProgress (mkProgress 1 2 "files" "")).
Proof.
  apply (DecodeEventBody_spec (WT := demo_text) KindProgress); [reflexivity| |reflexivity].
  split; [reflexivity|]. repeat (apply Forall_cons; split; [first [by left|by right]|]). by apply Forall_nil.
Defined.
