(* ===== verification/Examples.v ===== *)
(** * The agents and servers of the examples and recipes

    Models the server programs under examples/ and recipes/: every agent body
    as a program (file Programs), and every [main] as a deployment: the options
    of the server, the registrations, the routes, the address and what happens
    on a signal.  Models examples/internal/demo too, with the part of
    [fmt.Sscan] that reads the port. *)

From S2P Require Import Prelude GoStrings Errors Features Float64 Lease Canonical LeaseState Messages EventLog IdStore Agents ServerState Delivery Stream Job ListJobs Session Runtime Scenarios Invariant Preservation JobPreservation SessionPreservation HandlerPreservation Frames JobLife Safety Protocol Programs NetHTTP Auth Credentials Json JsonText Codec Wire.
From ITree Require ITree.
From Stdlib Require Import ZArith Ascii Lia.
Import ITreeDefinition (itree(..), itreeF(..)).

(** ** examples/internal/demo *)

(** *** [fmt.Sscan] of an [int] *)

(** [SkipSpace]: the runes of [isSpace], as UTF-8. *)
Fixpoint SkipSpace (s : string) : string :=
  match s with
  | String c s1 =>
      if bool_decide (c ∈ ["009"; "010"; "011"; "012"; "013"; " "]%char) then SkipSpace s1
      else match s1 with
      | String d s2 =>
          if bool_decide (c = "194"%char) && bool_decide (d ∈ ["133"; "160"]%char) then SkipSpace s2
          else match s2 with
          | String e s3 =>
              if (bool_decide (c = "225"%char) && bool_decide (d = "154"%char) && bool_decide (e = "128"%char))
                 || (bool_decide (c = "226"%char) && bool_decide (d = "128"%char) &&
                     (GoStrings.in_range "128" "138" e || bool_decide (e ∈ ["168"; "169"; "175"]%char)))
                 || (bool_decide (c = "226"%char) && bool_decide (d = "129"%char) && bool_decide (e = "159"%char))
                 || (bool_decide (c = "227"%char) && bool_decide (d = "128"%char) && bool_decide (e = "128"%char))
              then SkipSpace s3 else s
          | EmptyString => s
          end
      | EmptyString => s
      end
  | EmptyString => s
  end.

(** The value of a digit up to base 16. *)
Definition digit16 (c : ascii) : Z :=
  if is_digit c then digit_val c
  else if GoStrings.in_range "a" "f" c then (byte_of c - byte_of "a" + 10)%Z
  else if GoStrings.in_range "A" "F" c then (byte_of c - byte_of "A" + 10)%Z
  else 16%Z.

(** The longest prefix of digits of a base and underscores. *)
Fixpoint accept_digits (base : Z) (s : string) : string :=
  match s with
  | String c s' =>
      if (digit16 c <? base)%Z || bool_decide (c = "_"%char) then String c (accept_digits base s') else EmptyString
  | EmptyString => EmptyString
  end.

(** The base prefix: its text, and the base of the digits after it. *)
Definition scanBasePrefix (s : string) : string * Z :=
  match s with
  | String "0" (String c _) =>
      let p := String "0" (String c EmptyString) in
      if bool_decide (c ∈ ["b"; "B"]%char) then (p, 2%Z)
      else if bool_decide (c ∈ ["o"; "O"]%char) then (p, 8%Z)
      else if bool_decide (c ∈ ["x"; "X"]%char) then (p, 16%Z)
      else ("0", 8%Z)
  | String "0" EmptyString => ("0", 8%Z)
  | _ => ("", 10%Z)
  end.

(** [underscoreOK] after the prefix: [saw] is [0] after a digit or prefix, [_]
    after an underscore, [^] at the start. *)
Fixpoint underscores_ok (saw : ascii) (s : string) : bool :=
  match s with
  | EmptyString => negb (bool_decide (saw = "_"%char))
  | String c s =>
      if bool_decide (c = "_"%char) then bool_decide (saw = "0"%char) && underscores_ok "_" s
      else underscores_ok "0" s
  end.

Fixpoint based_value (base : Z) (s : string) (acc : Z) : Z :=
  match s with
  | EmptyString => acc
  | String c s => if bool_decide (c = "_"%char) then based_value base s acc else based_value base s (acc * base + digit16 c)%Z
  end.

(** [strconv.ParseInt] with base 0 of the token [scanInt] has read: its sign,
    its prefix and its digits.  A lone [0b], [0o] or [0x] is no number; after a
    leading [0] alone the digits are octal. *)
Definition token_value (neg : bool) (p : string) (base : Z) (ds : string) : option Z :=
  if bool_decide (ds = "") && negb (bool_decide (p = "0")) then None
  else if negb (underscores_ok (if bool_decide (p = "") then "^"%char else "0"%char) ds) then None
  else
    let v := based_value base ds 0 in
    let v := if neg then (- v)%Z else v in
    if ((- 2 ^ 63 <=? v) && (v <? 2 ^ 63))%Z then Some v else None.

(** [fmt.Sscan(s, &p)]: the value stored in [p], [None] for an error; what
    follows the token is not read. *)
Definition Sscan_int (s : string) : option Z :=
  let s := SkipSpace s in
  let '(neg, s) := match s with String "-" s => (true, s) | String "+" s => (false, s) | _ => (false, s) end in
  let '(p, base) := scanBasePrefix s in
  token_value neg p base (accept_digits base (sdrop (len p) s)).

(** *** The helpers *)

(** The port; [v] is the value of ARCP_DEMO_PORT, empty when it is not set. *)
Definition demo_port (v : string) (defaultPort : Z) : Z :=
  if negb (bool_decide (v = "")) then
    match Sscan_int v with
    | Some p => if (0 <? p)%Z then p else defaultPort
    | None => defaultPort
    end
  else defaultPort.

Definition demo_Addr (v : string) (defaultPort : Z) : string :=
  "ws://127.0.0.1:" +:+ Itoa (demo_port v defaultPort) +:+ "/arcp".
Definition demo_Listen (v : string) (defaultPort : Z) : string := ":" +:+ Itoa (demo_port v defaultPort).

(** ** Values an agent returns *)

Definition err_unsupported : error := ENew "json: unsupported value".
Definition json_of {A} (c : codec A) (x : A) : res string :=
  match marshal c x with Some s => Ok s | None => Err err_unsupported end.

(** [map[string]T] with one entry. *)
Definition json_map {A} (c : codec A) (k : string) (x : A) : res string := json_of (map_codec c) {[ k := x ]}.

Definition ok_output (v : res string) : agent_outcome := AReturn (Some v) None.
Definition no_output (err : option error) : agent_outcome := AReturn None err.

(** A [json.RawMessage] as a map value; a nil one is null. *)
Definition raw_value (s : string) : string := if bool_decide (s = "") then "null" else s.

(** A float constant. *)
Definition float_const (lit : string) : f64 := match ParseFloat lit with Ok v => v | Err _ => fzero end.

(** [slog.Level(0).String()]. *)
Definition level0 : string := "INFO".

(** A Go loop: the state, until the body leaves it. *)
Definition loop {S R} (body : S → program (S + R)) (s : S) : program R := ITreeDefinition.ITree.iter body s.

(** ** Agents of the examples *)

(** [json.Unmarshal] into a struct with the field [N int `json:"n"`], the error
    ignored: each member of that name sets the field if it is an integer in
    range, and an error leaves what is there. *)
Definition counter_N (input : string) : Z :=
  match Parse input with
  | Some (JObj _ ms) =>
      fold_left (λ n m, if bool_decide (fold_key (unquote m.1.1) = "n") then default n (dec int_codec n m.2) else n) ms 0%Z
  | _ => 0%Z
  end.

Definition counter_agent : agent_body := λ input,
  let N := counter_N input in
  let N := if (N =? 0)%Z then 5%Z else N in
  loop (λ i,
    if (i <=? N)%Z then
      call (EDo (ALog level0 ("counted " +:+ Itoa i) ∅));;
      call (ESleep (50 * millisecond)%Z);;
      mret (inl (wrap_i64 (i + 1)))
    else mret (inr ())) 1%Z;;
  mret (ok_output (json_map int_codec "counted" N)).

(** The loop of [itoa]: the digits in front of what it has. *)
Fixpoint itoa_loop (fuel : nat) (i : Z) (out : string) : string :=
  match fuel with
  | 0 => out
  | S fuel =>
      if (0 <? i)%Z then itoa_loop fuel (Z.quot i 10) (String (byte_char ((48 + Z.rem i 10) mod 256)) out) else out
  end.

(** [itoa] of examples/cost-budget/server; nineteen digits are enough for an
    [int]. *)
Definition itoa (i : Z) : string := if (i =? 0)%Z then "0" else itoa_loop 19 i "".

Definition researcher_agent : agent_body := λ _,
  loop (λ i,
    if (i <? 3)%Z then
      err ← call (EValidate CapToolCall "search.web");
      match err with
      | Some err =>
          if errors_Is err (EArcp ErrBudgetExhausted) then
            call (EDo (AToolError ("c" +:+ itoa i) err));;
            mret (inr (ok_output (json_map string_codec "status" "budget exhausted")))
          else mret (inr (no_output (Some err)))
      | None =>
          id ← call (EToolCall "search.web" (json_map any_codec "q" (AnyString "topic")));
          call (EDo (AToolResult id (json_map int_codec "hits" 3%Z)));;
          call (EDo (AMetric "cost.search" (float_const "0.42") "USD" ∅));;
          mret (inl (i + 1)%Z)
      end
    else mret (inr (ok_output (json_map any_codec "status" (AnyString "done"))))) 0%Z.

Definition slow_job_agent : agent_body := λ _,
  call (ENewTicker (200 * millisecond)%Z);;
  loop (λ _ : (),
    done_ ← call ETick;
    match done_ with
    | Some err => mret (inr (no_output (Some err)))
    | None =>
        err ← call (EValidate CapFSRead "/data/file");
        match err with
        | Some err => if errors_Is err (EArcp ErrLeaseExpired) then mret (inr (no_output (Some err))) else mret (inl ())
        | None => mret (inl ())
        end
    end) ().

Definition rogue_agent : agent_body := λ _,
  callID ← call (EToolCall "fs.write" (json_map string_codec "path" "/etc/passwd"));
  err ← call (EValidate CapFSWrite "/etc/passwd");
  match err with
  | Some err =>
      call (EDo (AToolError callID err));;
      mret (ok_output (json_map string_codec "status" "denied"))
  | None =>
      call (EDo (AToolResult callID (json_map string_codec "wrote" "yes")));;
      mret (ok_output (json_map string_codec "status" "ok"))
  end.

Definition chat_agent : agent_body := λ _,
  err ← call (EValidate CapModelUse "tier-fast/gpt-4o-mini");
  match err with
  | Some err => mret (no_output (Some err))
  | None =>
      call (EDo (AMetric "cost.model" (float_const "0.25") "USD" ∅));;
      mret (ok_output (json_map string_codec "model" "tier-fast/gpt-4o-mini"))
  end.

Definition ticker_agent : agent_body := λ _,
  loop (λ i,
    if (i <=? 5)%Z then
      call (EDo (ALog level0 "tick" ∅));;
      done_ ← call (EAfter (500 * millisecond)%Z);
      match done_ with
      | Some err => mret (inr (no_output (Some err)))
      | None => mret (inl (i + 1)%Z)
      end
    else mret (inr (ok_output (json_map int_codec "ticks" 5%Z)))) 1%Z.

(** [strings.Repeat]. *)
Fixpoint Repeat (s : string) (n : nat) : string := match n with 0 => "" | S n => s +:+ Repeat s n end.

(** The deferred [w.Close] runs when the body returns. *)
Definition report_agent : agent_body := λ _,
  err ← call (EStream "utf8");
  match err with
  | Some err => mret (no_output (Some err))
  | None =>
      loop (λ i,
        if (i <? 5)%Z then
          call (EWrite (Repeat "x" 1024 +:+ String "010" EmptyString));;
          mret (inl (i + 1)%Z)
        else mret (inr ())) 0%Z;;
      call (EDo ACloseStream);;
      mret (no_output None)
  end.

Definition indexer_agent : agent_body := λ _,
  loop (λ i,
    if (i <=? 10)%Z then
      call (EDo (AProgress i 10 "files" "indexed"));;
      call (ESleep (40 * millisecond)%Z);;
      mret (inl (wrap_u64 (i + 1)))
    else mret (inr ())) 1%Z;;
  mret (ok_output (json_map int_codec "indexed" 10%Z)).

Definition long_agent : agent_body := λ _,
  done_ ← call (EAfter (30 * second)%Z);
  match done_ with
  | Some err => mret (no_output (Some err))
  | None => mret (ok_output (json_map bool_codec "finished" true))
  end.

Definition heartbeat_idle_agent : agent_body := λ _,
  call (ESleep (500 * millisecond)%Z);; mret (ok_output (json_map string_codec "status" "ok")).

Definition list_idle_agent : agent_body := λ _,
  call (ESleep (2 * second)%Z);; mret (ok_output (json_map bool_codec "ok" true)).

Definition code_refactor_v1_agent : agent_body := λ _, mret (ok_output (json_map string_codec "version" "1.0.0")).
Definition code_refactor_v2_agent : agent_body := λ _, mret (ok_output (json_map string_codec "version" "2.0.0")).
Definition ping_agent : agent_body := λ _, mret (ok_output (json_map string_codec "pong" "ok")).

Definition chatty_agent : agent_body := λ _,
  loop (λ i,
    if (i <? 200)%Z then call (EDo (ALog level0 "event" ∅));; mret (inl (i + 1)%Z)
    else mret (inr ())) 0%Z;;
  mret (ok_output (json_map int_codec "emitted" 200%Z)).

Definition tracing_echo_agent : agent_body := λ _,
  call (EDo (ALog level0 "tracing demo" ∅));; mret (ok_output (json_map string_codec "ok" "yes")).

(** The echo of idempotent-retry, nethttp-routes, chi-routes and stdio. *)
Definition echo_agent : agent_body := λ input, mret (ok_output (json_map raw_codec "echo" (raw_value input))).

Definition vendor_agent : agent_body := λ _,
  call (EDo (AMetric "x-vendor.acme.shards" (float_const "42") "count" {[ "tier" := "warm" ]}));;
  mret (ok_output (json_map bool_codec "ok" true)).

(** ** Agents of the recipes *)

Definition mailer_agent : agent_body := λ _,
  err ← call (EValidate "x-vendor.acme.email.send" "tenant-a/welcome");
  match err with
  | Some err => mret (no_output (Some err))
  | None => mret (ok_output (json_map string_codec "queued" "tenant-a/welcome"))
  end.

Definition skill_research_agent : agent_body := λ input,
  err ← call (EValidate CapToolCall "mcp.search");
  match err with
  | Some err => mret (no_output (Some err))
  | None =>
      id ← call (EToolCall "mcp.search" (json_map string_codec "query" input));
      call (EDo (AToolResult id (json_map int_codec "hits" 3%Z)));;
      mret (ok_output (json_map string_codec "summary" "research complete"))
  end.

Definition planner_agent : agent_body := λ _,
  err ← call (EValidate CapToolCall "plan");
  match err with
  | Some err => mret (no_output (Some err))
  | None =>
      call (EDo (AMetric "cost.plan" (float_const "0.40") "USD" ∅));;
      call (EDo (AArtifact "memory://plan/1" "application/json" 0 ""));;
      mret (ok_output (json_map string_codec "status" "planned"))
  end.

(** [streamedResult.Close] returns nil. *)
Definition streamer_agent : agent_body := λ _,
  err ← call (EStream "utf8");
  match err with
  | Some err => mret (no_output (Some err))
  | None =>
      call (EWrite ("chunk-one" +:+ String "010" EmptyString));;
      call (EWrite ("chunk-two" +:+ String "010" EmptyString));;
      call (EDo ACloseStream);;
      mret (no_output None)
  end.

(** ** Deployments *)

(** What a route answers: the ARCP handler, or a fixed body. *)
Inductive http_route := RArcp (h : Handler) | RBody (body : string).

(** A server behind an HTTP server (an address and its routes by path, with the
    method that a route is limited to), or over stdin and stdout. *)
Inductive listener :=
| LHttp (addr : string) (routes : list (string * option string * http_route))
| LStdio.

(** What [main] does once it listens: wait for SIGINT or SIGTERM and shut the
    HTTP server down, where a listener that fails ends the process ([true]) or
    is ignored; or exit when the listener or the session ends. *)
Inductive ending := ShutdownOnSignal (fatal : bool) | FatalOnReturn | ExitOnReturn.

Record deployment := mkDeployment {
  d_options : Options;
  d_register : list op;
  d_bodies : list agent_body;
  d_listener : listener;
  d_ending : ending
}.

(** A registered handler is the position of its body. *)
Definition d_handlers (d : deployment) (f : nat) : agent_body := nth f (d_bodies d) (λ _, mret APanic).

(** [server.Options{}] with a name. *)
Definition named (name : string) : Options := mkOptions name "" 0 0 None None None 0 [] None 0 0 0 0.

(** [mux.Handle("/arcp", nethttp.NewHandler(srv, nethttp.Options{}))]. *)
Definition arcp_route : string * option string * http_route := ("/arcp", None, RArcp (NewHandler (mkHandlerOptions "" [] 0 0))).

(** The frame of every example server but stdio: one agent, the mux, the port. *)
Definition serve_one (o : Options) (agent : string) (body : agent_body) (env : string) (port : Z) : deployment :=
  mkDeployment o [OpRegisterAgent agent (Some 0)] [body] (LHttp (demo_Listen env port) [arcp_route]) (ShutdownOnSignal false).

Definition submit_and_stream_main (env : string) : deployment :=
  mkDeployment (named "submit-and-stream") [OpRegisterAgent "counter" (Some 0)] [counter_agent]
    (LHttp (demo_Listen env 7811) [arcp_route]) (ShutdownOnSignal true).
Definition idempotent_retry_main (env : string) : deployment := serve_one (named "") "echo" echo_agent env 7814.
Definition lease_violation_main (env : string) : deployment := serve_one (named "") "rogue" rogue_agent env 7815.
Definition cancel_main (env : string) : deployment := serve_one (named "") "long" long_agent env 7816.
Definition vendor_extensions_main (env : string) : deployment := serve_one (named "") "vendor" vendor_agent env 7818.
Definition subscribe_main (env : string) : deployment := serve_one (named "") "ticker" ticker_agent env 7823.
Definition lease_expires_at_main (env : string) : deployment :=
  serve_one (named "lease-expires-at") "slow-job" slow_job_agent env 7825.
Definition cost_budget_main (env : string) : deployment :=
  serve_one (named "cost-budget") "researcher" researcher_agent env 7826.
Definition progress_main (env : string) : deployment := serve_one (named "progress-demo") "indexer" indexer_agent env 7827.
Definition result_chunk_main (env : string) : deployment := serve_one (named "result-chunk") "report" report_agent env 7828.
Definition tracing_main (env : string) : deployment := serve_one (named "tracing") "echo" tracing_echo_agent env 7829.
Definition list_jobs_main (env : string) : deployment := serve_one (named "list-jobs") "idle" list_idle_agent env 7822.

Definition heartbeat_main (env : string) : deployment :=
  serve_one (named "heartbeat-demo" <| o_HeartbeatInterval := (2 * second)%Z |>) "idle" heartbeat_idle_agent env 7820.

Definition ack_backpressure_main (env : string) : deployment :=
  serve_one (named "" <| o_AckLagThreshold := 32%Z |>) "chatty" chatty_agent env 7821.

Definition demo_tokens : gmap string string := {[ "sk-demo" := "alice" ]}.

Definition custom_auth_main `{!MapOrder} (env : string) : deployment :=
  serve_one (named "" <| o_Verifier := Some (λ n token, StaticBearer n demo_tokens token) |>) "ping" ping_agent env 7819.

(** [demo.Must] ends the program if the default version cannot be set. *)
Definition agent_versions_main (env : string) : res deployment :=
  let regs := [OpRegisterAgentVersion "code-refactor" "1.0.0" (Some 0); OpRegisterAgentVersion "code-refactor" "2.0.0" (Some 1)] in
  let table := RegisterAgentVersion (RegisterAgentVersion ∅ "code-refactor" "1.0.0" (Some 0)) "code-refactor" "2.0.0" (Some 1) in
  match (SetDefaultAgentVersion table "code-refactor" "2.0.0").1 with
  | Some err => Err err
  | None =>
      Ok (mkDeployment (named "agent-versions") (regs ++ [OpSetDefaultAgentVersion "code-refactor" "2.0.0"])
            [code_refactor_v1_agent; code_refactor_v2_agent] (LHttp (demo_Listen env 7824) [arcp_route]) (ShutdownOnSignal false))
  end.

(** The provisioner of [credentials.NewMemory]; [store] is its state at a
    position of the run. *)
Definition memory_provisioner (FormatFloat : f64 → string) (store : nat → Memory) : Provisioner :=
  mkProvisioner (λ n req, (Issue FormatFloat req (store n)).1) (λ n id, (Revoke id (store n)).1)
    (Some (λ n id v, (RevokePriorValue id v (store n)).1)).

(** [store] starts as [NewMemory "demo-cred-"]. *)
Definition provisioned_credentials_main (FormatFloat : f64 → string) (store : nat → Memory) (env : string) : deployment :=
  serve_one (named "provisioned-credentials" <| o_Provisioner := Some (memory_provisioner FormatFloat store) |>)
    "chat" chat_agent env 7836.

Definition nethttp_routes_main (env : string) : deployment :=
  mkDeployment (named "") [OpRegisterAgent "echo" (Some 0)] [echo_agent]
    (LHttp (demo_Listen env 7830) [arcp_route; ("/healthz", None, RBody "ok")]) (ShutdownOnSignal false).

Definition chi_routes_main (env : string) : deployment :=
  let '(path, h) := chi_Mount (mkHandlerOptions "" [] 0 0) in
  mkDeployment (named "") [OpRegisterAgent "echo" (Some 0)] [echo_agent]
    (LHttp (demo_Listen env 7831) [(path, None, RArcp h); ("/jobs", Some "GET", RBody "[]")]) (ShutdownOnSignal false).

Definition stdio_agent_main : deployment :=
  mkDeployment (named "stdio-agent") [OpRegisterAgent "echo" (Some 0)] [echo_agent] LStdio ExitOnReturn.

(** The recipes listen on a fixed port, or on stdio. *)
Definition email_vendor_leases_main : deployment :=
  mkDeployment (named "email-vendor-leases") [OpRegisterAgent "mailer" (Some 0)] [mailer_agent] (LHttp ":7841" [arcp_route]) FatalOnReturn.
Definition multi_agent_budget_main : deployment :=
  mkDeployment (named "multi-agent-budget") [OpRegisterAgent "planner" (Some 0)] [planner_agent] (LHttp ":7842" [arcp_route]) FatalOnReturn.
Definition stream_resume_main : deployment :=
  mkDeployment (named "stream-resume") [OpRegisterAgent "streamer" (Some 0)] [streamer_agent] (LHttp ":7843" [arcp_route]) FatalOnReturn.
Definition mcp_skill_main : deployment :=
  mkDeployment (named "mcp-skill") [OpRegisterAgent "skill.research" (Some 0)] [skill_research_agent] LStdio FatalOnReturn.

(** The server of a deployment after its registrations. *)
Definition boot `{!Runtime} (d : deployment) (t : Time) : world :=
  world_run (d_handlers d) (WServer <$> d_register d) (mkWorld (New (d_options d) t) ∅).

Lemma boot_reach `{!Runtime} d t : world_reach (d_handlers d) (d_options d) t (boot d t).
Proof. apply world_run_reach. constructor. Qed.

(** ** The bodies end and check *)

(** One call, then the rest. *)
Lemma obeys_step {A R} P n st (e : jobE A) (k : A → program R) Q :
  allows P st e → (∀ a, obeys P n (moved_by P st e a) (k a) Q) → obeys P (S n) st (call e ≫= k) Q.
Proof.
  intros He Hk. cbn. split; [exact He|]. intros a. specialize (Hk a). destruct n as [|n]; [done|]. exact Hk.
Qed.

Ltac obey :=
  repeat lazymatch goal with
  | |- obeys _ _ _ (mret _) _ => apply obeys_ret; [try done|lia]
  | |- obeys _ _ _ (mbind _ (call _)) _ => apply obeys_step; [try done|intros ?]
  | |- obeys _ _ _ (match ?x with _ => _ end) _ => destruct x eqn:?
  end.

(** A loop that counts up from [lo] to a bound. *)
Lemma obeys_count {R} P (body : Z → program (Z + R)) c (lo hi i : Z) st (Q : po_state P → R → Prop) :
  (∀ i st, (lo <= i)%Z → obeys P c st (body i) (λ st r, match r with inl i' => (i < i' <= hi + 1)%Z | inr r => Q st r end)) →
  (lo <= i)%Z → obeys P ((c + 2) * S (Z.to_nat (hi + 1 - i))) st (loop body i) Q.
Proof.
  intros Hb Hi. apply (obeys_loop P body c (λ k i _, k = Z.to_nat (hi + 1 - i) ∧ (lo <= i)%Z)); [|done]. intros k j st' [-> Hj].
  eapply obeys_mono; [by apply Hb|done|]. intros st2 [i'|r] H; [|done]. eexists. split; [|split; [done|lia]]. lia.
Qed.

Lemma researcher_supervised input : supervised 36 (researcher_agent input).
Proof.
  apply (obeys_count supervision _ 7 0 2 0 None (λ _ _, True)); [|done]. intros i st _. obey; cbn; lia.
Qed.

Lemma skill_supervised input : supervised 5 (skill_research_agent input).
Proof. unfold supervised, skill_research_agent. obey. Qed.
