(* ===== verification/Deploy.v ===== *)
(** * Client programs and whole deployments

    A client program of the examples is Go code that dials, connects, submits,
    waits and prints; here it is an interaction tree over those calls
    ([cliE]).  A [node] is a deployment (file Examples) with the programs of
    its jobs and one client program with its connections: the server of the
    file Runtime, the clients of the file Client, and between them the
    envelopes each side has written and how many the other has read.  The
    theorem says that every run of a node is a run of the parts, and that what
    the consumer of a job reads is a contiguous segment of the events its
    session queued. *)

From S2P Require Import Prelude GoStrings Errors Features Float64 Lease Canonical LeaseState Messages EventLog IdStore Agents ServerState Delivery Stream Job ListJobs Session Runtime Scenarios Invariant Preservation JobPreservation SessionPreservation HandlerPreservation Frames JobLife Safety ServerWire Protocol Programs NetHTTP Json JsonText Codec Wire Examples Transport Client ClientInv ClientRegistry ClientDelivery ClientLossless ClientScenarios EndToEnd Served.
From ITree Require ITree.
From Stdlib Require Import ZArith Ascii Lia.
Import ITreeDefinition (itree(..), itreeF(..)).

(** ** Client programs *)

(** A printed line: the format, less a final newline, and its arguments; for
    [log.Println] the text of its first argument, if that is a constant. *)
Inductive arg :=
| PStr (s : string)
| PInt (z : Z)
| PFloat (f : f64)
| PErr (e : option error)
| PMap (m : gmap string string)
| PBody (b : event_body).
Record line := mkLine { ln_format : string; ln_args : list arg }.

(** How [main] ends: it returns, or [log.Fatal] ends the process, without the
    deferred calls. *)
Inductive exit := Returned | Fatal (l : line).

(** The channel that a goroutine of the form [for ev := range ...] reads. *)
Inductive source := FromJob (h : nat) | FromSub (s : nat).

(** The calls of a client program.  A client is named by the number of its
    transport.  [CTimeout] is [context.WithTimeout]: the context of every later
    call.  [CGo] starts a goroutine that prints for each event of a channel,
    and once more when the channel is closed; [CCount] is how many it has read.
    [CStart] starts a child process and makes a transport of its pipes. *)
Inductive cliE : Type → Type :=
| CTimeout (d : Duration) : cliE ()
| CDial (addr : string) : cliE (res nat)
| CStart (command : list string) : cliE (res nat)
| CConnect (t : nat) (o : ClientOptions) : cliE (res nat)
| CWelcome (c : nat) : cliE (option SessionWelcome)
| CSubmit (c : nat) (input : res string) (q : SubmitRequest) : cliE (res nat)
| CAccepted (c h : nat) : cliE (option JobAccepted)
| CJobID (c h : nat) : cliE string
| CGo (c : nat) (src : source) (print : JobEvent → list line) (last_ : list line) : cliE nat
| CCount (k : nat) : cliE Z
| CWait (c h : nat) : cliE (option JobResult * option error)
| CCancel (c h : nat) (reason : string) : cliE (option error)
| CCollect (c h : nat) : cliE (res string)
| CSubscribe (c : nat) (jobID : string) (from : Z) (history : bool) : cliE (res nat)
| CSubClose (c s : nat) : cliE (option error)
| CListJobs (c : nat) (q : SessionListJobs) : cliE (res JobList)
| CClose (c : nat) : cliE (option error)
| CSleep (d : Duration) : cliE ()
| CNow : cliE ZonedTime
| CTraceID : cliE string
| CPrint (l : line) : cliE ().

Definition client_program (R : Type) : Type := itree cliE R.

#[export] Instance client_program_ret : MRet client_program := λ A a, ITreeDefinition.Ret a.
#[export] Instance client_program_bind : MBind client_program := λ A B k m, ITreeDefinition.ITree.bind m k.

Definition ccall {A} (e : cliE A) : client_program A := ITreeDefinition.ITree.trigger e.

(** ** Dialling *)

(** The host with port and the path of a ws URL. *)
Definition ws_target (addr : string) : option (string * string) :=
  if HasPrefix addr "ws://" then
    let rest := sdrop 5 addr in
    match IndexByte rest "/" with
    | Some i => Some (stake i rest, sdrop i rest)
    | None => Some (rest, "/")
    end
  else None.

(** The route of a path that takes the method. *)
Definition find_route (routes : list (string * option string * http_route)) (method path : string) : option http_route :=
  snd <$> (snd <$> list_find (λ r, r.1.1 = path ∧ (r.1.2 = None ∨ r.1.2 = Some method)) routes).

(** A port that [net.Listen] and a dial accept. *)
Definition tcp_port (port : string) : bool :=
  match ParseInt port with Some p => ((0 <=? p) && (p <=? 65535))%Z | None => false end.

(** A dial to [addr] reaches the ARCP handler of a listener: the port is the
    listener's and a TCP port, the mux finds the route, and no guard of
    [ServeHTTP] refuses the upgrade. *)
Definition dials (l : listener) (addr : string) : bool :=
  match l, ws_target addr with
  | LHttp at_ routes, Some (host, path) =>
      match SplitHostPort host with
      | Some (_, port) =>
          bool_decide (at_ = ":" +:+ port) && tcp_port port &&
          match find_route routes "GET" path with
          | Some (RArcp h) => bool_decide (serve_guards (hd_opts h) (hd_closing h) (mkRequest "GET" path host) = None)
          | _ => false
          end
      | None => false
      end
  | _, _ => false
  end.

(** ** Nodes *)

(** A connection: its client once [Connect] has returned one, how many of the
    server's envelopes the client has taken, and how many of the client's the
    server has read. *)
Record conn := mkConn { cn_client : option Client; cn_taken : nat; cn_read : nat }.

Record consumer := mkConsumer {
  k_conn : nat;
  k_source : source;
  k_print : JobEvent → list line;
  k_last : list line;
  k_count : Z;
  k_done : bool
}.

(** Where a call of [main] that takes several steps stands.  [WDrain] is the
    loop of [CollectChunks] over the rest of the chunks. *)
Inductive waiting :=
| WNone
| WConnect (id : string)
| WSubmit (h : nat)
| WSubscribe (s : nat)
| WList (l : nat)
| WCollect (by_ : accums) (total : Z)
| WDrain (by_ : accums) (total : Z)
| WSleep (until : Time)
| WClose.

Record node := mkNode {
  n_world : world;
  n_conns : gmap nat conn;
  n_next : nat;
  n_ids : nat;
  n_main : client_program exit;
  n_wait : waiting;
  n_deadline : option Time;
  n_consumers : list consumer;
  n_out : list line;
  n_exit : option exit
}.

#[export] Instance eta_node : Eta node := λ n,
  mkNode (n_world n) (n_conns n) (n_next n) (n_ids n) (n_main n) (n_wait n) (n_deadline n) (n_consumers n) (n_out n) (n_exit n).

Definition n_srv (n : node) : Server := w_srv (n_world n).

(** The context of [main] is done. *)
Definition ctx_over (n : node) : bool := match n_deadline n with Some t => (t <=? now (n_srv n))%Z | None => false end.

Definition client_at (n : node) (c : nat) : option Client := n_conns n !! c ≫= cn_client.

(** What a call of [main] gives. *)
Inductive reply (A : Type) := Waits (n : node) | Gives (a : A) (n : node).
Arguments Waits {A} n.
Arguments Gives {A} a n.

(** ** The tape between the two

    The envelopes a server has written on a transport and how many the client
    has taken, as a transport of the interface of the file Transport. *)

Record tape := mkTape { tp_written : list Envelope; tp_taken : nat }.

Inductive tape_op := TWrite (env : Envelope) | TTake.

Definition tape_step (t : tape) (o : tape_op) : option tape :=
  match o with
  | TWrite env => Some (mkTape (tp_written t ++ [env]) (tp_taken t))
  | TTake => if (tp_taken t <? length (tp_written t))%nat then Some (mkTape (tp_written t) (S (tp_taken t))) else None
  end.

Definition tape_accepted (s : side) (t : tape) : list Envelope := match s with SLeft => tp_written t | SRight => [] end.
Definition tape_received (s : side) (t : tape) : list Envelope :=
  match s with SLeft => [] | SRight => take (tp_taken t) (tp_written t) end.

#[export] Instance tape_transport : FifoTransport tape tape_op.
Proof.
  refine {| t_init := mkTape [] 0; t_step := tape_step; t_accepted := tape_accepted; t_received := tape_received; t_clean := λ _ _, True |}.
  intros [] s _ _; cbn; [|done]. eexists. symmetry. apply take_drop.
Defined.

Lemma tape_run w k : k ≤ length w → Transport.run tape_step (mkTape [] 0) (mkTape w k).
Proof.
  intros Hk. induction k as [|k IH].
  - clear Hk. induction w as [|e w IH] using rev_ind; [constructor|]. by eapply (run_next _ _ (mkTape w 0) (TWrite e)).
  - eapply (run_next _ _ (mkTape w k) TTake); [apply IH; lia|].
    unfold tape_step. cbn [tp_taken tp_written]. by rewrite (proj2 (Nat.ltb_lt _ _) Hk).
Qed.

Section deploy.
Context {RT : Runtime} {MO : MapOrder} {RD : RawDecode}.
(** The deployment, and the offset of the local time zone from UTC. *)
Variables (d : deployment) (zone : Z).

Definition put_client (c : nat) (cl : Client) (n : node) : node :=
  n <| n_conns := alter (λ x, mkConn (Some cl) (cn_taken x) (cn_read x)) c (n_conns n) |>.

(** A step of the client [c]. *)
Definition client_do (c : nat) (o : client_op) (n : node) : option node :=
  cl ← client_at n c; cl' ← client_step cl o; Some (put_client c cl' n).

(** An identifier of the client process. *)
Definition new_id (n : node) : string := uuid (n_ids n).
Definition bump (n : node) : node := n <| n_ids := S (n_ids n) |>.
Definition settle (n : node) : node := n <| n_wait := WNone |>.

Definition new_conn (n : node) : node :=
  n <| n_conns := <[n_next n := mkConn None 0 0]> (n_conns n) |> <| n_next := S (n_next n) |>.

Definition hello_envelope (o : ClientOptions) (id : string) : Envelope :=
  mkEnvelope ProtocolVersion id TypeSessionHello "" "" "" 0 (PHello (hello_of (client_withDefaults o))).

(** [AutoAckWindow] is a [uint64]. *)
Definition options_typed (o : ClientOptions) : bool := (0 <=? co_AutoAckWindow o)%Z && (co_AutoAckWindow o <? two64)%Z.

(** The end of [Connect]: the outcome of [Recv] gives a client or an error. *)
Definition connect_with (t : nat) (o : ClientOptions) (id : string) (resp : res Envelope) (n : node) : reply (res nat) :=
  match Connect o id None resp with
  | Ok cl => Gives (Ok t) (settle (n <| n_conns := <[t := mkConn (Some cl) 1 1]> (n_conns n) |>))
  | Err e => Gives (Err e) (settle n)
  end.

Definition do_connect (k : Client.select_case) (t : nat) (o : ClientOptions) (n : node) : reply (res nat) :=
  if negb (options_typed o) then Waits n
  else match n_wait n with
  | WConnect id =>
      match wire (n_srv n) !! t with
      | Some (env :: _) => connect_with t o id (Ok env) n
      | _ =>
          if bool_decide (t ∈ tclosed (n_srv n)) then connect_with t o id (Err ErrClosed) n
          else match k with
               | CaseCtx => if ctx_over n then connect_with t o id (Err ctx_DeadlineExceeded) n else Waits n
               | _ => Waits n
               end
      end
  | _ =>
        let id := new_id n in
        let n := bump n in
        Waits (n <| n_world := world_step (d_handlers d) (n_world n) (WServer (OpAccept t (Ok (hello_envelope o id)))) |>
                 <| n_wait := WConnect id |>)
  end.

(** A case of a [select] is taken; the context's case only when it is done. *)
Definition select_case_of (k : Client.select_case) (n : node) : option Client.select_case :=
  match k with CaseCtx => if ctx_over n then Some CaseCtx else None | _ => Some k end.

Definition handle_at (n : node) (c h : nat) : option JobHandle := cl ← client_at n c; c_jobs cl !! h.

(** [Submit] up to its [select]. *)
Definition submit_first (c : nat) (input : res string) (q : SubmitRequest) (n : node) : reply (res nat) :=
  match input, client_at n c with
  | Err e, _ => Gives (Err e) n
  | Ok _, Some cl =>
      match client_do c (OSubmit input q (new_id n) None) n with
      | Some n' => Waits (bump n' <| n_wait := WSubmit (new_ref (c_jobs cl)) |>)
      | None => Waits n
      end
  | Ok _, None => Waits n
  end.

Definition do_submit (k : Client.select_case) (c : nat) (input : res string) (q : SubmitRequest) (n : node) : reply (res nat) :=
  match n_wait n with
  | WSubmit h =>
      match k ← select_case_of k n; client_do c (OSubmitSelect k ctx_DeadlineExceeded) n with
      | Some n' =>
          match handle_at n' c h ≫= jh_returned with
          | Some (Some e) => Gives (Err e) (settle n')
          | _ => Gives (Ok h) (settle n')
          end
      | None => Waits n
      end
  | _ => submit_first c input q n
  end.

Definition subscribe_first (c : nat) (jobID : string) (from : Z) (history : bool) (n : node) : reply (res nat) :=
  match client_at n c with
  | None => Waits n
  | Some cl =>
      match Subscribe jobID from history (new_id n) (ulid (n_ids n)) None cl with
      | Err e => Gives (Err e) n
      | Ok _ =>
          match client_do c (OSubscribe jobID from history (new_id n) (ulid (n_ids n)) None) n with
          | Some n' => Waits (bump n' <| n_wait := WSubscribe (new_ref (c_subs cl)) |>)
          | None => Waits n
          end
      end
  end.

Definition do_subscribe (k : Client.select_case) (c : nat) (jobID : string) (from : Z) (history : bool) (n : node) :
    reply (res nat) :=
  match n_wait n with
  | WSubscribe s =>
      match k ← select_case_of k n; client_do c (OSubscribeSelect s k ctx_DeadlineExceeded) n with
      | Some n' =>
          match cl ← client_at n' c; x ← c_subs cl !! s; su_returned x with
          | Some (Some e) => Gives (Err e) (settle n')
          | _ => Gives (Ok s) (settle n')
          end
      | None => Waits n
      end
  | _ => subscribe_first c jobID from history n
  end.

Definition list_first (c : nat) (q : SessionListJobs) (n : node) : reply (res JobList) :=
  match client_at n c with
  | None => Waits n
  | Some cl =>
      match ListJobs q (new_id n) None cl with
      | Err e => Gives (Err e) n
      | Ok _ =>
          match client_do c (OListJobs q (new_id n) None) n with
          | Some n' => Waits (bump n' <| n_wait := WList (new_ref (c_lists cl)) |>)
          | None => Waits n
          end
      end
  end.

Definition do_list (k : Client.select_case) (c : nat) (q : SessionListJobs) (n : node) : reply (res JobList) :=
  match n_wait n with
  | WList l =>
      match k ← select_case_of k n; client_do c (OListSelect l k ctx_DeadlineExceeded) n with
      | Some n' =>
          match cl ← client_at n' c; x ← c_lists cl !! l; li_returned x with
          | Some r => Gives r (settle n')
          | None => Waits n'
          end
      | None => Waits n
      end
  | _ => list_first c q n
  end.

(** [CollectChunks]: a chunk, an event to discard, the context, or the end of
    the job, after which the rest of the chunks is read. *)
Definition collect_chunk (more : accums → Z → waiting) (stop : ResultChunkBody → bool) (by_ : accums) (total : Z)
    (c h : nat) (n : node) : reply (res string) :=
  match handle_at n c h with
  | None => Waits n
  | Some x =>
      match jh_chunks x, client_at n c with
      | b :: _, Some cl =>
          match client_do c (OReadChunk h) n with
          | None => Waits n
          | Some n' =>
              match add_chunk (co_MaxAssembledBytes (c_opts cl)) by_ total b with
              | Err e => Gives (Err e) (settle n')
              | Ok (by_, total) =>
                  if stop b then Gives (assembleChunks by_) (settle n') else Waits (n' <| n_wait := more by_ total |>)
              end
          end
      | _, _ => if jh_closed x then Gives (assembleChunks by_) (settle n) else Waits n
      end
  end.

(** One turn of the [select] of [CollectChunks]; [CaseTimer] stands for the case
    that discards an event. *)
Definition collect_select (k : Client.select_case) (by_ : accums) (total : Z) (c h : nat) (n : node) : reply (res string) :=
  let n := n <| n_wait := WCollect by_ total |> in
  match k with
  | CaseChan => collect_chunk WCollect (λ b, negb (rc_More b)) by_ total c h n
  | CaseDone =>
      match handle_at n c h with
      | Some x => if jh_done x then Waits (n <| n_wait := WDrain by_ total |>) else Waits n
      | None => Waits n
      end
  | CaseCtx => if ctx_over n then Gives (Err ctx_DeadlineExceeded) (settle n) else Waits n
  | CaseTimer => Waits (default n (client_do c (OReadEvent h) n))
  | CaseClient => Waits n
  end.

Definition do_collect (k : Client.select_case) (c h : nat) (n : node) : reply (res string) :=
  match n_wait n with
  | WDrain by_ total => collect_chunk WDrain (λ _, false) by_ total c h n
  | WCollect by_ total => collect_select k by_ total c h n
  | _ => collect_select k ∅ 0 c h n
  end.

(** A call that one step of the client is. *)
Definition do_step (c : nat) (o : client_op) (n : node) : reply (option error) :=
  match client_do c o n with Some n' => Gives None (bump n') | None => Waits n end.

(** The call [e] of [main]; [k] is the case that its [select] takes. *)
Definition cperform {A} (k : Client.select_case) (e : cliE A) (n : node) : reply A :=
  match e in cliE A return reply A with
  | CTimeout dur => Gives () (n <| n_deadline := Some (now (n_srv n) + dur)%Z |>)
  | CDial addr =>
      if dials (d_listener d) addr then Gives (Ok (n_next n)) (new_conn n)
      else Gives (Err (EWrap "dial websocket" (ENew "connection refused"))) n
  | CStart _ =>
      match d_listener d with
      | LStdio => Gives (Ok (n_next n)) (new_conn n)
      | LHttp _ _ => Gives (Err (ENew "exec: no such program")) n
      end
  | CConnect t o => do_connect k t o n
  | CWelcome c => Gives (c_welcome <$> client_at n c) n
  | CSubmit c input q => do_submit k c input q n
  | CAccepted c h => Gives (handle_at n c h ≫= JobHandle_Accepted) n
  | CJobID c h => Gives (from_option JobHandle_ID "" (handle_at n c h)) n
  | CGo c src print last_ =>
      Gives (length (n_consumers n)) (n <| n_consumers := n_consumers n ++ [mkConsumer c src print last_ 0 false] |>)
  | CCount i => Gives (from_option k_count 0%Z (n_consumers n !! i)) n
  | CWait c h =>
      match k with
      | CaseDone => match handle_at n c h ≫= Wait with Some r => Gives r n | None => Waits n end
      | CaseCtx => if ctx_over n then Gives (None, Some ctx_DeadlineExceeded) n else Waits n
      | _ => Waits n
      end
  | CCancel c h reason =>
      match client_at n c, handle_at n c h with
      | Some cl, Some x =>
          match Cancel cl x reason (new_id n) with
          | Err e => Gives (Some e) n
          | Ok _ => do_step c (OCancel h reason (new_id n) None) n
          end
      | _, _ => Waits n
      end
  | CCollect c h => do_collect k c h n
  | CSubscribe c jobID from history => do_subscribe k c jobID from history n
  | CSubClose c s => do_step c (OSubClose s (new_id n) None) n
  | CListJobs c q => do_list k c q n
  | CClose c =>
      match n_wait n with
      | WClose => match client_do c OCloseEnd n with Some n' => Gives None (settle n') | None => Waits n end
      | _ => match client_do c (OClose (new_id n) None) n with Some n' => Waits (bump n' <| n_wait := WClose |>) | None => Waits n end
      end
  | CSleep dur =>
      match n_wait n with
      | WSleep t => if (t <=? now (n_srv n))%Z then Gives () (settle n) else Waits n
      | _ => Waits (n <| n_wait := WSleep (now (n_srv n) + dur)%Z |>)
      end
  | CNow => Gives (mkZoned (now (n_srv n)) zone) n
  | CTraceID => Gives (NewTraceID (n_ids n)) (bump n)
  | CPrint l => Gives () (n <| n_out := n_out n ++ [l] |>)
  end.

(** A turn of [main]. *)
Definition main_turn (k : Client.select_case) (n : node) : node :=
  match ITreeDefinition.observe (n_main n) with
  | RetF x =>
      n <| n_exit := Some x |> <| n_out := n_out n ++ match x with Fatal l => [l] | Returned => [] end |>
  | TauF t => n <| n_main := t |>
  | VisF e f =>
      match cperform k e n with
      | Waits n' => n'
      | Gives a n' => n' <| n_main := f a |>
      end
  end.

(** ** The steps of a node *)

Inductive node_op :=
| NWorld (o : world_op)
| NUp (c p : nat)
| NDown (c : nat)
| NClient (c : nat) (o : client_op)
| NConsume (i : nat)
| NMain (k : Client.select_case).

(** Connections and what they carry are the node's own steps. *)
Definition local_op (o : world_op) : bool :=
  match o with WServer (OpAccept _ _) | WServer (OpRead _ _) => false | _ => true end.

(** What the goroutines of a client do on their own. *)
Definition goroutine_op (o : client_op) : bool :=
  match o with
  | ORlSelect _ | ORlWake | ORlAck | OHandleWake _ | OSubWake _ | OFail _ | OTickLoad | OTickCAS _ _ | OTickStop | OAckSend _ _ _ => true
  | _ => false
  end.

(** The server reads the next envelope of a client on its session [p]. *)
Definition up (c p : nat) (n : node) : node :=
  match n_conns n !! c, client_at n c with
  | Some x, Some cl =>
      match c_sent cl !! cn_read x with
      | Some env =>
          if negb (crashed (n_srv n)) && at_pc (n_srv n) p SReading && bool_decide (s_transport (sess (n_srv n) p) = c) then
            n <| n_world := world_step (d_handlers d) (n_world n) (WServer (OpRead p env)) |>
              <| n_conns := <[c := mkConn (Some cl) (cn_taken x) (S (cn_read x))]> (n_conns n) |>
          else n
      | None => n
      end
  | _, _ => n
  end.

(** The read loop of a client takes the next envelope (a sequence number on the
    wire is a [uint64]), or finds the transport closed. *)
Definition down (c : nat) (n : node) : node :=
  match n_conns n !! c, client_at n c with
  | Some x, Some cl =>
      match (if c_transportClosed cl then None else default [] (wire (n_srv n) !! c) !! cn_taken x) with
      | Some env =>
          if (0 <=? env_EventSeq env)%Z && (env_EventSeq env <? two64)%Z then
            match client_step cl (ORecv (Ok env) (n_ids n) (new_id n) None) with
            | Some cl' => bump n <| n_conns := <[c := mkConn (Some cl') (S (cn_taken x)) (cn_read x)]> (n_conns n) |>
            | None => n
            end
          else n
      | None =>
          if c_transportClosed cl || bool_decide (c ∈ tclosed (n_srv n)) then
            default n (client_do c (ORecv (Err ErrClosed) 0 "" None) n)
          else n
      end
  | _, _ => n
  end.

(** A goroutine that ranges over a channel reads an event and prints, or finds
    the channel closed. *)
Definition consume (i : nat) (n : node) : node :=
  match n_consumers n !! i with
  | None => n
  | Some x =>
      let '(evs, closed_, o) :=
        match k_source x, client_at n (k_conn x) with
        | FromJob h, Some cl => (from_option jh_events [] (c_jobs cl !! h), from_option jh_closed false (c_jobs cl !! h), OReadEvent h)
        | FromSub s, Some cl => (from_option su_events [] (c_subs cl !! s), from_option su_closed false (c_subs cl !! s), OReadSub s)
        | _, None => ([], false, OReadEvent 0)
        end in
      match evs with
      | ev :: _ =>
          match client_do (k_conn x) o n with
          | Some n' =>
              n' <| n_out := n_out n' ++ k_print x ev |>
                 <| n_consumers := <[i := mkConsumer (k_conn x) (k_source x) (k_print x) (k_last x) (k_count x + 1) false]> (n_consumers n') |>
          | None => n
          end
      | [] =>
          if closed_ && negb (k_done x) then
            n <| n_out := n_out n ++ k_last x |>
              <| n_consumers := <[i := mkConsumer (k_conn x) (k_source x) (k_print x) (k_last x) (k_count x) true]> (n_consumers n) |>
          else n
      end
  end.

(** Once [main] has ended the client process does nothing; the server still
    reads what it has written. *)
Definition node_step (n : node) (o : node_op) : node :=
  match o with
  | NWorld o => if local_op o then n <| n_world := world_step (d_handlers d) (n_world n) o |> else n
  | NUp c p => up c p n
  | _ =>
      match n_exit n, o with
      | None, NDown c => down c n
      | None, NClient c o => if goroutine_op o then default n (client_do c o n) else n
      | None, NConsume i => consume i n
      | None, NMain k => main_turn k n
      | _, _ => n
      end
  end.

Definition node_init (t : Time) (main : client_program exit) : node :=
  mkNode (boot d t) ∅ 0 0 main WNone None [] [] None.

Inductive node_reach (t : Time) (main : client_program exit) : node → Prop :=
| node_start : node_reach t main (node_init t main)
| node_next n o : node_reach t main n → node_reach t main (node_step n o).

(** ** The parts of a node *)

Lemma system_grow w more k cl :
  k ≤ length w → system SRight (mkTape w k) cl → system SRight (mkTape (w ++ more) k) cl.
Proof.
  intros Hk H. induction more as [|e more IH] using rev_ind; [by rewrite app_nil_r|].
  eapply (sys_transport SRight _ (TWrite e)); [exact IH|cbn; by rewrite app_assoc|].
  cbn. by rewrite !take_app_le by lia.
Qed.

(** The client of a connection is connected over the wire of its transport. *)
Definition conn_ok (s : Server) (c : nat) (x : conn) : Prop :=
  match cn_client x with
  | None => True
  | Some cl => ∃ w, wire s !! c = Some w ∧ cn_taken x ≤ length w ∧ system SRight (mkTape w (cn_taken x)) cl
  end.

Record node_ok (t : Time) (n : node) : Prop := {
  no_world : world_reach (d_handlers d) (d_options d) t (n_world n);
  no_conns : ∀ c x, n_conns n !! c = Some x → conn_ok (n_srv n) c x
}.

Definition wires_grow (s s' : Server) : Prop := ∀ t w, wire s !! t = Some w → ∃ more, wire s' !! t = Some (w ++ more).

Lemma conn_ok_grow s s' c x : wires_grow s s' → conn_ok s c x → conn_ok s' c x.
Proof.
  unfold conn_ok. destruct (cn_client x) as [cl|]; [|done]. intros Hg (w & Hw & Hk & H). destruct (Hg c w Hw) as [more Hm].
  exists (w ++ more). split_and!; [done|rewrite length_app; lia|by apply system_grow].
Qed.

Lemma wires_grow_refl s : wires_grow s s.
Proof. intros t w Hw. exists []. by rewrite app_nil_r. Qed.

Lemma world_step_grow w o : wires_grow (w_srv w) (w_srv (world_step (d_handlers d) w o)).
Proof.
  destruct o as [o|j|j cs]; cbn.
  - case_match; [intros t ws; apply step_wire|apply wires_grow_refl].
  - unfold start. case_match; intros t ws; apply step_wire.
  - unfold turn. case_match; [|apply wires_grow_refl]. destruct (negb _ && _) eqn:Hg; [|apply wires_grow_refl].
    apply andb_true_iff in Hg as [Hc%negb_true_iff Hj].
    destruct (head (th_rest t)); [intros u ws; apply step_wire|apply wires_grow_refl|].
    destruct (perform _ _ _ _ _) eqn:Hp; [apply wires_grow_refl|]. cbn.
    pose proof (perform_step _ _ _ _ _ _ _ _ Hc Hj Hp) as ->. case_match; [intros u ws; apply step_wire|apply wires_grow_refl].
Qed.

(** What a step of the node may do to the connections: keep them, or replace
    one by one that is well. *)
Lemma node_ok_world t n w' n' :
  node_ok t n → world_reach (d_handlers d) (d_options d) t w' → wires_grow (n_srv n) (w_srv w') →
  n_world n' = w' → n_conns n' = n_conns n → node_ok t n'.
Proof.
  intros [_ Hc] Hw Hg E1 E2. split; [by rewrite E1|]. unfold n_srv. rewrite E1, E2.
  intros c x Hx. eapply conn_ok_grow; [exact Hg|by apply Hc].
Qed.

Lemma node_ok_same t n n' : node_ok t n → n_world n' = n_world n → n_conns n' = n_conns n → node_ok t n'.
Proof. intros H E1 E2. eapply node_ok_world; [exact H|apply H|apply wires_grow_refl|done|done]. Qed.

Lemma node_ok_put t n n' c x :
  node_ok t n → n_world n' = n_world n → n_conns n' = <[c := x]> (n_conns n) → conn_ok (n_srv n) c x → node_ok t n'.
Proof.
  intros [Hw Hc] E1 E2 Hx. split; [by rewrite E1|]. unfold n_srv. rewrite E1, E2.
  intros c' x' [[<- <-]|[_ Hx']]%lookup_insert_Some; [done|by apply Hc].
Qed.

Lemma client_at_conn n c cl : client_at n c = Some cl → ∃ x, n_conns n !! c = Some x ∧ cn_client x = Some cl.
Proof. unfold client_at. destruct (n_conns n !! c) as [x|]; [|done]. intros H. by exists x. Qed.

(** A step of a client but a receive keeps the node well. *)
Definition no_recv (o : client_op) : Prop := op_typed o ∧ ∀ env k id serr, o ≠ ORecv (Ok env) k id serr.

Lemma client_do_ok t n c o n' : node_ok t n → no_recv o → client_do c o n = Some n' → node_ok t n'.
Proof.
  intros H [Ht Ho] (cl & Hcl & (cl' & Hs & [= <-])%bind_Some)%bind_Some.
  destruct (client_at_conn n c cl Hcl) as (x & Hx & Ex).
  eapply (node_ok_put t n _ c (mkConn (Some cl') (cn_taken x) (cn_read x))); [done|done| |].
  - exact (alter_insert _ _ _ _ Hx).
  - pose proof (no_conns t n H c x Hx) as Hok. unfold conn_ok in *. rewrite Ex in Hok. cbn.
    destruct Hok as (w & Hw & Hk & Hsys). exists w. split_and!; [done|done|]. by eapply sys_client.
Qed.

(** A reply is well when the node it leaves is. *)
Definition reply_ok {A} (t : Time) (r : reply A) : Prop :=
  match r with Waits n => node_ok t n | Gives _ n => node_ok t n end.

Lemma new_id_nonempty n : new_id n ≠ "".
Proof. apply uuid_nonempty. Qed.

Ltac node_same := eapply node_ok_same; [eassumption|done|done].
Ltac plain_op := split; [try apply new_id_nonempty; done|done].

Lemma do_then_ok {A} t n c o (f : node → reply A) :
  node_ok t n → no_recv o → (∀ n', node_ok t n' → reply_ok t (f n')) →
  reply_ok t match client_do c o n with Some n' => f n' | None => Waits n end.
Proof.
  intros H Ho Hf. destruct (client_do c o n) as [n'|] eqn:Hd; [|done]. apply Hf. by eapply client_do_ok.
Qed.

(** The same after the case of a [select]. *)
Lemma select_then_ok {A} t n k c (o : Client.select_case → client_op) (f : node → reply A) :
  node_ok t n → (∀ k, no_recv (o k)) → (∀ n', node_ok t n' → reply_ok t (f n')) →
  reply_ok t match k' ← select_case_of k n; client_do c (o k') n with Some n' => f n' | None => Waits n end.
Proof. intros H Ho Hf. destruct (select_case_of k n) as [k'|]; [|done]. by apply do_then_ok. Qed.

Lemma connect_with_ok t n c o id resp :
  node_ok t n → options_typed o = true → (∀ env, resp = Ok env → ∃ more, wire (n_srv n) !! c = Some (env :: more)) →
  reply_ok t (connect_with c o id resp n).
Proof.
  intros H Ho Hw. unfold connect_with. destruct (Connect o id None resp) as [cl|e] eqn:Hc; [|cbn; node_same].
  cbn. eapply (node_ok_put t n _ c (mkConn (Some cl) 1 1)); [done|done|done|]. unfold conn_ok. cbn.
  destruct resp as [env|e].
  - destruct (Hw env eq_refl) as [more Hm]. exists (env :: more). split_and!; [done|cbn; lia|].
    eapply (sys_connect SRight _ o id env cl); [apply (tape_run (env :: more) 1); cbn; lia|done| |done].
    unfold options_typed in Ho. apply andb_true_iff in Ho as [H1 H2]. unfold in_u64. lia.
  - unfold Connect in Hc. done.
Qed.

Lemma node_ok_step t n n' o :
  node_ok t n → n_world n' = world_step (d_handlers d) (n_world n) o → n_conns n' = n_conns n → node_ok t n'.
Proof.
  intros H E1 E2. eapply node_ok_world; [exact H| |apply (world_step_grow (n_world n) o)|done|done]. constructor. apply H.
Qed.

Lemma do_connect_ok t n k c o : node_ok t n → reply_ok t (do_connect k c o n).
Proof.
  intros H. unfold do_connect. destruct (options_typed o) eqn:Ho; [|done]. cbn [negb].
  destruct (n_wait n);
    cbv zeta; try (unfold reply_ok; by apply (node_ok_step t n _ (WServer (OpAccept c (Ok (hello_envelope o (new_id n))))) H)).
  destruct (wire (n_srv n) !! c) as [[|env more]|] eqn:Hw.
  2: { apply connect_with_ok; [done|done|]. intros env' [= <-]. by exists more. }
  all: repeat case_match; try done; by apply connect_with_ok.
Qed.

Lemma do_submit_ok t n k c input q : node_ok t n → reply_ok t (do_submit k c input q n).
Proof.
  intros H. assert (reply_ok t (submit_first c input q n)) as Hfirst.
  { unfold submit_first. destruct input as [i|e]; [|done]. destruct (client_at n c); [|done].
    apply do_then_ok; [done|plain_op|intros; cbn; node_same]. }
  unfold do_submit. destruct (n_wait n); try exact Hfirst.
  apply select_then_ok; [done|intros; plain_op|]. intros n' H'. repeat case_match; cbn; node_same.
Qed.

Lemma do_subscribe_ok t n k c jobID from history : node_ok t n → reply_ok t (do_subscribe k c jobID from history n).
Proof.
  intros H. assert (reply_ok t (subscribe_first c jobID from history n)) as Hfirst.
  { unfold subscribe_first. destruct (client_at n c); [|done]. destruct (Subscribe _ _ _ _ _ _ _); [|done].
    apply do_then_ok; [done|plain_op|intros; cbn; node_same]. }
  unfold do_subscribe. destruct (n_wait n); try exact Hfirst.
  apply select_then_ok; [done|intros; plain_op|]. intros n' H'. repeat case_match; cbn; node_same.
Qed.

Lemma do_list_ok t n k c q : node_ok t n → reply_ok t (do_list k c q n).
Proof.
  intros H. assert (reply_ok t (list_first c q n)) as Hfirst.
  { unfold list_first. destruct (client_at n c); [|done]. destruct (ListJobs _ _ _ _); [|done].
    apply do_then_ok; [done|plain_op|intros; cbn; node_same]. }
  unfold do_list. destruct (n_wait n); try exact Hfirst.
  apply select_then_ok; [done|intros; plain_op|]. intros n' H'. repeat case_match; cbn; node_same.
Qed.

Lemma collect_chunk_ok t more stop by_ total c h n : node_ok t n → reply_ok t (collect_chunk more stop by_ total c h n).
Proof.
  intros H. unfold collect_chunk. destruct (handle_at n c h) as [x|]; [|done].
  destruct (jh_chunks x); [case_match; cbn; [node_same|done]|]. destruct (client_at n c); [|case_match; cbn; [node_same|done]].
  apply do_then_ok; [done|plain_op|]. intros n' H'. repeat case_match; cbn; node_same.
Qed.

Lemma collect_select_ok t k by_ total c h n : node_ok t n → reply_ok t (collect_select k by_ total c h n).
Proof.
  intros H. unfold collect_select. cbv zeta. assert (node_ok t (n <| n_wait := WCollect by_ total |>)) as H' by node_same.
  destruct k; [by apply collect_chunk_ok|repeat case_match; cbn; node_same..|done|].
  destruct (client_do c (OReadEvent h) _) as [n'|] eqn:Hd; [|done]. eapply client_do_ok; [exact H'| |exact Hd]. plain_op.
Qed.

Lemma do_collect_ok t k c h n : node_ok t n → reply_ok t (do_collect k c h n).
Proof. intros H. unfold do_collect. destruct (n_wait n); first [by apply collect_select_ok|by apply collect_chunk_ok]. Qed.

Lemma new_conn_ok t n : node_ok t n → node_ok t (new_conn n).
Proof. intros H. by eapply (node_ok_put t n _ (n_next n) (mkConn None 0 0)). Qed.

Lemma do_step_ok t n c o : node_ok t n → no_recv o → reply_ok t (do_step c o n).
Proof. intros H Ho. unfold do_step. apply do_then_ok; [done|done|]. intros n' H'. cbn. node_same. Qed.

(** Whatever [main] calls, the node stays well. *)
Lemma cperform_ok {A} t n k (e : cliE A) : node_ok t n → reply_ok t (cperform k e n).
Proof.
  intros H. destruct e; cbn [cperform].
  - cbn. node_same.
  - case_match; [by apply new_conn_ok|done].
  - case_match; [done|by apply new_conn_ok].
  - by apply do_connect_ok.
  - done.
  - by apply do_submit_ok.
  - done.
  - done.
  - cbn. node_same.
  - done.
  - repeat case_match; done.
  - destruct (client_at n c); [|done]. destruct (handle_at n c h); [|done]. destruct (Cancel _ _ _ _); [|done].
    apply do_step_ok; [done|plain_op].
  - by apply do_collect_ok.
  - by apply do_subscribe_ok.
  - apply do_step_ok; [done|plain_op].
  - by apply do_list_ok.
  - destruct (n_wait n); (apply do_then_ok; [done|plain_op|intros; cbn; node_same]).
  - repeat case_match; cbn; node_same.
  - done.
  - cbn. node_same.
  - cbn. node_same.
Qed.

Lemma main_turn_ok t n k : node_ok t n → node_ok t (main_turn k n).
Proof.
  intros H. unfold main_turn. destruct (ITreeDefinition.observe (n_main n)) as [x|u|A e f]; [node_same|node_same|].
  pose proof (cperform_ok t n k e H) as Hr. destruct (cperform k e n) as [n'|a n']; [exact Hr|]. cbn in Hr. node_same.
Qed.

Lemma up_ok t n c p : node_ok t n → node_ok t (up c p n).
Proof.
  intros H. unfold up. destruct (n_conns n !! c) as [x|] eqn:Hx; [|done]. destruct (client_at n c) as [cl|] eqn:Hcl; [|done].
  destruct (c_sent cl !! cn_read x) as [env|]; [|done]. case_match; [|done].
  set (n1 := n <| n_world := world_step (d_handlers d) (n_world n) (WServer (OpRead p env)) |>).
  assert (node_ok t n1) as H1 by by apply (node_ok_step t n _ (WServer (OpRead p env))).
  eapply (node_ok_put t n1 _ c (mkConn (Some cl) (cn_taken x) (S (cn_read x)))); [exact H1|done|done|].
  destruct (client_at_conn n c cl Hcl) as (x' & Hx' & Ex). rewrite Hx in Hx'. injection Hx' as <-.
  pose proof (no_conns t n1 H1 c x Hx) as Hok. unfold conn_ok in *. by rewrite Ex in Hok.
Qed.

Lemma down_ok t n c : node_ok t n → node_ok t (down c n).
Proof.
  intros H. unfold down. destruct (n_conns n !! c) as [x|] eqn:Hx; [|done]. destruct (client_at n c) as [cl|] eqn:Hcl; [|done].
  destruct (if c_transportClosed cl then None else _) as [env|] eqn:He.
  - destruct (_ && _) eqn:Hu; [|done]. destruct (client_step cl _) as [cl'|] eqn:Hs; [|done].
    eapply (node_ok_put t n _ c (mkConn (Some cl') (S (cn_taken x)) (cn_read x))); [exact H|done|done|].
    destruct (client_at_conn n c cl Hcl) as (x' & Hx' & Ex). rewrite Hx in Hx'. injection Hx' as <-.
    pose proof (no_conns t n H c x Hx) as Hok. unfold conn_ok in *. rewrite Ex in Hok. cbn.
    destruct Hok as (w & Hw & Hk & Hsys). rewrite Hw in He. destruct (c_transportClosed cl); [done|]. cbn in He.
    apply andb_true_iff in Hu as [Hu1 Hu2]. pose proof (lookup_lt_Some _ _ _ He) as Hlt.
    exists w. split_and!; [done|lia|]. eapply (sys_recv SRight (mkTape w (cn_taken x)) TTake); [exact Hsys| | | |exact Hs].
    + unfold t_step, tape_transport, tape_step. cbn [tp_taken tp_written]. by rewrite (proj2 (Nat.ltb_lt _ _) Hlt).
    + cbn. by rewrite (take_S_r _ _ _ He).
    + unfold in_u64. lia.
  - destruct (c_transportClosed cl || _); [|done]. destruct (client_do c _ n) as [n'|] eqn:Hd; [|done]. eapply client_do_ok; [exact H| |exact Hd]. plain_op.
Qed.

Lemma consume_ok t n i : node_ok t n → node_ok t (consume i n).
Proof.
  intros H. unfold consume. destruct (n_consumers n !! i) as [x|]; [|done].
  destruct (match k_source x with FromJob _ => _ | FromSub _ => _ end) as [[evs closed_] o] eqn:Ho.
  destruct evs as [|ev evs]; [destruct (closed_ && _); [node_same|done]|]. destruct (client_do (k_conn x) o n) as [n'|] eqn:Hd; [|done].
  assert (no_recv o) as Hno by (destruct (k_source x), (client_at n (k_conn x)); simplify_eq; plain_op).
  pose proof (client_do_ok t n _ _ n' H Hno Hd). node_same.
Qed.

Lemma node_step_ok t n o : node_ok t n → node_ok t (node_step n o).
Proof.
  intros H. destruct o as [o|c p|c|c o|i|k]; cbn [node_step].
  - case_match; [by apply (node_ok_step t n _ o)|done].
  - by apply up_ok.
  - case_match; [done|by apply down_ok].
  - case_match; [done|]. case_match; [|done]. destruct (client_do c o n) as [n'|] eqn:Hd; [|done].
    eapply client_do_ok; [exact H| |exact Hd]. by destruct o.
  - case_match; [done|by apply consume_ok].
  - case_match; [done|by apply main_turn_ok].
Qed.

Lemma node_reach_ok t main n : node_reach t main n → node_ok t n.
Proof.
  induction 1 as [|n o _ IH]; [|by apply node_step_ok]. unfold node_init.
  split; cbn [n_world n_conns]; [apply boot_reach|]. intros c x. by rewrite lookup_empty.
Qed.

End deploy.
