(* ===== verification/ExampleClients.v ===== *)
(** * The clients of the examples and recipes

    Models the client programs under examples/ and recipes/ as programs of the
    file Deploy, and plays each of them against its server: what the pair
    prints and how the client ends. *)

From S2P Require Import Prelude GoStrings Errors Features Float64 Lease Canonical LeaseState Messages EventLog IdStore Agents ServerState Delivery Stream Job ListJobs Session Runtime Scenarios Programs NetHTTP Auth Credentials Json JsonText Codec Wire Examples Transport Client ClientScenarios Deploy.
From ITree Require ITree.
From Stdlib Require Import ZArith Ascii Lia.
Import ITreeDefinition (itree(..), itreeF(..)).

(** ** Idioms *)

(** [demo.Must], and the [must] of the recipes. *)
Definition demo_Must (err : option error) (k : client_program exit) : client_program exit :=
  match err with Some e => mret (Fatal (mkLine "" [PErr (Some e)])) | None => k end.

(** A call with a value and an error, then [Must]. *)
Definition must {A} (r : res A) (k : A → client_program exit) : client_program exit :=
  match r with Ok a => k a | Err e => demo_Must (Some e) (mret Returned) end.

(** [defer cli.Close(ctx)]: not when [log.Fatal] ends the process. *)
Definition defer_close (c : nat) (body : client_program exit) : client_program exit :=
  x ← body;
  match x with
  | Returned => ccall (CClose c);; mret Returned
  | Fatal l => mret (Fatal l)
  end.

(** The calls every client begins with: the context, the dial, [Connect] and
    the deferred [Close]. *)
Definition connect_ws (addr : string) (o : ClientOptions) (k : nat → client_program exit) : client_program exit :=
  t ← ccall (CDial addr);
  must t (λ t,
  c ← ccall (CConnect t o);
  must c (λ c, defer_close c (k c))).

Definition with_client (timeout : Duration) (addr : string) (o : ClientOptions) (k : nat → client_program exit) :
    client_program exit :=
  ccall (CTimeout timeout);; connect_ws addr o k.

(** [client.Options{}], and with a token. *)
Definition no_options : ClientOptions := mkClientOptions "" "" "" [] 0 0 0 None false 0.
Definition token_options (token : string) : ClientOptions := no_options <| co_Token := token |>.

(** [client.SubmitRequest{Agent: name}]; a nil input marshals to null. *)
Definition request (agent : string) : SubmitRequest := mkSubmitRequest agent ∅ None "" 0 "".
Definition request_lease (agent : string) (l : Lease) : SubmitRequest := mkSubmitRequest agent l None "" 0 "".
Definition no_input : res string := Ok "null".

Definition submit (c : nat) (input : res string) (q : SubmitRequest) (k : nat → client_program exit) : client_program exit :=
  h ← ccall (CSubmit c input q); must h k.

(** [res, err := h.Wait(ctx)], then [Must]. *)
Definition wait_result (c h : nat) (k : string → client_program exit) : client_program exit :=
  r ← ccall (CWait c h);
  demo_Must r.2 (k (from_option jr_Output "" r.1)).

Definition print (format : string) (args : list arg) : client_program () := ccall (CPrint (mkLine format args)).

(** [errors.Is] on an error that may be nil. *)
Definition is_error (err : option error) (target : Error_ error) : bool :=
  match err with Some e => errors_Is e (EArcp target) | None => false end.

Definition expected (what : string) (err : option error) : client_program exit :=
  mret (Fatal (mkLine ("expected " +:+ what +:+ ", got %v") [PErr err])).

(** ** Clients of the examples *)

Definition ack_backpressure_client (env : string) : client_program exit :=
  with_client (15 * second)%Z (demo_Addr env 7821) (no_options <| co_AutoAckWindow := 32%Z |>) (λ c,
  submit c no_input (request "chatty") (λ h,
  k ← ccall (CGo c (FromJob h) (λ _, []) []);
  wait_result c h (λ _,
  count ← ccall (CCount k);
  print "received %d events" [PInt count];;
  mret Returned))).

Definition agent_versions_client (env : string) : client_program exit :=
  with_client (15 * second)%Z (demo_Addr env 7824) no_options (λ c,
  submit c no_input (request "code-refactor") (λ h1,
  wait_result c h1 (λ out1,
  print "bare → " [PStr out1];;
  submit c no_input (request "code-refactor@1.0.0") (λ h2,
  wait_result c h2 (λ out2,
  print "@1.0.0 → " [PStr out2];;
  r ← ccall (CSubmit c no_input (request "code-refactor@3.0.0"));
  let err := match r with Ok _ => None | Err e => Some e end in
  if negb (is_error err ErrAgentVersionNotAvailable) then expected "AGENT_VERSION_NOT_AVAILABLE" err
  else
    print "@3.0.0 → AGENT_VERSION_NOT_AVAILABLE (as expected)" [];;
    mret Returned))))).

Definition cancel_client (env : string) : client_program exit :=
  with_client (10 * second)%Z (demo_Addr env 7816) no_options (λ c,
  submit c no_input (request "long") (λ h,
  ccall (CSleep (500 * millisecond)%Z);;
  err ← ccall (CCancel c h "user requested");
  demo_Must err (
  r ← ccall (CWait c h);
  if negb (is_error r.2 ErrCancelled) then expected "CANCELLED" r.2
  else print "cancelled as expected" [];; mret Returned))).

Definition chi_routes_client (env : string) : client_program exit :=
  with_client (10 * second)%Z (demo_Addr env 7831) no_options (λ c,
  submit c (json_map string_codec "k" "v") (request "echo") (λ h,
  wait_result c h (λ out, print "result:" [PStr out];; mret Returned))).

Definition print_metric (format : string) (dims : bool) (ev : JobEvent) : list line :=
  match ev_Body ev with
  | BMetric m =>
      if bool_decide (ev_Kind ev = KindMetric)
      then [mkLine format ([PStr (mb_Name m); PFloat (mb_Value m); PStr (mb_Unit m)] ++ if dims then [PMap (mb_Dimensions m)] else [])]
      else []
  | _ => []
  end.

Definition cost_budget_client (env : string) : client_program exit :=
  with_client (15 * second)%Z (demo_Addr env 7826) no_options (λ c,
  submit c no_input (request_lease "researcher" (<[CapToolCall := ["search.*"]]> {[ CapCostBudget := ["USD:1.00"] ]})) (λ h,
  ccall (CGo c (FromJob h) (print_metric "metric %s=%.2f %s" false) []);;
  wait_result c h (λ out, print "result:" [PStr out];; mret Returned))).

Definition custom_auth_client (env : string) : client_program exit :=
  ccall (CTimeout (10 * second)%Z);;
  t1 ← ccall (CDial (demo_Addr env 7819));
  must t1 (λ t1,
  r ← ccall (CConnect t1 (token_options "wrong"));
  let err := match r with Ok _ => None | Err e => Some e end in
  if negb (is_error err ErrUnauthenticated) then expected "UNAUTHENTICATED" err
  else
    print "bad token rejected" [];;
    connect_ws (demo_Addr env 7819) (token_options "sk-demo") (λ c,
    submit c no_input (request "ping") (λ h,
    wait_result c h (λ _, print "ok" [];; mret Returned)))).

Definition heartbeat_client (env : string) : client_program exit :=
  with_client (10 * second)%Z (demo_Addr env 7820) no_options (λ c,
  w ← ccall (CWelcome c);
  print "welcome heartbeat_interval_sec=%d" [PInt (from_option sw_HeartbeatIntervalSec 0%Z w)];;
  submit c no_input (request "idle") (λ h,
  wait_result c h (λ _, print "done" [];; mret Returned))).

Definition idempotent_retry_client (env : string) : client_program exit :=
  let keyed := mkSubmitRequest "echo" ∅ None "demo-1" 0 "" in
  with_client (10 * second)%Z (demo_Addr env 7814) no_options (λ c,
  submit c no_input keyed (λ h1,
  r ← ccall (CSubmit c no_input keyed);
  let err := match r with Ok _ => None | Err e => Some e end in
  if negb (is_error err ErrDuplicateKey) then expected "DUPLICATE_KEY" err
  else
    id ← ccall (CJobID c h1);
    print "duplicate key rejected; first job:" [PStr id];;
    mret Returned)).

(** [time.Now().Add(2 * time.Second)], in the local zone. *)
Definition lease_expires_at_client (env : string) : client_program exit :=
  with_client (10 * second)%Z (demo_Addr env 7825) no_options (λ c,
  now_ ← ccall CNow;
  let exp := mkZoned (zt_instant now_ + 2 * second)%Z (zt_offset now_) in
  submit c no_input
    (mkSubmitRequest "slow-job" {[ CapFSRead := ["/data/**"] ]} (Some (mkConstraints (Some exp))) "" 0 "") (λ h,
  r ← ccall (CWait c h);
  match r.2 with
  | None => mret (Fatal (mkLine "expected LEASE_EXPIRED, got nil" []))
  | Some _ =>
      if negb (is_error r.2 ErrLeaseExpired) then expected "LEASE_EXPIRED" r.2
      else print "lease expired as expected" [];; mret Returned
  end)).

Definition print_tool_error (ev : JobEvent) : list line :=
  match ev_Body ev with
  | BToolResult b =>
      if bool_decide (ev_Kind ev = KindToolResult) then
        match tr_Error b with
        | Some e => [mkLine "tool_result error: %s — %s" [PStr (te_Code e); PStr (te_Message e)]]
        | None => []
        end
      else []
  | _ => []
  end.

Definition lease_violation_client (env : string) : client_program exit :=
  with_client (10 * second)%Z (demo_Addr env 7815) no_options (λ c,
  submit c no_input (request_lease "rogue" {[ CapFSRead := ["/safe/**"] ]}) (λ h,
  ccall (CGo c (FromJob h) print_tool_error []);;
  wait_result c h (λ _, mret Returned))).

(** The loop of the submissions, and the loop over the pages. *)
Fixpoint submit_times (c : nat) (n : nat) (k : client_program exit) : client_program exit :=
  match n with
  | 0 => k
  | S n => submit c no_input (request "idle") (λ _, submit_times c n k)
  end.

Definition active_filter : ListJobsFilter := mkFilter [StatusRunning; StatusPending] "" None None.

Definition list_pages (c : nat) (first : JobList) : client_program exit :=
  ITreeDefinition.ITree.iter (λ cursor : string,
    if negb (bool_decide (cursor = "")) then
      r ← ccall (CListJobs c (mkListJobs active_filter 2 cursor));
      match r with
      | Err e => mret (inr (Fatal (mkLine "" [PErr (Some e)])))
      | Ok resp =>
          print "page: %d jobs, next=%q" [PInt (Z.of_nat (length (jl_Jobs resp))); PStr (jl_NextCursor resp)];;
          mret (inl (jl_NextCursor resp))
      end
    else mret (inr Returned)) (jl_NextCursor first).

Definition list_jobs_client (env : string) : client_program exit :=
  with_client (10 * second)%Z (demo_Addr env 7822) no_options (λ c,
  submit_times c 5 (
  r ← ccall (CListJobs c (mkListJobs active_filter 2 ""));
  must r (λ resp,
  print "page 1: %d jobs, next=%q" [PInt (Z.of_nat (length (jl_Jobs resp))); PStr (jl_NextCursor resp)];;
  list_pages c resp))).

Definition nethttp_routes_client (env : string) : client_program exit :=
  with_client (10 * second)%Z (demo_Addr env 7830) no_options (λ c,
  submit c (json_map string_codec "hi" "there") (request "echo") (λ h,
  wait_result c h (λ out, print "result:" [PStr out];; mret Returned))).

(** [bar] on [uint64]s, with the conversion to [int]. *)
Definition bar (cur total : Z) : string :=
  if (total =? 0)%Z then ""
  else
    let n := wrap_i64 (wrap_u64 (20 * cur) / total) in
    let n := if (20 <? n)%Z then 20%Z else n in
    Repeat "#" (Z.to_nat n).

Definition print_progress (ev : JobEvent) : list line :=
  if negb (bool_decide (ev_Kind ev = KindProgress)) then []
  else match ev_Body ev with
       | BProgress p =>
           [mkLine "[%-20s] %d/%d %s" [PStr (bar (pb_Current p) (pb_Total p)); PInt (pb_Current p); PInt (pb_Total p); PStr (pb_Units p)]]
       | _ => [mkLine "[%-20s] %d/%d %s" [PStr (bar 0 0); PInt 0; PInt 0; PStr ""]]
       end.

Definition progress_client (env : string) : client_program exit :=
  with_client (10 * second)%Z (demo_Addr env 7827) no_options (λ c,
  submit c no_input (request "indexer") (λ h,
  ccall (CGo c (FromJob h) print_progress [mkLine "" []]);;
  wait_result c h (λ _, mret Returned))).

(** The loop over the credentials of the acceptance. *)
Fixpoint print_credentials (creds : list Credential) : client_program () :=
  match creds with
  | [] => mret ()
  | cr :: creds =>
      print "credential id=%s scheme=%s endpoint=%s" [PStr (cr_ID cr); PStr (cr_Scheme cr); PStr (cr_Endpoint cr)];;
      print_credentials creds
  end.

(** [time.Now().Add(5 * time.Minute).UTC()]. *)
Definition provisioned_credentials_client (env : string) : client_program exit :=
  with_client (15 * second)%Z (demo_Addr env 7836) no_options (λ c,
  now_ ← ccall CNow;
  let exp := mkZoned (zt_instant now_ + 5 * minute)%Z 0 in
  submit c no_input
    (mkSubmitRequest "chat" (<[CapModelUse := ["tier-fast/*"]]> {[ CapCostBudget := ["USD:1.00"] ]})
       (Some (mkConstraints (Some exp))) "" 0 "") (λ h,
  acc ← ccall (CAccepted c h);
  print_credentials (from_option ja_Credentials [] acc);;
  wait_result c h (λ out, print "result:" [PStr out];; mret Returned))).

Definition result_chunk_client (env : string) : client_program exit :=
  with_client (10 * second)%Z (demo_Addr env 7828) no_options (λ c,
  submit c no_input (request "report") (λ h,
  r ← ccall (CCollect c h);
  must r (λ bytes, print "assembled %d bytes" [PInt (Z.of_nat (len bytes))];; mret Returned))).

(** [exec.CommandContext] with the pipes of the child as a stdio transport. *)
Definition stdio_client : client_program exit :=
  ccall (CTimeout (15 * second)%Z);;
  t ← ccall (CStart ["go"; "run"; "./examples/stdio/agent"]);
  must t (λ t,
  c ← ccall (CConnect t no_options);
  must c (λ c, defer_close c (
  submit c (json_map string_codec "hi" "stdio") (request "echo") (λ h,
  wait_result c h (λ out, print "result:" [PStr out];; mret Returned))))).

Definition submit_and_stream_client (env : string) : client_program exit :=
  with_client (10 * second)%Z (demo_Addr env 7811) (token_options "demo") (λ c,
  submit c (json_map int_codec "n" 5%Z) (request "counter") (λ h,
  ccall (CGo c (FromJob h) (λ ev, [mkLine "event:" [PStr (ev_Kind ev); PBody (ev_Body ev)]]) []);;
  wait_result c h (λ out, print "result:" [PStr out];; mret Returned))).

Definition subscribe_client (env : string) : client_program exit :=
  with_client (15 * second)%Z (demo_Addr env 7823) (token_options "alice") (λ cA,
  submit cA no_input (request "ticker") (λ h,
  connect_ws (demo_Addr env 7823) (token_options "alice" <| co_ClientName := "arcp-go-client" |>) (λ cB,
  id ← ccall (CJobID cA h);
  s ← ccall (CSubscribe cB id 0 true);
  must s (λ s,
  ccall (CGo cB (FromSub s) (λ ev, [mkLine "observer:" [PStr (ev_Kind ev)]]) []);;
  wait_result cA h (λ _,
  ccall (CSubClose cB s);;
  mret Returned))))).

(** [arcpotel.WrapTransport] changes only the extensions of the envelopes. *)
Definition tracing_client (env : string) : client_program exit :=
  with_client (10 * second)%Z (demo_Addr env 7829) no_options (λ c,
  trace_ ← ccall CTraceID;
  submit c no_input (mkSubmitRequest "echo" ∅ None "" 0 trace_) (λ h,
  wait_result c h (λ out, print "result:" [PStr out];; mret Returned))).

Definition vendor_extensions_client (env : string) : client_program exit :=
  with_client (10 * second)%Z (demo_Addr env 7818) no_options (λ c,
  submit c no_input (request "vendor") (λ h,
  ccall (CGo c (FromJob h) (print_metric "metric %s=%v %s dims=%v" true) []);;
  wait_result c h (λ _, mret Returned))).

(** ** Clients of the recipes *)

Definition email_vendor_leases_client : client_program exit :=
  with_client (15 * second)%Z "ws://127.0.0.1:7841/arcp" no_options (λ c,
  submit c no_input (request_lease "mailer" {[ "x-vendor.acme.email.send" := ["tenant-a/*"] ]}) (λ h,
  wait_result c h (λ out, print "" [PStr out];; mret Returned))).

Definition multi_agent_budget_client : client_program exit :=
  with_client (15 * second)%Z "ws://127.0.0.1:7842/arcp" no_options (λ c,
  submit c no_input (request_lease "planner" (<[CapToolCall := ["plan"]]> {[ CapCostBudget := ["USD:1.00"] ]})) (λ h,
  wait_result c h (λ out, print "" [PStr out];; mret Returned))).

Definition stream_resume_client : client_program exit :=
  with_client (15 * second)%Z "ws://127.0.0.1:7843/arcp" no_options (λ c,
  submit c no_input (request "streamer") (λ h,
  chunks ← ccall (CCollect c h);
  must chunks (λ chunks,
  r ← ccall (CWait c h);
  demo_Must r.2 (print "" [PStr chunks];; mret Returned)))).

(** ** Playing a pair

    A round lets every goroutine that can go on do so, in a fixed order, and
    then advances the clock. *)

Definition session_round (n : node) (p : nat) : list node_op :=
  [NWorld (WServer (OpRegister p)); NWorld (WServer (OpCurrent p)); NWorld (WServer (OpReplay p)); NWorld (WServer (OpPing p))] ++
  replicate 4 (NWorld (WServer (OpWrite p))) ++ replicate 2 (NUp (s_transport (sess (n_srv n) p)) p).

Definition job_round (j : nat) : list node_op :=
  [NWorld (WStart j); NWorld (WTurn j true); NWorld (WTurn j false); NWorld (WTurn j false);
   NWorld (WServer (OpTimers j)); NWorld (WServer (OpExpire j)); NWorld (WServer (OpTimeout j))].

Definition conn_round (c : nat) : list node_op :=
  let recv := [NDown c; NClient c (ORlSelect CaseChan); NClient c (ORlSelect CaseChan); NClient c ORlAck; NClient c (OAckSend 0 "ack" None)] in
  recv ++ recv ++ recv ++ [NClient c OTickStop].

Definition round_ops (quantum : Duration) (n : node) : list node_op :=
  concat (session_round n <$> elements (dom (hsess (n_srv n)))) ++
  concat (job_round <$> elements (dom (hjob (n_srv n)))) ++
  concat (conn_round <$> elements (dom (n_conns n))) ++
  concat ((λ i, replicate 2 (NConsume i)) <$> seq 0 (length (n_consumers n))) ++
  [NMain CaseChan; NMain CaseDone; NMain CaseCtx; NWorld (WServer (OpAdvance quantum))].

Fixpoint play_rounds (d : deployment) (zone : Z) (quantum : Duration) (rounds : nat) (n : node) : node :=
  match rounds with
  | 0 => n
  | S rounds =>
      match n_exit n with
      | Some _ => n
      | None => play_rounds d zone quantum rounds (fold_left (node_step d zone) (round_ops quantum n) n)
      end
  end.

(** What a client prints against a server, and how it ends. *)
Definition play (d : deployment) (zone : Z) (quantum : Duration) (rounds : nat) (main : client_program exit) :
    list line * option exit :=
  let n := play_rounds d zone quantum rounds (node_init d 1000 main) in (n_out n, n_exit n).
