(* ===== verification/ExampleRuns.v ===== *)
(** * Runs of the examples and recipes

    What holds of the programs of the files Examples and ExampleClients: a
    client of the examples dials the address its server listens on, every agent
    body but that of lease-expires-at returns, and what each pair prints when
    it is played.  The witnesses of the claims of the files Programs and Deploy
    are states of these runs. *)

From S2P Require Import Prelude GoStrings Decimal Errors Features Float64 Lease Canonical LeaseState Messages EventLog IdStore Agents ServerState Delivery Stream Job ListJobs Session Runtime Scenarios Invariant JobLife Safety ServerWire Protocol Programs NetHTTP Auth Credentials Json JsonText Codec Wire Examples Transport Client ClientScenarios ClientInv ClientRegistry ClientDelivery ClientLossless EndToEnd Served Deploy ExampleClients.
From ITree Require ITree.
From Stdlib Require Import ZArith Ascii Lia.
Import ITreeDefinition (itree(..), itreeF(..)).

(** ** The address *)

Lemma token_value_range neg p base ds v : token_value neg p base ds = Some v → in_i64 v.
Proof.
  unfold token_value. cbv zeta. case_match; [done|]. case_match; [done|].
  destruct (((- 2 ^ 63 <=? _) && _)%Z) eqn:Hr; [|done]. intros [= <-]. unfold in_i64. apply andb_true_iff in Hr. lia.
Qed.

Lemma demo_port_range v port : (0 < port < 2 ^ 63)%Z → (0 < demo_port v port < 2 ^ 63)%Z.
Proof.
  intros Hp. unfold demo_port. case_match; [|done]. destruct (Sscan_int v) as [p|] eqn:Hs; [|done].
  assert (in_i64 p) as Hr by (revert Hs; unfold Sscan_int; repeat case_match; apply token_value_range).
  unfold in_i64 in Hr. destruct (Z.ltb_spec 0 p); [lia|done].
Qed.

(** The digits of a port are plain, and none is a slash. *)
Lemma digits_all f s : (∀ c, is_digit c = true → f c = true) → sforallb is_digit s = true → sforallb f s = true.
Proof.
  intros Hf. induction s as [|c s IH]; [done|]. cbn. intros [Hc Hs]%andb_true_iff. by rewrite Hf, IH.
Qed.

Definition no_slash (c : ascii) : bool := negb (bool_decide (c = "/"%char)).

Lemma digit_plain c : is_digit c = true → plain c = true.
Proof. by destruct c as [[] [] [] [] [] [] [] []]. Qed.
Lemma digit_no_slash c : is_digit c = true → no_slash c = true.
Proof. by destruct c as [[] [] [] [] [] [] [] []]. Qed.

Lemma Itoa_digits p : (0 < p < 2 ^ 63)%Z → sforallb is_digit (Itoa p) = true ∧ ParseInt (Itoa p) = Some p.
Proof.
  intros Hp. split; [|apply ParseInt_FormatInt; unfold in_i64; lia].
  unfold Itoa, FormatInt. destruct (Z.ltb_spec p 0); [lia|]. apply parse_format. lia.
Qed.

(** The parts of the URL that [demo.Addr] gives. *)
Lemma demo_target p : (0 < p < 2 ^ 63)%Z →
  ws_target ("ws://127.0.0.1:" +:+ Itoa p +:+ "/arcp") = Some ("127.0.0.1:" +:+ Itoa p, "/arcp").
Proof.
  intros Hp. destruct (Itoa_digits p Hp) as [Hd _]. unfold ws_target.
  change ("ws://127.0.0.1:" +:+ Itoa p +:+ "/arcp") with ("ws://" +:+ ("127.0.0.1:" +:+ Itoa p +:+ "/arcp")).
  rewrite HasPrefix_app. change 5 with (len "ws://"). rewrite sdrop_app, <-sapp_assoc.
  rewrite (IndexByte_first no_slash); [by rewrite stake_app, sdrop_app| |done].
  rewrite sforallb_app, (digits_all no_slash (Itoa p) digit_no_slash Hd). done.
Qed.

(** A dial to a port of this machine, at the path of the handler. *)
Lemma dials_demo routes h p q :
  (0 < p < 2 ^ 63)%Z → find_route routes "GET" "/arcp" = Some (RArcp h) →
  (∀ host, hostAllowed host (ho_AllowedHosts (hd_opts h)) = true → serve_guards (hd_opts h) (hd_closing h) (mkRequest "GET" "/arcp" host) = None) →
  "127.0.0.1" ∈ ho_AllowedHosts (hd_opts h) →
  dials (LHttp (":" +:+ Itoa q) routes) ("ws://127.0.0.1:" +:+ Itoa p +:+ "/arcp") =
  bool_decide (Itoa q = Itoa p) && (p <=? 65535)%Z.
Proof.
  intros Hp Hr Hg Hh. destruct (Itoa_digits p Hp) as [Hd Hv]. unfold dials. rewrite demo_target by done.
  assert (SplitHostPort ("127.0.0.1:" +:+ Itoa p) = Some ("127.0.0.1", Itoa p)) as Hs
    by exact (SplitHostPort_port "127.0.0.1" (Itoa p) eq_refl (digits_all plain _ digit_plain Hd)).
  rewrite Hs, Hr. unfold tcp_port. rewrite Hv. replace (0 <=? p)%Z with true by lia. rewrite Hg.
  - rewrite (bool_decide_true (@None Z = None)) by done. rewrite andb_true_r. f_equal. apply bool_decide_ext.
    split; [apply sapp_inj_l|congruence].
  - unfold hostAllowed. rewrite Hs. apply existsb_exists. exists "127.0.0.1". split; [by apply list_elem_of_In|done].
Qed.

(** The handler of every example takes a request from this machine. *)
Definition demo_handler : Handler := NewHandler (mkHandlerOptions "" [] 0 0).

Lemma demo_handler_serves host :
  hostAllowed host (ho_AllowedHosts (hd_opts demo_handler)) = true →
  serve_guards (hd_opts demo_handler) (hd_closing demo_handler) (mkRequest "GET" "/arcp" host) = None.
Proof. intros H. unfold serve_guards. cbn [rq_Host]. by rewrite H. Qed.

Lemma demo_handler_local : "127.0.0.1" ∈ ho_AllowedHosts (hd_opts demo_handler).
Proof. vm_compute. by right; left. Qed.

(** A client of the examples reaches its server.  Whatever ARCP_DEMO_PORT
    holds, the client and the server read the same port from it, and the dial
    to [demo.Addr] gets through the listener at [demo.Listen], the route and
    the guards of the handler exactly when that port is at most 65535, for the
    plain mux, the mux of nethttp-routes and the router of chi-routes. *)
Theorem client_reaches_server (v agent : string) (port : Z) (o : Options) (body : agent_body) :
  (0 < port < 2 ^ 63)%Z →
  dials (d_listener (serve_one o agent body v port)) (demo_Addr v port) = (demo_port v port <=? 65535)%Z ∧
  dials (d_listener (nethttp_routes_main v)) (demo_Addr v 7830) = (demo_port v 7830 <=? 65535)%Z ∧
  dials (d_listener (chi_routes_main v)) (demo_Addr v 7831) = (demo_port v 7831 <=? 65535)%Z.
Proof.
  intros Hp. split_and!; (eapply eq_trans; [apply (dials_demo _ demo_handler); [apply demo_port_range; lia|vm_compute; reflexivity|exact demo_handler_serves|exact demo_handler_local]|]);
    by rewrite bool_decide_true.
Qed.

Lemma client_reaches_server_witness :
  dials (d_listener (submit_and_stream_main "8080")) (demo_Addr "8080" 7811) = true ∧
  dials (d_listener (submit_and_stream_main "70000")) (demo_Addr "70000" 7811) = false.
Proof.
  split.
  - exact (proj1 (client_reaches_server "8080" "counter" 7811 (named "submit-and-stream") counter_agent (conj eq_refl eq_refl))).
  - exact (proj1 (client_reaches_server "70000" "counter" 7811 (named "submit-and-stream") counter_agent (conj eq_refl eq_refl))).
Defined.

(** ** Bodies that return *)

(** Every agent of the examples and recipes but slow-job, which waits on a
    ticker until its lease expires. *)
Definition example_agents : list agent_body :=
  [counter_agent; researcher_agent; rogue_agent; chat_agent; ticker_agent; report_agent; indexer_agent; long_agent;
   heartbeat_idle_agent; list_idle_agent; code_refactor_v1_agent; code_refactor_v2_agent; ping_agent; chatty_agent;
   tracing_echo_agent; echo_agent; vendor_agent; mailer_agent; skill_research_agent; planner_agent; streamer_agent].

Definition max_int : Z := (2 ^ 63 - 1)%Z.

(** A loop and what follows it. *)
Lemma bounded_then {A R} n m (t : program A) (k : A → program R) :
  bounded n t → (∀ a, bounded m (k a)) → bounded (n + m) (t ≫= k).
Proof. intros Ht Hk. apply obeys_bind. eapply obeys_mono; [exact Ht|done|]. intros [] a _. apply Hk. Qed.

Lemma bounded_ret {R} (r : R) : bounded 1 (mret r).
Proof. done. Qed.

Lemma bounded_count {R} (body : Z → program (Z + R)) c lo hi :
  (∀ i, (lo <= i)%Z → obeys untimed c () (body i) (λ _ r, match r with inl i' => (i < i' <= hi + 1)%Z | inr _ => True end)) →
  bounded ((c + 2) * S (Z.to_nat (hi + 1 - lo))) (loop body lo).
Proof. intros Hb. apply (obeys_count untimed body c lo); [|done]. intros i [] Hi. by apply Hb. Qed.

Lemma counter_bounded input : (counter_N input < max_int)%Z → ∃ n, bounded n (counter_agent input).
Proof.
  unfold max_int. intros HN. unfold counter_agent. cbv zeta. set (N := if (_ =? 0)%Z then 5%Z else _).
  assert (N < 2 ^ 63 - 1)%Z as HN' by (unfold N; case_match; lia). clearbody N. clear HN.
  eexists. eapply bounded_then; [|intros; apply bounded_ret]. apply (bounded_count _ 6 1 N). intros i Hi.
  destruct (Z.leb_spec i N); obey. rewrite wrap_i64_small; unfold in_i64; lia.
Qed.

Lemma example_bounded body input : body ∈ example_agents → (counter_N input < max_int)%Z → ∃ n, bounded n (body input).
Proof.
  intros Hb HN. unfold example_agents in Hb. rewrite !elem_of_cons in Hb. unfold bounded.
  repeat destruct Hb as [->|Hb]; [by apply counter_bounded|..|by apply elem_of_nil in Hb].
  all: try (exists 20; unfold rogue_agent, chat_agent, long_agent, mailer_agent, skill_research_agent, planner_agent, streamer_agent,
              heartbeat_idle_agent, list_idle_agent, vendor_agent, tracing_echo_agent; by obey).
  - eexists. apply (bounded_count _ 7 0 2). intros i Hi. obey; try done; lia.
  - eexists. apply (bounded_count _ 7 1 5). intros i Hi. obey; try done; lia.
  - exists (1 + (5 * S (Z.to_nat (4 + 1 - 0)) + 3)). unfold report_agent. apply obeys_step; [done|]. intros [err|]; [by obey|].
    apply (bounded_then _ 3); [|intros; by obey]. apply (bounded_count _ 3 0 4). intros i Hi. obey; try done; lia.
  - eexists. eapply (bounded_then _ 1); [|intros; apply bounded_ret]. apply (bounded_count _ 6 1 10). intros i Hi.
    destruct (Z.leb_spec i 10); obey. unfold wrap_u64, two64. rewrite Z.mod_small; lia.
  - eexists. eapply (bounded_then _ 1); [|intros; apply bounded_ret]. apply (bounded_count _ 6 0 199). intros i Hi. obey; try done; lia.
Qed.

Section return_.
Context {RT : Runtime}.

(** A handler number outside the registrations stands for no body. *)
Lemma deployed_bounded d y :
  Forall (λ body, body ∈ example_agents) (d_bodies d) → (counter_N (j_input y) < max_int)%Z →
  ∃ n, bounded n (body_of (d_handlers d) y).
Proof.
  intros Hd HN. unfold body_of. destruct (j_fn y) as [f|]; [|by exists 1]. unfold d_handlers.
  destruct (nth_in_or_default f (d_bodies d) (λ _, mret APanic)) as [Hin| ->]; [|by exists 1].
  apply example_bounded; [|done]. rewrite Forall_forall in Hd. by apply Hd, list_elem_of_In.
Qed.

End return_.

(** ** States of the runs *)

Lemma fold_reach d zone t main ops n : node_reach d zone t main n → node_reach d zone t main (fold_left (node_step d zone) ops n).
Proof. revert n. induction ops as [|o ops IH]; intros n Hn; [done|]. cbn. apply IH. by constructor. Qed.

Lemma play_reach d zone quantum rounds t main n :
  node_reach d zone t main n → node_reach d zone t main (play_rounds d zone quantum rounds n).
Proof.
  revert n. induction rounds as [|r IH]; intros n Hn; [done|]. cbn. destruct (n_exit n); [done|]. apply IH. by apply fold_reach.
Qed.

(** The node after some rounds. *)
Definition after_rounds (d : deployment) (rounds : nat) (main : client_program exit) : node :=
  play_rounds d 0 (10 * millisecond)%Z rounds (node_init d 1000 main).

Lemma after_reach d rounds main : node_reach d 0 1000 main (after_rounds d rounds main).
Proof. apply play_reach. constructor. Qed.

Lemma after_world d rounds main : world_reach (d_handlers d) (d_options d) 1000 (n_world (after_rounds d rounds main)).
Proof. eapply no_world, node_reach_ok, after_reach. Qed.

Definition streaming : node := after_rounds (submit_and_stream_main "") 20 (submit_and_stream_client "").
Definition indexing : node := after_rounds (progress_main "") 30 (progress_client "").
Definition researching : node := after_rounds (cost_budget_main "") 7 (cost_budget_client "").

(** What evaluation finds at a place of a state. *)
Lemma found {A} (o : option A) (f : A → bool) : from_option f false o = true → ∃ x, o = Some x ∧ f x = true.
Proof. destruct o as [x|]; [by exists x|done]. Qed.



Lemma supervised_calls_granted_witness :
  ∃ y th c, hjob (w_srv (n_world researching)) !! 8 = Some y ∧ w_threads (n_world researching) !! 8 = Some th ∧
    lease_matches (st_lease (j_lease y)) CapToolCall "search.web" = true ∧ th_calls th !! 8 = Some c ∧
    exhausted (j_lease (job (c_at c) 8)) = None.
Proof.
  destruct (found (hjob (w_srv (n_world researching)) !! 8) (λ y, bool_decide (j_fn y = Some 0))) as (y & Hy & Hf%bool_decide_eq_true);
    [vm_compute; reflexivity|].
  destruct (found (w_threads (n_world researching) !! 8) (λ th, from_option (λ c, bool_decide (tool_of (c_event c) = Some "search.web")) false (th_calls th !! 9)))
    as (th & Hth & Hc); [vm_compute; reflexivity|].
  apply found in Hc as (c & Hc & Ht%bool_decide_eq_true).
  destruct (supervised_calls_granted (d_handlers (cost_budget_main "")) (d_options (cost_budget_main "")) 1000 (n_world researching) 8 y th 36 9 c "search.web")
    as (Hl & c' & _ & Hc' & _ & Hx); [apply after_world|exact Hy|exact Hth| |exact Hc|exact Ht|].
  - unfold body_of. rewrite Hf. apply researcher_supervised.
  - exists y, th, c'. by split_and!.
Defined.


(** ** What the pairs print *)

Definition ms : Duration := (10 * millisecond)%Z.
Definition tenth : Duration := (100 * millisecond)%Z.

(** The text of a value. *)
Definition text (r : res string) : string := match r with Ok s => s | Err _ => "" end.
Definition result_line (v : res string) : line := mkLine "result:" [PStr (text v)].
Definition metric_line (name : string) (v : f64) : line := mkLine "metric %s=%.2f %s" [PStr name; PFloat v; PStr "USD"].
Definition progress_line (n : nat) : line :=
  mkLine "[%-20s] %d/%d %s" [PStr (Repeat "##" n); PInt (Z.of_nat n); PInt 10; PStr "files"].

(** The client runs to its end and prints these lines. *)
Definition prints (d : deployment) (quantum : Duration) (rounds : nat) (main : client_program exit) (out : list line) : Prop :=
  play d 0 quantum rounds main = (out, Some Returned).

(** Three searches at 0.42: what is left of 1.00 after each. *)
Definition left1 : f64 := fsub (float_const "1") (float_const "0.42").
Definition left2 : f64 := fsub left1 (float_const "0.42").
Definition left3 : f64 := fsub left2 (float_const "0.42").

Definition echo_of (k v : string) : res string := json_map raw_codec "echo" (text (json_map string_codec k v)).

(** The sizes of the printed pages. *)
Definition page_sizes (r : list line * option exit) : list (option arg) * option exit := ((λ l, ln_args l !! 0) <$> r.1, r.2).


(** ** Findings *)

(** The README of cost-budget says that the third search ends in
    BUDGET_EXHAUSTED; the check is made before the charge, all three searches
    pass and the job ends as done, with a negative budget left. *)
Theorem cost_budget_overdrawn :
  last (play (cost_budget_main "") 0 ms 60 (cost_budget_client "")).1 = Some (result_line (json_map string_codec "status" "done")) ∧
  flt left3 fzero = true.
Proof. split; vm_compute; reflexivity. Qed.

(** The client of lease-expires-at sends its local time; outside UTC the server
    refuses the submission. *)
Theorem lease_expires_at_needs_utc :
  (play (lease_expires_at_main "") 3600 tenth 60 (lease_expires_at_client "")).2 =
  Some (Fatal (mkLine "" [PErr (Some (EArcp (WithMessage ErrInvalidRequest "lease_constraints.expires_at must be UTC (Z suffix)")))])).
Proof. vm_compute. reflexivity. Qed.

(** The client of idempotent-retry waits for its context to end and fails. *)
Theorem idempotent_retry_times_out :
  (play (idempotent_retry_main "") 0 second 60 (idempotent_retry_client "")).2 =
  Some (Fatal (mkLine "expected DUPLICATE_KEY, got %v" [PErr (Some ctx_DeadlineExceeded)])).
Proof. vm_compute. reflexivity. Qed.

(** A schedule that runs no consumer goroutine. *)
Definition not_consume (o : node_op) : bool := match o with NConsume _ => false | _ => true end.

Fixpoint play_unread (d : deployment) (quantum : Duration) (rounds : nat) (n : node) : node :=
  match rounds with
  | 0 => n
  | S rounds => play_unread d quantum rounds (fold_left (node_step d 0) (List.filter not_consume (round_ops quantum n)) n)
  end.

Lemma play_unread_reach d quantum rounds t main n :
  node_reach d 0 t main n → node_reach d 0 t main (play_unread d quantum rounds n).
Proof. revert n. induction rounds as [|r IH]; intros n Hn; [done|]. cbn. by apply IH, fold_reach. Qed.

(** Nothing makes [main] wait for the goroutine that prints: the client of
    vendor-extensions can end without printing its metric. *)
Theorem output_can_be_lost :
  ∃ n, node_reach (vendor_extensions_main "") 0 1000 (vendor_extensions_client "") n ∧ n_exit n = Some Returned ∧ n_out n = [].
Proof.
  eexists. split; [apply (play_unread_reach _ ms 60), node_start|]. split; vm_compute; reflexivity.
Qed.
